(** * The Rex terrain engine's TileNode

    A shallow embedding of [src/osgEarthDrivers/engine_rex/TileNode.cpp]:
    the quadtree node of the Rex terrain engine, its creation and
    subdivision, the inheritance of rendering data from parent to child,
    the cull traversal, the load priority and the dormancy test.

    Conventions.
    - C++ [unsigned] values are [Z]; where the source subtracts two of them
      the wrap-around modulo [2^32] is written out.
    - C++ [float] and [double] values are taken from a numeric model
      ([NumModel]); the functions are written once, over any model, and
      the model of the program is IEEE-754 binary32/binary64 ([IEEE]),
      rounding to nearest even.
    - A [ref_ptr] is an [option]; dereferencing a null pointer is a failed
      run ([None] in the [Op] monad).
    - Calls into collaborators (surface node, loader, live-tile registry,
      terrain callbacks, log) are recorded as a list of [Event]s. *)

From Stdlib Require Import ZArith QArith Qpower Lia Lqa Bool List.
From Stdlib Require Import SpecFloat.
From stdpp Require Import base gmap list.
Import ListNotations.

Local Open Scope Z_scope.

(* ===================================================================== *)
(** ** Numeric models *)
(* ===================================================================== *)

(** The arithmetic the source performs on [float] and [double] values. *)
Record NumModel : Type := {
  float : Type;
  double : Type;
  f_zero : float;
  f_half : float;
  f_one : float;
  f_add : float -> float -> float;
  f_mul : float -> float -> float;
  f_eqb : float -> float -> bool;
  f_ltb : float -> float -> bool;
  f_of_int : Z -> float;
  f_of_double : double -> float;
  d_of_float : float -> double;
  d_zero : double;
  d_one : double;
  d_sub : double -> double -> double;
  d_div : double -> double -> double;
  d_ltb : double -> double -> bool;
  d_leb : double -> double -> bool
}.

(** *** IEEE-754 *)

Module Binary.

Definition prec32 : Z := 24.
Definition emax32 : Z := 128.
Definition prec64 : Z := 53.
Definition emax64 : Z := 1024.

(** Rounding of a finite value to a format (round to nearest even);
    zeros, infinities and NaN are carried over. *)
Definition convert (prec emax : Z) (x : spec_float) : spec_float :=
  match x with
  | S754_finite s m e => binary_normalize prec emax (cond_Zopp s (Zpos m)) e s
  | _ => x
  end.

Definition of_Z (prec emax : Z) (z : Z) : spec_float :=
  binary_normalize prec emax z 0 false.

End Binary.

Definition IEEE : NumModel := {|
  float := spec_float;
  double := spec_float;
  f_zero := S754_zero false;
  f_half := binary_normalize Binary.prec32 Binary.emax32 1 (-1) false;
  f_one := Binary.of_Z Binary.prec32 Binary.emax32 1;
  f_add := SFadd Binary.prec32 Binary.emax32;
  f_mul := SFmul Binary.prec32 Binary.emax32;
  f_eqb := SFeqb;
  f_ltb := SFltb;
  f_of_int := Binary.of_Z Binary.prec32 Binary.emax32;
  f_of_double := Binary.convert Binary.prec32 Binary.emax32;
  d_of_float := Binary.convert Binary.prec64 Binary.emax64;
  d_zero := S754_zero false;
  d_one := Binary.of_Z Binary.prec64 Binary.emax64 1;
  d_sub := SFsub Binary.prec64 Binary.emax64;
  d_div := SFdiv Binary.prec64 Binary.emax64;
  d_ltb := SFltb;
  d_leb := SFleb
|}.

(** *** The values of the floats

    The rational value of a float, the order of the floats, and what it
    means for a float to be the rounding of a value. *)

Module Round.

(** [2^e] as a rational. *)
Definition pow2 (e : Z) : Q := (2 ^ e)%Q.

(** The value [m * 2^e]. *)
Definition F2Q (m e : Z) : Q := (inject_Z m * pow2 e)%Q.

(** The value of a finite float; 0 for the others. *)
Definition SF2Q (x : spec_float) : Q :=
  match x with
  | S754_finite s m e => F2Q (cond_Zopp s (Zpos m)) e
  | _ => 0%Q
  end.

(** [t] lies in [[m, m+1)] at the place that the location tells: on [m],
    below, on or above the middle. *)
Definition inbetween (m : Z) (l : location) (t : Q) : Prop :=
  match l with
  | loc_Exact => (t == inject_Z m)%Q
  | loc_Inexact c =>
      (inject_Z m < t)%Q /\ (t < inject_Z m + 1)%Q
      /\ (t ?= inject_Z m + (1 # 2))%Q = c
  end.

(** The mantissa [m] with the location [l], at the exponent [e], stands
    for the value [x]. *)
Definition located (m e : Z) (l : location) (x : Q) : Prop :=
  0 <= m /\ inbetween m l (x * pow2 (- e))%Q.

(** The mantissa and the exponent after the carry of a rounding up to
    [2^prec]. *)
Definition carry (prec M E : Z) : Z * Z :=
  if M =? 2 ^ prec then (2 ^ (prec - 1), E + 1) else (M, E).

(** The float of a sign, a mantissa and an exponent: zero, finite, or
    infinite when the exponent is beyond the format. *)
Definition pack (prec emax : Z) (s : bool) (r : Z * Z) : spec_float :=
  match fst r with
  | Z0 => S754_zero s
  | Zpos m => if snd r <=? emax - prec then S754_finite s m (snd r) else S754_infinity s
  | Zneg _ => S754_nan
  end.

(** The order of the floats, NaN being below and above nothing. *)
Definition SFle (x y : spec_float) : Prop := SFleb x y = true.

(** Zero or finite. *)
Definition is_fin (x : spec_float) : bool :=
  match x with
  | S754_zero _ | S754_finite _ _ _ => true
  | _ => false
  end.

(** A float of the format [prec], [emax] that is not NaN. *)
Definition ok (prec emax : Z) (x : spec_float) : Prop :=
  valid_binary prec emax x = true /\ x <> S754_nan.

(** The float [r] is the value [v] rounded to the format: zero (of some
    sign) for 0, and otherwise what [binary_round_aux] makes of a mantissa,
    an exponent and a location that stand for the magnitude of [v]. *)
Definition rounds (prec emax : Z) (v : Q) (r : spec_float) : Prop :=
  ((v == 0)%Q /\ exists s, r = S754_zero s)
  \/ ((0 < v)%Q
      /\ exists m e l,
           located m e l v
           /\ e <= fexp prec emax (Zdigits2 m + e)
           /\ r = binary_round_aux prec emax false m e l)
  \/ ((v < 0)%Q
      /\ exists m e l,
           located m e l (- v)%Q
           /\ e <= fexp prec emax (Zdigits2 m + e)
           /\ r = binary_round_aux prec emax true m e l).

(** Values with the two infinities, and their order. *)
Inductive ext : Type :=
| NegInf
| Fin (q : Q)
| PosInf.

Definition ext_le (a b : ext) : Prop :=
  match a, b with
  | NegInf, _ => True
  | _, PosInf => True
  | Fin x, Fin y => (x <= y)%Q
  | _, _ => False
  end.

(** The value of a float that is not NaN. *)
Definition val (x : spec_float) : ext :=
  match x with
  | S754_infinity true => NegInf
  | S754_infinity false => PosInf
  | _ => Fin (SF2Q x)
  end.

Definition rounds_ext (prec emax : Z) (v : ext) (r : spec_float) : Prop :=
  match v with
  | NegInf => r = S754_infinity true
  | PosInf => r = S754_infinity false
  | Fin q => rounds prec emax q r
  end.

(** The operations of the priority on values. *)
Definition ext_scale (c : Q) (v : ext) : ext :=
  match v with
  | Fin q => Fin (q * c)
  | _ => v
  end.

Definition ext_sub_from (c : Q) (v : ext) : ext :=
  match v with
  | NegInf => PosInf
  | Fin q => Fin (c - q)
  | PosInf => NegInf
  end.

Definition ext_add_to (c : Q) (v : ext) : ext :=
  match v with
  | Fin q => Fin (c + q)
  | _ => v
  end.

End Round.

(** The values of a C++ [int] that is not negative. *)
Definition int_range (z : Z) : Prop := 0 <= z < 2 ^ 31.

(* ===================================================================== *)
(** ** osg::Matrixf *)
(* ===================================================================== *)

(** OpenSceneGraph's single-precision 4x4 matrix, stored row-major as
    [_mat[row][col]]. *)
Module Matrixf.
Section Ops.
Context {NM : NumModel}.

Record Row : Type := mkRow { c0 : float NM; c1 : float NM; c2 : float NM; c3 : float NM }.
Record t : Type := mk { r0 : Row; r1 : Row; r2 : Row; r3 : Row }.

Definition row (m : t) (r : nat) : Row :=
  match r with O => r0 m | 1%nat => r1 m | 2%nat => r2 m | _ => r3 m end.
Definition col (v : Row) (c : nat) : float NM :=
  match c with O => c0 v | 1%nat => c1 v | 2%nat => c2 v | _ => c3 v end.
(** [_mat[r][c]] *)
Definition at_ (m : t) (r c : nat) : float NM := col (row m r) c.

Definition build (f : nat -> nat -> float NM) : t :=
  mk (mkRow (f 0 0) (f 0 1) (f 0 2) (f 0 3))%nat
     (mkRow (f 1 0) (f 1 1) (f 1 2) (f 1 3))%nat
     (mkRow (f 2 0) (f 2 1) (f 2 2) (f 2 3))%nat
     (mkRow (f 3 0) (f 3 1) (f 3 2) (f 3 3))%nat.

(** The sixteen-argument constructor, in the order of its arguments. *)
Definition of_entries (a00 a01 a02 a03 a10 a11 a12 a13
                       a20 a21 a22 a23 a30 a31 a32 a33 : float NM) : t :=
  mk (mkRow a00 a01 a02 a03) (mkRow a10 a11 a12 a13)
     (mkRow a20 a21 a22 a23) (mkRow a30 a31 a32 a33).

Definition entries (m : t) : list (float NM) :=
  [ at_ m 0 0; at_ m 0 1; at_ m 0 2; at_ m 0 3;
    at_ m 1 0; at_ m 1 1; at_ m 1 2; at_ m 1 3;
    at_ m 2 0; at_ m 2 1; at_ m 2 2; at_ m 2 3;
    at_ m 3 0; at_ m 3 1; at_ m 3 2; at_ m 3 3 ]%nat.

Definition identity : t :=
  build (fun r c => if Nat.eqb r c then f_one NM else f_zero NM).

(** The macro [INNER_PRODUCT(a,b,r,c)]: the four products summed from
    the left. *)
Definition INNER_PRODUCT (a b : t) (r c : nat) : float NM :=
  f_add NM
    (f_add NM
       (f_add NM (f_mul NM (at_ a r 0) (at_ b 0 c))
                 (f_mul NM (at_ a r 1) (at_ b 1 c)))
       (f_mul NM (at_ a r 2) (at_ b 2 c)))
    (f_mul NM (at_ a r 3) (at_ b 3 c)).

(** [this.preMult(other)]: [this] becomes [other * this]. *)
Definition preMult (this other : t) : t :=
  build (fun r c => INNER_PRODUCT other this r c).

(** [isIdentity()]: every entry compared with 1 or 0 by [==]. *)
Definition isIdentity (m : t) : bool :=
  forallb (fun p => f_eqb NM (fst p) (snd p))
          (combine (entries m) (entries identity)).

(** [compare]: the first entry that differs by [<] decides. *)
Fixpoint compare_entries (l r : list (float NM)) : Z :=
  match l, r with
  | x :: l', y :: r' =>
      if f_ltb NM x y then -1
      else if f_ltb NM y x then 1
      else compare_entries l' r'
  | _, _ => 0
  end.
Definition compare (lhs rhs : t) : Z := compare_entries (entries lhs) (entries rhs).

(** [operator !=] *)
Definition neq (lhs rhs : t) : bool := negb (Z.eqb (compare lhs rhs) 0).

End Ops.
Arguments t : clear implicits.
Arguments Row : clear implicits.
End Matrixf.

(* ===================================================================== *)
(** ** The scale and bias matrices, one for each TileKey quadrant *)
(* ===================================================================== *)

Section ScaleBias.
Context {NM : NumModel}.

Definition scaleBias_table : list (Matrixf.t NM) :=
  let h := f_half NM in let o := f_zero NM in let i := f_one NM in
  [ Matrixf.of_entries h o o o  o h o o  o o i o  o h o i;
    Matrixf.of_entries h o o o  o h o o  o o i o  h h o i;
    Matrixf.of_entries h o o o  o h o o  o o i o  o o o i;
    Matrixf.of_entries h o o o  o h o o  o o i o  h o o i ].

(** [scaleBias[quadrant]]; the table has four entries and every quadrant
    is below four ([getQuadrant_lt_4]). *)
Definition scaleBias (quadrant : nat) : Matrixf.t NM :=
  nth quadrant scaleBias_table Matrixf.identity.

End ScaleBias.

(* ===================================================================== *)
(** ** Tile keys *)
(* ===================================================================== *)

(** The TileKey class is declared and defined outside TileNode.cpp; it is
    taken from the specification's data model. *)
Module TileKey.

(** Modelled from the spec: a TileKey is an immutable tuple of a level of
    detail, a tile column and a tile row. *)
Record t : Type := mk { getLOD : Z; getTileX : Z; getTileY : Z }.

#[global] Instance eq_dec : EqDecision t.
Proof. solve_decision. Defined.

(** A default-constructed key. *)
Definition INVALID : t := mk 0 0 0.

(** Modelled from the spec: the child keys of a key are (level+1,
    2*col+{0,1}, 2*row+{0,1}), in quadrant order 0..3 = NW, NE, SW, SE. *)
Definition createChildKey (k : t) (quadrant : nat) : t :=
  let lod := getLOD k + 1 in
  let x := getTileX k * 2 in
  let y := getTileY k * 2 in
  match quadrant with
  | 1%nat => mk lod (x + 1) y
  | 2%nat => mk lod x (y + 1)
  | 3%nat => mk lod (x + 1) (y + 1)
  | _ => mk lod x y
  end.

(** Modelled from the spec: the parent key is (level-1, col/2, row/2). *)
Definition createParentKey (k : t) : t :=
  mk (getLOD k - 1) (getTileX k / 2) (getTileY k / 2).

(** Modelled from the spec: the quadrant of a key is its position among
    the four child keys of its parent key. *)
Definition getQuadrant (k : t) : nat :=
  Z.to_nat (getTileX k mod 2 + 2 * (getTileY k mod 2)).

End TileKey.

(* ===================================================================== *)
(** ** Textures, samplers, rendering passes *)
(* ===================================================================== *)

Definition UID : Type := Z.
Definition Image : Type := Z.

(** An [osg::Texture] object: its identity, image 0, and whether its user
    data is a [GeoNode] to rasterize. *)
Record Texture : Type := mkTexture {
  textureId : Z;
  getImage0 : option Image;
  userDataIsGeoNode : bool
}.

#[global] Instance Texture_eq_dec : EqDecision Texture.
Proof. solve_decision. Defined.

(** SamplerBinding is declared in the RenderBindings header, outside
    TileNode.cpp. *)
Module SamplerBinding.
(** Modelled from the spec: the named samplers, numbered in the order of
    the data model: the per-pass samplers color and color-parent, the shared
    samplers elevation and normal map, then the other shared bindings. *)
Definition COLOR : nat := 0.
(** Modelled from the spec: see [COLOR]. *)
Definition COLOR_PARENT : nat := 1.
(** Modelled from the spec: see [COLOR]. *)
Definition ELEVATION : nat := 2.
(** Modelled from the spec: see [COLOR]. *)
Definition NORMAL : nat := 3.
(** Modelled from the spec: see [COLOR]. *)
Definition SHARED : nat := 4.

(** Modelled from the spec: a registered binding, active or not, with the
    layer it samples when it is a shared binding of a layer. *)
Record t : Type := mk { isActive : bool; sourceUID : option UID }.
Definition inactive : t := mk false None.
End SamplerBinding.

Abbreviation RenderBindings := (list SamplerBinding.t).
(** Modelled from the spec: [bindings[i]], a binding that was never
    registered being inactive. *)
Definition binding (bindings : RenderBindings) (i : nat) : SamplerBinding.t :=
  nth i bindings SamplerBinding.inactive.

Section RenderModel.
Context {NM : NumModel}.

(** Sampler, RenderingPass and TileRenderModel are declared in the
    TileRenderModel header, outside TileNode.cpp. *)

(** Modelled from the spec: a sampler is a texture handle with a 4x4
    matrix. *)
Record Sampler : Type := mkSampler {
  _texture : option Texture;
  _matrix : Matrixf.t NM
}.

(** Modelled from the spec: the default state of a sampler is no texture
    and the identity matrix. *)
Definition Sampler_default : Sampler := mkSampler None Matrixf.identity.

Local Abbreviation Samplers := (list Sampler).

(** Modelled from the spec: [samplers[i]], the samplers being a set
    indexed by binding: a sampler that was never written is in its default
    state. *)
Definition sampler_at (samplers : Samplers) (i : nat) : Sampler :=
  nth i samplers Sampler_default.

(** Modelled from the spec: the assignment [samplers[i] = s]; a write
    beyond the samplers stored so far stores default samplers up to [i]. *)
Definition set_sampler (i : nat) (s : Sampler) (samplers : Samplers) : Samplers :=
  if (i <? length samplers)%nat then <[i := s]> samplers
  else samplers ++ replicate (i - length samplers) Sampler_default ++ [s].

(** Modelled from the spec: a rendering pass is the identifier of the layer
    it belongs to and its samplers. *)
Record RenderingPass : Type := mkPass {
  sourceUID : UID;
  samplers : Samplers
}.

(** Modelled from the spec: a new pass belongs to no layer (UID -1) and
    holds the color and the color-parent sampler in their default state. *)
Definition RenderingPass_default : RenderingPass :=
  mkPass (-1) [Sampler_default; Sampler_default].

(** Modelled from the spec: [pass.setLayer(layer)] for a non-null layer:
    the pass is identified by the layer. *)
Definition setLayer (uid : UID) (pass : RenderingPass) : RenderingPass :=
  mkPass uid (samplers pass).

Definition with_samplers (s : Samplers) (pass : RenderingPass) : RenderingPass :=
  mkPass (sourceUID pass) s.

(** Modelled from the spec: the render model is the ordered collection of
    the passes and the shared samplers. *)
Record TileRenderModel : Type := mkRenderModel {
  _sharedSamplers : Samplers;
  _passes : list RenderingPass
}.

Definition TileRenderModel_default : TileRenderModel := mkRenderModel [] [].

(** Modelled from the spec: the position of the first pass of the layer
    [uid] (passes are found by layer identity). *)
Fixpoint passIndex (uid : UID) (passes : list RenderingPass) : option nat :=
  match passes with
  | [] => None
  | p :: rest =>
      if Z.eqb (sourceUID p) uid then Some O
      else option_map S (passIndex uid rest)
  end.

(** Modelled from the spec: [getPass(uid)], the pass of the layer, or
    null. *)
Definition getPass (uid : UID) (model : TileRenderModel) : option RenderingPass :=
  match passIndex uid (_passes model) with
  | Some i => _passes model !! i
  | None => None
  end.

(** Modelled from the spec: [addPass()], a new pass appended to the
    ordered passes; its position is returned. *)
Definition addPass (model : TileRenderModel) : TileRenderModel * nat :=
  (mkRenderModel (_sharedSamplers model) (_passes model ++ [RenderingPass_default]),
   length (_passes model)).

Definition with_passes (passes : list RenderingPass) (model : TileRenderModel) :=
  mkRenderModel (_sharedSamplers model) passes.
Definition with_sharedSamplers (s : Samplers) (model : TileRenderModel) :=
  mkRenderModel s (_passes model).

(** [sampler._matrix.preMult(m)] *)
Definition Sampler_preMult (m : Matrixf.t NM) (s : Sampler) : Sampler :=
  mkSampler (_texture s) (Matrixf.preMult (_matrix s) m).

End RenderModel.
Arguments Sampler : clear implicits.
Arguments RenderingPass : clear implicits.
Arguments TileRenderModel : clear implicits.
Abbreviation Samplers NM := (list (Sampler NM)).

(* ===================================================================== *)
(** ** The tile data model handed to merge *)
(* ===================================================================== *)

Section TileModel.
Context {NM : NumModel}.

(** Modelled from the spec: the data of one image layer in the fetch
    result: the layer, its texture (may be null) and matrix, and whether the
    layer supports createTexture. *)
Record TerrainTileImageLayerModel : Type := mkImageLayerModel {
  getImageLayerUID : UID;
  getTexture : option Texture;
  getMatrix : Matrixf.t NM;
  createTextureSupported : bool
}.

(** Modelled from the spec: a color layer of the fetch result is an image
    layer or another color layer (with its layer, may be null), or a null
    entry. *)
Inductive TerrainTileColorLayerModel : Type :=
| ImageLayerModel (m : TerrainTileImageLayerModel)
| OtherColorLayerModel (layer : option UID)
| NullColorLayerModel.

(** Modelled from the spec: the fetch result consumed by merge: the color
    layers, the elevation and the normal model (each may be absent, and its
    texture null), and the shared image layers. *)
Record TerrainTileModel : Type := mkTileModel {
  colorLayers : list TerrainTileColorLayerModel;
  elevationModel : option (option Texture);
  normalModel : option (option Texture);
  sharedLayers : list TerrainTileImageLayerModel
}.

End TileModel.
Arguments TerrainTileImageLayerModel : clear implicits.
Arguments TerrainTileColorLayerModel : clear implicits.
Arguments TerrainTileModel : clear implicits.

(* ===================================================================== *)
(** ** Engine context *)
(* ===================================================================== *)

Inductive RangeMode : Type := DISTANCE_FROM_EYE_POINT | PIXEL_SIZE_ON_SCREEN.

Section Context_.
Context {NM : NumModel}.

(** Modelled from the spec: the configuration options read by the tile
    node, with their effective values; the two expiry options may be
    unset. *)
Record RexTerrainEngineOptions : Type := mkOptions {
  normalizeEdges : bool;
  progressive : bool;
  highResolutionFirst : bool;
  rangeMode : RangeMode;
  tilePixelSize : float NM;
  minExpiryFrames : option Z;
  minExpiryTime : option (double NM)
}.

(** Modelled from the spec: the entry of the visibility-range table for
    one level of detail. *)
Record VisParameters : Type := mkVisParameters {
  _visibilityRange : double NM;
  _visibilityRange2 : double NM
}.

(** Modelled from the spec: the number of levels and the per-level
    visibility-range table. *)
Record SelectionInfo : Type := mkSelectionInfo {
  getNumLODs : Z;
  visParameters : Z -> VisParameters
}.

(** Modelled from the spec: what the node asks of its engine context: the
    options, the render bindings, the selection info, and whether the
    geometry collaborator (with the mask boundaries) yields an empty
    geometry for a key. *)
Record EngineContext : Type := mkContext {
  getOptions : RexTerrainEngineOptions;
  getRenderBindings : RenderBindings;
  getSelectionInfo : SelectionInfo;
  pooledGeometryEmpty : TileKey.t -> bool
}.

End Context_.
Arguments RexTerrainEngineOptions : clear implicits.
Arguments VisParameters : clear implicits.
Arguments SelectionInfo : clear implicits.
Arguments EngineContext : clear implicits.

(* ===================================================================== *)
(** ** Effects: events and the [Op] monad *)
(* ===================================================================== *)

Inductive LogLevel : Type := DEBUG | INFO | WARN.

Inductive LogText : Type :=
| TileIsEmpty (key : TileKey.t)
| NotifyCreate (key : TileKey.t)
| NotifyMerge (key : TileKey.t)
| ElevationImageIsNull.

(** Modelled from the spec: the load request of a tile, keyed by its
    TileKey, with the filter that restricts it to a subset of layers (no
    layer named: every layer). *)
Record LoadTileData : Type := mkLoadTileData {
  getTileKey : TileKey.t;
  filter_layers : gset UID
}.

Section Effects.
Context {NM : NumModel}.

(** Calls the tile node makes on its collaborators. *)
Inductive Event : Type :=
| OE_LOG (level : LogLevel) (text : LogText)
| LiveTiles_add (key : TileKey.t)
| Terrain_notifyTileAdded (key : TileKey.t)
| Surface_accept (key : TileKey.t)
| DirtyBound (key : TileKey.t)
| Loader_load (request : option LoadTileData) (priority : float NM)
| TileRasterizer_push (key : TileKey.t) (tex : Texture)
| UpdateNormalMap (key : TileKey.t)
| Call_createChildren (key : TileKey.t)
| Call_refreshInheritedData (key : TileKey.t).

(** A run either fails (a null pointer is dereferenced, a child that does
    not exist is fetched, the fuel of a traversal is exhausted) or yields
    a value and the events of the run, oldest first. *)
Definition Op (A : Type) : Type := option (A * list Event).

Definition ret {A} (a : A) : Op A := Some (a, []).
Definition fail {A} : Op A := None.
Definition emit (e : Event) : Op unit := Some (tt, [e]).
Definition bind {A B} (m : Op A) (f : A -> Op B) : Op B :=
  match m with
  | None => None
  | Some (a, ev) =>
      match f a with
      | None => None
      | Some (b, ev') => Some (b, ev ++ ev')
      end
  end.
(** [*p] for a [ref_ptr] p *)
Definition deref {A} (p : option A) : Op A :=
  match p with Some a => ret a | None => fail end.
Definition when (b : bool) (m : Op unit) : Op unit :=
  if b then m else ret tt.

Definition events {A} (m : Op A) : list Event :=
  match m with Some (_, ev) => ev | None => [] end.

End Effects.
Arguments Event : clear implicits.
Arguments Op : clear implicits.

Notation "'let*' x ':=' m 'in' k" := (bind m (fun x => k))
  (at level 10, x name, m at level 100, k at level 200, only parsing).
Notation "'let*' ' p ':=' m 'in' k" := (bind m (fun p => k))
  (at level 10, p pattern, m at level 100, k at level 200, only parsing).
Notation "'do*' m 'in' k" := (bind m (fun _ => k))
  (at level 10, m at level 100, k at level 200, only parsing).

(* ===================================================================== *)
(** ** The tile node *)
(* ===================================================================== *)

Section Node.
Context {NM : NumModel}.

(** Modelled from the spec: the surface-geometry handle of a tile, as far
    as the tile node reads it back: the elevation raster and its matrix. *)
Record SurfaceNode : Type := mkSurface {
  getElevationRaster : option Image;
  getElevationMatrix : Matrixf.t NM
}.

(** The members of TileNode that the functions below read or write, and
    the child nodes of the [osg::Group].  The shader uniforms
    ([_tileKeyValue], [_morphConstants]), the neighbour links and the
    mutex are left out. *)
#[warnings="-register-all"]
Inductive TileNode : Type := mkTileNode {
  _context : option (EngineContext NM);
  _key : TileKey.t;
  _dirty : bool;
  _childrenReady : bool;
  _minExpiryTime : double NM;
  _minExpiryFrames : Z;
  _lastTraversalTime : double NM;
  _lastTraversalFrame : Z;
  _lastAcceptSurfaceFrame : Z;
  _stitchNormalMap : bool;
  _empty : bool;
  _surface : option SurfaceNode;
  _loadRequest : option LoadTileData;
  _newLayers : gset UID;
  _renderModel : TileRenderModel NM;
  _children : list TileNode
}.

(** [TileNode::TileNode()] *)
Definition TileNode_new : TileNode := {|
  _context := None;
  _key := TileKey.INVALID;
  _dirty := false;
  _childrenReady := false;
  _minExpiryTime := d_zero NM;
  _minExpiryFrames := 0;
  _lastTraversalTime := d_zero NM;
  _lastTraversalFrame := 0;
  _lastAcceptSurfaceFrame := 0;
  _stitchNormalMap := false;
  _empty := false;
  _surface := None;
  _loadRequest := None;
  _newLayers := ∅;
  _renderModel := TileRenderModel_default;
  _children := []
|}.

(** Assignments to one member. *)
Definition with_context v (n : TileNode) : TileNode :=
  let '(mkTileNode _ a2 a3 a4 a5 a6 a7 a8 a9 a10 a11 a12 a13 a14 a15 a16) := n in
  mkTileNode v a2 a3 a4 a5 a6 a7 a8 a9 a10 a11 a12 a13 a14 a15 a16.
Definition with_key v (n : TileNode) : TileNode :=
  let '(mkTileNode a1 _ a3 a4 a5 a6 a7 a8 a9 a10 a11 a12 a13 a14 a15 a16) := n in
  mkTileNode a1 v a3 a4 a5 a6 a7 a8 a9 a10 a11 a12 a13 a14 a15 a16.
Definition with_dirty v (n : TileNode) : TileNode :=
  let '(mkTileNode a1 a2 _ a4 a5 a6 a7 a8 a9 a10 a11 a12 a13 a14 a15 a16) := n in
  mkTileNode a1 a2 v a4 a5 a6 a7 a8 a9 a10 a11 a12 a13 a14 a15 a16.
Definition with_childrenReady v (n : TileNode) : TileNode :=
  let '(mkTileNode a1 a2 a3 _ a5 a6 a7 a8 a9 a10 a11 a12 a13 a14 a15 a16) := n in
  mkTileNode a1 a2 a3 v a5 a6 a7 a8 a9 a10 a11 a12 a13 a14 a15 a16.
Definition with_minExpiryTime v (n : TileNode) : TileNode :=
  let '(mkTileNode a1 a2 a3 a4 _ a6 a7 a8 a9 a10 a11 a12 a13 a14 a15 a16) := n in
  mkTileNode a1 a2 a3 a4 v a6 a7 a8 a9 a10 a11 a12 a13 a14 a15 a16.
Definition with_minExpiryFrames v (n : TileNode) : TileNode :=
  let '(mkTileNode a1 a2 a3 a4 a5 _ a7 a8 a9 a10 a11 a12 a13 a14 a15 a16) := n in
  mkTileNode a1 a2 a3 a4 a5 v a7 a8 a9 a10 a11 a12 a13 a14 a15 a16.
Definition with_lastTraversalTime v (n : TileNode) : TileNode :=
  let '(mkTileNode a1 a2 a3 a4 a5 a6 _ a8 a9 a10 a11 a12 a13 a14 a15 a16) := n in
  mkTileNode a1 a2 a3 a4 a5 a6 v a8 a9 a10 a11 a12 a13 a14 a15 a16.
Definition with_lastTraversalFrame v (n : TileNode) : TileNode :=
  let '(mkTileNode a1 a2 a3 a4 a5 a6 a7 _ a9 a10 a11 a12 a13 a14 a15 a16) := n in
  mkTileNode a1 a2 a3 a4 a5 a6 a7 v a9 a10 a11 a12 a13 a14 a15 a16.
Definition with_lastAcceptSurfaceFrame v (n : TileNode) : TileNode :=
  let '(mkTileNode a1 a2 a3 a4 a5 a6 a7 a8 _ a10 a11 a12 a13 a14 a15 a16) := n in
  mkTileNode a1 a2 a3 a4 a5 a6 a7 a8 v a10 a11 a12 a13 a14 a15 a16.
Definition with_stitchNormalMap v (n : TileNode) : TileNode :=
  let '(mkTileNode a1 a2 a3 a4 a5 a6 a7 a8 a9 _ a11 a12 a13 a14 a15 a16) := n in
  mkTileNode a1 a2 a3 a4 a5 a6 a7 a8 a9 v a11 a12 a13 a14 a15 a16.
Definition with_empty v (n : TileNode) : TileNode :=
  let '(mkTileNode a1 a2 a3 a4 a5 a6 a7 a8 a9 a10 _ a12 a13 a14 a15 a16) := n in
  mkTileNode a1 a2 a3 a4 a5 a6 a7 a8 a9 a10 v a12 a13 a14 a15 a16.
Definition with_surface v (n : TileNode) : TileNode :=
  let '(mkTileNode a1 a2 a3 a4 a5 a6 a7 a8 a9 a10 a11 _ a13 a14 a15 a16) := n in
  mkTileNode a1 a2 a3 a4 a5 a6 a7 a8 a9 a10 a11 v a13 a14 a15 a16.
Definition with_loadRequest v (n : TileNode) : TileNode :=
  let '(mkTileNode a1 a2 a3 a4 a5 a6 a7 a8 a9 a10 a11 a12 _ a14 a15 a16) := n in
  mkTileNode a1 a2 a3 a4 a5 a6 a7 a8 a9 a10 a11 a12 v a14 a15 a16.
Definition with_newLayers v (n : TileNode) : TileNode :=
  let '(mkTileNode a1 a2 a3 a4 a5 a6 a7 a8 a9 a10 a11 a12 a13 _ a15 a16) := n in
  mkTileNode a1 a2 a3 a4 a5 a6 a7 a8 a9 a10 a11 a12 a13 v a15 a16.
Definition with_renderModel v (n : TileNode) : TileNode :=
  let '(mkTileNode a1 a2 a3 a4 a5 a6 a7 a8 a9 a10 a11 a12 a13 a14 _ a16) := n in
  mkTileNode a1 a2 a3 a4 a5 a6 a7 a8 a9 a10 a11 a12 a13 a14 v a16.
Definition with_children v (n : TileNode) : TileNode :=
  let '(mkTileNode a1 a2 a3 a4 a5 a6 a7 a8 a9 a10 a11 a12 a13 a14 a15 _) := n in
  mkTileNode a1 a2 a3 a4 a5 a6 a7 a8 a9 a10 a11 a12 a13 a14 a15 v.

Definition getKey (n : TileNode) : TileKey.t := _key n.
Definition getNumChildren (n : TileNode) : nat := length (_children n).
(** [getSubTile(i)]; null when there is no such child. *)
Definition getSubTile (i : nat) (n : TileNode) : option TileNode := _children n !! i.
(** [addChild(node)] *)
Definition addChild (node : TileNode) (n : TileNode) : TileNode :=
  with_children (_children n ++ [node]) n.
Definition setMinimumExpirationFrames (v : Z) := with_minExpiryFrames v.
Definition setMinimumExpirationTime (v : double NM) := with_minExpiryTime v.

End Node.
Arguments TileNode : clear implicits.
Arguments SurfaceNode : clear implicits.

(* ===================================================================== *)
(** ** Frame stamps and the terrain culler *)
(* ===================================================================== *)

Inductive ReferenceFrame : Type :=
| RELATIVE_RF
| ABSOLUTE_RF
| ABSOLUTE_RF_INHERIT_VIEWPOINT.

Section Culler.
Context {NM : NumModel}.

Record FrameStamp : Type := mkFrameStamp {
  getFrameNumber : Z;
  getReferenceTime : double NM
}.

(** Modelled from the spec: the viewpoint and camera state supplied by the
    caller of the traversal, as the [TerrainCuller] visiting a node.  The
    geometric tests run by the surface node and the culler are given as
    functions of the node they are asked about. *)
Record TerrainCuller : Type := mkCuller {
  getEngineContext : EngineContext NM;
  getFrameStamp : FrameStamp;
  (** the reference frame of [getCamera()], when there is a camera *)
  getCamera : option ReferenceFrame;
  isCulled : TileNode NM -> bool;
  (** [_surface->isVisibleFrom(culler->getViewPointLocal())] *)
  isVisibleFrom : TileNode NM -> bool;
  (** the engine's [getComputeRangeCallback()], when set *)
  getComputeRangeCallback : option (TileNode NM -> float NM);
  clampedPixelSize : TileNode NM -> float NM;
  (** [_surface->anyChildBoxIntersectsSphere(viewpoint, range, lodScale)] *)
  anyChildBoxIntersectsSphere : TileNode NM -> float NM -> bool;
  (** [getDistanceToViewPoint(getBound().center(), true)] *)
  getDistanceToViewPoint : TileNode NM -> float NM;
  (** [VisitorData::isSet(culler->getParent(), "osgEarth.Stealth")] *)
  isStealth : bool
}.

Inductive NodeVisitor : Type :=
| CULL_VISITOR (culler : TerrainCuller)
| OTHER_VISITOR.

End Culler.
Arguments FrameStamp : clear implicits.
Arguments TerrainCuller : clear implicits.
Arguments NodeVisitor : clear implicits.

(* ===================================================================== *)
(** ** TileNode.cpp *)
(* ===================================================================== *)

Definition two32 : Z := 2 ^ 32.

Section TileNodeCpp.
Context {NM : NumModel}.

Abbreviation TileNode := (TileNode NM).
Abbreviation Op := (Op NM).

(** A [for] loop over the items of [l], threading the state. *)
Fixpoint for_each {A S : Type} (l : list A) (body : A -> S -> Op S) (s : S) : Op S :=
  match l with
  | [] => ret s
  | a :: l' => let* s' := body a s in for_each l' body s'
  end.

(** *** isDormant *)

Definition minMinExpiryFrames : Z := 3.

Definition isDormant (this : TileNode) (fs : option (FrameStamp NM)) : bool :=
  match fs with
  | None => false
  | Some fs =>
      (Z.max (_minExpiryFrames this) minMinExpiryFrames
         <? (getFrameNumber fs - _lastTraversalFrame this) mod two32)
      && d_ltb NM (_minExpiryTime this)
                  (d_sub NM (getReferenceTime fs) (_lastTraversalTime this))
  end.

(** *** setElevationRaster *)

Definition setElevationRaster (image : option Image) (matrix : Matrixf.t NM)
    (this : TileNode) : Op TileNode :=
  do* when (bool_decide (image = None)) (emit (OE_LOG WARN ElevationImageIsNull)) in
  let* surface := deref (_surface this) in
  if negb (bool_decide (image = getElevationRaster surface))
     || Matrixf.neq matrix (getElevationMatrix surface)
  then ret (with_surface (Some (mkSurface image matrix)) this)
  else ret this.

(** *** setDirty *)

Definition setDirty (value : bool) (this : TileNode) : Op TileNode :=
  let this := with_dirty value this in
  if negb (_dirty this) && negb (bool_decide (_newLayers this = ∅)) then
    let* request := deref (_loadRequest this) in
    (* filter().clear(); filter().layers() = _newLayers *)
    let request := mkLoadTileData (getTileKey request) (_newLayers this) in
    let this := with_loadRequest (Some request) this in
    let this := with_newLayers ∅ this in
    ret (with_dirty true this)
  else ret this.

(** *** create *)

(** The body of the loop over the parent's passes: the copy of one
    parent pass, scaled and biased for the quadrant. *)
Definition inheritPass (bindings : RenderBindings) (quadrant : nat)
    (parentPass : RenderingPass NM) : RenderingPass NM :=
  let samplers := map (Sampler_preMult (scaleBias quadrant)) (samplers parentPass) in
  let samplers :=
    if SamplerBinding.isActive (binding bindings SamplerBinding.COLOR_PARENT)
    then set_sampler SamplerBinding.COLOR_PARENT
                     (sampler_at samplers SamplerBinding.COLOR) samplers
    else samplers in
  with_samplers samplers parentPass.

Definition create (key : TileKey.t) (parent : option TileNode)
    (context : option (EngineContext NM)) (this : TileNode) : Op TileNode :=
  match context with
  | None => ret this
  | Some ctx =>
    let this := with_context (Some ctx) this in
    let this := with_key key this in
    if pooledGeometryEmpty ctx key then
      do* emit (OE_LOG DEBUG (TileIsEmpty (_key this))) in
      ret (with_empty true this)
    else
      let this := with_surface (Some (mkSurface None Matrixf.identity)) this in
      let this := with_loadRequest (Some (mkLoadTileData (_key this) ∅)) this in
      let this := with_stitchNormalMap (normalizeEdges (getOptions ctx)) this in
      let* this := match parent with
              | None => ret this
              | Some parent =>
                let quadrant := TileKey.getQuadrant (getKey this) in
                let bindings := getRenderBindings ctx in
                let passes :=
                  _passes (_renderModel this)
                  ++ map (inheritPass bindings quadrant) (_passes (_renderModel parent)) in
                let shared :=
                  map (Sampler_preMult (scaleBias quadrant))
                      (_sharedSamplers (_renderModel parent)) in
                let this := with_renderModel (mkRenderModel shared passes) this in
                if SamplerBinding.isActive (binding bindings SamplerBinding.ELEVATION) then
                  let elevation := sampler_at shared SamplerBinding.ELEVATION in
                  match _texture elevation with
                  | Some tex => setElevationRaster (getImage0 tex) (_matrix elevation) this
                  | None => ret this
                  end
                else ret this
              end in
      do* emit (DirtyBound (_key this)) in
      let* this := setDirty true this in
      do* emit (LiveTiles_add (_key this)) in
      do* emit (OE_LOG DEBUG (NotifyCreate (getKey this))) in
      do* emit (Terrain_notifyTileAdded (getKey this)) in
      ret this
  end.

(** *** createChildren *)

Definition createChild (context : EngineContext NM) (quadrant : nat)
    (this : TileNode) : Op TileNode :=
  let node := TileNode_new in
  let node := match minExpiryFrames (getOptions context) with
              | Some v => setMinimumExpirationFrames v node
              | None => node
              end in
  let node := match minExpiryTime (getOptions context) with
              | Some v => setMinimumExpirationTime v node
              | None => node
              end in
  let* node := create (TileKey.createChildKey (getKey this) quadrant)
                 (Some this) (Some context) node in
  ret (addChild node this).

Definition createChildren (context : EngineContext NM) (this : TileNode) : Op TileNode :=
  do* emit (Call_createChildren (_key this)) in
  for_each [0; 1; 2; 3]%nat (createChild context) this.

(** *** removeSubTiles, areSubTilesDormant *)

Definition removeSubTiles (this : TileNode) : TileNode :=
  let this := with_childrenReady false this in
  with_children (drop (getNumChildren this) (_children this)) this.

Definition areSubTilesDormant (this : TileNode) (fs : option (FrameStamp NM)) : bool :=
  (4 <=? getNumChildren this)%nat
  && forallb (fun i => match getSubTile i this with
                       | Some c => isDormant c fs
                       | None => false
                       end) [0; 1; 2; 3]%nat.

(** *** load *)

Definition load_priority (ctx : EngineContext NM) (culler : TerrainCuller NM)
    (this : TileNode) : float NM :=
  let si := getSelectionInfo ctx in
  let lod := TileKey.getLOD (getKey this) in
  let numLods := getNumLODs si in
  let lodPriority :=
    if negb (highResolutionFirst (getOptions ctx))
    then f_of_int NM (numLods - lod)
    else f_of_int NM lod in
  let distance := getDistanceToViewPoint culler this in
  let distPriority :=
    f_of_double NM
      (d_sub NM (d_one NM)
         (d_div NM (d_of_float NM distance) (_visibilityRange (visParameters si 0)))) in
  f_add NM lodPriority distPriority.

Definition load (culler : TerrainCuller NM) (this : TileNode) : Op unit :=
  let* ctx := deref (_context this) in
  emit (Loader_load (_loadRequest this) (load_priority ctx culler this)).

(** *** shouldSubDivide *)

Definition shouldSubDivide (culler : TerrainCuller NM)
    (selectionInfo : SelectionInfo NM) (this : TileNode) : Op bool :=
  let currLOD := TileKey.getLOD (_key this) in
  let context := getEngineContext culler in
  match rangeMode (getOptions context) with
  | PIXEL_SIZE_ON_SCREEN =>
      let pixelSize := f_of_int NM (-1) in
      let pixelSize := match getComputeRangeCallback culler with
                       | Some callback => callback this
                       | None => pixelSize
                       end in
      let pixelSize := if d_leb NM (d_of_float NM pixelSize) (d_zero NM)
                       then clampedPixelSize culler this
                       else pixelSize in
      ret (f_ltb NM (f_mul NM (tilePixelSize (getOptions context)) (f_of_int NM 4))
                    pixelSize)
  | DISTANCE_FROM_EYE_POINT =>
      let range :=
        f_of_double NM
          (_visibilityRange2 (visParameters selectionInfo ((currLOD + 1) mod two32))) in
      if (currLOD <? getNumLODs selectionInfo)
         && negb (currLOD =? (getNumLODs selectionInfo - 1) mod two32)
      then
        let* surface := deref (_surface this) in
        ret (anyChildBoxIntersectsSphere culler this range)
      else ret false
  end.

(** *** The cull traversal *)

(** The loop accepting the culler on [getSubTile(0)] .. [getSubTile(3)], where
    [accept] is what accepting the culler does to a child. *)
Definition acceptSubTiles (accept : TileNode -> Op TileNode) (this : TileNode)
    : Op TileNode :=
  match _children this with
  | c0 :: c1 :: c2 :: c3 :: rest =>
      let* c0' := accept c0 in
      let* c1' := accept c1 in
      let* c2' := accept c2 in
      let* c3' := accept c3 in
      ret (with_children (c0' :: c1' :: c2' :: c3' :: rest) this)
  | _ => fail
  end.

Definition cull_stealth (accept : TileNode -> Op TileNode)
    (culler : TerrainCuller NM) (this : TileNode) : Op (TileNode * bool) :=
  let visible := false in
  let frame := getFrameNumber (getFrameStamp culler) in
  if (frame - _lastAcceptSurfaceFrame this) mod two32 <? 2 then
    let* surface := deref (_surface this) in
    do* emit (Surface_accept (_key this)) in
    ret (this, visible)
  else if _childrenReady this then
    let* this := acceptSubTiles accept this in
    ret (this, visible)
  else ret (this, visible).

Definition cull (accept : TileNode -> Op TileNode)
    (culler : TerrainCuller NM) (this : TileNode) : Op (TileNode * bool) :=
  let context := getEngineContext culler in
  (* Horizon check the surface first *)
  let* surface := deref (_surface this) in
  if negb (isVisibleFrom culler this) then ret (this, false)
  else
    let* childrenInRange := shouldSubDivide culler (getSelectionInfo context) this in
    let canCreateChildren := childrenInRange in
    let canLoadData := true in
    let canAcceptSurface := false in
    let canCreateChildren :=
      if _dirty this && progressive (getOptions context) then false
      else canCreateChildren in
    let '(canCreateChildren, canLoadData) :=
      match getCamera culler with
      | Some ABSOLUTE_RF_INHERIT_VIEWPOINT => (false, false)
      | _ => (canCreateChildren, canLoadData)
      end in
    let* '(this, canLoadData, canAcceptSurface) :=
      if childrenInRange then
        let* '(this, canLoadData) :=
          if negb (_childrenReady this) && canCreateChildren then
            (* the node is locked; the flag is tested again *)
            if negb (_childrenReady this) then
              let* this := createChildren context this in
              let this := with_childrenReady true this in
              ret (this, false)
            else ret (this, canLoadData)
          else ret (this, canLoadData) in
        if _childrenReady this then
          let* this := acceptSubTiles accept this in
          ret (this, canLoadData, canAcceptSurface)
        else ret (this, canLoadData, true)
      else ret (this, canLoadData, true) in
    let* this :=
      if canAcceptSurface : bool then
        do* emit (Surface_accept (_key this)) in
        ret (with_lastAcceptSurfaceFrame (getFrameNumber (getFrameStamp culler)) this)
      else ret this in
    do* when (_dirty this && canLoadData) (load culler this) in
    ret (this, true).

Definition accept_cull (accept : TileNode -> Op TileNode)
    (culler : TerrainCuller NM) (this : TileNode) : Op (TileNode * bool) :=
  let visible := false in
  let this := with_lastTraversalFrame (getFrameNumber (getFrameStamp culler)) this in
  let this := with_lastTraversalTime (getReferenceTime (getFrameStamp culler)) this in
  if negb (isCulled culler this) then cull accept culler this
  else ret (this, visible).

Definition accept_cull_stealth (accept : TileNode -> Op TileNode)
    (culler : TerrainCuller NM) (this : TileNode) : Op (TileNode * bool) :=
  cull_stealth accept culler this.

(** [_children[i]->accept(nv)] for every child *)
Fixpoint acceptChildren (accept : TileNode -> Op TileNode) (children : list TileNode)
    : Op (list TileNode) :=
  match children with
  | [] => ret []
  | c :: rest =>
      let* c' := accept c in
      let* rest' := acceptChildren accept rest in
      ret (c' :: rest')
  end.

Definition traverse_node (accept : TileNode -> Op TileNode)
    (nv : NodeVisitor NM) (this : TileNode) : Op TileNode :=
  match nv with
  | CULL_VISITOR culler =>
      if negb (_empty this) then
        if isStealth culler then
          let* '(this, _) := accept_cull_stealth accept culler this in ret this
        else
          let* '(this, _) := accept_cull accept culler this in ret this
      else ret this
  | OTHER_VISITOR =>
      let numChildren := getNumChildren this in
      if (0 <? numChildren)%nat then
        let* children := acceptChildren accept (_children this) in
        ret (with_children children this)
      else if bool_decide (_surface this <> None) then
        do* emit (Surface_accept (_key this)) in
        ret this
      else ret this
  end.

(** [TileNode::traverse(nv)].  Accepting a visitor on a child runs
    [traverse] on the child; each level of descent takes one unit of
    fuel. *)
Fixpoint traverse (fuel : nat) (nv : NodeVisitor NM) (this : TileNode) : Op TileNode :=
  traverse_node
    (fun child => match fuel with
                  | O => fail
                  | S fuel' => traverse fuel' nv child
                  end)
    nv this.

(** *** refreshInheritedData *)

Definition textureValid (s : Sampler NM) : bool := bool_decide (_texture s <> None).

(** The body of the loop over the samplers of a pass that this node
    shares with the parent: sampler [s], with the count of changes. *)
Definition refreshSampler (bindings : RenderBindings) (quadrant : nat)
    (parentPass : RenderingPass NM) (st : Samplers NM * nat) (s : nat)
    : Samplers NM * nat :=
  let '(samplers_, changes) := st in
  let mySampler := sampler_at samplers_ s in
  if Nat.eqb s SamplerBinding.COLOR_PARENT
     && SamplerBinding.isActive (binding bindings SamplerBinding.COLOR_PARENT)
  then
    let parentSampler := sampler_at (samplers parentPass) SamplerBinding.COLOR in
    let newMatrix := Matrixf.preMult (_matrix parentSampler) (scaleBias quadrant) in
    if negb (bool_decide (_texture mySampler = _texture parentSampler))
       || Matrixf.neq (_matrix mySampler) newMatrix
    then
      let mySampler' :=
        if textureValid parentSampler
        then mkSampler (_texture parentSampler) newMatrix
        else mkSampler (_texture (sampler_at samplers_ SamplerBinding.COLOR))
                       (_matrix (sampler_at samplers_ SamplerBinding.COLOR)) in
      (<[s := mySampler']> samplers_, S changes)
    else st
  else if negb (textureValid mySampler) || negb (Matrixf.isIdentity (_matrix mySampler))
  then
    let parentSampler := sampler_at (samplers parentPass) s in
    let mySampler' :=
      Sampler_preMult (scaleBias quadrant)
        (mkSampler (_texture parentSampler) (_matrix parentSampler)) in
    (<[s := mySampler']> samplers_, S changes)
  else st.

(** The body of the loop over the parent's passes. *)
Definition refreshPass (bindings : RenderBindings) (quadrant : nat)
    (st : TileRenderModel NM * nat) (parentPass : RenderingPass NM)
    : TileRenderModel NM * nat :=
  let '(model, changes) := st in
  match passIndex (sourceUID parentPass) (_passes model) with
  | Some i =>
      let myPass := nth i (_passes model) RenderingPass_default in
      let '(samplers_, changes) :=
        fold_left (refreshSampler bindings quadrant parentPass)
                  (seq 0 (length (samplers myPass)))
                  (samplers myPass, changes) in
      (with_passes (<[i := with_samplers samplers_ myPass]> (_passes model)) model,
       changes)
  | None =>
      (* the pass exists in the parent but not here: add it *)
      let myPass :=
        with_samplers (map (Sampler_preMult (scaleBias quadrant)) (samplers parentPass))
                      parentPass in
      (with_passes (_passes model ++ [myPass]) model, S changes)
  end.

(** The body of the loop over this node's shared samplers. *)
Definition refreshSharedSampler (quadrant : nat) (parentSharedSamplers : Samplers NM)
    (s : nat) (st : TileNode * nat) : Op (TileNode * nat) :=
  let '(this, changes) := st in
  let mySharedSamplers := _sharedSamplers (_renderModel this) in
  let mySampler := sampler_at mySharedSamplers s in
  if negb (textureValid mySampler) || negb (Matrixf.isIdentity (_matrix mySampler))
  then
    let parentSampler := sampler_at parentSharedSamplers s in
    let mySampler :=
      Sampler_preMult (scaleBias quadrant)
        (mkSampler (_texture parentSampler) (_matrix parentSampler)) in
    let this :=
      with_renderModel
        (with_sharedSamplers (<[s := mySampler]> mySharedSamplers) (_renderModel this))
        this in
    let changes := S changes in
    let* this :=
      match Nat.eqb s SamplerBinding.ELEVATION, _texture mySampler with
      | true, Some tex => setElevationRaster (getImage0 tex) (_matrix mySampler) this
      | _, _ => ret this
      end in
    ret (this, changes)
  else ret (this, changes).

(** The part of refreshInheritedData before the recursion: this node
    after re-inheriting from the parent, and the number of changes. *)
Definition refreshInheritedData_here (parent : TileNode) (bindings : RenderBindings)
    (this : TileNode) : Op (TileNode * nat) :=
  let quadrant := TileKey.getQuadrant (getKey this) in
  let changes := O in
  let parentPasses := _passes (_renderModel parent) in
  let '(model, changes) :=
    fold_left (refreshPass bindings quadrant) parentPasses (_renderModel this, changes) in
  let this := with_renderModel model this in
  let parentSharedSamplers := _sharedSamplers (_renderModel parent) in
  for_each (seq 0 (length (_sharedSamplers (_renderModel this))))
           (refreshSharedSampler quadrant parentSharedSamplers)
           (this, changes).

Fixpoint refreshInheritedData (parent : TileNode) (bindings : RenderBindings)
    (this : TileNode) {struct this} : Op TileNode :=
  do* emit (Call_refreshInheritedData (_key this)) in
  let* '(this', changes) := refreshInheritedData_here parent bindings this in
  if (0 <? changes)%nat then
    do* emit (DirtyBound (_key this')) in
    if _childrenReady this' then
      match _children this with
      | c0 :: c1 :: c2 :: c3 :: rest =>
          let* c0' := refreshInheritedData this' bindings c0 in
          let* c1' := refreshInheritedData this' bindings c1 in
          let* c2' := refreshInheritedData this' bindings c2 in
          let* c3' := refreshInheritedData this' bindings c3 in
          ret (with_children (c0' :: c1' :: c2' :: c3' :: rest) this')
      | _ => fail
      end
    else ret this'
  else ret this'.

(** *** merge *)

Definition update_pass (i : nat) (f : RenderingPass NM -> RenderingPass NM)
    (model : TileRenderModel NM) : TileRenderModel NM :=
  with_passes (alter f i (_passes model)) model.

Definition write_sampler (i : nat) (s : Sampler NM) (pass : RenderingPass NM)
    : RenderingPass NM :=
  with_samplers (set_sampler i s (samplers pass)) pass.

(** An image layer of the model that carries a texture. *)
Definition merge_imageLayer (bindings : RenderBindings)
    (layer : TerrainTileImageLayerModel NM) (tex : Texture) (this : TileNode)
    : Op TileNode :=
  let model := _renderModel this in
  let '(model, pass) :=
    match passIndex (getImageLayerUID layer) (_passes model) with
    | Some i => (model, i)
    | None =>
        let '(model, pass) := addPass model in
        let model := update_pass pass (setLayer (getImageLayerUID layer)) model in
        (* a new pass at this LOD: the parent color is the color *)
        let model :=
          if SamplerBinding.isActive (binding bindings SamplerBinding.COLOR_PARENT)
          then update_pass pass
                 (write_sampler SamplerBinding.COLOR_PARENT
                    (mkSampler (Some tex) Matrixf.identity)) model
          else model in
        (model, pass)
    end in
  let model :=
    update_pass pass
      (write_sampler SamplerBinding.COLOR (mkSampler (Some tex) (getMatrix layer)))
      model in
  let this := with_renderModel model this in
  (* an RTT image layer *)
  do* (if createTextureSupported layer && userDataIsGeoNode tex then
         let* context := deref (_context this) in
         emit (TileRasterizer_push (_key this) tex)
       else ret tt) in
  ret this.

(** The body of the loop over the color layers of the model. *)
Definition merge_colorLayer (bindings : RenderBindings)
    (layer : TerrainTileColorLayerModel NM) (this : TileNode) : Op TileNode :=
  match layer with
  | ImageLayerModel layer =>
      match getTexture layer with
      | Some tex => merge_imageLayer bindings layer tex this
      | None => ret this
      end
  | OtherColorLayerModel (Some uid) =>
      let model := _renderModel this in
      match passIndex uid (_passes model) with
      | Some _ => ret this
      | None =>
          let '(model, pass) := addPass model in
          ret (with_renderModel (update_pass pass (setLayer uid) model) this)
      end
  | OtherColorLayerModel None => ret this
  | NullColorLayerModel => ret this
  end.

(** The search for the shared binding of a layer: the first active
    binding from [SHARED] on whose source is the layer. *)
Definition findSharedBinding (uid : UID) (bindings : RenderBindings) : option nat :=
  find (fun i => SamplerBinding.isActive (binding bindings i)
                 && bool_decide (SamplerBinding.sourceUID (binding bindings i) = Some uid))
       (seq SamplerBinding.SHARED (length bindings - SamplerBinding.SHARED)).

(** The body of the loop over the other shared layers. *)
Definition merge_sharedLayer (bindings : RenderBindings)
    (layerModel : TerrainTileImageLayerModel NM) (this : TileNode) : Op TileNode :=
  match getTexture layerModel with
  | Some tex =>
      match findSharedBinding (getImageLayerUID layerModel) bindings with
      | Some bindingIndex =>
          let model := _renderModel this in
          ret (with_renderModel
                 (with_sharedSamplers
                    (set_sampler bindingIndex (mkSampler (Some tex) Matrixf.identity)
                                 (_sharedSamplers model)) model) this)
      | None => ret this
      end
  | None => ret this
  end.

Definition write_sharedSampler (i : nat) (s : Sampler NM) (this : TileNode) : TileNode :=
  with_renderModel
    (with_sharedSamplers (set_sampler i s (_sharedSamplers (_renderModel this)))
                         (_renderModel this)) this.

(** The color layers of the model, when the color binding is active. *)
Definition merge_colorLayers (model : TerrainTileModel NM) (bindings : RenderBindings)
    (this : TileNode) : Op TileNode :=
  if SamplerBinding.isActive (binding bindings SamplerBinding.COLOR)
  then for_each (colorLayers model) (merge_colorLayer bindings) this
  else ret this.

(** The elevation of the model; the flag tells that there is new
    elevation data. *)
Definition merge_elevation (model : TerrainTileModel NM) (bindings : RenderBindings)
    (this : TileNode) : Op (TileNode * bool) :=
  match SamplerBinding.isActive (binding bindings SamplerBinding.ELEVATION),
        elevationModel model with
  | true, Some (Some tex) =>
      let this := write_sharedSampler SamplerBinding.ELEVATION
                    (mkSampler (Some tex) Matrixf.identity) this in
      let* this := setElevationRaster (getImage0 tex) Matrixf.identity this in
      ret (this, true)
  | _, _ => ret (this, false)
  end.

(** The normal map of the model. *)
Definition merge_normals (model : TerrainTileModel NM) (bindings : RenderBindings)
    (this : TileNode) : Op TileNode :=
  match SamplerBinding.isActive (binding bindings SamplerBinding.NORMAL),
        normalModel model with
  | true, Some (Some tex) =>
      let this := write_sharedSampler SamplerBinding.NORMAL
                    (mkSampler (Some tex) Matrixf.identity) this in
      do* emit (UpdateNormalMap (_key this)) in
      ret this
  | _, _ => ret this
  end.

(** The four calls of refreshInheritedData on the sub-tiles, when the
    children are ready. *)
Definition refreshSubTiles (bindings : RenderBindings) (this : TileNode) : Op TileNode :=
  if _childrenReady this then
    match _children this with
    | c0 :: c1 :: c2 :: c3 :: rest =>
        let* c0' := refreshInheritedData this bindings c0 in
        let* c1' := refreshInheritedData this bindings c1 in
        let* c2' := refreshInheritedData this bindings c2 in
        let* c3' := refreshInheritedData this bindings c3 in
        ret (with_children (c0' :: c1' :: c2' :: c3' :: rest) this)
    | _ => fail
    end
  else ret this.

Definition merge (model : TerrainTileModel NM) (bindings : RenderBindings)
    (this : TileNode) : Op TileNode :=
  let* this := merge_colorLayers model bindings this in
  let* '(this, newElevationData) := merge_elevation model bindings this in
  let* this := merge_normals model bindings this in
  (* Other shared layers *)
  let* this := for_each (sharedLayers model) (merge_sharedLayer bindings) this in
  let* this := refreshSubTiles bindings this in
  do* (if newElevationData : bool then
         do* emit (OE_LOG DEBUG (NotifyMerge (getKey this))) in
         let* context := deref (_context this) in
         emit (Terrain_notifyTileAdded (getKey this))
       else ret tt) in
  ret this.

End TileNodeCpp.

(* ===================================================================== *)
(** ** Vocabulary of the properties *)
(* ===================================================================== *)

Section Vocabulary.
Context {NM : NumModel}.

(** Frames elapsed since the last traversal, as the source computes them
    on [unsigned] values. *)
Definition framesElapsed (this : TileNode NM) (fs : FrameStamp NM) : Z :=
  (getFrameNumber fs - _lastTraversalFrame this) mod two32.

(** Time elapsed since the last traversal. *)
Definition timeElapsed (this : TileNode NM) (fs : FrameStamp NM) : double NM :=
  d_sub NM (getReferenceTime fs) (_lastTraversalTime this).

(** The LOD term of the priority. *)
Definition lodPriority (ctx : EngineContext NM) (this : TileNode NM)
    : float NM :=
  let lod := TileKey.getLOD (getKey this) in
  if highResolutionFirst (getOptions ctx) then f_of_int NM lod
  else f_of_int NM (getNumLODs (getSelectionInfo ctx) - lod).

(** The distance term of the priority, from a distance to the viewpoint. *)
Definition distPriority (ctx : EngineContext NM) (distance : float NM)
    : float NM :=
  f_of_double NM
    (d_sub NM (d_one NM)
       (d_div NM (d_of_float NM distance)
                 (_visibilityRange (visParameters (getSelectionInfo ctx) 0)))).

(** The node that [create] leaves under a parent when the geometry is not
    empty; [sf] is its surface node. *)
Definition created (key : TileKey.t) (parent : TileNode NM) (ctx : EngineContext NM)
    (sf : SurfaceNode NM) (this0 : TileNode NM) : TileNode NM :=
  let quadrant := TileKey.getQuadrant key in
  let bindings := getRenderBindings ctx in
  with_dirty true
    (with_surface (Some sf)
      (with_renderModel
        (mkRenderModel
           (map (Sampler_preMult (scaleBias quadrant))
                (_sharedSamplers (_renderModel parent)))
           (_passes (_renderModel this0)
              ++ map (inheritPass bindings quadrant) (_passes (_renderModel parent))))
        (with_stitchNormalMap (normalizeEdges (getOptions ctx))
          (with_loadRequest (Some (mkLoadTileData key ∅))
            (with_key key (with_context (Some ctx) this0)))))).

(** The sampler of the parent pass that sampler [s] of the copied pass is
    taken from: the color sampler for the color-parent sampler when image
    blending is on, the sampler itself otherwise. *)
Definition inheritedFrom (bindings : RenderBindings) (s : nat) : nat :=
  if Nat.eqb s SamplerBinding.COLOR_PARENT
     && SamplerBinding.isActive (binding bindings SamplerBinding.COLOR_PARENT)
  then SamplerBinding.COLOR else s.

(** The events of the load at the end of a cull. *)
Definition load_events (culler : TerrainCuller NM) (this : TileNode NM)
    (ev : list (Event NM)) : Prop :=
  ev = []
  \/ (getCamera culler <> Some ABSOLUTE_RF_INHERIT_VIEWPOINT
      /\ _dirty this = true
      /\ load culler this = Some (tt, ev)).

(** The children of a node are none while the children are not ready, and
    four once they are. *)
Definition childCount_ok (this : TileNode NM) : bool :=
  if _childrenReady this then Nat.eqb (length (_children this)) 4
  else Nat.eqb (length (_children this)) 0.

(** The quadtree invariant, on a node and all its descendants. *)
Fixpoint quadtree_ok (this : TileNode NM) : bool :=
  childCount_ok this && forallb quadtree_ok (_children this).

(** The keys of a node and of all its descendants. *)
Fixpoint tree_keys (this : TileNode NM) : list TileKey.t :=
  _key this :: flat_map tree_keys (_children this).

(** Induction on a node, given the property on its children. *)
Section Ind.
Variable P : TileNode NM -> Prop.
Hypothesis step : forall this, Forall P (_children this) -> P this.

Fixpoint TileNode_tree_ind (this : TileNode NM) : P this :=
  step this
    ((fix all (l : list (TileNode NM)) : Forall P l :=
        match l with
        | [] => @List.Forall_nil _ P
        | c :: l' => @List.Forall_cons _ P c l' (TileNode_tree_ind c) (all l')
        end) (_children this)).
End Ind.

(** An event that draws the surface of a node of the tree under [this]. *)
Definition rendersExisting (this : TileNode NM) (e : Event NM) : Prop :=
  exists key, e = Surface_accept key /\ In key (tree_keys this).

(** The keys of the nodes on which refreshInheritedData was called, in
    the order of the calls. *)
Definition refresh_calls (ev : list (Event NM)) : list TileKey.t :=
  flat_map (fun e => match e with
                     | Call_refreshInheritedData key => [key]
                     | _ => []
                     end) ev.

(** Two nodes that differ at most in render model and surface. *)
Definition same_but_data (a b : TileNode NM) : Prop :=
  exists rm sf, b = with_surface sf (with_renderModel rm a).

(** A sampler that holds the tile's own data: a texture, with the
    identity. *)
Definition authoritative (s : Sampler NM) : bool :=
  textureValid s && Matrixf.isIdentity (_matrix s).

(** Every pass sampler and every shared sampler of the node holds the
    tile's own data. *)
Definition all_authoritative (this : TileNode NM) : bool :=
  forallb (fun pass => forallb authoritative (samplers pass))
          (_passes (_renderModel this))
  && forallb authoritative (_sharedSamplers (_renderModel this)).

(** Every pass of the parent has a pass of the same layer in the node. *)
Definition passes_covered (parent this : TileNode NM) : bool :=
  forallb (fun parentPass =>
             bool_decide (passIndex (sourceUID parentPass) (_passes (_renderModel this))
                          <> None))
          (_passes (_renderModel parent)).

(** The pass that merge makes for a layer that has none yet. *)
Definition newPass (bindings : RenderBindings) (uid : UID) (tex : Texture)
    : RenderingPass NM :=
  let pass := setLayer uid RenderingPass_default in
  if SamplerBinding.isActive (binding bindings SamplerBinding.COLOR_PARENT)
  then write_sampler SamplerBinding.COLOR_PARENT (mkSampler (Some tex) Matrixf.identity) pass
  else pass.

End Vocabulary.

(** The quadrant matrix in terms of its offsets. *)
Definition quadrantMatrix (u v : float IEEE) : Matrixf.t IEEE :=
  let h := f_half IEEE in let o := f_zero IEEE in let i := f_one IEEE in
  Matrixf.of_entries h o o o  o h o o  o o i o  u v o i.

(* ===================================================================== *)
(** ** Scenarios *)
(* ===================================================================== *)

Module PriorityExample.

(** Two tiles at LOD 10, the first at distance 1, the second at distance
    [far]; 20 LODs, visibility range [range]. *)
Definition tileA {NM} : TileNode NM := with_key (TileKey.mk 10 0 0) TileNode_new.
Definition tileB {NM} : TileNode NM := with_key (TileKey.mk 10 1 0) TileNode_new.

Definition context {NM} (range : double NM) : EngineContext NM :=
  mkContext
    (mkOptions false false true DISTANCE_FROM_EYE_POINT (f_of_int NM 256) None None)
    []
    (mkSelectionInfo 20 (fun _ => mkVisParameters range range))
    (fun _ => false).

Definition culler {NM} (range : double NM) (far : float NM) : TerrainCuller NM :=
  mkCuller (context range) (mkFrameStamp 0 (d_zero NM)) None
    (fun _ => false) (fun _ => true) None (fun _ => f_one NM) (fun _ _ => false)
    (fun n => if bool_decide (TileKey.getTileX (_key n) = 0) then f_one NM else far)
    false.

(** The float next above 1. *)
Definition next_above_one : spec_float := S754_finite false 8388609 (-23).
Definition range_2_20 : spec_float := Binary.of_Z Binary.prec64 Binary.emax64 1048576.

End PriorityExample.

Module CreateExample.

Definition T (i : Z) : Texture := mkTexture i (Some i) false.

(** Bindings with color, color-parent, elevation and normal; color-parent
    active or not. *)
Definition bindings (blending : bool) : RenderBindings :=
  [ SamplerBinding.mk true None; SamplerBinding.mk blending None;
    SamplerBinding.mk true None; SamplerBinding.mk true None ].

Definition context {NM} (blending : bool) : EngineContext NM :=
  mkContext
    (mkOptions false false true DISTANCE_FROM_EYE_POINT (f_of_int NM 256) None None)
    (bindings blending)
    (mkSelectionInfo 20 (fun _ => mkVisParameters (d_one NM) (d_one NM)))
    (fun _ => false).

(** A created root at LOD 0 with one pass of layer 7: color texture 0 with
    the identity, color-parent texture 0 with the matrix of quadrant 0; an
    elevation texture 1 with the identity. *)
Definition root {NM} (blending : bool) : TileNode NM :=
  with_renderModel
    (mkRenderModel
       [ Sampler_default; Sampler_default; mkSampler (Some (T 1)) Matrixf.identity ]
       [ mkPass 7 [ mkSampler (Some (T 0)) Matrixf.identity;
                    mkSampler (Some (T 0)) (scaleBias 0) ] ])
    (with_loadRequest (Some (mkLoadTileData (TileKey.mk 0 0 0) ∅))
       (with_surface (Some (mkSurface None Matrixf.identity))
          (with_context (Some (context blending)) TileNode_new))).

End CreateExample.

Module Scenario.

(** A culler over [context blending] at frame 1: every tile is visible,
    only the tile at LOD 0 has its children in range. *)
Definition culler {NM} (blending : bool) (camera : option ReferenceFrame)
    : TerrainCuller NM :=
  mkCuller (CreateExample.context blending) (mkFrameStamp 1 (d_one NM)) camera
    (fun _ => false) (fun _ => true) None (fun _ => f_one NM)
    (fun n _ => bool_decide (TileKey.getLOD (_key n) = 0))
    (fun _ => f_one NM)
    false.

(** The root with its four children made and ready. *)
Definition tree {NM} (blending : bool) : TileNode NM :=
  match createChildren (CreateExample.context blending) (CreateExample.root blending) with
  | Some (this, _) => with_childrenReady true this
  | None => CreateExample.root blending
  end.

(** The root after new data: the color texture is now texture 2. *)
Definition parent {NM} (blending : bool) : TileNode NM :=
  with_renderModel
    (mkRenderModel
       [ Sampler_default; Sampler_default; mkSampler (Some (CreateExample.T 1)) Matrixf.identity ]
       [ mkPass 7 [ mkSampler (Some (CreateExample.T 2)) Matrixf.identity;
                    mkSampler (Some (CreateExample.T 2)) Matrixf.identity ] ])
    (CreateExample.root blending).

(** A node at LOD 1 that holds its own data in every sampler, with four
    children made and ready. *)
Definition ownData {NM} (blending : bool) : TileNode NM :=
  let own := mkSampler (NM := NM) (Some (CreateExample.T 3)) Matrixf.identity in
  let this :=
    with_key (TileKey.mk 1 0 0)
      (with_renderModel (mkRenderModel [own; own; own] [mkPass 7 [own; own]])
         (CreateExample.root blending)) in
  match createChildren (CreateExample.context blending) this with
  | Some (this, _) => with_childrenReady true this
  | None => this
  end.

(** A parent with a pass of layer 8, which [ownData] has not. *)
Definition parentWithLayer8 {NM} : TileNode NM :=
  with_renderModel
    (mkRenderModel []
       [ mkPass 8 [ mkSampler (Some (CreateExample.T 2)) Matrixf.identity ] ])
    (CreateExample.root false).

(** A tile model with the image layer 7: texture 5 and the matrix of
    quadrant 0; and an elevation texture 6. *)
Definition tileModel {NM} : TerrainTileModel NM :=
  mkTileModel
    [ ImageLayerModel (mkImageLayerModel 7 (Some (CreateExample.T 5)) (scaleBias 0) false) ]
    (Some (Some (CreateExample.T 6))) None [].

(** A tile model with two color layers that are not image layers: layer
    9, which the root has no pass for, and layer 7. *)
Definition splatModel {NM} : TerrainTileModel NM :=
  mkTileModel [ OtherColorLayerModel (Some 9); OtherColorLayerModel (Some 7) ]
              None None [].

End Scenario.

(** The runs of the scenarios, with the node and the events they end
    with. *)
Module Runs.

(** The root, without children, visited by a culler that has its children
    in range: the four children are made, and visited in turn. *)
Abbreviation visit :=
  (traverse (NM := IEEE) 2 (CULL_VISITOR (Scenario.culler false None))
            (CreateExample.root false)).
Definition visit_node : TileNode IEEE :=
  Eval vm_compute in match visit with Some (this, _) => this | None => TileNode_new end.
Definition visit_events : list (Event IEEE) := Eval vm_compute in events visit.

(** The tree visited by a camera that inherits the viewpoint. *)
Abbreviation shadow :=
  (traverse (NM := IEEE) 2
     (CULL_VISITOR (Scenario.culler false (Some ABSOLUTE_RF_INHERIT_VIEWPOINT)))
     (Scenario.tree false)).
Definition shadow_node : TileNode IEEE :=
  Eval vm_compute in match shadow with Some (this, _) => this | None => TileNode_new end.
Definition shadow_events : list (Event IEEE) := Eval vm_compute in events shadow.

(** New data of the root pushed into the tree. *)
Abbreviation push :=
  (refreshInheritedData (NM := IEEE) (Scenario.parent false)
     (CreateExample.bindings false) (Scenario.tree false)).
Definition push_node : TileNode IEEE :=
  Eval vm_compute in match push with Some (this, _) => this | None => TileNode_new end.
Definition push_events : list (Event IEEE) := Eval vm_compute in events push.

(** The tile model merged into the root of the tree. *)
Abbreviation merged :=
  (merge (NM := IEEE) Scenario.tileModel (CreateExample.bindings false)
         (Scenario.tree false)).
Definition merged_node : TileNode IEEE :=
  Eval vm_compute in match merged with Some (this, _) => this | None => TileNode_new end.
Definition merged_events : list (Event IEEE) := Eval vm_compute in events merged.

(** The model with the layers 9 and 7 merged into the root of the tree. *)
Abbreviation splat :=
  (merge (NM := IEEE) Scenario.splatModel (CreateExample.bindings false)
         (Scenario.tree false)).
Definition splat_node : TileNode IEEE :=
  Eval vm_compute in match splat with Some (this, _) => this | None => TileNode_new end.
Definition splat_events : list (Event IEEE) := Eval vm_compute in events splat.

End Runs.

(* ===================================================================== *)
(** ** TileNode.cpp: refreshSharedSamplers and loadChildren *)
(* ===================================================================== *)

Section TileNodeCppMore.
Context {NM : NumModel}.

(** *** refreshSharedSamplers *)

(** The body of the loop: shared sampler [i] loses its texture when
    binding [i] is not active. *)
Definition clearInactive (bindings : RenderBindings) (shared : Samplers NM) (i : nat)
    : Samplers NM :=
  if negb (SamplerBinding.isActive (binding bindings i))
  then <[i := mkSampler None (_matrix (sampler_at shared i))]> shared
  else shared.

Definition refreshSharedSamplers (bindings : RenderBindings) (this : TileNode NM)
    : TileNode NM :=
  let shared := _sharedSamplers (_renderModel this) in
  with_renderModel
    (with_sharedSamplers
       (fold_left (clearInactive bindings) (seq 0 (length shared)) shared)
       (_renderModel this))
    this.

(** *** loadChildren *)

(** [loadSync] builds a LoadTileData for the child and invokes and applies
    it at once; what that does to the child is a parameter.  The node is
    locked for the whole call. *)
Definition loadChildren (loadSync : TileNode NM -> Op NM (TileNode NM))
    (this : TileNode NM) : Op NM (TileNode NM) :=
  if negb (_childrenReady this) then
    let* context := deref (_context this) in
    let* this := createChildren context this in
    let this := with_childrenReady true this in
    let numChildren := getNumChildren this in
    if (0 <? numChildren)%nat then
      let* children := acceptChildren loadSync (_children this) in
      ret (with_children children this)
    else ret this
  else ret this.

(** *** updateNormalMap, notifyOfArrival *)

(** An [osg::observer_ptr] on a tile: whether it is valid, and the tile
    that [lock] yields when it succeeds. *)
Record Observer : Type := mkObserver {
  valid : bool;
  lock : option (TileNode NM)
}.

(** The links to the neighbours, members of the node that the record of
    the node leaves out. *)
Record Neighbors : Type := mkNeighbors {
  _eastNeighbor : Observer;
  _southNeighbor : Observer
}.

(** What updateNormalMap does to the images: [writeThis(readThat(s, t),
    s', t')] and [image->dirty()]. *)
Inductive PixelOp : Type :=
| CopyPixel (that : Image) (s t : Z) (this : Image) (s' t' : Z)
| ImageDirty (image : Image).

(** The image of a normal map that can be stitched: the sampler has a
    texture, its matrix is the identity, and the texture has an image. *)
Definition stitchable (normalMap : Sampler NM) : option Image :=
  if negb (textureValid normalMap) || negb (Matrixf.isIdentity (_matrix normalMap))
  then None
  else match _texture normalMap with
       | Some tex => getImage0 tex
       | None => None
       end.

(** The values of a loop [for (int i = 0; i < n; ++i)]. *)
Definition upto (n : Z) : list Z := map Z.of_nat (seq 0 (Z.to_nat n)).

(** The part of updateNormalMap for one neighbour that could be locked;
    [None] when the function returns before it writes.  [size] gives the
    [s()] and [t()] of an image. *)
Definition stitchEdge (size : Image -> Z * Z) (that : TileNode NM) (thisImage : Image)
    (copy : Z -> Z -> Image -> list PixelOp) : option (list PixelOp) :=
  match stitchable (sampler_at (_sharedSamplers (_renderModel that)) SamplerBinding.NORMAL) with
  | None => None
  | Some thatImage =>
      let width := fst (size thisImage) in
      let height := snd (size thisImage) in
      if negb (width =? fst (size thatImage)) || negb (height =? snd (size thatImage))
      then None
      else Some (copy width height thatImage ++ [ImageDirty thisImage])
  end.

Definition updateNormalMap (size : Image -> Z * Z) (links : Neighbors)
    (this : TileNode NM) : list PixelOp :=
  if negb (_stitchNormalMap this) then []
  else
    match stitchable (sampler_at (_sharedSamplers (_renderModel this))
                                 SamplerBinding.NORMAL) with
    | None => []
    | Some thisImage =>
        if negb (valid (_eastNeighbor links)) || negb (valid (_southNeighbor links))
        then []
        else
          let east :=
            match lock (_eastNeighbor links) with
            | Some east =>
                stitchEdge size east thisImage
                  (fun width height thatImage =>
                     map (fun t => CopyPixel thatImage 0 t thisImage (width - 1) t)
                         (upto height))
            | None => Some []
            end in
          match east with
          | None => []
          | Some eastOps =>
              eastOps ++
              match lock (_southNeighbor links) with
              | Some south =>
                  match stitchEdge size south thisImage
                          (fun width height thatImage =>
                             map (fun s => CopyPixel thatImage s (height - 1) thisImage s 0)
                                 (upto width)) with
                  | Some southOps => southOps
                  | None => []
                  end
              | None => []
              end
          end
    end.

(** [createNeighborKey] is the key of the tile that many columns and rows
    away, as TileKey computes it. *)
Definition notifyOfArrival (createNeighborKey : TileKey.t -> Z -> Z -> TileKey.t)
    (size : Image -> Z * Z) (that : TileNode NM) (links : Neighbors)
    (this : TileNode NM) : Neighbors * list PixelOp :=
  let links :=
    if bool_decide (createNeighborKey (_key this) 1 0 = getKey that)
    then mkNeighbors (mkObserver true (Some that)) (_southNeighbor links)
    else links in
  let links :=
    if bool_decide (createNeighborKey (_key this) 0 1 = getKey that)
    then mkNeighbors (_eastNeighbor links) (mkObserver true (Some that))
    else links in
  (links, updateNormalMap size links this).

End TileNodeCppMore.
Arguments Observer : clear implicits.
Arguments Neighbors : clear implicits.

(* ===================================================================== *)
(** ** Vocabulary of the further properties *)
(* ===================================================================== *)

Section VocabularyMore.
Context {NM : NumModel}.

(** The number of levels below a node. *)
Fixpoint height (this : TileNode NM) : nat :=
  match _children this with
  | [] => O
  | _ => S (fold_right Nat.max O (map height (_children this)))
  end.

(** The leaves of the tree that have a surface, left to right. *)
Fixpoint leaf_surfaces (this : TileNode NM) : list TileKey.t :=
  match _children this with
  | [] => if bool_decide (_surface this <> None) then [_key this] else []
  | _ => flat_map leaf_surfaces (_children this)
  end.

(** The surfaces a stealth traversal draws: going down from a node that is
    not empty, the first nodes whose surface was accepted less than two
    frames before the culler's frame. *)
Fixpoint stealth_surfaces (culler : TerrainCuller NM) (this : TileNode NM)
    : list TileKey.t :=
  if _empty this then []
  else if (getFrameNumber (getFrameStamp culler) - _lastAcceptSurfaceFrame this)
            mod two32 <? 2
  then [_key this]
  else if _childrenReady this
  then flat_map (stealth_surfaces culler) (_children this)
  else [].

(** Every node of the tree that is not empty has a surface, as [create]
    leaves it. *)
Fixpoint surfaces_ok (this : TileNode NM) : bool :=
  (_empty this || bool_decide (_surface this <> None))
  && forallb surfaces_ok (_children this).

(** A tree without its data: every render model and surface taken away,
    in the node and in all its descendants. *)
Fixpoint erase_data (this : TileNode NM) : TileNode NM :=
  with_children (map erase_data (_children this))
    (with_surface None (with_renderModel TileRenderModel_default this)).

(** The layers of the passes, in the order of the passes. *)
Definition passUIDs (model : TileRenderModel NM) : list UID :=
  map sourceUID (_passes model).

(** Whether the camera of the culler inherits the viewpoint. *)
Definition inheritsViewpoint (culler : TerrainCuller NM) : bool :=
  match getCamera culler with
  | Some ABSOLUTE_RF_INHERIT_VIEWPOINT => true
  | _ => false
  end.

(** An event that draws a surface. *)
Definition isSurfaceAccept (e : Event NM) : Prop := exists key, e = Surface_accept key.

(** Whether a cull of the node makes its children: they are in range and
    not there yet, the node is not waiting for its data in progressive
    mode, and the camera does not inherit the viewpoint. *)
Definition createsChildren (culler : TerrainCuller NM) (this : TileNode NM)
    (childrenInRange : bool) : bool :=
  childrenInRange && negb (_childrenReady this)
  && negb (_dirty this && progressive (getOptions (getEngineContext culler)))
  && negb (inheritsViewpoint culler).

(** The load at the end of a cull of a node that did not make its
    children. *)
Definition loadsData (culler : TerrainCuller NM) (this : TileNode NM)
    (ev : list (Event NM)) : Prop :=
  when (_dirty this && negb (inheritsViewpoint culler)) (load culler this) = Some (tt, ev).

(** The members that decide dormancy. *)
Definition clock (this : TileNode NM) : Z * double NM * Z * double NM :=
  (_lastTraversalFrame this, _lastTraversalTime this,
   _minExpiryFrames this, _minExpiryTime this).

(** Every tile of the tree is at a level below [n]. *)
Definition lods_below (n : Z) (this : TileNode NM) : Prop :=
  Forall (fun key => TileKey.getLOD key < n) (tree_keys this).

(** The calls that refreshInheritedData makes: itself on the sub-tiles,
    dirtyBound, and the warning of setElevationRaster. *)
Definition isRefreshEvent (e : Event NM) : Prop :=
  match e with
  | Call_refreshInheritedData _ | DirtyBound _ | OE_LOG WARN ElevationImageIsNull => True
  | _ => False
  end.

(** The calls that merge makes while it writes the data of the model. *)
Definition isMergeDataEvent (e : Event NM) : Prop :=
  match e with
  | TileRasterizer_push _ _ | UpdateNormalMap _ => True
  | _ => isRefreshEvent e
  end.

(** Whether merge finds new elevation data in the model. *)
Definition newElevationData (model : TerrainTileModel NM) (bindings : RenderBindings)
    : bool :=
  match SamplerBinding.isActive (binding bindings SamplerBinding.ELEVATION),
        elevationModel model with
  | true, Some (Some _) => true
  | _, _ => false
  end.

(** The layers with [u] added at the end, unless it is there already. *)
Definition addLayer (uids : list UID) (u : UID) : list UID :=
  if existsb (Z.eqb u) uids then uids else uids ++ [u].

(** The layer for which merge finds or makes a pass, for a color layer of
    the model: an image layer that carries a texture, or another color
    layer that names its layer. *)
Definition layerUID (layer : TerrainTileColorLayerModel NM) : option UID :=
  match layer with
  | ImageLayerModel l =>
      match getTexture l with Some _ => Some (getImageLayerUID l) | None => None end
  | OtherColorLayerModel (Some uid) => Some uid
  | _ => None
  end.

Definition addColorLayer (uids : list UID) (layer : TerrainTileColorLayerModel NM)
    : list UID :=
  match layerUID layer with Some u => addLayer uids u | None => uids end.

(** What the refresh makes of shared sampler [s] of a node in quadrant
    [quadrant]: the sampler as it is when it holds the tile's own data, the
    parent's sampler scaled and biased for the quadrant otherwise. *)
Definition reinherit (quadrant : nat) (parentSharedSamplers : Samplers NM)
    (s : nat) (mySampler : Sampler NM) : Sampler NM :=
  if authoritative mySampler then mySampler
  else Sampler_preMult (scaleBias quadrant) (sampler_at parentSharedSamplers s).

(** What refreshSharedSamplers makes of shared sampler [i]. *)
Definition clearedSampler (bindings : RenderBindings) (i : nat) (s : Sampler NM)
    : Sampler NM :=
  if SamplerBinding.isActive (binding bindings i) then s
  else mkSampler None (_matrix s).

(** A node that a traversal can visit: it is empty, or it has a surface
    and a context. *)
Definition node_ok (this : TileNode NM) : bool :=
  _empty this
  || (bool_decide (_surface this <> None) && bool_decide (_context this <> None)).

(** A well-formed tree: every node can be visited and has no child or
    four ready ones, each one level below it. *)
Fixpoint wellFormed (this : TileNode NM) : bool :=
  node_ok this && childCount_ok this
  && forallb (fun c => bool_decide (TileKey.getLOD (_key c)
                                    = TileKey.getLOD (_key this) + 1))
             (_children this)
  && forallb wellFormed (_children this).

(** What accepting the culler does to a node that is well formed: it
    returns a node that is well formed and has the same key. *)
Definition returns_ok (accept : TileNode NM -> Op NM (TileNode NM)) (c : TileNode NM)
    : Prop :=
  exists c' e, accept c = Some (c', e) /\ wellFormed c' = true /\ _key c' = _key c.

(** A child as createChildren makes it for a quadrant, before any
    traversal has reached it. *)
Definition freshChild (ctx : EngineContext NM) (parentKey : TileKey.t) (quadrant : nat)
    (c : TileNode NM) : Prop :=
  let key := TileKey.createChildKey parentKey quadrant in
  _key c = key /\ _context c = Some ctx
  /\ _minExpiryFrames c = default 0 (minExpiryFrames (getOptions ctx))
  /\ _minExpiryTime c = default (d_zero NM) (minExpiryTime (getOptions ctx))
  /\ _lastTraversalFrame c = 0
  /\ _children c = [] /\ _childrenReady c = false
  /\ _newLayers c = ∅
  /\ (if pooledGeometryEmpty ctx key
      then _empty c = true /\ _surface c = None /\ _dirty c = false
           /\ _loadRequest c = None
      else _empty c = false /\ _surface c <> None /\ _dirty c = true
           /\ _loadRequest c = Some (mkLoadTileData key ∅)).

(** The tiles of [a] are tiles of [b], and the two have the same key. *)
Definition keeps_tiles (a b : TileNode NM) : Prop :=
  _key b = _key a /\ incl (tree_keys a) (tree_keys b).

(** A pixel operation that writes the last column of [image] from the
    first column of another image, row by row. *)
Definition writesEastEdge (size : Image -> Z * Z) (image : Image) (op : PixelOp) : Prop :=
  exists that t,
    op = CopyPixel that 0 t image (fst (size image) - 1) t
    /\ size that = size image /\ 0 <= t < snd (size image).

(** A pixel operation that writes the first row of [image] from the last
    row of another image, column by column. *)
Definition writesSouthEdge (size : Image -> Z * Z) (image : Image) (op : PixelOp) : Prop :=
  exists that s,
    op = CopyPixel that s (snd (size image) - 1) image s 0
    /\ size that = size image /\ 0 <= s < fst (size image).

(** Whether refreshInheritedData leaves sampler [s] of a pass as it is.
    The color-parent sampler, when its binding is active, must carry the
    texture of the parent's color sampler and a matrix that does not
    compare different from the parent's color matrix scaled and biased for
    the quadrant; any other sampler must hold the tile's own data. *)
Definition sampler_converged (bindings : RenderBindings) (quadrant : nat)
    (parentPass : RenderingPass NM) (s : nat) (mySampler : Sampler NM) : bool :=
  if Nat.eqb s SamplerBinding.COLOR_PARENT
     && SamplerBinding.isActive (binding bindings SamplerBinding.COLOR_PARENT)
  then
    let parentSampler := sampler_at (samplers parentPass) SamplerBinding.COLOR in
    bool_decide (_texture mySampler = _texture parentSampler)
    && negb (Matrixf.neq (_matrix mySampler)
                         (Matrixf.preMult (_matrix parentSampler) (scaleBias quadrant)))
  else authoritative mySampler.

(** Whether the node has a pass of the layer of the parent's pass, all of
    whose samplers refreshInheritedData leaves as they are. *)
Definition pass_converged (bindings : RenderBindings) (quadrant : nat)
    (model : TileRenderModel NM) (parentPass : RenderingPass NM) : bool :=
  match getPass (sourceUID parentPass) model with
  | Some myPass =>
      forallb (fun s => sampler_converged bindings quadrant parentPass s
                          (sampler_at (samplers myPass) s))
              (seq 0 (length (samplers myPass)))
  | None => false
  end.

(** A node that has nothing to inherit from the parent: [pass_converged]
    for every pass of the parent, and every shared sampler holds the tile's
    own data. *)
Definition converged (parent : TileNode NM) (bindings : RenderBindings)
    (this : TileNode NM) : bool :=
  forallb (pass_converged bindings (TileKey.getQuadrant (getKey this)) (_renderModel this))
          (_passes (_renderModel parent))
  && forallb authoritative (_sharedSamplers (_renderModel this)).

(** What refreshInheritedData makes of sampler [s] of a pass that the
    parent also has; [color] is the color sampler of the pass when the
    color-parent sampler is reached.  A sampler that has not converged
    becomes the parent's sampler scaled and biased for the quadrant; the
    color-parent sampler, when its binding is active, becomes the parent's
    color sampler scaled and biased, or the node's own color sampler when
    the parent's color sampler has no texture. *)
Definition reinheritSampler (bindings : RenderBindings) (quadrant : nat)
    (parentPass : RenderingPass NM) (color : Sampler NM) (s : nat)
    (mySampler : Sampler NM) : Sampler NM :=
  if sampler_converged bindings quadrant parentPass s mySampler then mySampler
  else if Nat.eqb s SamplerBinding.COLOR_PARENT
          && SamplerBinding.isActive (binding bindings SamplerBinding.COLOR_PARENT)
  then
    let parentSampler := sampler_at (samplers parentPass) SamplerBinding.COLOR in
    if textureValid parentSampler
    then mkSampler (_texture parentSampler)
                   (Matrixf.preMult (_matrix parentSampler) (scaleBias quadrant))
    else color
  else Sampler_preMult (scaleBias quadrant) (sampler_at (samplers parentPass) s).

(** What refreshInheritedData makes of a pass that the parent also has. *)
Definition reinheritPass (bindings : RenderBindings) (quadrant : nat)
    (parentPass myPass : RenderingPass NM) : RenderingPass NM :=
  let color :=
    reinheritSampler bindings quadrant parentPass Sampler_default SamplerBinding.COLOR
                     (sampler_at (samplers myPass) SamplerBinding.COLOR) in
  with_samplers (imap (reinheritSampler bindings quadrant parentPass color)
                      (samplers myPass))
                myPass.

(** The pass that refreshInheritedData adds for a pass of the parent that
    the node has not: a copy, every matrix scaled and biased for the
    quadrant. *)
Definition addedPass (quadrant : nat) (parentPass : RenderingPass NM) : RenderingPass NM :=
  with_samplers (map (Sampler_preMult (scaleBias quadrant)) (samplers parentPass))
                parentPass.

End VocabularyMore.

(* ===================================================================== *)
(** ** Further scenarios *)
(* ===================================================================== *)

Module Further.

(** The culler of [Scenario.culler] in a stealth traversal, one frame
    later. *)
Definition stealthCuller {NM} : TerrainCuller NM :=
  mkCuller (CreateExample.context false) (mkFrameStamp 2 (d_one NM)) None
    (fun _ => false) (fun _ => true) None (fun _ => f_one NM)
    (fun n _ => bool_decide (TileKey.getLOD (_key n) = 0))
    (fun _ => f_one NM)
    true.

(** A culler in progressive mode that finds every child in range. *)
Definition progressiveCuller {NM} : TerrainCuller NM :=
  mkCuller
    (mkContext
       (mkOptions false true true DISTANCE_FROM_EYE_POINT (f_of_int NM 256) None None)
       (CreateExample.bindings false)
       (mkSelectionInfo 20 (fun _ => mkVisParameters (d_one NM) (d_one NM)))
       (fun _ => false))
    (mkFrameStamp 1 (d_one NM)) None
    (fun _ => false) (fun _ => true) None (fun _ => f_one NM)
    (fun _ _ => true)
    (fun _ => f_one NM)
    false.

(** The root, waiting for its data. *)
Definition dirtyRoot {NM} : TileNode NM := with_dirty true (CreateExample.root false).

(** A tile at LOD 1, whose children the culler of [Scenario.culler] finds
    out of range, and a tile at the last of the 20 LODs. *)
Definition tileAtLOD {NM} (lod : Z) : TileNode NM :=
  with_key (TileKey.mk lod 0 0) (CreateExample.root false).

(** A tile at LOD 9, at the distance [far] of [PriorityExample.culler]. *)
Definition tileC {NM} : TileNode NM := with_key (TileKey.mk 9 1 0) TileNode_new.

(** A tile with its own normal map, texture 3, that stitches its edges,
    and its neighbours. *)
Definition normalTile {NM} (tex : Z) : TileNode NM :=
  let own := mkSampler (NM := NM) (Some (CreateExample.T tex)) Matrixf.identity in
  with_stitchNormalMap true
    (with_renderModel (mkRenderModel [own; own; own; own] [])
       (CreateExample.root false)).

Definition links {NM} : Neighbors NM :=
  mkNeighbors (mkObserver true (Some (normalTile 4)))
              (mkObserver true (Some (normalTile 5))).

(** Images of two columns and two rows. *)
Definition size (image : Image) : Z * Z := (2, 2).

(** A load of a child that merges the tile model of [Scenario.tileModel]
    at once. *)
Definition loadSync {NM} (child : TileNode NM) : Op NM (TileNode NM) :=
  merge Scenario.tileModel (CreateExample.bindings false) child.

End Further.

Module FurtherRuns.

(** A stealth traversal at frame 2 of the tree that [Runs.visit] left at
    frame 1. *)
Abbreviation stealth :=
  (traverse (NM := IEEE) 1 (CULL_VISITOR Further.stealthCuller) Runs.visit_node).
Definition stealth_events : list (Event IEEE) := Eval vm_compute in events stealth.

(** The cull of the dirty root in progressive mode. *)
Abbreviation progressive :=
  (cull (NM := IEEE) (fun _ => fail) Further.progressiveCuller Further.dirtyRoot).
Definition progressive_node : TileNode IEEE :=
  Eval vm_compute in
    match progressive with Some (this, _, _) => this | None => TileNode_new end.
Definition progressive_events : list (Event IEEE) := Eval vm_compute in events progressive.

(** The cull of a tile at LOD 1, whose children are out of range. *)
Abbreviation far :=
  (cull (NM := IEEE) (fun _ => fail) (Scenario.culler false None) (Further.tileAtLOD 1)).
Definition far_node : TileNode IEEE :=
  Eval vm_compute in match far with Some (this, _, _) => this | None => TileNode_new end.
Definition far_events : list (Event IEEE) := Eval vm_compute in events far.

(** The four children of the root. *)
Abbreviation children :=
  (createChildren (NM := IEEE) (CreateExample.context false) (CreateExample.root false)).
Definition children_node : TileNode IEEE :=
  Eval vm_compute in match children with Some (this, _) => this | None => TileNode_new end.
Definition children_events : list (Event IEEE) := Eval vm_compute in events children.

(** A child of the root in quadrant 1, and the new data of the root
    pushed into it. *)
Abbreviation child :=
  (create (NM := IEEE) (TileKey.mk 1 1 0) (Some (CreateExample.root false))
          (Some (CreateExample.context false)) TileNode_new).
Definition child_node : TileNode IEEE :=
  Eval vm_compute in match child with Some (this, _) => this | None => TileNode_new end.
Definition child_events : list (Event IEEE) := Eval vm_compute in events child.

Abbreviation refreshed :=
  (refreshInheritedData (NM := IEEE) (Scenario.parent false) (CreateExample.bindings false)
                        child_node).
Definition refreshed_node : TileNode IEEE :=
  Eval vm_compute in match refreshed with Some (this, _) => this | None => TileNode_new end.
Definition refreshed_events : list (Event IEEE) := Eval vm_compute in events refreshed.

(** A parent with a layer that the node has not. *)
Abbreviation layered :=
  (refreshInheritedData (NM := IEEE) Scenario.parentWithLayer8 (CreateExample.bindings false)
                        (Scenario.ownData false)).
Definition layered_node : TileNode IEEE :=
  Eval vm_compute in match layered with Some (this, _) => this | None => TileNode_new end.
Definition layered_events : list (Event IEEE) := Eval vm_compute in events layered.

(** The node that holds its own data, refreshed from the root. *)
Abbreviation settled :=
  (refreshInheritedData_here (NM := IEEE) (Scenario.parent false)
     (CreateExample.bindings false) (Scenario.ownData false)).
Definition settled_node : TileNode IEEE :=
  Eval vm_compute in
    match settled with Some (this, _, _) => this | None => TileNode_new end.

(** The children of the root loaded at once. *)
Abbreviation loaded :=
  (loadChildren (NM := IEEE) Further.loadSync (CreateExample.root false)).
Definition loaded_node : TileNode IEEE :=
  Eval vm_compute in match loaded with Some (this, _) => this | None => TileNode_new end.
Definition loaded_events : list (Event IEEE) := Eval vm_compute in events loaded.

End FurtherRuns.

(** The convergence test on nodes that create, loadChildren and merge
    make: a root is created, its four children are made and their own data
    (layer 7, texture 5, with the identity) is merged into each of them at
    once; then new data (layer 7, texture 2) is merged into the root,
    which pushes it to the children. *)
Module ConvergenceModels.

Definition leafModel {NM} : TerrainTileModel NM :=
  mkTileModel
    [ ImageLayerModel (mkImageLayerModel 7 (Some (CreateExample.T 5)) Matrixf.identity false) ]
    None None [].

Definition rootModel {NM} : TerrainTileModel NM :=
  mkTileModel
    [ ImageLayerModel (mkImageLayerModel 7 (Some (CreateExample.T 2)) Matrixf.identity false) ]
    None None [].

Definition loadSync {NM} (blending : bool) (child : TileNode NM) : Op NM (TileNode NM) :=
  merge leafModel (CreateExample.bindings blending) child.

End ConvergenceModels.

(** The convergence test with the color-parent binding active. *)
Module Convergence.

(** The root, created without a parent. *)
Abbreviation created :=
  (create (NM := IEEE) (TileKey.mk 0 0 0) None (Some (CreateExample.context true))
          TileNode_new).
Definition created_node : TileNode IEEE :=
  Eval vm_compute in match created with Some (this, _) => this | None => TileNode_new end.

(** The root with its four children, their own data merged. *)
Abbreviation loaded := (loadChildren (ConvergenceModels.loadSync true) created_node).
Definition loaded_node : TileNode IEEE :=
  Eval vm_compute in match loaded with Some (this, _) => this | None => TileNode_new end.

(** The first child, with its own data. *)
Definition leaf : TileNode IEEE :=
  Eval vm_compute in nth 0 (_children loaded_node) TileNode_new.

(** The root after the merge of the new data, which refreshes the
    children. *)
Abbreviation pushed :=
  (merge ConvergenceModels.rootModel (CreateExample.bindings true) loaded_node).
Definition pushed_node : TileNode IEEE :=
  Eval vm_compute in match pushed with Some (this, _) => this | None => TileNode_new end.
Definition pushed_events : list (Event IEEE) := Eval vm_compute in events pushed.

(** The first child after the merge into the root. *)
Definition pushed_leaf : TileNode IEEE :=
  Eval vm_compute in nth 0 (_children pushed_node) TileNode_new.

End Convergence.

(** The convergence test with the color-parent binding not active. *)
Module ConvergencePlain.

(** The root, created without a parent. *)
Abbreviation created :=
  (create (NM := IEEE) (TileKey.mk 0 0 0) None (Some (CreateExample.context false))
          TileNode_new).
Definition created_node : TileNode IEEE :=
  Eval vm_compute in match created with Some (this, _) => this | None => TileNode_new end.

(** The root with its four children, their own data merged. *)
Abbreviation loaded := (loadChildren (ConvergenceModels.loadSync false) created_node).
Definition loaded_node : TileNode IEEE :=
  Eval vm_compute in match loaded with Some (this, _) => this | None => TileNode_new end.

(** The first child, with its own data. *)
Definition leaf : TileNode IEEE :=
  Eval vm_compute in nth 0 (_children loaded_node) TileNode_new.

(** The root after the merge of the new data, which refreshes the
    children. *)
Abbreviation pushed :=
  (merge ConvergenceModels.rootModel (CreateExample.bindings false) loaded_node).
Definition pushed_node : TileNode IEEE :=
  Eval vm_compute in match pushed with Some (this, _) => this | None => TileNode_new end.
Definition pushed_events : list (Event IEEE) := Eval vm_compute in events pushed.

(** The first child after the merge into the root. *)
Definition pushed_leaf : TileNode IEEE :=
  Eval vm_compute in nth 0 (_children pushed_node) TileNode_new.

End ConvergencePlain.

(* ===================================================================== *)
(** ** Basic facts about the monad and the members *)
(* ===================================================================== *)

Section Basics.
Context {NM : NumModel}.

Lemma bind_Some {A B} (m : Op NM A) (f : A -> Op NM B) b ev :
  bind m f = Some (b, ev) ->
  exists a ev1 ev2, m = Some (a, ev1) /\ f a = Some (b, ev2) /\ ev = ev1 ++ ev2.
Proof.
  unfold bind. destruct m as [[a ev1]|]; [|discriminate].
  destruct (f a) as [[b' ev2]|] eqn:Hf; [|discriminate].
  intros [= <- <-]. eauto 6.
Qed.

Lemma bind_ret_l {A B} (a : A) (f : A -> Op NM B) : bind (ret a) f = f a.
Proof. unfold bind, ret. destruct (f a) as [[b ev]|]; reflexivity. Qed.

Lemma bind_emit {B} (e : Event NM) (f : unit -> Op NM B) b ev :
  bind (emit e) f = Some (b, ev) ->
  exists ev', f tt = Some (b, ev') /\ ev = e :: ev'.
Proof.
  intros H. apply bind_Some in H as (a & ev1 & ev2 & He & Hf & ->).
  destruct a. injection He as <-. eauto.
Qed.

End Basics.

(* ===================================================================== *)
(** ** Dormancy *)
(* ===================================================================== *)

Lemma SFcompare_swap x y :
  SFcompare y x = option_map CompOpp (SFcompare x y).
Proof.
  destruct x as [sx| sx | |sx mx ex], y as [sy|sy| |sy my ey]; simpl;
    try reflexivity;
    try (destruct sx; reflexivity);
    try (destruct sy; reflexivity);
    try (destruct sx, sy; reflexivity).
  change (Pos.compare_cont Eq) with Pos.compare.
  destruct sx, sy; simpl; try reflexivity;
    rewrite (Z.compare_antisym ey ex);
    destruct (ey ?= ex)%Z; simpl; try reflexivity;
    rewrite (Pos.compare_antisym my mx);
    destruct (my ?= mx)%positive; reflexivity.
Qed.

Lemma SFleb_not_gt a b : SFleb a b = true -> SFltb b a = false.
Proof.
  unfold SFleb, SFltb. rewrite (SFcompare_swap a b).
  destruct (SFcompare a b) as [[]|]; simpl; congruence.
Qed.

(** C6.  isDormant answers true exactly when the frames elapsed since the
    last traversal exceed max(minExpiryFrames, 3) and the time elapsed
    exceeds the minimum expiry time.  In particular a node last traversed
    at frame F is not dormant at frame F + minExpiryFrames - 1 (a frame
    stamp that is not older than the last traversal), and a node whose
    elapsed time is at or below the minimum expiry time is not dormant,
    whatever the frame gap. *)
Theorem isDormant_threshold (this : TileNode IEEE) (fs : FrameStamp IEEE) :
  (isDormant this (Some fs) = true <->
     Z.max (_minExpiryFrames this) 3 < framesElapsed this fs
     /\ SFltb (_minExpiryTime this) (timeElapsed this fs) = true)
  /\ (0 <= _minExpiryFrames this < two32 ->
      _lastTraversalFrame this <= getFrameNumber fs ->
      getFrameNumber fs = _lastTraversalFrame this + _minExpiryFrames this - 1 ->
      isDormant this (Some fs) = false)
  /\ (SFleb (timeElapsed this fs) (_minExpiryTime this) = true ->
      isDormant this (Some fs) = false).
Proof.
  unfold isDormant, framesElapsed, timeElapsed, minMinExpiryFrames.
  split; [|split].
  - rewrite andb_true_iff, Z.ltb_lt. reflexivity.
  - intros Hm Hle Hfs.
    apply andb_false_iff. left. apply Z.ltb_ge.
    replace (getFrameNumber fs - _lastTraversalFrame this)
      with (_minExpiryFrames this - 1) by lia.
    rewrite Z.mod_small by (unfold two32 in *; lia). lia.
  - intros Hle. apply andb_false_iff. right.
    apply (SFleb_not_gt _ _ Hle).
Qed.

(** A node with minExpiryFrames 5, last traversed at frame 10 and time 0,
    asked at frame 14 and time 0. *)
Lemma isDormant_threshold_witness :
  let this := with_lastTraversalFrame 10 (with_minExpiryFrames 5 (TileNode_new (NM := IEEE))) in
  let fs := mkFrameStamp (NM := IEEE) 14 (S754_zero false) in
  isDormant this (Some fs) = false /\ isDormant this (Some fs) = false.
Proof.
  intros this fs.
  destruct (isDormant_threshold this fs) as (_ & Hframe & Htime).
  split.
  - apply Hframe; subst this fs; unfold two32; simpl; lia.
  - apply Htime. vm_compute. reflexivity.
Defined.

(* ===================================================================== *)
(** ** The dirty flag and the pending layers *)
(* ===================================================================== *)

Section Dirty.
Context {NM : NumModel}.

(** C10.  On a node with pending new layers, setDirty(false) does not
    leave the node clean: the pending layers become the layer filter of the
    load request, the pending set is emptied and the dirty flag is true
    again, so that the next load submits a request for the new layers only.
    Without pending layers setDirty(false) clears the flag. *)
Theorem setDirty_false_pending_layers (this : TileNode NM) :
  (_newLayers this <> ∅ ->
   forall request, _loadRequest this = Some request ->
   exists this',
     setDirty false this = Some (this', [])
     /\ _dirty this' = true
     /\ _newLayers this' = ∅
     /\ _loadRequest this' =
          Some (mkLoadTileData (getTileKey request) (_newLayers this))
     /\ (forall culler ctx, _context this = Some ctx ->
         exists priority,
           load culler this' =
             Some (tt, [Loader_load
                          (Some (mkLoadTileData (getTileKey request) (_newLayers this)))
                          priority])))
  /\ (_newLayers this = ∅ ->
      exists this',
        setDirty false this = Some (this', [])
        /\ _dirty this' = false
        /\ _newLayers this' = ∅
        /\ _loadRequest this' = _loadRequest this).
Proof.
  destruct this as [ctx key dirty ready met mef ltt ltf laf snm em sf lr nl rm ch].
  unfold setDirty. simpl. split.
  - intros Hne request ->.
    rewrite bool_decide_eq_false_2 by exact Hne. simpl.
    eexists. split; [reflexivity|]. simpl. repeat split.
    intros culler ctx' ->. eexists. unfold load. simpl. reflexivity.
  - intros ->. rewrite bool_decide_eq_true_2 by reflexivity. simpl.
    eexists. split; [reflexivity|]. simpl. auto.
Qed.

End Dirty.

(** A node with the pending layer 7 and a load request; a node without
    pending layers. *)
Lemma setDirty_false_pending_layers_witness :
  let request := mkLoadTileData (TileKey.mk 1 0 0) ∅ in
  let this :=
    with_newLayers {[ 7 ]} (with_loadRequest (Some request) (TileNode_new (NM := IEEE))) in
  (exists this', setDirty false this = Some (this', []) /\ _dirty this' = true)
  /\ (exists this', setDirty false (TileNode_new (NM := IEEE)) = Some (this', [])
                    /\ _dirty this' = false).
Proof.
  intros request this. split.
  - destruct (setDirty_false_pending_layers this) as [H _].
    destruct (H ltac:(subst this; simpl; set_solver) request eq_refl)
      as (this' & Hrun & Hdirty & _).
    exists this'. auto.
  - destruct (setDirty_false_pending_layers (TileNode_new (NM := IEEE))) as [_ H].
    destruct (H eq_refl) as (this' & Hrun & Hdirty & _).
    exists this'. auto.
Defined.

(* ===================================================================== *)
(** ** Rounding to nearest even *)
(* ===================================================================== *)

Import Round.

Lemma pow2_pos e : (0 < pow2 e)%Q.
Proof. apply Qpower_0_lt. reflexivity. Qed.

Lemma pow2_add a b : (pow2 (a + b) == pow2 a * pow2 b)%Q.
Proof. apply Qpower_plus. discriminate. Qed.

Lemma pow2_succ e : (pow2 (e + 1) == 2 * pow2 e)%Q.
Proof. rewrite pow2_add. unfold pow2 at 2. simpl. ring. Qed.

Lemma pow2_le a b : a <= b -> (pow2 a <= pow2 b)%Q.
Proof. intros H. apply Qpower_le_compat_l; [exact H|discriminate]. Qed.

Lemma pow2_lt a b : a < b -> (pow2 a < pow2 b)%Q.
Proof. intros H. apply Qpower_lt_compat_l; [exact H|reflexivity]. Qed.

Lemma pow2_lt_inv a b : (pow2 a < pow2 b)%Q -> a < b.
Proof. intros H. eapply Qpower_lt_compat_l_inv; [exact H|reflexivity]. Qed.

Lemma pow2_Z n : 0 <= n -> (pow2 n == inject_Z (2 ^ n))%Q.
Proof. intros H. unfold pow2. rewrite Zpower_Qpower by exact H. reflexivity. Qed.

Lemma inbetween_ext m l t t' : (t == t')%Q -> inbetween m l t -> inbetween m l t'.
Proof.
  intros Heq. destruct l as [|c]; simpl.
  - intros H. rewrite <- Heq. exact H.
  - intros (H1 & H2 & H3). rewrite <- Heq. auto.
Qed.

Lemma inject_Z_xO p : (inject_Z (Z.pos p~0) == 2 * inject_Z (Z.pos p))%Q.
Proof. rewrite <- (inject_Z_mult 2). reflexivity. Qed.

Lemma inject_Z_xI p : (inject_Z (Z.pos p~1) == 2 * inject_Z (Z.pos p) + 1)%Q.
Proof. rewrite <- (inject_Z_mult 2), <- (inject_Z_plus _ 1). reflexivity. Qed.

Lemma inject_Z_succ m : (inject_Z (m + 1) == inject_Z m + 1)%Q.
Proof. rewrite inject_Z_plus. reflexivity. Qed.

Ltac qcompare :=
  repeat match goal with
  | H : (_ ?= _)%Q = Lt |- _ => apply (proj2 (Qlt_alt _ _)) in H
  | H : (_ ?= _)%Q = Gt |- _ => apply (proj2 (Qgt_alt _ _)) in H
  | H : (_ ?= _)%Q = Eq |- _ => apply (proj2 (Qeq_alt _ _)) in H
  | |- (_ ?= _)%Q = Lt => apply (proj1 (Qlt_alt _ _))
  | |- (_ ?= _)%Q = Gt => apply (proj1 (Qgt_alt _ _))
  | |- (_ ?= _)%Q = Eq => apply (proj1 (Qeq_alt _ _))
  end.

Lemma shr_1_spec m r s t :
  0 <= m ->
  inbetween m (loc_of_shr_record (Build_shr_record m r s)) t ->
  let mrs' := shr_1 (Build_shr_record m r s) in
  0 <= shr_m mrs' /\ shr_m mrs' = m / 2
  /\ inbetween (shr_m mrs') (loc_of_shr_record mrs') (t * (1 # 2))%Q.
Proof.
  intros Hm H. 
  destruct m as [|[p|p|]|p]; [| | | |lia].
  - (* 0 *)
    cbn [shr_1 shr_m]. split; [lia|]. split; [reflexivity|].
    destruct r, s; cbn [loc_of_shr_record inbetween orb] in *;
      try destruct H as (H1 & H2 & H3); qcompare;
      change (inject_Z 0) with 0%Q in *; repeat split; qcompare; lra.
  - (* xI *)
    cbn [shr_1 shr_m]. split; [lia|]. split; [rewrite Pos2Z.inj_xI; apply Z.div_unique with 1; lia|].
    destruct r, s; cbn [loc_of_shr_record inbetween orb] in *;
      try destruct H as (H1 & H2 & H3); qcompare;
      rewrite inject_Z_xI in *; repeat split; qcompare; lra.
  - cbn [shr_1 shr_m]. split; [lia|]. split; [rewrite Pos2Z.inj_xO; apply Z.div_unique with 0; lia|].
    destruct r, s; cbn [loc_of_shr_record inbetween orb] in *;
      try destruct H as (H1 & H2 & H3); qcompare;
      rewrite inject_Z_xO in *; repeat split; qcompare; lra.
  - cbn [shr_1 shr_m]. split; [lia|]. split; [reflexivity|].
    destruct r, s; cbn [loc_of_shr_record inbetween orb] in *;
      try destruct H as (H1 & H2 & H3); qcompare;
      change (inject_Z 1) with 1%Q in *; change (inject_Z 0) with 0%Q in *; repeat split; qcompare; lra.
Qed.

Lemma iter_pos_nat {A} (f : A -> A) p x :
  SpecFloat.iter_pos f p x = Nat.iter (Pos.to_nat p) f x.
Proof.
  revert x. induction p as [p IH|p IH|]; intros x; cbn [SpecFloat.iter_pos].
  - rewrite !IH. rewrite Pos2Nat.inj_xI.
    replace (S (2 * Pos.to_nat p))%nat with (Pos.to_nat p + (Pos.to_nat p + 1))%nat by lia.
    rewrite !Nat.iter_add. reflexivity.
  - rewrite !IH. rewrite Pos2Nat.inj_xO.
    replace (2 * Pos.to_nat p)%nat with (Pos.to_nat p + Pos.to_nat p)%nat by lia.
    rewrite Nat.iter_add. reflexivity.
  - reflexivity.
Qed.

Lemma pow2_opp_succ n : (pow2 (- (n + 1)) == pow2 (- n) * (1 # 2))%Q.
Proof.
  replace (- (n + 1)) with (- n + - 1) by lia. rewrite pow2_add.
  unfold pow2 at 2. simpl. reflexivity.
Qed.

Lemma shr_iter_spec (n : nat) mrs t :
  0 <= shr_m mrs ->
  inbetween (shr_m mrs) (loc_of_shr_record mrs) t ->
  let mrs' := Nat.iter n shr_1 mrs in
  0 <= shr_m mrs' /\ shr_m mrs' = shr_m mrs / 2 ^ Z.of_nat n
  /\ inbetween (shr_m mrs') (loc_of_shr_record mrs') (t * pow2 (- Z.of_nat n))%Q.
Proof.
  intros Hm H. induction n as [|n IH].
  - change (Nat.iter 0 shr_1 mrs) with mrs. cbv zeta.
    split; [exact Hm|]. split; [rewrite Z.div_1_r; reflexivity|].
    eapply inbetween_ext; [|exact H]. unfold pow2. simpl. ring.
  - cbv zeta in *. rewrite Nat.iter_succ.
    destruct IH as (H0 & Hdiv & Hin).
    destruct (Nat.iter n shr_1 mrs) as [m' r' s'] eqn:Hit. cbn [shr_m] in *.
    destruct (shr_1_spec m' r' s' _ H0 Hin) as (H1 & H2 & H3).
    split; [exact H1|]. split.
    + rewrite H2, Hdiv. rewrite Nat2Z.inj_succ, Z.pow_succ_r by lia.
      rewrite Z.div_div by lia. f_equal. lia.
    + eapply inbetween_ext; [|exact H3].
      rewrite Nat2Z.inj_succ. unfold Z.succ. rewrite pow2_opp_succ. ring.
Qed.

Lemma loc_of_shr_record_of_loc m l :
  loc_of_shr_record (shr_record_of_loc m l) = l
  /\ shr_m (shr_record_of_loc m l) = m.
Proof. destruct l as [|[]]; split; reflexivity. Qed.

(** The shift to the right by [n] places. *)
Lemma shr_spec m e l x n :
  located m e l x -> 0 <= n ->
  let r := shr (shr_record_of_loc m l) e n in
  snd r = e + n
  /\ shr_m (fst r) = m / 2 ^ n
  /\ located (shr_m (fst r)) (e + n) (loc_of_shr_record (fst r)) x.
Proof.
  intros [Hm Hin] Hn.
  destruct (loc_of_shr_record_of_loc m l) as [Hl Hsm].
  destruct n as [|p|p]; [| |lia]; cbn [shr fst snd].
  - rewrite Z.add_0_r, Hl, Hsm, Z.div_1_r. repeat split; assumption.
  - rewrite iter_pos_nat.
    pose proof (shr_iter_spec (Pos.to_nat p) (shr_record_of_loc m l) (x * pow2 (- e))%Q) as H.
    rewrite Hl, Hsm in H. specialize (H Hm Hin). cbv zeta in H.
    rewrite positive_nat_Z in H. destruct H as (H1 & H2 & H3).
    split; [reflexivity|]. split; [exact H2|]. split; [exact H1|].
    eapply inbetween_ext; [|exact H3].
    replace (- (e + Z.pos p)) with (- e + - Z.pos p) by lia. rewrite pow2_add. ring.
Qed.

(** The number of binary digits. *)
Lemma digits2_pos_size p : digits2_pos p = Pos.size p.
Proof. induction p; cbn; congruence. Qed.

Lemma Zdigits2_bounds m :
  0 < m -> 2 ^ (Zdigits2 m - 1) <= m < 2 ^ Zdigits2 m.
Proof.
  destruct m as [|p|p]; try lia. intros _. cbn [Zdigits2].
  rewrite digits2_pos_size. split.
  - pose proof (Pos.size_le p) as H.
    assert (H' : 2 ^ Z.pos (Pos.size p) <= 2 * Z.pos p).
    { change (2 * Z.pos p) with (Z.pos p~0). rewrite <- Pos2Z.inj_pow. exact H. }
    replace (Z.pos (Pos.size p)) with (Z.pos (Pos.size p) - 1 + 1) in H' by lia.
    rewrite Z.pow_add_r in H' by lia. lia.
  - pose proof (Pos.size_gt p) as H. rewrite <- Pos2Z.inj_pow. exact H.
Qed.

Lemma Zdigits2_nonneg m : 0 <= Zdigits2 m.
Proof. destruct m; cbn; lia. Qed.

Lemma Zdigits2_pos m : 0 < m -> 0 < Zdigits2 m.
Proof. destruct m; cbn; lia. Qed.

(** [Zdigits2] from bounds. *)
Lemma Zdigits2_ge m k : 0 <= k -> 2 ^ k <= m -> k + 1 <= Zdigits2 m.
Proof.
  intros Hk H. assert (Hm : 0 < m) by (pose proof (Z.pow_pos_nonneg 2 k); lia).
  destruct (Zdigits2_bounds m Hm) as [_ Hlt].
  destruct (Z.le_gt_cases (k + 1) (Zdigits2 m)) as [Hle|Hgt]; [exact Hle|].
  assert (2 ^ Zdigits2 m <= 2 ^ k) by (apply Z.pow_le_mono_r; lia). lia.
Qed.

Lemma Zdigits2_le m k : 0 <= k -> 0 <= m < 2 ^ k -> Zdigits2 m <= k.
Proof.
  intros Hk [H0 H]. destruct (Z.eq_dec m 0) as [->|Hne]; [cbn; lia|].
  destruct (Zdigits2_bounds m ltac:(lia)) as [Hge _].
  destruct (Z.le_gt_cases (Zdigits2 m) k) as [Hle|Hgt]; [exact Hle|].
  assert (2 ^ k <= 2 ^ (Zdigits2 m - 1)) by (apply Z.pow_le_mono_r; lia). lia.
Qed.

Lemma pow2_inv e : (pow2 (- e) * pow2 e == 1)%Q.
Proof. rewrite <- pow2_add. replace (- e + e) with 0 by lia. reflexivity. Qed.

Lemma located_lower m e l x : located m e l x -> (F2Q m e <= x)%Q.
Proof.
  intros [_ H]. unfold F2Q.
  pose proof (pow2_pos e) as Hp. pose proof (pow2_inv e) as Hi.
  set (P := pow2 e) in *. set (P' := pow2 (- e)) in *.
  assert (Ht : (inject_Z m <= x * P')%Q).
  { destruct l as [|c]; simpl in H; [rewrite H; apply Qle_refl|].
    destruct H as (H & _). apply Qlt_le_weak. exact H. }
  assert (Hx : (x == x * P' * P)%Q) by (rewrite <- Qmult_assoc, Hi; ring).
  rewrite Hx. apply Qmult_le_compat_r; [exact Ht|apply Qlt_le_weak; exact Hp].
Qed.

Lemma located_upper m e l x : located m e l x -> (x < F2Q (m + 1) e)%Q.
Proof.
  intros [_ H]. unfold F2Q.
  pose proof (pow2_pos e) as Hp. pose proof (pow2_inv e) as Hi.
  set (P := pow2 e) in *. set (P' := pow2 (- e)) in *.
  assert (Ht : (x * P' < inject_Z (m + 1))%Q).
  { rewrite inject_Z_succ. destruct l as [|c]; simpl in H; [rewrite H; lra|].
    destruct H as (_ & H & _). exact H. }
  assert (Hx : (x == x * P' * P)%Q) by (rewrite <- Qmult_assoc, Hi; ring).
  rewrite Hx. apply Qmult_lt_compat_r; [exact Hp|exact Ht].
Qed.

Lemma F2Q_pow2_le k m e : 0 <= k -> 2 ^ k <= m -> (pow2 (k + e) <= F2Q m e)%Q.
Proof.
  intros Hk H. unfold F2Q. rewrite pow2_add, (pow2_Z k Hk).
  apply Qmult_le_compat_r; [|apply Qlt_le_weak, pow2_pos].
  rewrite <- Zle_Qle. exact H.
Qed.

Lemma F2Q_pow2_ge k m e : 0 <= k -> m <= 2 ^ k -> (F2Q m e <= pow2 (k + e))%Q.
Proof.
  intros Hk H. unfold F2Q. rewrite pow2_add, (pow2_Z k Hk).
  apply Qmult_le_compat_r; [|apply Qlt_le_weak, pow2_pos].
  rewrite <- Zle_Qle. exact H.
Qed.

(** Rounding to nearest even is monotone. *)
Lemma round_nearest_even_bounds m l : m <= round_nearest_even m l <= m + 1.
Proof. destruct l as [|[]]; cbn; try destruct (Z.even m); lia. Qed.

Lemma round_nearest_even_mono m1 l1 t1 m2 l2 t2 :
  inbetween m1 l1 t1 -> inbetween m2 l2 t2 -> (t1 <= t2)%Q ->
  round_nearest_even m1 l1 <= round_nearest_even m2 l2.
Proof.
  intros H1 H2 Ht.
  pose proof (round_nearest_even_bounds m1 l1) as B1.
  pose proof (round_nearest_even_bounds m2 l2) as B2.
  destruct (Z.lt_trichotomy m1 m2) as [Hlt|[->|Hgt]]; [lia| |].
  - destruct l1 as [|[]], l2 as [|[]]; cbn in *;
      repeat match goal with H : _ /\ _ |- _ => destruct H end; qcompare;
      try (destruct (Z.even m2); lia); try lia; exfalso; lra.
  - exfalso.
    assert (Hm : (inject_Z (m2 + 1) <= inject_Z m1)%Q) by (rewrite <- Zle_Qle; lia).
    rewrite inject_Z_succ in Hm.
    assert (Hl : (inject_Z m1 <= t1)%Q).
    { destruct l1 as [|c]; cbn in H1; [rewrite H1; apply Qle_refl|].
      destruct H1 as (H1 & _). apply Qlt_le_weak, H1. }
    assert (Hu : (t2 < inject_Z m2 + 1)%Q).
    { destruct l2 as [|c]; cbn in H2; [rewrite H2; lra|]. apply H2. }
    lra.
Qed.

Section RoundingAux.
Variables prec emax : Z.
Hypothesis prec_pos : 0 < prec.


Lemma fexp_ge_emin k : (SpecFloat.emin prec emax) <= (SpecFloat.fexp prec emax) k.
Proof. unfold SpecFloat.fexp, SpecFloat.emin. lia. Qed.

Lemma fexp_mono a b : a <= b -> (SpecFloat.fexp prec emax) a <= (SpecFloat.fexp prec emax) b.
Proof. unfold SpecFloat.fexp, SpecFloat.emin. lia. Qed.

(** The two shifts and the rounding of [binary_round_aux]. *)
Lemma binary_round_aux_spec s m e l x :
  located m e l x ->
  e <= (SpecFloat.fexp prec emax) (Zdigits2 m + e) ->
  let E := (SpecFloat.fexp prec emax) (Zdigits2 m + e) in
  exists m' l',
    located m' E l' x
    /\ 0 <= m' < 2 ^ prec
    /\ ((SpecFloat.emin prec emax) < E -> 2 ^ (prec - 1) <= m')
    /\ binary_round_aux prec emax s m e l
       = pack prec emax s (carry prec (round_nearest_even m' l') E).
Proof.
  intros Hloc Hpre E. unfold binary_round_aux, shr_fexp. fold E.
  pose proof (shr_spec m e l x (E - e) Hloc ltac:(lia)) as Hshr. cbv zeta in Hshr.
  destruct (shr (shr_record_of_loc m l) e (E - e)) as [mrs' e'] eqn:Hs1.
  cbn [fst snd] in Hshr. destruct Hshr as (He' & Hm' & Hloc').
  replace (e + (E - e)) with E in * by lia. subst e'.
  set (m' := shr_m mrs') in *. set (l' := loc_of_shr_record mrs') in *.
  assert (Hm0 : 0 <= m) by apply Hloc.
  assert (Hpow : 0 < 2 ^ (E - e)) by (apply Z.pow_pos_nonneg; lia).
  assert (Hb : 0 <= m' < 2 ^ prec).
  { split; [apply Hloc'|]. rewrite Hm'.
    destruct (Z.eq_dec m 0) as [->|Hne].
    { rewrite Z.div_0_l by lia. apply Z.pow_pos_nonneg; lia. }
    destruct (Zdigits2_bounds m ltac:(lia)) as [_ Hlt].
    apply Z.div_lt_upper_bound; [exact Hpow|].
    rewrite <- Z.pow_add_r by lia.
    eapply Z.lt_le_trans; [exact Hlt|].
    apply Z.pow_le_mono_r; [lia|]. unfold E, SpecFloat.fexp, SpecFloat.emin. lia. }
  assert (Hn : (SpecFloat.emin prec emax) < E -> 2 ^ (prec - 1) <= m').
  { intros HE. rewrite Hm'.
    assert (HEq : E = Zdigits2 m + e - prec) by (unfold E, SpecFloat.fexp, SpecFloat.emin in *; lia).
    destruct (Z.eq_dec m 0) as [->|Hne].
    { cbn [Zdigits2] in *. lia. }
    destruct (Zdigits2_bounds m ltac:(lia)) as [Hge _].
    apply Z.div_le_lower_bound; [exact Hpow|].
    rewrite <- Z.pow_add_r by lia.
    replace (E - e + (prec - 1)) with (Zdigits2 m - 1) by lia. exact Hge. }
  exists m', l'. split; [exact Hloc'|]. split; [exact Hb|]. split; [exact Hn|].
  set (M := round_nearest_even m' l').
  pose proof (round_nearest_even_bounds m' l') as HM. fold M in HM.
  assert (HE : (SpecFloat.emin prec emax) <= E) by apply fexp_ge_emin.
  unfold carry. destruct (Z.eqb_spec M (2 ^ prec)) as [Hc|Hc].
  - (* the rounding carries *)
    assert (Hd : Zdigits2 M = prec + 1).
    { apply Z.le_antisymm.
      - apply Zdigits2_le; [lia|]. rewrite Hc, Z.pow_add_r by lia.
        change (2 ^ 1) with 2. pose proof (Z.pow_pos_nonneg 2 prec); lia.
      - apply Zdigits2_ge; [lia|]. lia. }
    rewrite Hd.
    replace ((SpecFloat.fexp prec emax) (prec + 1 + E) - E) with 1 by (unfold SpecFloat.fexp, SpecFloat.emin in *; lia).
    assert (HlocM : located M E loc_Exact (F2Q M E)).
    { split; [lia|]. cbn. unfold F2Q. rewrite <- Qmult_assoc.
      rewrite (Qmult_comm (pow2 E)), pow2_inv. ring. }
    pose proof (shr_spec M E loc_Exact _ 1 HlocM ltac:(lia)) as Hshr2.
    cbv zeta in Hshr2.
    destruct (shr (shr_record_of_loc M loc_Exact) E 1) as [mrs'' e''].
    cbn [fst snd] in Hshr2. destruct Hshr2 as (-> & Hm'' & _).
    rewrite Hm'', Hc. change (2 ^ 1) with 2.
    replace (2 ^ prec / 2) with (2 ^ (prec - 1)).
    2:{ replace prec with (prec - 1 + 1) at 2 by lia.
        rewrite Z.pow_add_r by lia. change (2 ^ 1) with 2.
        rewrite Z.div_mul by lia. reflexivity. }
    reflexivity.
  - (* no carry *)
    assert (Hd : Zdigits2 M <= prec) by (apply Zdigits2_le; lia).
    assert (Hn2 : (SpecFloat.fexp prec emax) (Zdigits2 M + E) - E <= 0) by (unfold SpecFloat.fexp, SpecFloat.emin in *; lia).
    assert (Hs2 : shr (shr_record_of_loc M loc_Exact) E ((SpecFloat.fexp prec emax) (Zdigits2 M + E) - E)
                  = (shr_record_of_loc M loc_Exact, E)).
    { unfold shr. destruct ((SpecFloat.fexp prec emax) (Zdigits2 M + E) - E); try reflexivity. lia. }
    rewrite Hs2. reflexivity.
Qed.

End RoundingAux.

Lemma Pos_compare_cont_Eq p q : Pos.compare_cont Eq p q = (p ?= q)%positive.
Proof. reflexivity. Qed.

Lemma SFle_pack_false prec emax A a B b :
  0 <= A -> 0 <= B ->
  A = 0 \/ (0 < B /\ (a < b \/ (a = b /\ A <= B))) ->
  SFle (pack prec emax false (A, a)) (pack prec emax false (B, b)).
Proof.
  intros HA HB H. unfold SFle, SFleb, pack. cbn [fst snd].
  destruct A as [|A|A]; [|clear HA|lia].
  - destruct B as [|B|B]; [reflexivity| |lia].
    destruct (b <=? emax - prec); reflexivity.
  - destruct H as [H|(HB0 & H)]; [discriminate H|].
    destruct B as [|B|B]; try lia.
    destruct (Z.leb_spec a (emax - prec)) as [Ha|Ha],
             (Z.leb_spec b (emax - prec)) as [Hb|Hb]; cbn [SFcompare];
      try reflexivity; [|exfalso; lia].
    destruct H as [H|[-> H]].
    + apply Z.compare_lt_iff in H. rewrite H. reflexivity.
    + rewrite Z.compare_refl, Pos_compare_cont_Eq.
      destruct (A ?= B)%positive eqn:Hc; try reflexivity.
      apply Pos.compare_gt_iff in Hc. lia.
Qed.

Lemma SFle_pack_true prec emax A a B b :
  0 <= A -> 0 <= B ->
  A = 0 \/ (0 < B /\ (a < b \/ (a = b /\ A <= B))) ->
  SFle (pack prec emax true (B, b)) (pack prec emax true (A, a)).
Proof.
  intros HA HB H. unfold SFle, SFleb, pack. cbn [fst snd].
  destruct A as [|A|A]; [|clear HA|lia].
  - destruct B as [|B|B]; [reflexivity| |lia].
    destruct (b <=? emax - prec); reflexivity.
  - destruct H as [H|(HB0 & H)]; [discriminate H|].
    destruct B as [|B|B]; try lia.
    destruct (Z.leb_spec a (emax - prec)) as [Ha|Ha],
             (Z.leb_spec b (emax - prec)) as [Hb|Hb]; cbn [SFcompare];
      try reflexivity; [|exfalso; lia].
    destruct H as [H|[-> H]].
    + apply Z.compare_gt_iff in H. rewrite H. reflexivity.
    + rewrite Z.compare_refl, Pos_compare_cont_Eq.
      destruct (B ?= A)%positive eqn:Hc; try reflexivity.
      pose proof (proj1 (Pos.compare_lt_iff B A) Hc) as Hlt. lia.
Qed.

Section RoundingOrder.
Variables prec emax : Z.
Hypothesis prec_pos : 0 < prec.

(** The order of two rounded values, from the mantissas before the
    rounding. *)
Lemma carry_order m1 l1 E1 x1 m2 l2 E2 x2 :
  located m1 E1 l1 x1 -> located m2 E2 l2 x2 ->
  0 <= m1 < 2 ^ prec -> 0 <= m2 < 2 ^ prec ->
  (SpecFloat.emin prec emax < E2 -> 2 ^ (prec - 1) <= m2) ->
  SpecFloat.emin prec emax <= E1 ->
  E1 <= E2 -> (x1 <= x2)%Q ->
  let r1 := carry prec (round_nearest_even m1 l1) E1 in
  let r2 := carry prec (round_nearest_even m2 l2) E2 in
  0 <= fst r1 /\ 0 <= fst r2
  /\ (fst r1 = 0 \/ (0 < fst r2 /\ (snd r1 < snd r2 \/ (snd r1 = snd r2 /\ fst r1 <= fst r2)))).
Proof.
  intros L1 L2 B1 B2 N2 HE1 HE Hx.
  pose proof (round_nearest_even_bounds m1 l1) as R1.
  pose proof (round_nearest_even_bounds m2 l2) as R2.
  set (M1 := round_nearest_even m1 l1) in *.
  set (M2 := round_nearest_even m2 l2) in *.
  assert (Hp : 0 < 2 ^ (prec - 1)) by (apply Z.pow_pos_nonneg; lia).
  assert (Hpp : 2 ^ prec = 2 * 2 ^ (prec - 1)).
  { replace prec with (prec - 1 + 1) at 1 by lia. rewrite Z.pow_add_r by lia.
    change (2 ^ 1) with 2. lia. }
  assert (Hsame : E1 = E2 -> M1 <= M2).
  { intros ->. destruct L1 as [_ L1], L2 as [_ L2].
    eapply round_nearest_even_mono; [exact L1|exact L2|].
    apply Qmult_le_compat_r; [exact Hx|apply Qlt_le_weak, pow2_pos]. }
  unfold carry. cbv zeta.
  destruct (Z.eqb_spec M1 (2 ^ prec)) as [C1|C1],
           (Z.eqb_spec M2 (2 ^ prec)) as [C2|C2]; cbn [fst snd].
  - split; [lia|]. split; [lia|]. right. split; [lia|].
    destruct (Z.eq_dec E1 E2); [right|left]; lia.
  - split; [lia|]. split; [lia|].
    destruct (Z.eq_dec E1 E2) as [He|He].
    + specialize (Hsame He). lia.
    + right. specialize (N2 ltac:(lia)). split; [lia|].
      destruct (Z.eq_dec (E1 + 1) E2); [right|left]; lia.
  - split; [lia|]. split; [lia|].
    destruct (Z.eq_dec M1 0) as [H0|H0]; [left; exact H0|].
    right. split; [lia|]. left. lia.
  - split; [lia|]. split; [lia|].
    destruct (Z.eq_dec M1 0) as [H0|H0]; [left; exact H0|].
    right. destruct (Z.eq_dec E1 E2) as [He|He].
    + specialize (Hsame He). split; [lia|]. right. lia.
    + specialize (N2 ltac:(lia)). split; [lia|]. left. lia.
Qed.

(** The canonical exponent grows with the value. *)
Lemma canonical_exponent_mono m1 e1 l1 x1 m2 e2 l2 x2 :
  located m1 e1 l1 x1 -> located m2 e2 l2 x2 ->
  e1 <= SpecFloat.fexp prec emax (Zdigits2 m1 + e1) ->
  (x1 <= x2)%Q ->
  SpecFloat.fexp prec emax (Zdigits2 m1 + e1)
  <= SpecFloat.fexp prec emax (Zdigits2 m2 + e2).
Proof.
  intros L1 L2 P1 Hx.
  destruct (Z.eq_dec m1 0) as [->|Hne].
  - cbn [Zdigits2] in *. unfold SpecFloat.fexp, SpecFloat.emin in *. lia.
  - apply fexp_mono.
    assert (H1 : 0 < m1) by (destruct L1; lia).
    destruct (Zdigits2_bounds m1 H1) as [Hge _].
    pose proof (Zdigits2_pos m1 H1) as Hd1.
    pose proof (F2Q_pow2_le (Zdigits2 m1 - 1) m1 e1 ltac:(lia) Hge) as Hlow.
    pose proof (located_lower _ _ _ _ L1) as Hl1.
    pose proof (located_upper _ _ _ _ L2) as Hu2.
    assert (H2 : 0 <= m2) by (destruct L2; lia).
    assert (Hm2 : m2 + 1 <= 2 ^ Zdigits2 m2).
    { destruct (Z.eq_dec m2 0) as [->|Hne2]; [cbn; lia|].
      destruct (Zdigits2_bounds m2 ltac:(lia)). lia. }
    pose proof (F2Q_pow2_ge (Zdigits2 m2) (m2 + 1) e2 (Zdigits2_nonneg m2) Hm2) as Hup.
    assert (Hlt : (pow2 (Zdigits2 m1 - 1 + e1) < pow2 (Zdigits2 m2 + e2))%Q) by lra.
    apply pow2_lt_inv in Hlt. lia.
Qed.

Lemma binary_round_aux_mono m1 e1 l1 x1 m2 e2 l2 x2 :
  located m1 e1 l1 x1 -> located m2 e2 l2 x2 ->
  e1 <= SpecFloat.fexp prec emax (Zdigits2 m1 + e1) ->
  e2 <= SpecFloat.fexp prec emax (Zdigits2 m2 + e2) ->
  (x1 <= x2)%Q ->
  SFle (binary_round_aux prec emax false m1 e1 l1) (binary_round_aux prec emax false m2 e2 l2)
  /\ SFle (binary_round_aux prec emax true m2 e2 l2) (binary_round_aux prec emax true m1 e1 l1).
Proof.
  intros L1 L2 P1 P2 Hx.
  pose proof (canonical_exponent_mono _ _ _ _ _ _ _ _ L1 L2 P1 Hx) as HE.
  destruct (binary_round_aux_spec prec emax prec_pos false m1 e1 l1 x1 L1 P1)
    as (m1' & l1' & L1' & B1 & N1 & R1f).
  destruct (binary_round_aux_spec prec emax prec_pos true m1 e1 l1 x1 L1 P1)
    as (m1t & l1t & L1t & B1t & N1t & R1t).
  destruct (binary_round_aux_spec prec emax prec_pos false m2 e2 l2 x2 L2 P2)
    as (m2' & l2' & L2' & B2 & N2 & R2f).
  destruct (binary_round_aux_spec prec emax prec_pos true m2 e2 l2 x2 L2 P2)
    as (m2t & l2t & L2t & B2t & N2t & R2t).
  rewrite R1f, R2f, R1t, R2t.
  split.
  - destruct (carry_order _ _ _ _ _ _ _ _ L1' L2' B1 B2 N2 (fexp_ge_emin _ _ _) HE Hx)
      as (H1 & H2 & H3).
    destruct (carry prec _ _) as [A a], (carry prec _ _) as [B b].
    apply SFle_pack_false; assumption.
  - destruct (carry_order _ _ _ _ _ _ _ _ L1t L2t B1t B2t N2t (fexp_ge_emin _ _ _) HE Hx)
      as (H1 & H2 & H3).
    destruct (carry prec _ _) as [A a], (carry prec _ _) as [B b].
    apply SFle_pack_true; assumption.
Qed.

End RoundingOrder.

Lemma Zdigits2_unique m k : 2 ^ (k - 1) <= m < 2 ^ k -> 0 < k -> Zdigits2 m = k.
Proof.
  intros [H1 H2] Hk. apply Z.le_antisymm.
  - apply Zdigits2_le; [lia|]. pose proof (Z.pow_pos_nonneg 2 (k - 1)). lia.
  - replace k with (k - 1 + 1) by lia. apply Zdigits2_ge; [lia|exact H1].
Qed.

Lemma iter_xO_nat m (n : nat) : Z.pos (Nat.iter n xO m) = Z.pos m * 2 ^ Z.of_nat n.
Proof.
  induction n as [|n IH].
  - cbn. lia.
  - rewrite Nat.iter_succ, Pos2Z.inj_xO, IH, Nat2Z.inj_succ, Z.pow_succ_r by lia. lia.
Qed.

Lemma iter_xO m d : Z.pos (Pos.iter xO m d) = Z.pos m * 2 ^ Z.pos d.
Proof. rewrite Pos2Nat.inj_iter, <- (positive_nat_Z d). apply iter_xO_nat. Qed.

Lemma Zdigits2_shift m d : 0 < m -> 0 <= d -> Zdigits2 (m * 2 ^ d) = Zdigits2 m + d.
Proof.
  intros Hm Hd. destruct (Zdigits2_bounds m Hm) as [H1 H2].
  pose proof (Zdigits2_pos m Hm) as Hp.
  assert (Hpow : 0 < 2 ^ d) by (apply Z.pow_pos_nonneg; lia).
  apply Zdigits2_unique; [|lia]. split.
  - replace (Zdigits2 m + d - 1) with (Zdigits2 m - 1 + d) by lia.
    rewrite Z.pow_add_r by lia. apply Z.mul_le_mono_nonneg_r; lia.
  - rewrite Z.pow_add_r by lia. apply Z.mul_lt_mono_pos_r; lia.
Qed.

Lemma F2Q_shift m d e : 0 <= d -> (F2Q (m * 2 ^ d) (e - d) == F2Q m e)%Q.
Proof.
  intros Hd. unfold F2Q. rewrite inject_Z_mult, <- (pow2_Z d Hd).
  rewrite <- Qmult_assoc, <- pow2_add. replace (d + (e - d)) with e by lia. reflexivity.
Qed.

Lemma located_exact m e : 0 <= m -> located m e loc_Exact (F2Q m e).
Proof.
  intros Hm. split; [exact Hm|]. cbn. unfold F2Q.
  rewrite <- Qmult_assoc, (Qmult_comm (pow2 e)), pow2_inv. ring.
Qed.

Lemma located_ext m e l x x' : (x == x')%Q -> located m e l x -> located m e l x'.
Proof.
  intros Heq [Hm H]. split; [exact Hm|].
  eapply inbetween_ext; [|exact H]. rewrite Heq. reflexivity.
Qed.

Section Normalize.
Variables prec emax : Z.
Hypothesis prec_pos : 0 < prec.

(** [binary_round] rounds the value of its mantissa and exponent. *)
Lemma binary_round_located s mx ex :
  exists mz ez,
    binary_round prec emax s mx ex = binary_round_aux prec emax s mz ez loc_Exact
    /\ located mz ez loc_Exact (F2Q (Z.pos mx) ex)
    /\ 0 < mz
    /\ ez <= SpecFloat.fexp prec emax (Zdigits2 mz + ez).
Proof.
  unfold binary_round, shl_align.
  set (E := SpecFloat.fexp prec emax (Z.pos (digits2_pos mx) + ex)).
  destruct (E - ex) as [|d|d] eqn:Hd.
  - exists (Z.pos mx), ex. split; [reflexivity|]. split; [apply located_exact; lia|].
    split; [lia|]. cbn [Zdigits2]. fold E. lia.
  - exists (Z.pos mx), ex. split; [reflexivity|]. split; [apply located_exact; lia|].
    split; [lia|]. cbn [Zdigits2]. fold E. lia.
  - exists (Z.pos (Pos.iter xO mx d)), E. split; [reflexivity|].
    assert (HE : E = ex - Z.pos d) by lia.
    rewrite iter_xO. split; [|split].
    + eapply located_ext; [|apply located_exact; lia].
      rewrite HE. apply F2Q_shift. lia.
    + lia.
    + rewrite Zdigits2_shift by lia. cbn [Zdigits2].
      replace (Z.pos (digits2_pos mx) + Z.pos d + E) with (Z.pos (digits2_pos mx) + ex) by lia.
      fold E. lia.
Qed.

(** The floats that a rounding gives: zero, finite or infinite, of the
    sign given, and valid. *)
Lemma pack_cases s A a :
  0 <= A ->
  pack prec emax s (A, a) = S754_zero s
  \/ pack prec emax s (A, a) = S754_infinity s
  \/ exists m, A = Z.pos m /\ a <= emax - prec
               /\ pack prec emax s (A, a) = S754_finite s m a.
Proof.
  intros HA. unfold pack. cbn [fst snd]. destruct A as [|A|A]; [auto| |lia].
  destruct (Z.leb_spec a (emax - prec)); [|auto].
  right. right. exists A. auto.
Qed.

Lemma binary_round_aux_cases s m e l x :
  located m e l x ->
  e <= SpecFloat.fexp prec emax (Zdigits2 m + e) ->
  let r := binary_round_aux prec emax s m e l in
  valid_binary prec emax r = true
  /\ (r = S754_zero s \/ r = S754_infinity s \/ exists m' e', r = S754_finite s m' e').
Proof.
  intros L P.
  destruct (binary_round_aux_spec prec emax prec_pos s m e l x L P)
    as (m' & l' & L' & B & N & R).
  cbv zeta. rewrite R.
  pose proof (round_nearest_even_bounds m' l') as HM.
  set (M := round_nearest_even m' l') in *.
  set (E := SpecFloat.fexp prec emax (Zdigits2 m + e)) in *.
  assert (HE : SpecFloat.emin prec emax <= E) by apply fexp_ge_emin.
  assert (Hp : 0 < 2 ^ (prec - 1)) by (apply Z.pow_pos_nonneg; lia).
  assert (Hpp : 2 ^ prec = 2 * 2 ^ (prec - 1)).
  { replace prec with (prec - 1 + 1) at 1 by lia. rewrite Z.pow_add_r by lia.
    change (2 ^ 1) with 2. lia. }
  assert (Hcanon : forall A a, carry prec M E = (Z.pos A, a) ->
                     SpecFloat.fexp prec emax (Z.pos (digits2_pos A) + a) = a).
  { intros A a. unfold carry. destruct (Z.eqb_spec M (2 ^ prec)) as [C|C]; intros Hc.
    - injection Hc as HA <-.
      change (Z.pos (digits2_pos A)) with (Zdigits2 (Z.pos A)). rewrite <- HA.
      rewrite (Zdigits2_unique (2 ^ (prec - 1)) prec) by lia.
      unfold SpecFloat.fexp, SpecFloat.emin in *. lia.
    - injection Hc as HA <-.
      change (Z.pos (digits2_pos A)) with (Zdigits2 (Z.pos A)). rewrite <- HA.
      destruct (Z.eq_dec E (SpecFloat.emin prec emax)) as [He|He].
      + assert (Hd : Zdigits2 M <= prec) by (apply Zdigits2_le; lia).
        pose proof (Zdigits2_nonneg M).
        unfold SpecFloat.fexp, SpecFloat.emin in *. lia.
      + specialize (N ltac:(lia)).
        rewrite (Zdigits2_unique M prec) by lia.
        unfold SpecFloat.fexp, SpecFloat.emin in *. lia. }
  destruct (carry prec M E) as [A a] eqn:Hc.
  assert (HA : 0 <= A).
  { unfold carry in Hc. destruct (M =? 2 ^ prec); injection Hc as <- _; lia. }
  destruct (pack_cases s A a HA) as [->|[->|(mA & -> & Ha & ->)]].
  - split; [reflexivity|auto].
  - split; [reflexivity|auto].
  - split; [|right; right; eauto].
    cbn [valid_binary]. unfold bounded, canonical_mantissa.
    rewrite (Hcanon mA a eq_refl), Z.eqb_refl. cbn [andb]. apply Z.leb_le. exact Ha.
Qed.

End Normalize.

Lemma F2Q_pos m e : 0 < m -> (0 < F2Q m e)%Q.
Proof.
  intros H. unfold F2Q. apply Qmult_lt_0_compat; [|apply pow2_pos].
  change 0%Q with (inject_Z 0). rewrite <- Zlt_Qlt. exact H.
Qed.

Lemma F2Q_opp m e : (F2Q (- m) e == - F2Q m e)%Q.
Proof. unfold F2Q. rewrite inject_Z_opp. ring. Qed.

Lemma F2Q_0 e : (F2Q 0 e == 0)%Q.
Proof. unfold F2Q. change (inject_Z 0) with 0%Q. ring. Qed.

Lemma F2Q_le m1 m2 e : m1 <= m2 -> (F2Q m1 e <= F2Q m2 e)%Q.
Proof.
  intros H. unfold F2Q. apply Qmult_le_compat_r; [|apply Qlt_le_weak, pow2_pos].
  rewrite <- Zle_Qle. exact H.
Qed.

(** The shapes of the floats. *)
Lemma SFle_zero_l s y :
  y = S754_zero false \/ y = S754_zero true \/ y = S754_infinity false
  \/ (exists m e, y = S754_finite false m e) ->
  SFle (S754_zero s) y.
Proof. intros [->|[->|[->|(m & e & ->)]]]; reflexivity. Qed.

Lemma SFle_zero_r s x :
  x = S754_zero false \/ x = S754_zero true \/ x = S754_infinity true
  \/ (exists m e, x = S754_finite true m e) ->
  SFle x (S754_zero s).
Proof. intros [->|[->|[->|(m & e & ->)]]]; reflexivity. Qed.

Section Rounds.
Variables prec emax : Z.
Hypothesis prec_pos : 0 < prec.

Lemma rounds_shape v r :
  rounds prec emax v r ->
  ok prec emax r
  /\ ((v == 0)%Q -> exists s, r = S754_zero s)
  /\ ((0 < v)%Q -> r = S754_zero false \/ r = S754_infinity false
                   \/ exists m e, r = S754_finite false m e)
  /\ ((v < 0)%Q -> r = S754_zero true \/ r = S754_infinity true
                   \/ exists m e, r = S754_finite true m e).
Proof.
  intros [(Hv & s & ->)|[(Hv & m & e & l & L & P & ->)|(Hv & m & e & l & L & P & ->)]].
  - split; [split; [reflexivity|discriminate]|].
    split; [eauto|]. split; intros H; exfalso; lra.
  - destruct (binary_round_aux_cases prec emax prec_pos false m e l v L P) as [Hval Hc].
    cbv zeta in Hval, Hc.
    split; [split; [exact Hval|]|].
    { destruct Hc as [->|[->|(m' & e' & ->)]]; discriminate. }
    split; [intros H; exfalso; lra|]. split; [intros _; exact Hc|intros H; exfalso; lra].
  - destruct (binary_round_aux_cases prec emax prec_pos true m e l _ L P) as [Hval Hc].
    cbv zeta in Hval, Hc.
    split; [split; [exact Hval|]|].
    { destruct Hc as [->|[->|(m' & e' & ->)]]; discriminate. }
    split; [intros H; exfalso; lra|]. split; [intros H; exfalso; lra|intros _; exact Hc].
Qed.

Lemma rounds_ok v r : rounds prec emax v r -> ok prec emax r.
Proof. intros H. apply (rounds_shape v r H). Qed.

(** Rounding is monotone. *)
Lemma rounds_mono v1 r1 v2 r2 :
  rounds prec emax v1 r1 -> rounds prec emax v2 r2 -> (v1 <= v2)%Q -> SFle r1 r2.
Proof.
  intros H1 H2 Hv.
  destruct (rounds_shape _ _ H1) as (_ & Z1 & P1 & N1).
  destruct (rounds_shape _ _ H2) as (_ & Z2 & P2 & N2).
  destruct H1 as [(V1 & s1 & ->)|[(V1 & m1 & e1 & l1 & L1 & Q1 & ->)
                                 |(V1 & m1 & e1 & l1 & L1 & Q1 & ->)]].
  - (* zero on the left *)
    apply SFle_zero_l.
    destruct (Qlt_le_dec 0 v2) as [Hp|Hn].
    + destruct (P2 Hp) as [->|[->|H]]; auto.
    + destruct (Z2 ltac:(lra)) as [[] ->]; auto.
  - destruct H2 as [(V2 & s2 & ->)|[(V2 & m2 & e2 & l2 & L2 & Q2 & ->)
                                   |(V2 & m2 & e2 & l2 & L2 & Q2 & ->)]];
      [exfalso; lra| |exfalso; lra].
    apply (binary_round_aux_mono prec emax prec_pos _ _ _ _ _ _ _ _ L1 L2 Q1 Q2 Hv).
  - destruct H2 as [(V2 & s2 & ->)|[(V2 & m2 & e2 & l2 & L2 & Q2 & ->)
                                   |(V2 & m2 & e2 & l2 & L2 & Q2 & ->)]].
    + apply SFle_zero_r. destruct (N1 V1) as [->|[->|H]]; auto.
    + destruct (N1 V1) as [->|[->|(a & b & ->)]], (P2 V2) as [->|[->|(c & d & ->)]];
        reflexivity.
    + apply (binary_round_aux_mono prec emax prec_pos _ _ _ _ _ _ _ _ L2 L1 Q2 Q1).
      lra.
Qed.

(** [binary_normalize] rounds the value of its mantissa and exponent. *)
Lemma binary_normalize_rounds m e szero :
  rounds prec emax (F2Q m e) (binary_normalize prec emax m e szero).
Proof.
  destruct m as [|p|p]; cbn [binary_normalize].
  - left. split; [apply F2Q_0|eauto].
  - right. left. split; [apply F2Q_pos; lia|].
    destruct (binary_round_located prec emax false p e)
      as (mz & ez & -> & L & _ & P).
    exists mz, ez, loc_Exact. auto.
  - right. right.
    assert (Hneg : (F2Q (Z.neg p) e == - F2Q (Z.pos p) e)%Q)
      by (rewrite <- F2Q_opp; reflexivity).
    pose proof (F2Q_pos (Z.pos p) e ltac:(lia)) as Hpos.
    split; [lra|].
    destruct (binary_round_located prec emax true p e)
      as (mz & ez & -> & L & _ & P).
    exists mz, ez, loc_Exact. split; [|auto].
    eapply located_ext; [|exact L]. lra.
Qed.

(** A float of the format is the rounding of its own value. *)
Lemma valid_rounds x :
  valid_binary prec emax x = true -> is_fin x = true ->
  rounds prec emax (SF2Q x) x.
Proof.
  destruct x as [s| |  |s m e]; try discriminate; intros Hv _.
  - left. split; [reflexivity|eauto].
  - cbn [valid_binary] in Hv. unfold bounded, canonical_mantissa in Hv.
    apply andb_true_iff in Hv as [Hc Hb]. apply Z.eqb_eq in Hc.
    assert (Hrun : binary_round_aux prec emax s (Z.pos m) e loc_Exact = S754_finite s m e).
    { unfold binary_round_aux, shr_fexp. cbn [Zdigits2]. rewrite Hc, Z.sub_diag.
      cbn [shr shr_record_of_loc shr_m loc_of_shr_record round_nearest_even Zdigits2].
      rewrite Hc, Z.sub_diag. cbn [shr shr_record_of_loc shr_m]. rewrite Hb. reflexivity. }
    assert (L : located (Z.pos m) e loc_Exact (F2Q (Z.pos m) e))
      by (apply located_exact; lia).
    assert (P : e <= SpecFloat.fexp prec emax (Zdigits2 (Z.pos m) + e))
      by (cbn [Zdigits2]; lia).
    pose proof (F2Q_pos (Z.pos m) e ltac:(lia)) as Hpos.
    destruct s; cbn [SF2Q cond_Zopp].
    + right. right.
      assert (Hneg : (F2Q (- Z.pos m) e == - F2Q (Z.pos m) e)%Q) by apply F2Q_opp.
      split; [lra|]. exists (Z.pos m), e, loc_Exact. split; [|auto].
      eapply located_ext; [|exact L]. lra.
    + right. left. split; [exact Hpos|]. exists (Z.pos m), e, loc_Exact. auto.
Qed.

(** The order of two floats of the format is the order of their
    values. *)
Lemma bounded_order m1 e1 m2 e2 :
  bounded prec emax m1 e1 = true -> bounded prec emax m2 e2 = true ->
  e1 < e2 \/ (e1 = e2 /\ (m1 <= m2)%positive) ->
  (F2Q (Z.pos m1) e1 <= F2Q (Z.pos m2) e2)%Q.
Proof.
  unfold bounded, canonical_mantissa. intros B1 B2 H.
  apply andb_true_iff in B1 as [C1 _]. apply andb_true_iff in B2 as [C2 _].
  apply Z.eqb_eq in C1, C2.
  destruct H as [H|[-> H]]; [|apply F2Q_le; lia].
  change (Z.pos (digits2_pos m1)) with (Zdigits2 (Z.pos m1)) in C1.
  change (Z.pos (digits2_pos m2)) with (Zdigits2 (Z.pos m2)) in C2.
  destruct (Zdigits2_bounds (Z.pos m1) ltac:(lia)) as [_ U1].
  destruct (Zdigits2_bounds (Z.pos m2) ltac:(lia)) as [L2 _].
  pose proof (Zdigits2_pos (Z.pos m1) ltac:(lia)) as D1.
  pose proof (Zdigits2_pos (Z.pos m2) ltac:(lia)) as D2.
  assert (Hd1 : Zdigits2 (Z.pos m1) <= prec)
    by (unfold SpecFloat.fexp, SpecFloat.emin in *; lia).
  assert (Hd2 : Zdigits2 (Z.pos m2) = prec)
    by (unfold SpecFloat.fexp, SpecFloat.emin in *; lia).
  rewrite Hd2 in L2.
  pose proof (F2Q_pow2_ge (Zdigits2 (Z.pos m1)) (Z.pos m1) e1 ltac:(lia) ltac:(lia)) as Hu.
  pose proof (F2Q_pow2_le (prec - 1) (Z.pos m2) e2 ltac:(lia) L2) as Hl.
  pose proof (pow2_le (Zdigits2 (Z.pos m1) + e1) (prec - 1 + e2) ltac:(lia)) as Hp.
  lra.
Qed.

Lemma SFle_value x y :
  valid_binary prec emax x = true -> valid_binary prec emax y = true ->
  is_fin x = true -> is_fin y = true ->
  SFle x y -> (SF2Q x <= SF2Q y)%Q.
Proof.
  destruct x as [sx| | |sx mx ex], y as [sy| | |sy my ey]; try discriminate;
    intros Vx Vy _ _ H; unfold SFle, SFleb in H; cbn [SFcompare] in H; cbn [SF2Q].
  - destruct sy; [discriminate H|]. cbn [cond_Zopp].
    apply Qlt_le_weak, F2Q_pos. lia.
  - destruct sx; [|discriminate H]. cbn [cond_Zopp].
    pose proof (F2Q_pos (Z.pos mx) ex ltac:(lia)) as Hp.
    pose proof (F2Q_opp (Z.pos mx) ex) as Ho. lra.
  - cbn [valid_binary] in Vx, Vy.
    pose proof (F2Q_pos (Z.pos mx) ex ltac:(lia)) as Px.
    pose proof (F2Q_pos (Z.pos my) ey ltac:(lia)) as Py.
    pose proof (F2Q_opp (Z.pos mx) ex) as Ox.
    pose proof (F2Q_opp (Z.pos my) ey) as Oy.
    destruct sx, sy; cbn [cond_Zopp]; try discriminate H; [| lra |].
    + (* both negative *)
      assert (Hord : ey < ex \/ (ey = ex /\ (my <= mx)%positive)).
      { destruct (Z.compare_spec ex ey) as [->|Hlt|Hgt]; [right|discriminate H|left; lia].
        split; [reflexivity|]. rewrite Pos_compare_cont_Eq in H.
        destruct (Pos.compare_spec mx my) as [->|Hlt|Hgt]; [lia|discriminate H|lia]. }
      pose proof (bounded_order _ _ _ _ Vy Vx Hord). lra.
    + assert (Hord : ex < ey \/ (ex = ey /\ (mx <= my)%positive)).
      { destruct (Z.compare_spec ex ey) as [->|Hlt|Hgt]; [right|left; lia|discriminate H].
        split; [reflexivity|]. rewrite Pos_compare_cont_Eq in H.
        destruct (Pos.compare_spec mx my) as [->|Hlt|Hgt]; [lia|lia|discriminate H]. }
      exact (bounded_order _ _ _ _ Vx Vy Hord).
Qed.

End Rounds.

Lemma F2Q_plus a b e : (F2Q (a + b) e == F2Q a e + F2Q b e)%Q.
Proof. unfold F2Q. rewrite inject_Z_plus. ring. Qed.

Lemma F2Q_cond_Zopp s m e :
  (F2Q (cond_Zopp s m) e == if s then - F2Q m e else F2Q m e)%Q.
Proof. destruct s; cbn [cond_Zopp]; [apply F2Q_opp|reflexivity]. Qed.

Lemma shl_align_value mx ex ez :
  ez <= ex -> (F2Q (Z.pos (fst (shl_align mx ex ez))) ez == F2Q (Z.pos mx) ex)%Q.
Proof.
  intros H. unfold shl_align. destruct (ez - ex) as [|d|d] eqn:Hd; cbn [fst].
  - replace ez with ex by lia. reflexivity.
  - lia.
  - rewrite iter_xO. replace ez with (ex - Z.pos d) by lia.
    apply F2Q_shift. lia.
Qed.

Lemma SFle_neg_inf y : y <> S754_nan -> SFle (S754_infinity true) y.
Proof. destruct y as [s|[]| |s m e]; intros H; try reflexivity. congruence. Qed.

Lemma SFle_pos_inf x : x <> S754_nan -> SFle x (S754_infinity false).
Proof. destruct x as [s|[]| |[] m e]; intros H; try reflexivity. congruence. Qed.

Lemma ext_le_refl v : ext_le v v.
Proof. destruct v; cbn; auto. apply Qle_refl. Qed.

Lemma ext_scale_mono c u v :
  (0 <= c)%Q -> ext_le u v -> ext_le (ext_scale c u) (ext_scale c v).
Proof.
  intros Hc. destruct u, v; cbn; auto. intros H.
  apply Qmult_le_compat_r; assumption.
Qed.

Lemma ext_sub_from_anti c u v :
  ext_le u v -> ext_le (ext_sub_from c v) (ext_sub_from c u).
Proof. destruct u, v; cbn; auto. intros H. lra. Qed.

Lemma ext_add_to_mono c u v :
  ext_le u v -> ext_le (ext_add_to c u) (ext_add_to c v).
Proof. destruct u, v; cbn; auto. intros H. lra. Qed.

Lemma rounds_eq prec emax v v' r :
  (v == v')%Q -> rounds prec emax v r -> rounds prec emax v' r.
Proof.
  intros E [(Hv & H)|[(Hv & m & e & l & L & H)|(Hv & m & e & l & L & H)]].
  - left. split; [rewrite <- E; exact Hv|exact H].
  - right. left. split; [rewrite <- E; exact Hv|].
    exists m, e, l. split; [|exact H]. eapply located_ext; [|exact L]. exact E.
  - right. right. split; [rewrite <- E; exact Hv|].
    exists m, e, l. split; [|exact H]. eapply located_ext; [|exact L].
    rewrite E. reflexivity.
Qed.

Section ExtendedValues.
Variables prec emax : Z.
Hypothesis prec_pos : 0 < prec.

Lemma rounds_ext_ok v r : rounds_ext prec emax v r -> ok prec emax r.
Proof.
  destruct v; cbn [rounds_ext].
  - intros ->. split; [reflexivity|discriminate].
  - apply rounds_ok. exact prec_pos.
  - intros ->. split; [reflexivity|discriminate].
Qed.

Lemma rounds_ext_mono v1 r1 v2 r2 :
  rounds_ext prec emax v1 r1 -> rounds_ext prec emax v2 r2 ->
  ext_le v1 v2 -> SFle r1 r2.
Proof.
  intros H1 H2 Hv.
  pose proof (rounds_ext_ok _ _ H1) as [_ N1].
  pose proof (rounds_ext_ok _ _ H2) as [_ N2].
  destruct v1, v2; cbn [rounds_ext ext_le] in *; subst;
    try (apply SFle_neg_inf; assumption);
    try (apply SFle_pos_inf; assumption);
    try contradiction.
  eapply rounds_mono; eassumption.
Qed.

(** The order of two floats of the format is the order of their
    values. *)
Lemma SFle_val x y :
  ok prec emax x -> ok prec emax y -> SFle x y -> ext_le (val x) (val y).
Proof.
  intros [Vx Nx] [Vy Ny] H.
  destruct (is_fin x) eqn:Fx, (is_fin y) eqn:Fy.
  - pose proof (SFle_value prec emax prec_pos x y Vx Vy Fx Fy H) as Hq.
    destruct x as [sx|sx| |sx mx ex], y as [sy|sy| |sy my ey]; try discriminate;
      exact Hq.
  - destruct x as [sx|sx| |sx mx ex], y as [sy|[]| |sy my ey]; try discriminate;
      try congruence; try exact I; destruct sx; discriminate H.
  - destruct x as [sx|[]| |sx mx ex], y as [sy|sy| |sy my ey]; try discriminate;
      try congruence; try exact I; destruct sy; discriminate H.
  - destruct x as [sx|[]| |sx mx ex], y as [sy|[]| |sy my ey]; try discriminate;
      try congruence; exact I.
Qed.

(** A float of the format is the rounding of its own value. *)
Lemma ok_rounds_ext x : ok prec emax x -> rounds_ext prec emax (val x) x.
Proof.
  intros [V N]. destruct x as [s|[]| |s m e]; try congruence; try reflexivity;
    cbn [val rounds_ext]; apply valid_rounds; auto.
Qed.

End ExtendedValues.

(** An operation that rounds a monotone function of the value is
    monotone. *)
Lemma monotone_by_value p1 e1 p2 e2 (op : spec_float -> spec_float) (g : ext -> ext) :
  0 < p1 -> 0 < p2 ->
  (forall x, ok p1 e1 x -> rounds_ext p2 e2 (g (val x)) (op x)) ->
  (forall u v, ext_le u v -> ext_le (g u) (g v)) ->
  forall x y, ok p1 e1 x -> ok p1 e1 y -> SFle x y ->
    SFle (op x) (op y) /\ ok p2 e2 (op x) /\ ok p2 e2 (op y).
Proof.
  intros P1 P2 Hop Hg x y Ox Oy H.
  pose proof (Hop x Ox) as Rx. pose proof (Hop y Oy) as Ry.
  split; [|split; [exact (rounds_ext_ok p2 e2 P2 _ _ Rx)|exact (rounds_ext_ok p2 e2 P2 _ _ Ry)]].
  apply (rounds_ext_mono p2 e2 P2 _ _ _ _ Rx Ry).
  apply Hg. exact (SFle_val p1 e1 P1 x y Ox Oy H).
Qed.

Lemma antitone_by_value p1 e1 p2 e2 (op : spec_float -> spec_float) (g : ext -> ext) :
  0 < p1 -> 0 < p2 ->
  (forall x, ok p1 e1 x -> rounds_ext p2 e2 (g (val x)) (op x)) ->
  (forall u v, ext_le u v -> ext_le (g v) (g u)) ->
  forall x y, ok p1 e1 x -> ok p1 e1 y -> SFle x y ->
    SFle (op y) (op x) /\ ok p2 e2 (op x) /\ ok p2 e2 (op y).
Proof.
  intros P1 P2 Hop Hg x y Ox Oy H.
  pose proof (Hop x Ox) as Rx. pose proof (Hop y Oy) as Ry.
  split; [|split; [exact (rounds_ext_ok p2 e2 P2 _ _ Rx)|exact (rounds_ext_ok p2 e2 P2 _ _ Ry)]].
  apply (rounds_ext_mono p2 e2 P2 _ _ _ _ Ry Rx).
  apply Hg. exact (SFle_val p1 e1 P1 x y Ox Oy H).
Qed.

Section Operations.
Variables prec emax : Z.
Hypothesis prec_pos : 0 < prec.

(** Conversion to the format. *)
Lemma convert_rounds x :
  x <> S754_nan -> rounds_ext prec emax (val x) (Binary.convert prec emax x).
Proof.
  intros N. destruct x as [s|[]| |s m e]; try congruence; try reflexivity;
    cbn [val rounds_ext Binary.convert SF2Q].
  - left. split; [reflexivity|eauto].
  - apply binary_normalize_rounds.
Qed.

(** Subtraction from a finite float of the format. *)
Lemma SFsub_rounds c y :
  ok prec emax c -> is_fin c = true -> ok prec emax y ->
  rounds_ext prec emax (ext_sub_from (SF2Q c) (val y)) (SFsub prec emax c y).
Proof.
  intros [Vc _] Fc [Vy Ny].
  destruct c as [sc| | |sc mc ec]; try discriminate;
    destruct y as [sy|[]| |sy my ey]; try congruence; try reflexivity;
    cbn [val ext_sub_from rounds_ext SFsub SF2Q negb].
  - left. split; [reflexivity|]. destruct sc, sy; eauto.
  - eapply rounds_eq;
      [|exact (valid_rounds prec emax (S754_finite (negb sy) my ey) Vy eq_refl)].
    cbn [SF2Q]. rewrite !F2Q_cond_Zopp. destruct sy; cbn [negb]; ring.
  - eapply rounds_eq;
      [|exact (valid_rounds prec emax (S754_finite sc mc ec) Vc eq_refl)].
    cbn [SF2Q]. ring.
  - cbv zeta.
    set (ez := Z.min ec ey).
    set (M := cond_Zopp sc (Z.pos (fst (shl_align mc ec ez)))
              - cond_Zopp sy (Z.pos (fst (shl_align my ey ez)))).
    eapply rounds_eq; [|exact (binary_normalize_rounds prec emax M ez false)].
    pose proof (shl_align_value mc ec ez ltac:(unfold ez; lia)) as Ec.
    pose proof (shl_align_value my ey ez ltac:(unfold ez; lia)) as Ey.
    unfold M. unfold Z.sub. rewrite F2Q_plus, F2Q_opp, !F2Q_cond_Zopp.
    destruct sc, sy; rewrite Ec, Ey; ring.
Qed.

(** Addition to a finite float of the format. *)
Lemma SFadd_rounds c y :
  ok prec emax c -> is_fin c = true -> ok prec emax y ->
  rounds_ext prec emax (ext_add_to (SF2Q c) (val y)) (SFadd prec emax c y).
Proof.
  intros [Vc _] Fc [Vy Ny].
  destruct c as [sc| | |sc mc ec]; try discriminate;
    destruct y as [sy|[]| |sy my ey]; try congruence; try reflexivity;
    cbn [val ext_add_to rounds_ext SFadd SF2Q].
  - left. split; [reflexivity|]. destruct sc, sy; eauto.
  - eapply rounds_eq;
      [|exact (valid_rounds prec emax (S754_finite sy my ey) Vy eq_refl)].
    cbn [SF2Q]. ring.
  - eapply rounds_eq;
      [|exact (valid_rounds prec emax (S754_finite sc mc ec) Vc eq_refl)].
    cbn [SF2Q]. ring.
  - cbv zeta.
    set (ez := Z.min ec ey).
    set (M := cond_Zopp sc (Z.pos (fst (shl_align mc ec ez)))
              + cond_Zopp sy (Z.pos (fst (shl_align my ey ez)))).
    eapply rounds_eq; [|exact (binary_normalize_rounds prec emax M ez false)].
    pose proof (shl_align_value mc ec ez ltac:(unfold ez; lia)) as Ec.
    pose proof (shl_align_value my ey ez ltac:(unfold ez; lia)) as Ey.
    unfold M. rewrite F2Q_plus, !F2Q_cond_Zopp.
    destruct sc, sy; rewrite Ec, Ey; ring.
Qed.

End Operations.

(** The location of a quotient from its remainder. *)
Lemma new_location_spec m2 q r t :
  0 < m2 -> 0 <= q -> 0 <= r < m2 ->
  (t * inject_Z m2 == inject_Z q * inject_Z m2 + inject_Z r)%Q ->
  inbetween q (new_location m2 r) t.
Proof.
  intros Hm2 Hq Hr Ht.
  assert (HB : (0 < inject_Z m2)%Q) by (change 0%Q with (inject_Z 0); rewrite <- Zlt_Qlt; lia).
  assert (HR : (0 <= inject_Z r)%Q) by (change 0%Q with (inject_Z 0); rewrite <- Zle_Qle; lia).
  assert (HRB : (inject_Z r < inject_Z m2)%Q) by (rewrite <- Zlt_Qlt; lia).
  assert (Hexact : r = 0 -> (t == inject_Z q)%Q).
  { intros ->. change (inject_Z 0) with 0%Q in Ht.
    apply (Qmult_inj_r _ _ (inject_Z m2)); [lra|]. rewrite Ht. ring. }
  assert (Hin : r <> 0 -> (inject_Z q < t)%Q /\ (t < inject_Z q + 1)%Q).
  { intros Hr0.
    assert (HR' : (0 < inject_Z r)%Q)
      by (change 0%Q with (inject_Z 0); rewrite <- Zlt_Qlt; lia).
    split.
    - apply (Qmult_lt_r _ _ (inject_Z m2) HB). rewrite Ht. lra.
    - apply (Qmult_lt_r _ _ (inject_Z m2) HB). rewrite Ht.
      assert (EQ : (((inject_Z q + 1) * inject_Z m2) == (inject_Z q * inject_Z m2 + inject_Z m2))%Q) by ring.
    rewrite EQ; clear EQ.
      lra. }
  assert (Hhalf : forall c, (2 * r ?= m2) = c -> (t ?= inject_Z q + (1 # 2))%Q = c).
  { intros c Hc.
    assert (H2 : (inject_Z (2 * r) == 2 * inject_Z r)%Q)
      by (rewrite inject_Z_mult; reflexivity).
    assert (Hmid : ((inject_Z q + (1 # 2)) * inject_Z m2
                    == inject_Z q * inject_Z m2 + (1 # 2) * inject_Z m2)%Q) by ring.
    destruct c.
    - apply Z.compare_eq in Hc. qcompare.
      apply (Qmult_inj_r _ _ (inject_Z m2)); [lra|]. rewrite Ht, Hmid.
      rewrite <- Hc, H2. ring.
    - pose proof (proj1 (Z.compare_lt_iff _ _) Hc) as Hlt. qcompare.
      apply (Qmult_lt_r _ _ (inject_Z m2) HB). rewrite Ht, Hmid.
      rewrite Zlt_Qlt, H2 in Hlt. lra.
    - pose proof (proj1 (Z.compare_gt_iff _ _) Hc) as Hlt. qcompare.
      apply (Qmult_lt_r _ _ (inject_Z m2) HB). rewrite Ht, Hmid.
      rewrite Zlt_Qlt, H2 in Hlt. lra. }
  unfold new_location, new_location_even, new_location_odd.
  destruct (Z.even m2) eqn:Hev.
  - destruct (Z.eqb_spec r 0) as [H0|H0]; cbn [inbetween]; [auto|].
    destruct (Hin H0). auto.
  - destruct (Z.eqb_spec r 0) as [H0|H0]; cbn [inbetween]; [auto|].
    destruct (Hin H0). split; [assumption|]. split; [assumption|].
    apply Hhalf.
    assert (Hodd : Z.odd m2 = true) by (rewrite <- Z.negb_even, Hev; reflexivity).
    apply Z.odd_spec in Hodd. destruct Hodd as [k Hk].
    destruct (2 * r + 1 ?= m2) eqn:Hc.
    + apply Z.compare_eq in Hc. apply Z.compare_lt_iff. lia.
    + pose proof (proj1 (Z.compare_lt_iff _ _) Hc). apply Z.compare_lt_iff. lia.
    + pose proof (proj1 (Z.compare_gt_iff _ _) Hc). apply Z.compare_gt_iff. lia.
Qed.

Section Division.
Variables prec emax : Z.
Hypothesis prec_pos : 0 < prec.

Lemma SFdiv_core_binary_spec m1 e1 m2 e2 x :
  0 < m1 -> 0 < m2 ->
  (x * F2Q m2 e2 == F2Q m1 e1)%Q ->
  exists q e' l,
    SFdiv_core_binary prec emax m1 e1 m2 e2 = (q, e', l)
    /\ located q e' l x
    /\ e' <= SpecFloat.fexp prec emax (Zdigits2 q + e').
Proof.
  intros Hm1 Hm2 Hx. unfold SFdiv_core_binary.
  set (d1 := Zdigits2 m1). set (d2 := Zdigits2 m2).
  set (e' := Z.min (SpecFloat.fexp prec emax (d1 + e1 - (d2 + e2))) (e1 - e2)).
  set (s := e1 - e2 - e').
  assert (Hs : 0 <= s) by (unfold s, e'; lia).
  set (m' := match s with 0 => m1 | Z.pos _ => Z.shiftl m1 s | Z.neg _ => 0 end).
  assert (Hm' : m' = m1 * 2 ^ s).
  { unfold m'. destruct s as [|p|p] eqn:Es; [lia| |lia].
    rewrite Z.shiftl_mul_pow2 by lia. reflexivity. }
  clearbody m'.
  pose proof (Z_div_mod m' m2 ltac:(lia)) as Hdm.
  destruct (Z.div_eucl m' m2) as [q r]. destruct Hdm as [Hdiv Hr].
  assert (Hpow : 0 < 2 ^ s) by (apply Z.pow_pos_nonneg; lia).
  assert (Hq : 0 <= q) by nia.
  exists q, e', (new_location m2 r). split; [reflexivity|]. split.
  - split; [exact Hq|].
    apply new_location_spec; try assumption.
    rewrite <- inject_Z_mult, <- inject_Z_plus.
    replace (q * m2 + r) with m' by lia. rewrite Hm', inject_Z_mult.
    rewrite <- (pow2_Z s Hs).
    unfold F2Q in Hx.
    assert (He : (pow2 e1 == pow2 s * pow2 e2 * pow2 e')%Q).
    { rewrite <- !pow2_add. replace (s + e2 + e') with e1 by (unfold s; lia).
      reflexivity. }
    pose proof (pow2_inv e') as Hinv.
    pose proof (pow2_pos e2) as Hp2.
    apply (Qmult_inj_r _ _ (pow2 e2)); [lra|].
    assert (EQ : ((x * pow2 (- e') * inject_Z m2 * pow2 e2) == (x * (inject_Z m2 * pow2 e2) * pow2 (- e')))%Q) by ring.
    rewrite EQ; clear EQ.
    rewrite Hx, He.
    assert (EQ : ((inject_Z m1 * (pow2 s * pow2 e2 * pow2 e') * pow2 (- e')) == (inject_Z m1 * pow2 s * pow2 e2 * (pow2 (- e') * pow2 e')))%Q) by ring.
    rewrite EQ; clear EQ.
    rewrite Hinv. ring.
  - assert (Hk : d1 + s - d2 <= Zdigits2 q).
    { pose proof (Zdigits2_nonneg q).
      destruct (Z_le_gt_dec (d1 + s - d2) 0) as [Hle|Hgt]; [lia|].
      pose proof (Zdigits2_bounds m1 Hm1) as [L1 _].
      pose proof (Zdigits2_bounds m2 Hm2) as [_ U2].
      pose proof (Zdigits2_pos m1 Hm1) as D1.
      pose proof (Zdigits2_pos m2 Hm2) as D2.
      fold d1 in L1, D1. fold d2 in U2, D2.
      set (k := d1 + s - d2 - 1).
      assert (Hk0 : 0 <= k) by (unfold k; lia).
      assert (Hp1 : 2 ^ (d1 - 1) * 2 ^ s = 2 ^ k * 2 ^ d2).
      { rewrite <- !Z.pow_add_r by lia. f_equal. unfold k. lia. }
      assert (Hpk : 0 < 2 ^ k) by (apply Z.pow_pos_nonneg; lia).
      assert (Hqk : 2 ^ k <= q).
      { assert (2 ^ k * m2 < (q + 1) * m2); [|nia].
        assert (2 ^ k * m2 < 2 ^ k * 2 ^ d2) by nia.
        assert (2 ^ (d1 - 1) * 2 ^ s <= m1 * 2 ^ s) by nia.
        lia. }
      pose proof (Zdigits2_ge q k Hk0 Hqk). unfold k in *. lia. }
    assert (He' : e' <= SpecFloat.fexp prec emax (d1 + e1 - (d2 + e2))) by (unfold e'; lia).
    pose proof (fexp_mono prec emax (d1 + e1 - (d2 + e2)) (Zdigits2 q + e')
                  ltac:(unfold s in *; lia)).
    lia.
Qed.

(** Division by a positive finite float. *)
Lemma SFdiv_rounds x my ey :
  x <> S754_nan ->
  rounds_ext prec emax (ext_scale (/ F2Q (Z.pos my) ey) (val x))
    (SFdiv prec emax x (S754_finite false my ey)).
Proof.
  intros N.
  pose proof (F2Q_pos (Z.pos my) ey ltac:(lia)) as Hy.
  pose proof (Qinv_lt_0_compat _ Hy) as Hyi.
  destruct x as [s|[]| |s m e]; try congruence; try reflexivity;
    cbn [val ext_scale rounds_ext SFdiv SF2Q xorb].
  - left. split; [ring|]. rewrite xorb_false_r. eauto.
  - rewrite xorb_false_r.
    pose proof (F2Q_pos (Z.pos m) e ltac:(lia)) as Hx.
    set (v := (F2Q (Z.pos m) e * / F2Q (Z.pos my) ey)%Q).
    assert (Hv : (v * F2Q (Z.pos my) ey == F2Q (Z.pos m) e)%Q).
    { unfold v. field. lra. }
    assert (Hv0 : (0 < v)%Q) by (unfold v; apply Qmult_lt_0_compat; assumption).
    destruct (SFdiv_core_binary_spec (Z.pos m) e (Z.pos my) ey v
                ltac:(lia) ltac:(lia) Hv) as (q & e' & l & -> & L & P).
    destruct s; cbn [cond_Zopp].
    + right. right.
      assert (E : (F2Q (- Z.pos m) e * / F2Q (Z.pos my) ey == - v)%Q).
      { unfold v. rewrite F2Q_opp. ring. }
      split; [rewrite E; lra|].
      exists q, e', l. split; [|auto].
      eapply located_ext; [|exact L]. rewrite E. ring.
    + right. left. split; [exact Hv0|]. exists q, e', l. auto.
Qed.

End Division.

Lemma SFle_antisym_value prec emax x y :
  0 < prec ->
  valid_binary prec emax x = true -> valid_binary prec emax y = true ->
  is_fin y = true -> x <> S754_nan ->
  SFle x y -> SFle y x -> is_fin x = true /\ (SF2Q x == SF2Q y)%Q.
Proof.
  intros P Vx Vy Fy N H1 H2.
  assert (Fx : is_fin x = true).
  { destruct x as [s|[]| |s m e]; try reflexivity; try congruence;
      destruct y as [sy|sy| |[] my ey]; discriminate. }
  split; [exact Fx|].
  pose proof (SFle_value prec emax P x y Vx Vy Fx Fy H1).
  pose proof (SFle_value prec emax P y x Vy Vx Fy Fx H2).
  lra.
Qed.

Section Exactness.
Variables prec emax : Z.
Hypothesis prec_pos : 0 < prec.
Hypothesis emax_large : prec <= emax.
Hypothesis emax_pos : 3 <= emax.

(** An integer below [2^prec] is a float of the format. *)
Lemma representable_pos z :
  0 < z < 2 ^ prec ->
  exists m e, valid_binary prec emax (S754_finite false m e) = true
              /\ (F2Q (Z.pos m) e == inject_Z z)%Q.
Proof.
  intros [Hz0 Hz].
  pose proof (Zdigits2_pos z Hz0) as D0.
  pose proof (Zdigits2_le z prec ltac:(lia) ltac:(lia)) as D1.
  set (d := Zdigits2 z) in *.
  assert (Hpow : 0 < 2 ^ (prec - d)) by (apply Z.pow_pos_nonneg; lia).
  destruct (z * 2 ^ (prec - d)) as [|m|m] eqn:Hm; [nia| |nia].
  exists m, (d - prec). split.
  - cbn [valid_binary]. unfold bounded, canonical_mantissa.
    change (Z.pos (digits2_pos m)) with (Zdigits2 (Z.pos m)).
    rewrite <- Hm, Zdigits2_shift by lia. fold d.
    apply andb_true_iff. split.
    + apply Z.eqb_eq. unfold SpecFloat.fexp, SpecFloat.emin. lia.
    + apply Z.leb_le. lia.
  - rewrite <- Hm.
    replace (d - prec) with (0 - (prec - d)) by lia.
    rewrite F2Q_shift by lia. unfold F2Q.
    change (pow2 0) with 1%Q. ring.
Qed.

(** Rounding an integer below [2^prec] is exact. *)
Lemma rounds_integer z r :
  Z.abs z < 2 ^ prec ->
  rounds prec emax (inject_Z z) r ->
  is_fin r = true /\ (SF2Q r == inject_Z z)%Q.
Proof.
  intros Hz R.
  destruct (rounds_shape prec emax prec_pos _ _ R) as ([V N] & Z0 & _ & _).
  destruct (Z.lt_trichotomy z 0) as [Hneg|[->|Hpos]].
  - destruct (representable_pos (- z) ltac:(lia)) as (m & e & Vw & Ew).
    assert (Vw' : valid_binary prec emax (S754_finite true m e) = true) by exact Vw.
    pose proof (valid_rounds prec emax (S754_finite true m e) Vw' eq_refl) as Rw.
    assert (E : (SF2Q (S754_finite true m e) == inject_Z z)%Q).
    { cbn [SF2Q cond_Zopp]. rewrite F2Q_opp, Ew, inject_Z_opp. ring. }
    apply (rounds_eq _ _ _ _ _ E) in Rw.
    pose proof (rounds_mono prec emax prec_pos _ _ _ _ R Rw ltac:(apply Qle_refl)) as H1.
    pose proof (rounds_mono prec emax prec_pos _ _ _ _ Rw R ltac:(apply Qle_refl)) as H2.
    destruct (SFle_antisym_value prec emax _ _ prec_pos V Vw' eq_refl N H1 H2) as [F Ev].
    split; [exact F|]. rewrite Ev. exact E.
  - destruct (Z0 ltac:(reflexivity)) as [s ->]. split; reflexivity.
  - destruct (representable_pos z ltac:(lia)) as (m & e & Vw & Ew).
    pose proof (valid_rounds prec emax (S754_finite false m e) Vw eq_refl) as Rw.
    assert (E : (SF2Q (S754_finite false m e) == inject_Z z)%Q).
    { cbn [SF2Q cond_Zopp]. exact Ew. }
    apply (rounds_eq _ _ _ _ _ E) in Rw.
    pose proof (rounds_mono prec emax prec_pos _ _ _ _ R Rw ltac:(apply Qle_refl)) as H1.
    pose proof (rounds_mono prec emax prec_pos _ _ _ _ Rw R ltac:(apply Qle_refl)) as H2.
    destruct (SFle_antisym_value prec emax _ _ prec_pos V Vw eq_refl N H1 H2) as [F Ev].
    split; [exact F|]. rewrite Ev. exact E.
Qed.

Lemma of_Z_rounds z : rounds prec emax (inject_Z z) (Binary.of_Z prec emax z).
Proof.
  eapply rounds_eq; [|apply binary_normalize_rounds].
  unfold F2Q. change (pow2 0) with 1%Q. ring.
Qed.

(** The float of an integer below [2^prec] has that value. *)
Lemma of_Z_exact z :
  Z.abs z < 2 ^ prec ->
  ok prec emax (Binary.of_Z prec emax z)
  /\ is_fin (Binary.of_Z prec emax z) = true
  /\ (SF2Q (Binary.of_Z prec emax z) == inject_Z z)%Q.
Proof.
  intros Hz. pose proof (of_Z_rounds z) as R.
  split; [exact (rounds_ok prec emax prec_pos _ _ R)|].
  exact (rounds_integer z _ Hz R).
Qed.

End Exactness.

Section Overflow.
Variables prec emax : Z.
Hypothesis prec_pos : 0 < prec.
Hypothesis emax_pos : 2 <= emax.

Lemma binary_round_aux_is_fin s m e l x K :
  located m e l x ->
  e <= SpecFloat.fexp prec emax (Zdigits2 m + e) ->
  (x < pow2 K)%Q -> K + 1 <= emax ->
  is_fin (binary_round_aux prec emax s m e l) = true.
Proof.
  intros L P Hx HK.
  destruct (binary_round_aux_spec prec emax prec_pos s m e l x L P)
    as (m' & l' & L' & B & _ & ->).
  pose proof (round_nearest_even_bounds m' l') as HM.
  set (M := round_nearest_even m' l') in *.
  set (E := SpecFloat.fexp prec emax (Zdigits2 m + e)) in *.
  assert (HE : E + 1 <= emax - prec).
  { pose proof L as [Hm0 _].
    destruct (Z.eq_dec m 0) as [->|Hm].
    - cbn [Zdigits2] in *. unfold E, SpecFloat.fexp, SpecFloat.emin in *. lia.
    - pose proof (Zdigits2_bounds m ltac:(lia)) as [Lm _].
      pose proof (Zdigits2_pos m ltac:(lia)) as Dm.
      pose proof (F2Q_pow2_le (Zdigits2 m - 1) m e ltac:(lia) Lm) as H1.
      pose proof (located_lower m e l x L) as H2.
      assert (H3 : (pow2 (Zdigits2 m - 1 + e) < pow2 K)%Q) by lra.
      apply pow2_lt_inv in H3.
      unfold E, SpecFloat.fexp, SpecFloat.emin. lia. }
  unfold carry. destruct (Z.eqb_spec M (2 ^ prec)) as [HMe|HMe]; unfold pack; cbn [fst snd].
  - assert (Hp : 0 < 2 ^ (prec - 1)) by (apply Z.pow_pos_nonneg; lia).
    destruct (2 ^ (prec - 1)) as [|p|p]; [lia| |lia].
    destruct (Z.leb_spec (E + 1) (emax - prec)); [reflexivity|lia].
  - destruct M as [|p|p]; [reflexivity| |lia].
    destruct (Z.leb_spec E (emax - prec)); [reflexivity|lia].
Qed.

(** A value below [2^K], [K < emax], does not round to an infinity. *)
Lemma rounds_is_fin v r K :
  rounds prec emax v r ->
  (- pow2 K < v)%Q -> (v < pow2 K)%Q -> K + 1 <= emax ->
  is_fin r = true.
Proof.
  intros [(Hv & s & ->)|[(Hv & m & e & l & L & P & ->)|(Hv & m & e & l & L & P & ->)]]
         Hlo Hhi HK.
  - reflexivity.
  - eapply binary_round_aux_is_fin; eauto.
  - eapply (binary_round_aux_is_fin true m e l (- v)%Q K); eauto. lra.
Qed.

Lemma of_Z_is_fin z K :
  0 <= K -> Z.abs z < 2 ^ K -> K + 1 <= emax ->
  ok prec emax (Binary.of_Z prec emax z) /\ is_fin (Binary.of_Z prec emax z) = true.
Proof.
  intros HK0 Hz HK.
  pose proof (of_Z_rounds prec emax z) as R.
  split; [exact (rounds_ok prec emax prec_pos _ _ R)|].
  apply (rounds_is_fin _ _ K R); [| |exact HK]; rewrite (pow2_Z K HK0).
  - rewrite <- inject_Z_opp, <- Zlt_Qlt. lia.
  - rewrite <- Zlt_Qlt. lia.
Qed.

End Overflow.

(* ===================================================================== *)
(** ** The load priority *)
(* ===================================================================== *)

Lemma load_priority_eq {NM : NumModel} (ctx : EngineContext NM) culler this :
  load_priority ctx culler this =
  f_add NM (lodPriority ctx this) (distPriority ctx (getDistanceToViewPoint culler this)).
Proof.
  unfold load_priority, lodPriority, distPriority.
  destruct (highResolutionFirst (getOptions ctx)); reflexivity.
Qed.

Lemma prec32_pos : 0 < Binary.prec32.
Proof. reflexivity. Qed.

Lemma prec64_pos : 0 < Binary.prec64.
Proof. reflexivity. Qed.

(** The double 1.0. *)
Lemma d_one_value :
  ok Binary.prec64 Binary.emax64 (d_one IEEE)
  /\ is_fin (d_one IEEE) = true
  /\ (SF2Q (d_one IEEE) == 1)%Q.
Proof.
  exact (of_Z_exact Binary.prec64 Binary.emax64 prec64_pos ltac:(vm_compute; discriminate)
           ltac:(vm_compute; discriminate) 1 ltac:(vm_compute; reflexivity)).
Qed.

(** A positive finite float. *)
Lemma positive_finite x :
  SFltb (S754_zero false) x = true -> is_fin x = true ->
  exists m e, x = S754_finite false m e.
Proof.
  destruct x as [s|s| |[] m e]; try discriminate; eauto.
Qed.

Section DistancePriority.
Variable ctx : EngineContext IEEE.
Hypothesis range_positive :
  SFltb (S754_zero false) (_visibilityRange (visParameters (getSelectionInfo ctx) 0)) = true.
Hypothesis range_finite :
  is_fin (_visibilityRange (visParameters (getSelectionInfo ctx) 0)) = true.

(** The distance term as a chain of four roundings. *)
Lemma distPriority_antitone d1 d2 :
  ok Binary.prec32 Binary.emax32 d1 -> ok Binary.prec32 Binary.emax32 d2 ->
  SFle d1 d2 ->
  SFle (distPriority ctx d2) (distPriority ctx d1)
  /\ ok Binary.prec32 Binary.emax32 (distPriority ctx d1)
  /\ ok Binary.prec32 Binary.emax32 (distPriority ctx d2).
Proof.
  intros O1 O2 H. unfold distPriority.
  destruct (positive_finite _ range_positive range_finite) as (mr & er & ->).
  cbn [f_of_double d_sub d_one d_div d_of_float IEEE].
  destruct d_one_value as (Oone & Fone & _).
  cbn [d_one IEEE] in Oone, Fone.
  pose proof (F2Q_pos (Z.pos mr) er ltac:(lia)) as Hr.
  assert (Hc : (0 <= / F2Q (Z.pos mr) er)%Q)
    by (apply Qlt_le_weak, Qinv_lt_0_compat, Hr).
  destruct (monotone_by_value Binary.prec32 Binary.emax32 Binary.prec64 Binary.emax64
              (Binary.convert Binary.prec64 Binary.emax64) (fun v => v)
              prec32_pos prec64_pos
              (fun x O => convert_rounds Binary.prec64 Binary.emax64 x (proj2 O))
              (fun u v L => L) d1 d2 O1 O2 H) as (H1 & A1 & B1).
  destruct (monotone_by_value Binary.prec64 Binary.emax64 Binary.prec64 Binary.emax64
              (fun x => SFdiv Binary.prec64 Binary.emax64 x (S754_finite false mr er))
              (ext_scale (/ F2Q (Z.pos mr) er))
              prec64_pos prec64_pos
              (fun x O => SFdiv_rounds Binary.prec64 Binary.emax64 x mr er (proj2 O))
              (fun u v => ext_scale_mono _ u v Hc)
              _ _ A1 B1 H1) as (H2 & A2 & B2).
  destruct (antitone_by_value Binary.prec64 Binary.emax64 Binary.prec64 Binary.emax64
              (SFsub Binary.prec64 Binary.emax64 (Binary.of_Z Binary.prec64 Binary.emax64 1))
              (ext_sub_from (SF2Q (Binary.of_Z Binary.prec64 Binary.emax64 1)))
              prec64_pos prec64_pos
              (fun y O => SFsub_rounds Binary.prec64 Binary.emax64 _ y Oone Fone O)
              (ext_sub_from_anti _)
              _ _ A2 B2 H2) as (H3 & A3 & B3).
  destruct (monotone_by_value Binary.prec64 Binary.emax64 Binary.prec32 Binary.emax32
              (Binary.convert Binary.prec32 Binary.emax32) (fun v => v)
              prec64_pos prec32_pos
              (fun x O => convert_rounds Binary.prec32 Binary.emax32 x (proj2 O))
              (fun u v L => L) _ _ B3 A3 H3) as (H4 & A4 & B4).
  auto.
Qed.

End DistancePriority.

(** The LOD term is a finite float. *)
Lemma lodPriority_finite (ctx : EngineContext IEEE) (this : TileNode IEEE) :
  int_range (TileKey.getLOD (getKey this)) ->
  int_range (getNumLODs (getSelectionInfo ctx)) ->
  ok Binary.prec32 Binary.emax32 (lodPriority ctx this)
  /\ is_fin (lodPriority ctx this) = true.
Proof.
  unfold int_range. intros Hlod Hnum. unfold lodPriority.
  assert (He : 2 <= Binary.emax32) by (unfold Binary.emax32; lia).
  assert (HK : 31 + 1 <= Binary.emax32) by (unfold Binary.emax32; lia).
  change (2 ^ 31) with 2147483648 in Hlod, Hnum.
  destruct (highResolutionFirst (getOptions ctx)); cbn [f_of_int IEEE];
    apply (of_Z_is_fin Binary.prec32 Binary.emax32 prec32_pos He _ 31 ltac:(lia));
    try exact HK; change (2 ^ 31) with 2147483648; lia.
Qed.

(** Adding the LOD term keeps the order. *)
Lemma add_lodPriority_monotone lodp p1 p2 :
  ok Binary.prec32 Binary.emax32 lodp -> is_fin lodp = true ->
  ok Binary.prec32 Binary.emax32 p1 -> ok Binary.prec32 Binary.emax32 p2 ->
  SFle p1 p2 ->
  SFle (f_add IEEE lodp p1) (f_add IEEE lodp p2).
Proof.
  intros Ol Fl O1 O2 H. cbn [f_add IEEE].
  apply (monotone_by_value Binary.prec32 Binary.emax32 Binary.prec32 Binary.emax32
           (SFadd Binary.prec32 Binary.emax32 lodp) (ext_add_to (SF2Q lodp))
           prec32_pos prec32_pos
           (fun y O => SFadd_rounds Binary.prec32 Binary.emax32 lodp y Ol Fl O)
           (ext_add_to_mono _) p1 p2 O1 O2 H).
Qed.

(** C7, as the code has it.  load submits the tile's request with the
    priority lodPriority + (1 - distance/visibilityRange), each operation
    being the float or double operation of the numeric model, where
    lodPriority is the LOD when high-resolution-first is set and
    numLods - LOD otherwise.  In IEEE arithmetic, rounding to nearest even
    (the distance a binary32 float, widened to binary64 for the division
    and the subtraction, the result narrowed to binary32 and added to the
    LOD term), for a positive finite visibility range, a LOD and a number
    of LODs in the range of an int and distances that are not NaN: of two
    tiles at the same LOD the one that is not farther from the viewpoint
    has a priority that is not smaller.  The order is not strict. *)
Theorem load_priority_formula :
  (forall (NM : NumModel) (culler : TerrainCuller NM) (this : TileNode NM) ctx,
      _context this = Some ctx ->
      load culler this =
        Some (tt, [Loader_load (_loadRequest this)
                     (f_add NM (lodPriority ctx this)
                        (distPriority ctx (getDistanceToViewPoint culler this)))]))
  /\ (forall (ctx : EngineContext IEEE) culler (a b : TileNode IEEE),
      let range := _visibilityRange (visParameters (getSelectionInfo ctx) 0) in
      TileKey.getLOD (getKey a) = TileKey.getLOD (getKey b) ->
      int_range (TileKey.getLOD (getKey a)) ->
      int_range (getNumLODs (getSelectionInfo ctx)) ->
      SFltb (S754_zero false) range = true ->
      is_fin range = true ->
      ok Binary.prec32 Binary.emax32 (getDistanceToViewPoint culler a) ->
      ok Binary.prec32 Binary.emax32 (getDistanceToViewPoint culler b) ->
      SFleb (getDistanceToViewPoint culler a) (getDistanceToViewPoint culler b) = true ->
      SFleb (load_priority ctx culler b) (load_priority ctx culler a) = true).
Proof.
  split.
  - intros NM culler this ctx Hctx.
    unfold load. rewrite Hctx. simpl.
    rewrite load_priority_eq. reflexivity.
  - intros ctx culler a b range Hlod Ha Hn Hr Hf Oa Ob Hd.
    rewrite !load_priority_eq.
    replace (lodPriority ctx b) with (lodPriority ctx a)
      by (unfold lodPriority; rewrite Hlod; reflexivity).
    destruct (lodPriority_finite ctx a Ha Hn) as [Ol Fl].
    destruct (distPriority_antitone ctx Hr Hf _ _ Oa Ob Hd) as (H & O1 & O2).
    exact (add_lodPriority_monotone _ _ _ Ol Fl O2 O1 H).
Qed.

Lemma load_priority_formula_witness :
  let far := PriorityExample.next_above_one in
  let range := PriorityExample.range_2_20 in
  let ctx := PriorityExample.context (NM := IEEE) range in
  let culler := PriorityExample.culler (NM := IEEE) range far in
  (exists priority,
     load (NM := IEEE) (Scenario.culler false None) (CreateExample.root false)
     = Some (tt, [Loader_load (_loadRequest (NM := IEEE) (CreateExample.root false))
                     priority]))
  /\ SFleb (load_priority ctx culler PriorityExample.tileB)
           (load_priority ctx culler PriorityExample.tileA) = true.
Proof.
  intros far range ctx culler. split.
  - eexists.
    apply (proj1 load_priority_formula IEEE (Scenario.culler false None)
             (CreateExample.root false) (CreateExample.context false) eq_refl).
  - assert (Hlod : int_range (TileKey.getLOD (getKey (PriorityExample.tileA (NM := IEEE)))))
      by (change (int_range 10); unfold int_range; lia).
    assert (Hnum : int_range (getNumLODs (getSelectionInfo ctx)))
      by (change (int_range 20); unfold int_range; lia).
    assert (Oa : ok Binary.prec32 Binary.emax32
                   (getDistanceToViewPoint culler PriorityExample.tileA)).
    { change (ok Binary.prec32 Binary.emax32 (S754_finite false 8388608 (-23))).
      split; [reflexivity|discriminate]. }
    assert (Ob : ok Binary.prec32 Binary.emax32
                   (getDistanceToViewPoint culler PriorityExample.tileB)).
    { change (ok Binary.prec32 Binary.emax32 (S754_finite false 8388609 (-23))).
      split; [reflexivity|discriminate]. }
    exact (proj2 load_priority_formula ctx culler PriorityExample.tileA
             PriorityExample.tileB eq_refl Hlod Hnum eq_refl eq_refl Oa Ob eq_refl).
Defined.

(** In IEEE arithmetic the strict order of C7 fails: tile A is strictly
    nearer than tile B, at the same LOD, and its priority is not greater:
    the two priorities are the same float. *)
Lemma load_priority_not_strict :
  let far := PriorityExample.next_above_one in
  let range := PriorityExample.range_2_20 in
  let ctx := PriorityExample.context (NM := IEEE) range in
  let culler := PriorityExample.culler (NM := IEEE) range far in
  let a := PriorityExample.tileA (NM := IEEE) in
  let b := PriorityExample.tileB (NM := IEEE) in
  TileKey.getLOD (getKey a) = TileKey.getLOD (getKey b)
  /\ SFltb (S754_zero false) (_visibilityRange (visParameters (getSelectionInfo ctx) 0)) = true
  /\ SFltb (getDistanceToViewPoint culler a) (getDistanceToViewPoint culler b) = true
  /\ SFltb (load_priority ctx culler b) (load_priority ctx culler a) = false
  /\ load_priority ctx culler b = load_priority ctx culler a.
Proof. vm_compute. repeat split. Qed.

(* ===================================================================== *)
(** ** Sampler arrays *)
(* ===================================================================== *)

Section SamplerArrays.
Context {NM : NumModel}.

Lemma sampler_at_lookup (l : Samplers NM) i :
  sampler_at l i = default Sampler_default (l !! i).
Proof. unfold sampler_at. apply nth_lookup. Qed.

Lemma sampler_at_map (f : Sampler NM -> Sampler NM) l s :
  (s < length l)%nat -> sampler_at (map f l) s = f (sampler_at l s).
Proof.
  intros H. unfold sampler_at.
  rewrite (nth_indep (map f l) Sampler_default (f Sampler_default))
    by (rewrite length_map; exact H).
  apply map_nth.
Qed.

Lemma sampler_at_set_eq i x (l : Samplers NM) : sampler_at (set_sampler i x l) i = x.
Proof.
  rewrite sampler_at_lookup. unfold set_sampler.
  destruct (i <? length l)%nat eqn:Hi.
  - apply Nat.ltb_lt in Hi. rewrite list_lookup_insert_eq by exact Hi. reflexivity.
  - apply Nat.ltb_ge in Hi.
    rewrite lookup_app_r by exact Hi.
    rewrite lookup_app_r by (rewrite length_replicate; lia).
    rewrite length_replicate. replace (i - length l - (i - length l))%nat with O by lia.
    reflexivity.
Qed.

Lemma sampler_at_set_ne i j x (l : Samplers NM) :
  i <> j -> sampler_at (set_sampler i x l) j = sampler_at l j.
Proof.
  intros Hne. rewrite !sampler_at_lookup. unfold set_sampler.
  destruct (i <? length l)%nat eqn:Hi.
  - rewrite list_lookup_insert_ne by exact Hne. reflexivity.
  - apply Nat.ltb_ge in Hi.
    destruct (decide (j < length l)%nat) as [Hj|Hj].
    + rewrite lookup_app_l by exact Hj. reflexivity.
    + rewrite (lookup_ge_None_2 l j) by lia.
      rewrite lookup_app_r by lia.
      destruct (decide (j - length l < i - length l)%nat) as [Hk|Hk].
      * rewrite lookup_app_l by (rewrite length_replicate; exact Hk).
        rewrite lookup_replicate_2 by exact Hk. reflexivity.
      * rewrite lookup_ge_None_2; [reflexivity|].
        rewrite length_app, length_replicate. simpl. lia.
Qed.

End SamplerArrays.

(* ===================================================================== *)
(** ** Creation of a node under a parent *)
(* ===================================================================== *)

Lemma getQuadrant_lt_4 (k : TileKey.t) : (TileKey.getQuadrant k < 4)%nat.
Proof.
  unfold TileKey.getQuadrant.
  pose proof (Z.mod_pos_bound (TileKey.getTileX k) 2 ltac:(lia)).
  pose proof (Z.mod_pos_bound (TileKey.getTileY k) 2 ltac:(lia)).
  lia.
Qed.

(** The quadrant of the child key made for quadrant [q] is [q]. *)
Lemma getQuadrant_createChildKey (k : TileKey.t) (q : nat) :
  (q < 4)%nat -> TileKey.getQuadrant (TileKey.createChildKey k q) = q.
Proof.
  intros Hq. unfold TileKey.getQuadrant.
  destruct q as [|[|[|[|q]]]]; [| | | |lia]; simpl TileKey.getTileX; simpl TileKey.getTileY.
  - replace ((TileKey.getTileX k * 2) mod 2) with 0 by (symmetry; apply Z.mod_mul; lia).
    replace ((TileKey.getTileY k * 2) mod 2) with 0 by (symmetry; apply Z.mod_mul; lia).
    reflexivity.
  - replace ((TileKey.getTileX k * 2 + 1) mod 2) with 1
      by (rewrite Z.add_comm, Z.mod_add by lia; reflexivity).
    replace ((TileKey.getTileY k * 2) mod 2) with 0 by (symmetry; apply Z.mod_mul; lia).
    reflexivity.
  - replace ((TileKey.getTileX k * 2) mod 2) with 0 by (symmetry; apply Z.mod_mul; lia).
    replace ((TileKey.getTileY k * 2 + 1) mod 2) with 1
      by (rewrite Z.add_comm, Z.mod_add by lia; reflexivity).
    reflexivity.
  - replace ((TileKey.getTileX k * 2 + 1) mod 2) with 1
      by (rewrite Z.add_comm, Z.mod_add by lia; reflexivity).
    replace ((TileKey.getTileY k * 2 + 1) mod 2) with 1
      by (rewrite Z.add_comm, Z.mod_add by lia; reflexivity).
    reflexivity.
Qed.

Section Create.
Context {NM : NumModel}.

Lemma setElevationRaster_total image matrix (this : TileNode NM) :
  _surface this <> None ->
  exists sf ev,
    setElevationRaster image matrix this = Some (with_surface (Some sf) this, ev).
Proof.
  destruct this as [ctx key dirty ready met mef ltt ltf laf snm em sf lr nl rm ch].
  simpl. destruct sf as [sf|]; [intros _|congruence].
  unfold setElevationRaster, when, bind, emit, ret, deref. simpl.
  destruct (bool_decide (image = None));
    destruct (negb (bool_decide (image = getElevationRaster sf))
              || Matrixf.neq matrix (getElevationMatrix sf));
    simpl; eauto.
Qed.

Lemma setElevationRaster_run image matrix (this this' : TileNode NM) ev :
  setElevationRaster image matrix this = Some (this', ev) ->
  exists sf, this' = with_surface sf this.
Proof.
  destruct this as [ctx key dirty ready met mef ltt ltf laf snm em sf lr nl rm ch].
  unfold setElevationRaster, when, bind, emit, ret, deref. simpl.
  destruct sf as [sf|];
    destruct (bool_decide (image = None)); simpl; try discriminate;
    destruct (negb (bool_decide (image = getElevationRaster sf))
              || Matrixf.neq matrix (getElevationMatrix sf));
    simpl; intros [= <- <-]; eexists; reflexivity.
Qed.

Lemma create_with_parent key parent ctx (this0 : TileNode NM) :
  pooledGeometryEmpty ctx key = false ->
  exists sf ev,
    create key (Some parent) (Some ctx) this0 = Some (created key parent ctx sf this0, ev).
Proof.
  intros Hgeom. unfold create.
  destruct this0 as [ctx0 key0 dirty ready met mef ltt ltf laf snm em sf0 lr nl rm ch].
  cbn [with_context with_key _key]. rewrite Hgeom.
  cbn [with_surface with_loadRequest with_stitchNormalMap with_renderModel
       _renderModel getKey _key].
  match goal with
  | |- context [bind ?m _] =>
      assert (Hm : exists sf ev,
        m = Some (with_surface (Some sf)
              (mkTileNode (Some ctx) key dirty ready met mef ltt ltf laf
                 (normalizeEdges (getOptions ctx)) em
                 (Some (mkSurface None Matrixf.identity))
                 (Some (mkLoadTileData key ∅)) nl
                 (mkRenderModel
                    (map (Sampler_preMult (scaleBias (TileKey.getQuadrant key)))
                         (_sharedSamplers (_renderModel parent)))
                    (_passes rm
                       ++ map (inheritPass (getRenderBindings ctx) (TileKey.getQuadrant key))
                              (_passes (_renderModel parent)))) ch), ev))
  end.
  { destruct (SamplerBinding.isActive _).
    - destruct (_texture _).
      + apply setElevationRaster_total. simpl. congruence.
      + eexists _, _. reflexivity.
    - eexists _, _. reflexivity. }
  destruct Hm as (sf & ev & ->).
  exists sf. eexists. reflexivity.
Qed.

Lemma create_empty key parent ctx (this0 : TileNode NM) :
  pooledGeometryEmpty ctx key = true ->
  create key parent (Some ctx) this0 =
    Some (with_empty true (with_key key (with_context (Some ctx) this0)),
          [OE_LOG DEBUG (TileIsEmpty key)]).
Proof.
  intros Hgeom. unfold create.
  destruct this0. cbn [with_context with_key _key]. rewrite Hgeom. reflexivity.
Qed.

Lemma inheritPass_sampler bindings quadrant (parentPass : RenderingPass NM) s :
  (s < length (samplers parentPass))%nat ->
  sampler_at (samplers (inheritPass bindings quadrant parentPass)) s =
  Sampler_preMult (scaleBias quadrant)
    (sampler_at (samplers parentPass) (inheritedFrom bindings s)).
Proof.
  intros Hs. unfold inheritPass, inheritedFrom. simpl.
  destruct (SamplerBinding.isActive (binding bindings SamplerBinding.COLOR_PARENT)).
  - destruct (Nat.eqb_spec s SamplerBinding.COLOR_PARENT) as [->|Hne]; simpl.
    + rewrite sampler_at_set_eq.
      apply sampler_at_map. unfold SamplerBinding.COLOR_PARENT, SamplerBinding.COLOR in *. lia.
    + rewrite sampler_at_set_ne by congruence. apply sampler_at_map. exact Hs.
  - rewrite andb_false_r. apply sampler_at_map. exact Hs.
Qed.

Lemma created_passes key parent ctx sf (this0 : TileNode NM) :
  _passes (_renderModel (created key parent ctx sf this0)) =
  _passes (_renderModel this0)
  ++ map (inheritPass (getRenderBindings ctx) (TileKey.getQuadrant key))
         (_passes (_renderModel parent)).
Proof. destruct this0. reflexivity. Qed.

Lemma created_sharedSamplers key parent ctx sf (this0 : TileNode NM) :
  _sharedSamplers (_renderModel (created key parent ctx sf this0)) =
  map (Sampler_preMult (scaleBias (TileKey.getQuadrant key)))
      (_sharedSamplers (_renderModel parent)).
Proof. destruct this0. reflexivity. Qed.

(** What [create] gives a child for each sampler of the parent. *)
Lemma create_inherits key parent ctx (this0 : TileNode NM) :
  pooledGeometryEmpty ctx key = false ->
  let quadrant := TileKey.getQuadrant key in
  let bindings := getRenderBindings ctx in
  exists this ev,
    create key (Some parent) (Some ctx) this0 = Some (this, ev)
    /\ (forall p parentPass,
          _passes (_renderModel parent) !! p = Some parentPass ->
          exists myPass,
            _passes (_renderModel this) !! (length (_passes (_renderModel this0)) + p)%nat
              = Some myPass
            /\ sourceUID myPass = sourceUID parentPass
            /\ forall s, (s < length (samplers parentPass))%nat ->
                 _matrix (sampler_at (samplers myPass) s) =
                 Matrixf.preMult
                   (_matrix (sampler_at (samplers parentPass) (inheritedFrom bindings s)))
                   (scaleBias quadrant))
    /\ length (_sharedSamplers (_renderModel this))
         = length (_sharedSamplers (_renderModel parent))
    /\ (forall s, (s < length (_sharedSamplers (_renderModel parent)))%nat ->
          _matrix (sampler_at (_sharedSamplers (_renderModel this)) s) =
          Matrixf.preMult (_matrix (sampler_at (_sharedSamplers (_renderModel parent)) s))
                          (scaleBias quadrant)).
Proof.
  intros Hgeom quadrant bindings.
  destruct (create_with_parent key parent ctx this0 Hgeom) as (sf & ev & Hrun).
  exists (created key parent ctx sf this0), ev. split; [exact Hrun|].
  rewrite created_passes, created_sharedSamplers. split; [|split].
  - intros p parentPass Hp.
    exists (inheritPass bindings quadrant parentPass). split; [|split].
    + rewrite lookup_app_r by lia.
      replace (length (_passes (_renderModel this0)) + p
               - length (_passes (_renderModel this0)))%nat with p by lia.
      change (map ?f ?l) with (f <$> l).
      rewrite list_lookup_fmap, Hp. reflexivity.
    + reflexivity.
    + intros s Hs. rewrite inheritPass_sampler by exact Hs. reflexivity.
  - apply length_map.
  - intros s Hs. rewrite sampler_at_map by exact Hs. reflexivity.
Qed.

End Create.

(** In IEEE arithmetic the products and sums with the entries 0 and 1 of
    the identity are exact: scaling and biasing the identity gives the
    quadrant matrix itself. *)
Lemma IEEE_preMult_identity (quadrant : nat) :
  Matrixf.preMult (NM := IEEE) Matrixf.identity (scaleBias quadrant) = scaleBias quadrant.
Proof.
  destruct quadrant as [|[|[|[|q]]]].
  1-4: reflexivity.
  replace (scaleBias (NM := IEEE) (S (S (S (S q))))) with (Matrixf.identity (NM := IEEE))
    by (destruct q; reflexivity).
  reflexivity.
Qed.

(** C1, as the code has it.  A node created under a parent with a
    non-empty geometry holds, after its own passes, a copy of every pass of
    the parent, and a copy of every shared sampler of the parent; the matrix
    of each copied sampler is the matrix of the parent's corresponding
    sampler pre-multiplied by the scale-bias matrix of the node's quadrant,
    except that, when the color-parent binding is active, the color-parent
    sampler of a copied pass is the copy of the pass's color sampler.  An
    identity matrix of the parent gives exactly the quadrant matrix: scale
    (0.5, 0.5) with offset (0, 0.5), (0.5, 0.5), (0, 0), (0.5, 0) for
    quadrant 0, 1, 2, 3. *)
Theorem create_scale_bias key (parent this0 : TileNode IEEE) ctx :
  pooledGeometryEmpty ctx key = false ->
  let quadrant := TileKey.getQuadrant key in
  let bindings := getRenderBindings ctx in
  (exists this ev,
    create key (Some parent) (Some ctx) this0 = Some (this, ev)
    /\ (forall p parentPass,
          _passes (_renderModel parent) !! p = Some parentPass ->
          exists myPass,
            _passes (_renderModel this) !! (length (_passes (_renderModel this0)) + p)%nat
              = Some myPass
            /\ sourceUID myPass = sourceUID parentPass
            /\ forall s, (s < length (samplers parentPass))%nat ->
                 _matrix (sampler_at (samplers myPass) s) =
                 Matrixf.preMult
                   (_matrix (sampler_at (samplers parentPass) (inheritedFrom bindings s)))
                   (scaleBias quadrant))
    /\ length (_sharedSamplers (_renderModel this))
         = length (_sharedSamplers (_renderModel parent))
    /\ (forall s, (s < length (_sharedSamplers (_renderModel parent)))%nat ->
          _matrix (sampler_at (_sharedSamplers (_renderModel this)) s) =
          Matrixf.preMult (_matrix (sampler_at (_sharedSamplers (_renderModel parent)) s))
                          (scaleBias quadrant)))
  /\ (quadrant < 4)%nat
  /\ Matrixf.preMult (NM := IEEE) Matrixf.identity (scaleBias quadrant)
     = scaleBias quadrant
  /\ scaleBias 0 = quadrantMatrix (f_zero IEEE) (f_half IEEE)
  /\ scaleBias 1 = quadrantMatrix (f_half IEEE) (f_half IEEE)
  /\ scaleBias 2 = quadrantMatrix (f_zero IEEE) (f_zero IEEE)
  /\ scaleBias 3 = quadrantMatrix (f_half IEEE) (f_zero IEEE).
Proof.
  intros Hgeom quadrant bindings. split; [|split; [|split]].
  - apply create_inherits. exact Hgeom.
  - apply getQuadrant_lt_4.
  - apply IEEE_preMult_identity.
  - repeat split.
Qed.

Lemma create_scale_bias_witness :
  exists this ev,
    create (TileKey.mk 1 1 0) (Some (CreateExample.root (NM := IEEE) false))
           (Some (CreateExample.context false)) TileNode_new = Some (this, ev).
Proof.
  destruct (create_scale_bias (TileKey.mk 1 1 0) (CreateExample.root false) TileNode_new
              (CreateExample.context false) eq_refl) as [(this & ev & Hrun & _) _].
  exists this, ev. exact Hrun.
Defined.

(** With the color-parent binding active, the color-parent sampler of the
    child does not carry the parent's color-parent matrix scaled and
    biased: it is the copy of the child's color sampler. *)
Lemma create_color_parent_not_corresponding :
  let parent := CreateExample.root (NM := IEEE) true in
  let key := TileKey.mk 1 0 0 in
  exists this ev myPass parentPass,
    create key (Some parent) (Some (CreateExample.context true)) TileNode_new
      = Some (this, ev)
    /\ _passes (_renderModel parent) !! 0%nat = Some parentPass
    /\ _passes (_renderModel this) !! 0%nat = Some myPass
    /\ _matrix (sampler_at (samplers myPass) SamplerBinding.COLOR_PARENT)
       <> Matrixf.preMult
            (_matrix (sampler_at (samplers parentPass) SamplerBinding.COLOR_PARENT))
            (scaleBias (TileKey.getQuadrant key)).
Proof.
  intros parent key.
  eexists _, _, _, _. split; [reflexivity|]. split; [reflexivity|]. split; [reflexivity|].
  intros H. apply (f_equal (fun m => Matrixf.at_ m 3 1)) in H.
  vm_compute in H. discriminate H.
Qed.

(* ===================================================================== *)
(** ** Empty tiles *)
(* ===================================================================== *)

Section Empty.
Context {NM : NumModel}.

(** C8.  When the pooled geometry of the key is empty, create marks the
    node empty and returns at once: the run does not fail, its only event is
    a log line at debug level, and nothing else of the node is set up.  The
    cull traversal of an empty node does nothing: the node is left as it is
    and there is no event, so the surface is not accepted, no child is
    created and no load is submitted. *)
Theorem empty_tile_is_skipped (ctx : EngineContext NM) key parent (this0 : TileNode NM) :
  (pooledGeometryEmpty ctx key = true ->
   exists this,
     create key parent (Some ctx) this0 = Some (this, [OE_LOG DEBUG (TileIsEmpty key)])
     /\ _empty this = true
     /\ _surface this = _surface this0
     /\ _renderModel this = _renderModel this0
     /\ _children this = _children this0)
  /\ (forall fuel culler (this : TileNode NM),
        _empty this = true ->
        traverse fuel (CULL_VISITOR culler) this = Some (this, [])).
Proof.
  split.
  - intros Hgeom. eexists. split; [apply create_empty; exact Hgeom|].
    destruct this0. simpl. auto.
  - intros fuel culler this Hempty.
    destruct fuel; simpl; unfold traverse_node; rewrite Hempty; reflexivity.
Qed.

End Empty.

Lemma empty_tile_is_skipped_witness :
  let ctx : EngineContext IEEE :=
    mkContext (getOptions (CreateExample.context false)) (CreateExample.bindings false)
              (getSelectionInfo (CreateExample.context false)) (fun _ => true) in
  let key := TileKey.mk 1 1 0 in
  exists this,
    create key (Some (CreateExample.root false)) (Some ctx) TileNode_new
      = Some (this, [OE_LOG DEBUG (TileIsEmpty key)])
    /\ traverse 0 (CULL_VISITOR (PriorityExample.culler (d_one IEEE) (f_one IEEE))) this
       = Some (this, []).
Proof.
  intros ctx key.
  destruct (empty_tile_is_skipped ctx key (Some (CreateExample.root false)) TileNode_new)
    as [Hcreate Htraverse].
  destruct (Hcreate eq_refl) as (this & Hrun & Hempty & _).
  exists this. split; [exact Hrun|].
  apply Htraverse. exact Hempty.
Defined.

(* ===================================================================== *)
(** ** The cull of one node, by cases *)
(* ===================================================================== *)

Section CullCases.
Context {NM : NumModel}.

Lemma shouldSubDivide_events culler si (this : TileNode NM) b ev :
  shouldSubDivide culler si this = Some (b, ev) -> ev = [].
Proof.
  unfold shouldSubDivide.
  destruct (rangeMode _).
  - destruct (_ && _); [|intros [= _ <-]; reflexivity].
    destruct (_surface this); simpl; [|discriminate].
    intros [= _ <-]. reflexivity.
  - intros [= _ <-]. reflexivity.
Qed.

Lemma when_load_events (canLoadData : bool) culler (this : TileNode NM) u ev :
  (canLoadData = true -> getCamera culler <> Some ABSOLUTE_RF_INHERIT_VIEWPOINT) ->
  when (_dirty this && canLoadData) (load culler this) = Some (u, ev) ->
  load_events culler this ev.
Proof.
  intros Hcam. unfold when.
  destruct (_dirty this) eqn:Hd; simpl.
  - destruct canLoadData; simpl.
    + intros H. right. destruct u. auto.
    + intros H. inversion H. left. reflexivity.
  - intros H. inversion H. left. reflexivity.
Qed.

Lemma cull_cases accept culler (this this' : TileNode NM) vis ev :
  cull accept culler this = Some ((this', vis), ev) ->
  (this' = this /\ ev = [])
  \/ (exists evl,
        this' = with_lastAcceptSurfaceFrame (getFrameNumber (getFrameStamp culler)) this
        /\ ev = Surface_accept (_key this) :: evl
        /\ load_events culler this' evl)
  \/ (exists this1 ev1 this2 ev2,
        getCamera culler <> Some ABSOLUTE_RF_INHERIT_VIEWPOINT
        /\ _childrenReady this = false
        /\ createChildren (getEngineContext culler) this = Some (this1, ev1)
        /\ acceptSubTiles accept (with_childrenReady true this1) = Some (this2, ev2)
        /\ this' = this2 /\ ev = ev1 ++ ev2)
  \/ (exists this2 ev2 evl,
        _childrenReady this = true
        /\ acceptSubTiles accept this = Some (this2, ev2)
        /\ this' = this2 /\ ev = ev2 ++ evl
        /\ load_events culler this2 evl).
Proof.
  unfold cull. intros H.
  apply bind_Some in H as (sf & e0 & e1 & Hsf & H & ->).
  destruct (_surface this) as [sf0|]; [|discriminate].
  injection Hsf as <- <-. simpl app.
  destruct (negb (isVisibleFrom culler this)).
  { injection H as <- <- <-. left. auto. }
  apply bind_Some in H as (inRange & e2 & e3 & Hsub & H & ->).
  apply shouldSubDivide_events in Hsub as ->. simpl app.
  set (canCreate0 := if _dirty this && progressive (getOptions (getEngineContext culler))
                     then false else inRange) in H.
  destruct (match getCamera culler with
            | Some ABSOLUTE_RF_INHERIT_VIEWPOINT => (false, false)
            | _ => (canCreate0, true)
            end) as [canCreate canLoad] eqn:Hcam.
  assert (Hcc : canCreate = true -> getCamera culler <> Some ABSOLUTE_RF_INHERIT_VIEWPOINT).
  { destruct (getCamera culler) as [[]|]; injection Hcam as <- <-; congruence. }
  assert (Hcl : canLoad = true -> getCamera culler <> Some ABSOLUTE_RF_INHERIT_VIEWPOINT).
  { destruct (getCamera culler) as [[]|]; injection Hcam as <- <-; congruence. }
  clear Hcam canCreate0.
  apply bind_Some in H as ([[this1 canLoad1] canAccept] & e4 & e5 & Hmid & Htail & ->).
  apply bind_Some in Htail as (this3 & e6 & e7 & Hsurf & Hload & ->).
  apply bind_Some in Hload as (u & e8 & e9 & Hwhen & Hret & ->).
  injection Hret as <- <- <-. rewrite app_nil_r.
  destruct inRange.
  - apply bind_Some in Hmid as ([this2 canLoad2] & e10 & e11 & Hcreate & Hsub & ->).
    destruct (_childrenReady this) eqn:Hready; simpl in Hcreate.
    + (* the children are there *)
      injection Hcreate as <- <- <-. rewrite Hready in Hsub.
      apply bind_Some in Hsub as (this4 & e12 & e13 & Hsub & Hret & ->).
      injection Hret as <- <- <- <-.
      injection Hsurf as <- <-.
      right. right. right. exists this4, e12, e8.
      rewrite !app_nil_r. simpl. repeat split; try assumption; try reflexivity.
      eapply when_load_events; eassumption.
    + destruct canCreate.
      * (* the children are created *)
        apply bind_Some in Hcreate as (this4 & e12 & e13 & Hcreate & Hret & ->).
        injection Hret as <- <- <-.
        assert (Hr : _childrenReady (with_childrenReady true this4) = true)
          by (destruct this4; reflexivity).
        rewrite Hr in Hsub.
        apply bind_Some in Hsub as (this5 & e14 & e15 & Hsub & Hret & ->).
        injection Hret as <- <- <- <-.
        injection Hsurf as <- <-.
        assert (e8 = []) as ->.
        { unfold when in Hwhen. rewrite andb_false_r in Hwhen. inversion Hwhen. reflexivity. }
        right. right. left. exists this4, e12, this5, e14.
        rewrite !app_nil_r. auto 10.
      * (* no children: the surface *)
        injection Hcreate as <- <- <-. rewrite Hready in Hsub.
        injection Hsub as <- <- <- <-.
        apply bind_emit in Hsurf as (e12 & Hret & ->).
        injection Hret as <- <-.
        right. left. exists e8. simpl. repeat split.
        eapply when_load_events; eassumption.
  - injection Hmid as <- <- <- <-.
    apply bind_emit in Hsurf as (e12 & Hret & ->).
    injection Hret as <- <-.
    right. left. exists e8. simpl. repeat split.
    eapply when_load_events; eassumption.
Qed.
End CullCases.

(* ===================================================================== *)
(** ** Creation of the four children *)
(* ===================================================================== *)

Section CreateChildren.
Context {NM : NumModel}.

Lemma create_shape key parent ctx (this0 : TileNode NM) :
  exists this ev,
    create key (Some parent) (Some ctx) this0 = Some (this, ev)
    /\ _key this = key
    /\ _children this = _children this0
    /\ _childrenReady this = _childrenReady this0.
Proof.
  destruct (pooledGeometryEmpty ctx key) eqn:Hgeom.
  - eexists _, _. split; [apply create_empty; exact Hgeom|].
    destruct this0. simpl. auto.
  - destruct (create_with_parent key parent ctx this0 Hgeom) as (sf & ev & Hrun).
    eexists _, _. split; [exact Hrun|].
    destruct this0. simpl. auto.
Qed.

(** [create] makes no child and leaves the children-ready flag alone. *)
Lemma create_children key parent context (this0 this : TileNode NM) ev :
  create key parent context this0 = Some (this, ev) ->
  _children this = _children this0 /\ _childrenReady this = _childrenReady this0.
Proof.
  destruct context as [ctx|]; [|intros [= <- _]; auto].
  destruct (pooledGeometryEmpty ctx key) eqn:Hgeom.
  - rewrite create_empty by exact Hgeom. intros [= <- _]. destruct this0. simpl. auto.
  - destruct parent as [parent|].
    + destruct (create_with_parent key parent ctx this0 Hgeom) as (sf & ev' & ->).
      intros [= <- _]. destruct this0. simpl. auto.
    + unfold create. destruct this0. cbn [with_context with_key _key]. rewrite Hgeom.
      intros [= <- _]. simpl. auto.
Qed.

Lemma createChild_shape ctx quadrant (this : TileNode NM) :
  exists c ev,
    createChild ctx quadrant this = Some (addChild c this, ev)
    /\ _key c = TileKey.createChildKey (_key this) quadrant
    /\ _children c = []
    /\ _childrenReady c = false.
Proof.
  unfold createChild.
  match goal with
  | |- context [create ?k ?p ?c ?n] =>
      destruct (create_shape k this ctx n) as (c0 & ev & Hrun & Hkey & Hch & Hready)
  end.
  rewrite Hrun. exists c0, (ev ++ []). split; [reflexivity|].
  split; [exact Hkey|].
  rewrite Hch, Hready.
  destruct (minExpiryFrames (getOptions ctx)), (minExpiryTime (getOptions ctx)); auto.
Qed.

Lemma addChild_key c (this : TileNode NM) : _key (addChild c this) = _key this.
Proof. destruct this. reflexivity. Qed.

Lemma createChildren_shape ctx (this : TileNode NM) :
  exists c0 c1 c2 c3 ev,
    createChildren ctx this =
      Some (with_children (_children this ++ [c0; c1; c2; c3]) this, ev)
    /\ Forall2 (fun c quadrant =>
                  _key c = TileKey.createChildKey (_key this) quadrant
                  /\ _children c = [] /\ _childrenReady c = false)
               [c0; c1; c2; c3] [0; 1; 2; 3]%nat.
Proof.
  unfold createChildren, for_each.
  destruct (createChild_shape ctx 0 this) as (c0 & e0 & H0 & K0 & L0 & R0).
  destruct (createChild_shape ctx 1 (addChild c0 this)) as (c1 & e1 & H1 & K1 & L1 & R1).
  destruct (createChild_shape ctx 2 (addChild c1 (addChild c0 this)))
    as (c2 & e2 & H2 & K2 & L2 & R2).
  destruct (createChild_shape ctx 3 (addChild c2 (addChild c1 (addChild c0 this))))
    as (c3 & e3 & H3 & K3 & L3 & R3).
  rewrite !addChild_key in *.
  exists c0, c1, c2, c3. eexists. split.
  - unfold bind at 1. simpl emit. cbv iota beta.
    rewrite H0. unfold bind at 1. rewrite H1. unfold bind at 1. rewrite H2.
    unfold bind at 1. rewrite H3. unfold bind, ret.
    replace (addChild c3 (addChild c2 (addChild c1 (addChild c0 this))))
      with (with_children (_children this ++ [c0; c1; c2; c3]) this).
    + reflexivity.
    + destruct this. unfold addChild. simpl. rewrite <- !app_assoc. reflexivity.
  - repeat constructor; assumption.
Qed.
End CreateChildren.

(* ===================================================================== *)
(** ** The quadtree invariant *)
(* ===================================================================== *)

Section Quadtree.
Context {NM : NumModel}.

Lemma quadtree_ok_eq (this : TileNode NM) :
  quadtree_ok this = childCount_ok this && forallb quadtree_ok (_children this).
Proof. destruct this. reflexivity. Qed.

Lemma tree_keys_eq (this : TileNode NM) :
  tree_keys this = _key this :: flat_map tree_keys (_children this).
Proof. destruct this. reflexivity. Qed.

Lemma quadtree_ok_same (a b : TileNode NM) :
  _childrenReady a = _childrenReady b -> _children a = _children b ->
  quadtree_ok a = quadtree_ok b.
Proof.
  intros Hr Hc. rewrite !quadtree_ok_eq. unfold childCount_ok. rewrite Hr, Hc. reflexivity.
Qed.

Lemma tree_keys_same (a b : TileNode NM) :
  _key a = _key b -> _children a = _children b -> tree_keys a = tree_keys b.
Proof. intros Hk Hc. rewrite !tree_keys_eq, Hk, Hc. reflexivity. Qed.

Lemma acceptSubTiles_inv accept (this this' : TileNode NM) ev :
  acceptSubTiles accept this = Some (this', ev) ->
  exists c0 c1 c2 c3 rest c0' c1' c2' c3' e0 e1 e2 e3,
    _children this = c0 :: c1 :: c2 :: c3 :: rest
    /\ accept c0 = Some (c0', e0) /\ accept c1 = Some (c1', e1)
    /\ accept c2 = Some (c2', e2) /\ accept c3 = Some (c3', e3)
    /\ this' = with_children (c0' :: c1' :: c2' :: c3' :: rest) this
    /\ ev = e0 ++ e1 ++ e2 ++ e3.
Proof.
  unfold acceptSubTiles.
  destruct (_children this) as [|c0 [|c1 [|c2 [|c3 rest]]]]; try discriminate.
  intros H.
  apply bind_Some in H as (c0' & e0 & e0r & H0 & H & ->).
  apply bind_Some in H as (c1' & e1 & e1r & H1 & H & ->).
  apply bind_Some in H as (c2' & e2 & e2r & H2 & H & ->).
  apply bind_Some in H as (c3' & e3 & e3r & H3 & H & ->).
  injection H as <- <-. rewrite app_nil_r.
  exists c0, c1, c2, c3, rest, c0', c1', c2', c3', e0, e1, e2, e3.
  auto 10.
Qed.

Lemma acceptChildren_inv accept (l l' : list (TileNode NM)) ev :
  acceptChildren accept l = Some (l', ev) ->
  Forall2 (fun c c' => exists e, accept c = Some (c', e)) l l'.
Proof.
  revert l' ev. induction l as [|c l IH]; simpl; intros l' ev H.
  - injection H as <- <-. constructor.
  - apply bind_Some in H as (c' & e0 & e0r & H0 & H & ->).
    apply bind_Some in H as (r' & e1 & e1r & H1 & H & ->).
    injection H as <- <-. constructor; eauto.
Qed.

(** *** The quadtree invariant along a traversal *)

Section Invariant.
Variable accept : TileNode NM -> Op NM (TileNode NM).
Hypothesis accept_ok : forall c c' ev,
  accept c = Some (c', ev) -> quadtree_ok c = true -> quadtree_ok c' = true.

Lemma acceptSubTiles_ok (this this' : TileNode NM) ev :
  acceptSubTiles accept this = Some (this', ev) ->
  quadtree_ok this = true -> quadtree_ok this' = true.
Proof.
  intros H Hok.
  apply acceptSubTiles_inv in H
    as (c0 & c1 & c2 & c3 & rest & c0' & c1' & c2' & c3' & e0 & e1 & e2 & e3
        & Hch & H0 & H1 & H2 & H3 & -> & _).
  rewrite quadtree_ok_eq in Hok |- *. unfold childCount_ok in *.
  destruct this. simpl in *. subst. simpl in *.
  rewrite !andb_true_iff in *.
  destruct Hok as (Hcount & Hc0 & Hc1 & Hc2 & Hc3 & Hrest).
  repeat split; eauto.
Qed.

Lemma leaf_ok (c : TileNode NM) :
  _children c = [] -> _childrenReady c = false -> quadtree_ok c = true.
Proof.
  intros Hc Hr. rewrite quadtree_ok_eq. unfold childCount_ok. rewrite Hc, Hr. reflexivity.
Qed.

Lemma cull_ok culler (this this' : TileNode NM) vis ev :
  cull accept culler this = Some ((this', vis), ev) ->
  quadtree_ok this = true -> quadtree_ok this' = true.
Proof.
  intros H Hok.
  apply cull_cases in H
    as [[-> _] | [(evl & -> & _) | [(this1 & ev1 & this2 & ev2 & _ & Hr & Hc & Hs & -> & _)
        | (this2 & ev2 & evl & _ & Hs & -> & _)]]].
  - exact Hok.
  - rewrite <- Hok. apply quadtree_ok_same; destruct this; reflexivity.
  - eapply acceptSubTiles_ok; [exact Hs|].
    destruct (createChildren_shape (getEngineContext culler) this)
      as (c0 & c1 & c2 & c3 & ev0 & Hrun & Hshape).
    rewrite Hrun in Hc. injection Hc as <- <-.
    rewrite quadtree_ok_eq in Hok. unfold childCount_ok in Hok. rewrite Hr in Hok.
    apply andb_true_iff in Hok as [Hlen _]. apply Nat.eqb_eq in Hlen.
    destruct (_children this) eqn:Hch; [|discriminate].
    rewrite quadtree_ok_eq. unfold childCount_ok.
    destruct this. simpl in *. subst. simpl.
    inversion Hshape as [|? ? ? ? (_ & L0 & R0) Hs1]; subst.
    inversion Hs1 as [|? ? ? ? (_ & L1 & R1) Hs2]; subst.
    inversion Hs2 as [|? ? ? ? (_ & L2 & R2) Hs3]; subst.
    inversion Hs3 as [|? ? ? ? (_ & L3 & R3) _]; subst.
    rewrite !leaf_ok by assumption. reflexivity.
  - eapply acceptSubTiles_ok; eassumption.
Qed.

Lemma traverse_node_ok nv (this this' : TileNode NM) ev :
  traverse_node accept nv this = Some (this', ev) ->
  quadtree_ok this = true -> quadtree_ok this' = true.
Proof.
  unfold traverse_node. intros H Hok.
  destruct nv as [culler|].
  - destruct (negb (_empty this)); [|injection H as <- _; exact Hok].
    destruct (isStealth culler).
    + apply bind_Some in H as ([this1 vis] & e0 & e1 & H & Hret & ->).
      injection Hret as <- _.
      unfold accept_cull_stealth, cull_stealth in H.
      destruct (_ <? _)%Z.
      * apply bind_Some in H as (sf & e2 & e3 & _ & H & _).
        apply bind_emit in H as (e4 & H & _). injection H as <- _. exact Hok.
      * destruct (_childrenReady this).
        -- apply bind_Some in H as (this2 & e2 & e3 & Hs & H & _).
           injection H as <- _. eapply acceptSubTiles_ok; eassumption.
        -- injection H as <- _. exact Hok.
    + apply bind_Some in H as ([this1 vis] & e0 & e1 & H & Hret & ->).
      injection Hret as <- _.
      unfold accept_cull in H.
      match type of H with
      | context [cull accept culler ?n] =>
          assert (Hok1 : quadtree_ok n = true)
            by (rewrite <- Hok; apply quadtree_ok_same; destruct this; reflexivity)
      end.
      destruct (negb (isCulled culler _)).
      * eapply cull_ok; eassumption.
      * injection H as <- _. exact Hok1.
  - destruct (0 <? getNumChildren this)%nat.
    + apply bind_Some in H as (l' & e0 & e1 & Hl & H & _).
      injection H as <- _.
      apply acceptChildren_inv in Hl.
      rewrite quadtree_ok_eq in Hok |- *. unfold childCount_ok in *.
      destruct this. simpl in *.
      apply andb_true_iff in Hok as [Hcount Hall].
      apply andb_true_iff. split.
      * rewrite <- (Forall2_length _ _ _ Hl). exact Hcount.
      * clear Hcount. induction Hl as [|c c' l l' (e & Hc) Hl IH]; [reflexivity|].
        simpl in *. apply andb_true_iff in Hall as [Hc0 Hall].
        apply andb_true_iff. split; eauto.
    + destruct (bool_decide _).
      * apply bind_emit in H as (e0 & H & _). injection H as <- _. exact Hok.
      * injection H as <- _. exact Hok.
Qed.

End Invariant.

Lemma traverse_ok fuel nv (this this' : TileNode NM) ev :
  traverse fuel nv this = Some (this', ev) ->
  quadtree_ok this = true -> quadtree_ok this' = true.
Proof.
  revert this this' ev. induction fuel as [|fuel IH]; intros this this' ev H Hok.
  - simpl in H. eapply traverse_node_ok; [|exact H|exact Hok].
    intros c c' e Hc. discriminate Hc.
  - simpl in H. eapply traverse_node_ok; [|exact H|exact Hok].
    intros c c' e Hc Hokc. eapply IH; eassumption.
Qed.

End Quadtree.

(* ===================================================================== *)
(** ** Cameras that inherit the viewpoint *)
(* ===================================================================== *)

Section InheritViewpoint.
Context {NM : NumModel}.

Lemma rendersExisting_child (this c : TileNode NM) e :
  In c (_children this) -> rendersExisting c e -> rendersExisting this e.
Proof.
  intros Hin (key & -> & Hkey). exists key. split; [reflexivity|].
  rewrite tree_keys_eq. right. apply in_flat_map. eauto.
Qed.

Lemma rendersExisting_same (a b : TileNode NM) e :
  tree_keys a = tree_keys b -> rendersExisting a e -> rendersExisting b e.
Proof. unfold rendersExisting. intros ->. auto. Qed.

Section Inherit.
Variable culler : TerrainCuller NM.
Hypothesis inherit : getCamera culler = Some ABSOLUTE_RF_INHERIT_VIEWPOINT.
Variable accept : TileNode NM -> Op NM (TileNode NM).
Hypothesis accept_renders : forall c c' ev,
  accept c = Some (c', ev) ->
  Forall (rendersExisting c) ev /\ tree_keys c' = tree_keys c.

Lemma acceptSubTiles_renders (this this' : TileNode NM) ev :
  acceptSubTiles accept this = Some (this', ev) ->
  Forall (rendersExisting this) ev /\ tree_keys this' = tree_keys this.
Proof.
  intros H.
  apply acceptSubTiles_inv in H
    as (c0 & c1 & c2 & c3 & rest & c0' & c1' & c2' & c3' & e0 & e1 & e2 & e3
        & Hch & H0 & H1 & H2 & H3 & -> & ->).
  apply accept_renders in H0 as [E0 K0], H1 as [E1 K1], H2 as [E2 K2], H3 as [E3 K3].
  split.
  - rewrite !Forall_app. repeat split.
    + eapply Forall_impl; [exact E0|]. intros e. apply rendersExisting_child.
      rewrite Hch. simpl. auto.
    + eapply Forall_impl; [exact E1|]. intros e. apply rendersExisting_child.
      rewrite Hch. simpl. auto.
    + eapply Forall_impl; [exact E2|]. intros e. apply rendersExisting_child.
      rewrite Hch. simpl. auto.
    + eapply Forall_impl; [exact E3|]. intros e. apply rendersExisting_child.
      rewrite Hch. simpl. auto.
  - rewrite (tree_keys_eq this), Hch.
    destruct this. simpl in *. rewrite K0, K1, K2, K3. reflexivity.
Qed.

Lemma self_renders (this : TileNode NM) : rendersExisting this (Surface_accept (_key this)).
Proof. exists (_key this). split; [reflexivity|]. rewrite tree_keys_eq. left. reflexivity. Qed.

Lemma load_events_inherit (this : TileNode NM) ev : load_events culler this ev -> ev = [].
Proof. intros [->|(Hcam & _)]; [reflexivity|]. contradiction. Qed.

Lemma cull_renders (this this' : TileNode NM) vis ev :
  cull accept culler this = Some ((this', vis), ev) ->
  Forall (rendersExisting this) ev /\ tree_keys this' = tree_keys this.
Proof.
  intros H.
  apply cull_cases in H
    as [[-> ->] | [(evl & -> & -> & Hl) | [(this1 & ev1 & this2 & ev2 & Hcam & _)
        | (this2 & ev2 & evl & _ & Hs & -> & -> & Hl)]]].
  - split; [constructor|reflexivity].
  - apply load_events_inherit in Hl as ->. split.
    + repeat constructor. apply self_renders.
    + apply tree_keys_same; destruct this; reflexivity.
  - contradiction.
  - apply load_events_inherit in Hl as ->. rewrite app_nil_r.
    apply acceptSubTiles_renders. exact Hs.
Qed.

Lemma traverse_node_renders (this this' : TileNode NM) ev :
  traverse_node accept (CULL_VISITOR culler) this = Some (this', ev) ->
  Forall (rendersExisting this) ev /\ tree_keys this' = tree_keys this.
Proof.
  unfold traverse_node. intros H.
  destruct (negb (_empty this)); [|injection H as <- <-; split; [constructor|reflexivity]].
  destruct (isStealth culler).
  - apply bind_Some in H as ([this1 vis] & e0 & e1 & H & Hret & ->).
    injection Hret as <- <-. rewrite app_nil_r.
    unfold accept_cull_stealth, cull_stealth in H.
    destruct (_ <? _)%Z.
    + apply bind_Some in H as (sf & e2 & e3 & Hsf & H & ->).
      destruct (_surface this); [|discriminate]. injection Hsf as _ <-.
      apply bind_emit in H as (e4 & H & ->). injection H as <- _ <-.
      split; [|reflexivity]. repeat constructor. apply self_renders.
    + destruct (_childrenReady this).
      * apply bind_Some in H as (this2 & e2 & e3 & Hs & H & ->).
        injection H as <- _ <-. rewrite app_nil_r.
        apply acceptSubTiles_renders. exact Hs.
      * injection H as <- _ <-. split; [constructor|reflexivity].
  - apply bind_Some in H as ([this1 vis] & e0 & e1 & H & Hret & ->).
    injection Hret as <- <-. rewrite app_nil_r.
    unfold accept_cull in H.
    match type of H with
    | context [cull accept culler ?n] =>
        assert (Hk : tree_keys n = tree_keys this)
          by (apply tree_keys_same; destruct this; reflexivity)
    end.
    destruct (negb (isCulled culler _)).
    + apply cull_renders in H as [E K]. split.
      * eapply Forall_impl; [exact E|]. intros e. apply rendersExisting_same. exact Hk.
      * rewrite K. exact Hk.
    + injection H as <- _ <-. split; [constructor|exact Hk].
Qed.

End Inherit.

(** C9.  In a cull traversal by a camera whose reference frame inherits
    the viewpoint, no node creates children and no node submits a load:
    every event of the traversal is the drawing of the surface of a node
    that was in the tree before, and the tree has the same nodes after the
    traversal as before. *)
Theorem inherit_viewpoint_never_subdivides fuel culler (this this' : TileNode NM) ev :
  getCamera culler = Some ABSOLUTE_RF_INHERIT_VIEWPOINT ->
  traverse fuel (CULL_VISITOR culler) this = Some (this', ev) ->
  Forall (rendersExisting this) ev
  /\ tree_keys this' = tree_keys this
  /\ (forall e, In e ev ->
        (forall key, e <> Call_createChildren key)
        /\ (forall key, e <> LiveTiles_add key)
        /\ (forall request priority, e <> Loader_load request priority)).
Proof.
  intros Hcam.
  assert (Hmain : forall fuel (this this' : TileNode NM) ev,
             traverse fuel (CULL_VISITOR culler) this = Some (this', ev) ->
             Forall (rendersExisting this) ev /\ tree_keys this' = tree_keys this).
  { clear fuel this this' ev.
    induction fuel as [|fuel IH]; intros this this' ev H; simpl in H.
    - eapply traverse_node_renders; [exact Hcam| |exact H].
      intros c c' e Hc. discriminate Hc.
    - eapply traverse_node_renders; [exact Hcam| |exact H].
      intros c c' e Hc. apply IH. exact Hc. }
  intros H. destruct (Hmain fuel this this' ev H) as [Hev Hkeys].
  split; [exact Hev|]. split; [exact Hkeys|].
  intros e He. rewrite List.Forall_forall in Hev.
  destruct (Hev e He) as (key & -> & _).
  repeat split; intros; discriminate.
Qed.

End InheritViewpoint.

(* ===================================================================== *)
(** ** Propagation of inherited data *)
(* ===================================================================== *)

Section Refresh.
Context {NM : NumModel}.

Lemma refresh_calls_app (ev1 ev2 : list (Event NM)) :
  refresh_calls (ev1 ++ ev2) = refresh_calls ev1 ++ refresh_calls ev2.
Proof. unfold refresh_calls. apply flat_map_app. Qed.

Lemma same_but_data_refl (a : TileNode NM) : same_but_data a a.
Proof. exists (_renderModel a), (_surface a). destruct a. reflexivity. Qed.

Lemma same_but_data_trans (a b c : TileNode NM) :
  same_but_data a b -> same_but_data b c -> same_but_data a c.
Proof.
  intros (rm & sf & ->) (rm' & sf' & ->). exists rm', sf'. destruct a. reflexivity.
Qed.

Lemma same_but_data_fields (a b : TileNode NM) :
  same_but_data a b ->
  _key b = _key a /\ _childrenReady b = _childrenReady a /\ _children b = _children a
  /\ _dirty b = _dirty a /\ _context b = _context a.
Proof. intros (rm & sf & ->). destruct a. simpl. auto. Qed.

Lemma setElevationRaster_events image matrix (this this' : TileNode NM) ev :
  setElevationRaster image matrix this = Some (this', ev) ->
  same_but_data this this' /\ refresh_calls ev = [].
Proof.
  intros H. split.
  - destruct (setElevationRaster_run _ _ _ _ _ H) as (sf & ->).
    exists (_renderModel this), sf. destruct this. reflexivity.
  - unfold setElevationRaster, when in H.
    destruct (bool_decide (image = None)).
    + apply bind_emit in H as (e & H & ->).
      apply bind_Some in H as (sf & e0 & e1 & Hsf & H & ->).
      destruct (_surface this); [|discriminate]. injection Hsf as _ <-.
      destruct (_ || _); injection H as _ <-; reflexivity.
    + rewrite bind_ret_l in H.
      apply bind_Some in H as (sf & e0 & e1 & Hsf & H & ->).
      destruct (_surface this); [|discriminate]. injection Hsf as _ <-.
      destruct (_ || _); injection H as _ <-; reflexivity.
Qed.

Lemma refreshSharedSampler_run quadrant parentShared s (this this' : TileNode NM) n n' ev :
  refreshSharedSampler quadrant parentShared s (this, n) = Some ((this', n'), ev) ->
  same_but_data this this' /\ refresh_calls ev = [].
Proof.
  unfold refreshSharedSampler.
  destruct (_ || _).
  - intros H. apply bind_Some in H as (this1 & e0 & e1 & H & Hret & ->).
    injection Hret as <- _ <-. rewrite app_nil_r.
    match type of H with
    | context [setElevationRaster _ _ ?n] =>
        assert (Hs : same_but_data this n)
          by (eexists _, (_surface this); destruct this; reflexivity)
    end.
    destruct (Nat.eqb s SamplerBinding.ELEVATION); [destruct (_texture _)|].
    + apply setElevationRaster_events in H as [H1 H2].
      split; [eapply same_but_data_trans; eassumption|exact H2].
    + injection H as <- <-. auto.
    + injection H as <- <-. auto.
  - intros H. injection H as <- _ <-. split; [apply same_but_data_refl|reflexivity].
Qed.

Lemma for_each_shared_run quadrant parentShared l (this this' : TileNode NM) n n' ev :
  for_each l (refreshSharedSampler quadrant parentShared) (this, n) = Some ((this', n'), ev) ->
  same_but_data this this' /\ refresh_calls ev = [].
Proof.
  revert this n ev. induction l as [|s l IH]; simpl; intros this n ev H.
  - injection H as <- _ <-. split; [apply same_but_data_refl|reflexivity].
  - apply bind_Some in H as ([this1 n1] & e0 & e1 & H0 & H1 & ->).
    apply refreshSharedSampler_run in H0 as [S0 E0].
    apply IH in H1 as [S1 E1].
    split; [eapply same_but_data_trans; eassumption|].
    rewrite refresh_calls_app, E0, E1. reflexivity.
Qed.

Lemma refreshInheritedData_here_run parent bindings (this here : TileNode NM) changes ev :
  refreshInheritedData_here parent bindings this = Some ((here, changes), ev) ->
  same_but_data this here /\ refresh_calls ev = [].
Proof.
  unfold refreshInheritedData_here.
  destruct (fold_left _ _ _) as [model n]. intros H.
  apply for_each_shared_run in H as [S E]. split; [|exact E].
  eapply same_but_data_trans; [|exact S].
  exists model, (_surface this). destruct this. reflexivity.
Qed.

Lemma refreshInheritedData_eq parent bindings (this : TileNode NM) :
  refreshInheritedData parent bindings this =
  bind (emit (Call_refreshInheritedData (_key this))) (fun _ =>
  bind (refreshInheritedData_here parent bindings this) (fun '(this', changes) =>
    if (0 <? changes)%nat then
      bind (emit (DirtyBound (_key this'))) (fun _ =>
      if _childrenReady this' then
        match _children this with
        | c0 :: c1 :: c2 :: c3 :: rest =>
            bind (refreshInheritedData this' bindings c0) (fun c0' =>
            bind (refreshInheritedData this' bindings c1) (fun c1' =>
            bind (refreshInheritedData this' bindings c2) (fun c2' =>
            bind (refreshInheritedData this' bindings c3) (fun c3' =>
            ret (with_children (c0' :: c1' :: c2' :: c3' :: rest) this')))))
        | _ => fail
        end
      else ret this')
    else ret this')).
Proof. destruct this. reflexivity. Qed.

Lemma refresh_calls_head parent bindings (this this' : TileNode NM) ev :
  refreshInheritedData parent bindings this = Some (this', ev) ->
  exists l, refresh_calls ev = _key this :: l.
Proof.
  rewrite refreshInheritedData_eq. intros H.
  apply bind_emit in H as (e & _ & ->). simpl. eauto.
Qed.

(** C3.  A call of refreshInheritedData on a node goes on into the node's
    four children exactly when the node's children are ready and at least
    one change was made to the node by the call: then it is called on
    children 0, 1, 2, 3 in this order with the node, as changed, for
    parent; otherwise the call ends at the node. *)
Theorem refresh_recursion parent bindings (this this' : TileNode NM) ev :
  refreshInheritedData parent bindings this = Some (this', ev) ->
  exists here changes ev0,
    refreshInheritedData_here parent bindings this = Some ((here, changes), ev0)
    /\ (_childrenReady this = true /\ (0 < changes)%nat ->
        exists c0 c1 c2 c3 rest c0' c1' c2' c3' e0 e1 e2 e3 l0 l1 l2 l3,
          _children this = c0 :: c1 :: c2 :: c3 :: rest
          /\ refreshInheritedData here bindings c0 = Some (c0', e0)
          /\ refreshInheritedData here bindings c1 = Some (c1', e1)
          /\ refreshInheritedData here bindings c2 = Some (c2', e2)
          /\ refreshInheritedData here bindings c3 = Some (c3', e3)
          /\ this' = with_children (c0' :: c1' :: c2' :: c3' :: rest) here
          /\ refresh_calls ev =
               _key this :: (_key c0 :: l0) ++ (_key c1 :: l1)
                            ++ (_key c2 :: l2) ++ (_key c3 :: l3))
    /\ (~ (_childrenReady this = true /\ (0 < changes)%nat) ->
        this' = here /\ refresh_calls ev = [_key this]).
Proof.
  rewrite refreshInheritedData_eq. intros H.
  apply bind_emit in H as (e & H & ->).
  apply bind_Some in H as ([here changes] & ev0 & e1 & Hhere & H & ->).
  exists here, changes, ev0. split; [exact Hhere|].
  destruct (refreshInheritedData_here_run _ _ _ _ _ _ Hhere) as [Hsame Hev0].
  apply same_but_data_fields in Hsame as (Hkey & Hready & _).
  destruct (Nat.ltb_spec 0 changes) as [Hc|Hc].
  - apply bind_emit in H as (e2 & H & ->). rewrite Hready in H.
    destruct (_childrenReady this) eqn:Hr.
    + split; [intros _|intros Hn; exfalso; apply Hn; auto].
      destruct (_children this) as [|c0 [|c1 [|c2 [|c3 rest]]]]; try discriminate.
      apply bind_Some in H as (c0' & e0 & r0 & H0 & H & ->).
      apply bind_Some in H as (c1' & e1' & r1 & H1 & H & ->).
      apply bind_Some in H as (c2' & e2' & r2 & H2 & H & ->).
      apply bind_Some in H as (c3' & e3' & r3 & H3 & H & ->).
      injection H as <- <-.
      destruct (refresh_calls_head _ _ _ _ _ H0) as (l0 & L0).
      destruct (refresh_calls_head _ _ _ _ _ H1) as (l1 & L1).
      destruct (refresh_calls_head _ _ _ _ _ H2) as (l2 & L2).
      destruct (refresh_calls_head _ _ _ _ _ H3) as (l3 & L3).
      exists c0, c1, c2, c3, rest, c0', c1', c2', c3', e0, e1', e2', e3', l0, l1, l2, l3.
      repeat split; try assumption.
      change (Call_refreshInheritedData (_key this) :: ?l)
        with ([Call_refreshInheritedData (_key this)] ++ l).
      change (DirtyBound (_key here) :: ?l) with ([DirtyBound (_key here)] ++ l).
      rewrite !refresh_calls_app, Hev0, L0, L1, L2, L3. simpl.
      rewrite app_nil_r. reflexivity.
    + split; [intros [? _]; discriminate|intros _].
      injection H as <- <-. split; [reflexivity|].
      change (Call_refreshInheritedData (_key this) :: ?l)
        with ([Call_refreshInheritedData (_key this)] ++ l).
      rewrite !refresh_calls_app, Hev0. reflexivity.
  - split; [intros [_ ?]; lia|intros _].
    injection H as <- <-. split; [reflexivity|].
    change (Call_refreshInheritedData (_key this) :: ?l)
      with ([Call_refreshInheritedData (_key this)] ++ l).
    rewrite !refresh_calls_app, Hev0. reflexivity.
Qed.

End Refresh.

(* ===================================================================== *)
(** ** Nodes that hold their own data *)
(* ===================================================================== *)

Section FixedPoint.
Context {NM : NumModel}.

Lemma passIndex_Some uid (passes : list (RenderingPass NM)) i :
  passIndex uid passes = Some i ->
  exists pass, passes !! i = Some pass /\ sourceUID pass = uid.
Proof.
  revert i. induction passes as [|p rest IH]; simpl; intros i H; [discriminate|].
  destruct (Z.eqb_spec (sourceUID p) uid) as [Heq|Hne].
  - injection H as <-. exists p. auto.
  - destruct (passIndex uid rest) as [j|]; [|discriminate].
    injection H as <-. destruct (IH j eq_refl) as (pass & Hl & Hu). exists pass. auto.
Qed.

Lemma sampler_at_In (l : Samplers NM) s :
  (s < length l)%nat -> In (sampler_at l s) l.
Proof. intros H. unfold sampler_at. apply nth_In. exact H. Qed.

Lemma refreshSampler_unchanged bindings quadrant parentPass (l : Samplers NM) n s :
  SamplerBinding.isActive (binding bindings SamplerBinding.COLOR_PARENT) = false ->
  authoritative (sampler_at l s) = true ->
  refreshSampler bindings quadrant parentPass (l, n) s = (l, n).
Proof.
  intros Hcp Ha. unfold refreshSampler. rewrite Hcp, andb_false_r.
  unfold authoritative in Ha. apply andb_true_iff in Ha as [-> ->]. reflexivity.
Qed.

Lemma fold_refreshSampler_unchanged bindings quadrant parentPass (l : Samplers NM) n idx :
  SamplerBinding.isActive (binding bindings SamplerBinding.COLOR_PARENT) = false ->
  forallb authoritative l = true ->
  Forall (fun s => (s < length l)%nat) idx ->
  fold_left (refreshSampler bindings quadrant parentPass) idx (l, n) = (l, n).
Proof.
  intros Hcp Hall Hidx. induction Hidx as [|s idx Hs _ IH]; cbn [fold_left]; [reflexivity|].
  rewrite refreshSampler_unchanged; [exact IH|exact Hcp|].
  rewrite forallb_forall in Hall. apply Hall. apply sampler_at_In. exact Hs.
Qed.

Lemma seq_lt n : Forall (fun s => (s < n)%nat) (seq 0 n).
Proof. apply List.Forall_forall. intros s Hs. apply in_seq in Hs. lia. Qed.

Lemma refreshPass_unchanged bindings quadrant (model : TileRenderModel NM) n parentPass :
  SamplerBinding.isActive (binding bindings SamplerBinding.COLOR_PARENT) = false ->
  forallb (fun pass => forallb authoritative (samplers pass)) (_passes model) = true ->
  passIndex (sourceUID parentPass) (_passes model) <> None ->
  refreshPass bindings quadrant (model, n) parentPass = (model, n).
Proof.
  intros Hcp Hall Hfound. unfold refreshPass.
  destruct (passIndex _ _) as [i|] eqn:Hi; [|congruence].
  destruct (passIndex_Some _ _ _ Hi) as (pass & Hl & _).
  assert (Hnth : nth i (_passes model) RenderingPass_default = pass).
  { rewrite nth_lookup, Hl. reflexivity. }
  rewrite Hnth.
  rewrite fold_refreshSampler_unchanged.
  - replace (with_samplers (samplers pass) pass) with pass by (destruct pass; reflexivity).
    rewrite list_insert_id by exact Hl. destruct model. reflexivity.
  - exact Hcp.
  - rewrite forallb_forall in Hall. apply Hall.
    apply list_elem_of_In. eapply list_elem_of_lookup_2. exact Hl.
  - apply seq_lt.
Qed.

Lemma fold_refreshPass_unchanged bindings quadrant (model : TileRenderModel NM) n parentPasses :
  SamplerBinding.isActive (binding bindings SamplerBinding.COLOR_PARENT) = false ->
  forallb (fun pass => forallb authoritative (samplers pass)) (_passes model) = true ->
  Forall (fun parentPass => passIndex (sourceUID parentPass) (_passes model) <> None)
         parentPasses ->
  fold_left (refreshPass bindings quadrant) parentPasses (model, n) = (model, n).
Proof.
  intros Hcp Hall Hcov. induction Hcov as [|p l Hp _ IH]; cbn [fold_left]; [reflexivity|].
  rewrite refreshPass_unchanged by assumption. exact IH.
Qed.

Lemma for_each_shared_unchanged quadrant parentShared (this : TileNode NM) n idx :
  forallb authoritative (_sharedSamplers (_renderModel this)) = true ->
  Forall (fun s => (s < length (_sharedSamplers (_renderModel this)))%nat) idx ->
  for_each idx (refreshSharedSampler quadrant parentShared) (this, n) = Some ((this, n), []).
Proof.
  intros Hall Hidx. induction Hidx as [|s idx Hs _ IH]; cbn [for_each]; [reflexivity|].
  assert (Hstep : refreshSharedSampler quadrant parentShared s (this, n)
                  = Some ((this, n), [])).
  { unfold refreshSharedSampler.
    rewrite forallb_forall in Hall.
    specialize (Hall _ (sampler_at_In _ _ Hs)).
    unfold authoritative in Hall. apply andb_true_iff in Hall as [-> ->]. reflexivity. }
  rewrite Hstep. unfold bind. rewrite IH. reflexivity.
Qed.

End FixedPoint.

(* ===================================================================== *)
(** ** Merging a tile's own data *)
(* ===================================================================== *)

Section Merge.
Context {NM : NumModel}.

Lemma renderModel_with_renderModel m (this : TileNode NM) :
  _renderModel (with_renderModel m this) = m.
Proof. destruct this. reflexivity. Qed.

Lemma passIndex_alter uid (f : RenderingPass NM -> RenderingPass NM) j passes :
  (forall p, sourceUID (f p) = sourceUID p) ->
  passIndex uid (alter f j passes) = passIndex uid passes.
Proof.
  intros Hf. revert j. induction passes as [|p rest IH]; intros j; [reflexivity|].
  destruct j as [|j].
  - change (alter f 0%nat (p :: rest)) with (f p :: rest).
    cbn [passIndex]. rewrite Hf. reflexivity.
  - change (alter f (S j) (p :: rest)) with (p :: alter f j rest).
    cbn [passIndex]. rewrite IH. reflexivity.
Qed.

Lemma passIndex_snoc uid (passes : list (RenderingPass NM)) p :
  passIndex uid (passes ++ [p]) =
  match passIndex uid passes with
  | Some i => Some i
  | None => if Z.eqb (sourceUID p) uid then Some (length passes) else None
  end.
Proof.
  induction passes as [|q rest IH]; simpl.
  - destruct (Z.eqb (sourceUID p) uid); reflexivity.
  - destruct (Z.eqb (sourceUID q) uid); [reflexivity|].
    rewrite IH. destruct (passIndex uid rest); [reflexivity|].
    destruct (Z.eqb (sourceUID p) uid); reflexivity.
Qed.

Lemma alter_snoc (f : RenderingPass NM -> RenderingPass NM) passes p :
  alter f (length passes) (passes ++ [p]) = passes ++ [f p].
Proof.
  replace (length passes) with (length passes + 0)%nat by lia.
  rewrite alter_app_r. reflexivity.
Qed.

Lemma getPass_alter_ne uid (f : RenderingPass NM -> RenderingPass NM) j model pass :
  (forall p, sourceUID (f p) = sourceUID p) ->
  passIndex uid (_passes model) <> Some j ->
  getPass uid model = Some pass ->
  getPass uid (update_pass j f model) = Some pass.
Proof.
  intros Hf Hne. unfold getPass, update_pass. simpl.
  rewrite passIndex_alter by exact Hf.
  destruct (passIndex uid (_passes model)) as [i|]; [|discriminate].
  intros H. rewrite list_lookup_alter_ne by congruence. exact H.
Qed.

Lemma getPass_alter_eq uid (f : RenderingPass NM -> RenderingPass NM) j model :
  (forall p, sourceUID (f p) = sourceUID p) ->
  passIndex uid (_passes model) = Some j ->
  exists pass, getPass uid model = Some pass
               /\ getPass uid (update_pass j f model) = Some (f pass).
Proof.
  intros Hf Hj. unfold getPass, update_pass. simpl.
  rewrite passIndex_alter by exact Hf. rewrite Hj.
  destruct (passIndex_Some _ _ _ Hj) as (pass & Hl & _).
  exists pass. split; [exact Hl|].
  rewrite list_lookup_alter_eq, Hl. reflexivity.
Qed.

Lemma write_sampler_uid i s (p : RenderingPass NM) :
  sourceUID (write_sampler i s p) = sourceUID p.
Proof. reflexivity. Qed.

Lemma merge_imageLayer_model bindings layer tex (this this' : TileNode NM) ev :
  merge_imageLayer bindings layer tex this = Some (this', ev) ->
  let color := mkSampler (Some tex) (getMatrix layer) in
  let model := _renderModel this in
  this' = with_renderModel
            match passIndex (getImageLayerUID layer) (_passes model) with
            | Some i => update_pass i (write_sampler SamplerBinding.COLOR color) model
            | None =>
                with_passes
                  (_passes model
                   ++ [write_sampler SamplerBinding.COLOR color
                         (newPass bindings (getImageLayerUID layer) tex)]) model
            end this.
Proof.
  intros H. cbv zeta. unfold merge_imageLayer in H.
  destruct (passIndex _ _) as [i|].
  - apply bind_Some in H as (u & e0 & e1 & _ & H & _). injection H as <- _. reflexivity.
  - unfold addPass in H. cbv iota beta in H.
    apply bind_Some in H as (u & e0 & e1 & _ & H & _). injection H as <- _.
    f_equal. unfold newPass, update_pass, with_passes. simpl.
    destruct (SamplerBinding.isActive _); simpl; rewrite !alter_snoc; reflexivity.
Qed.

Lemma merge_imageLayer_writes bindings layer tex (this this' : TileNode NM) ev :
  merge_imageLayer bindings layer tex this = Some (this', ev) ->
  exists pass,
    getPass (getImageLayerUID layer) (_renderModel this') = Some pass
    /\ sampler_at (samplers pass) SamplerBinding.COLOR
       = mkSampler (Some tex) (getMatrix layer).
Proof.
  intros H. apply merge_imageLayer_model in H. cbv zeta in H. subst this'.
  destruct (passIndex _ _) as [i|] eqn:Hi.
  - destruct (getPass_alter_eq (getImageLayerUID layer)
                (write_sampler SamplerBinding.COLOR (mkSampler (Some tex) (getMatrix layer)))
                i (_renderModel this) (write_sampler_uid _ _) Hi) as (pass & _ & Hg).
    eexists. split.
    + destruct this. simpl. exact Hg.
    + simpl. apply sampler_at_set_eq.
  - eexists. split.
    + destruct this. unfold getPass. simpl in *. rewrite passIndex_snoc, Hi.
      replace (Z.eqb _ _) with true.
      * rewrite lookup_app_r by lia. rewrite Nat.sub_diag. reflexivity.
      * symmetry. apply Z.eqb_eq. unfold newPass.
        destruct (SamplerBinding.isActive _); reflexivity.
    + simpl. apply sampler_at_set_eq.
Qed.

Lemma getPass_snoc uid (model : TileRenderModel NM) p pass :
  getPass uid model = Some pass ->
  getPass uid (with_passes (_passes model ++ [p]) model) = Some pass.
Proof.
  unfold getPass. simpl. rewrite passIndex_snoc.
  destruct (passIndex uid (_passes model)) as [i|] eqn:Hi; [|discriminate].
  intros H. rewrite lookup_app_l; [exact H|].
  eapply lookup_lt_Some. exact H.
Qed.

Lemma merge_imageLayer_keeps bindings layer tex (this this' : TileNode NM) ev uid pass :
  merge_imageLayer bindings layer tex this = Some (this', ev) ->
  getImageLayerUID layer <> uid ->
  getPass uid (_renderModel this) = Some pass ->
  getPass uid (_renderModel this') = Some pass.
Proof.
  intros H Hne Hg. apply merge_imageLayer_model in H. cbv zeta in H. subst this'.
  rewrite renderModel_with_renderModel.
  destruct (passIndex (getImageLayerUID layer) _) as [i|] eqn:Hi.
  - apply getPass_alter_ne; [apply write_sampler_uid| |exact Hg].
    intros Hi'. destruct (passIndex_Some _ _ _ Hi) as (p1 & L1 & U1).
    destruct (passIndex_Some _ _ _ Hi') as (p2 & L2 & U2). congruence.
  - apply getPass_snoc. exact Hg.
Qed.

Lemma merge_colorLayer_keeps bindings layer (this this' : TileNode NM) ev uid pass :
  merge_colorLayer bindings layer this = Some (this', ev) ->
  (forall l, layer = ImageLayerModel l -> getTexture l <> None -> getImageLayerUID l <> uid) ->
  getPass uid (_renderModel this) = Some pass ->
  getPass uid (_renderModel this') = Some pass.
Proof.
  unfold merge_colorLayer. intros H Hne Hg.
  destruct layer as [l|[u|]|].
  - destruct (getTexture l) as [tex|] eqn:Ht.
    + eapply merge_imageLayer_keeps; [exact H| |exact Hg].
      apply Hne; [reflexivity|]. rewrite Ht. discriminate.
    + injection H as <- _. exact Hg.
  - destruct (passIndex u _) as [i|] eqn:Hi.
    + injection H as <- _. exact Hg.
    + unfold addPass in H. injection H as <- _.
      rewrite renderModel_with_renderModel.
      unfold update_pass. simpl. rewrite alter_snoc.
      apply (getPass_snoc uid (_renderModel this)). exact Hg.
  - injection H as <- _. exact Hg.
  - injection H as <- _. exact Hg.
Qed.

Lemma for_each_app {A S0 : Type} (l1 l2 : list A) (body : A -> S0 -> Op NM S0) s :
  for_each (l1 ++ l2) body s = bind (for_each l1 body s) (for_each l2 body).
Proof.
  revert s. induction l1 as [|a l1 IH]; intros s; cbn [app for_each].
  - rewrite bind_ret_l. reflexivity.
  - unfold bind at 1 3. destruct (body a s) as [[s' e]|]; [|reflexivity].
    rewrite IH. unfold bind. destruct (for_each l1 body s') as [[s'' e']|]; [|reflexivity].
    destruct (for_each l2 body s'') as [[s3 e3]|]; [|reflexivity].
    rewrite app_assoc. reflexivity.
Qed.

Lemma colorLayers_keep bindings layers (this this' : TileNode NM) ev uid pass :
  for_each layers (merge_colorLayer bindings) this = Some (this', ev) ->
  (forall l, In (ImageLayerModel l) layers -> getTexture l <> None ->
             getImageLayerUID l <> uid) ->
  getPass uid (_renderModel this) = Some pass ->
  getPass uid (_renderModel this') = Some pass.
Proof.
  revert this ev. induction layers as [|layer layers IH]; simpl; intros this ev H Hne Hg.
  - injection H as <- _. exact Hg.
  - apply bind_Some in H as (this1 & e0 & e1 & H0 & H1 & _).
    eapply IH; [exact H1|intros l Hl; apply Hne; right; exact Hl|].
    eapply merge_colorLayer_keeps; [exact H0| |exact Hg].
    intros l -> Ht. apply Hne; [left; reflexivity|exact Ht].
Qed.

Lemma colorLayers_write bindings before layer after tex (this this' : TileNode NM) ev :
  for_each (before ++ ImageLayerModel layer :: after) (merge_colorLayer bindings) this
    = Some (this', ev) ->
  getTexture layer = Some tex ->
  (forall l, In (ImageLayerModel l) after -> getTexture l <> None ->
             getImageLayerUID l <> getImageLayerUID layer) ->
  exists pass,
    getPass (getImageLayerUID layer) (_renderModel this') = Some pass
    /\ sampler_at (samplers pass) SamplerBinding.COLOR
       = mkSampler (Some tex) (getMatrix layer).
Proof.
  intros H Ht Hne. rewrite for_each_app in H.
  apply bind_Some in H as (this1 & e0 & e1 & _ & H & _).
  simpl in H. rewrite Ht in H.
  apply bind_Some in H as (this2 & e2 & e3 & Hw & H & _).
  apply merge_imageLayer_writes in Hw as (pass & Hg & Hs).
  exists pass. split; [|exact Hs].
  eapply colorLayers_keep; eassumption.
Qed.

Lemma merge_colorLayer_other bindings uid (this this' : TileNode NM) ev :
  merge_colorLayer bindings (OtherColorLayerModel (Some uid)) this = Some (this', ev) ->
  getPass uid (_renderModel this') <> None.
Proof.
  simpl. destruct (passIndex uid _) as [i|] eqn:Hi.
  - intros H. injection H as <- _. unfold getPass. rewrite Hi.
    destruct (passIndex_Some _ _ _ Hi) as (p & -> & _). discriminate.
  - unfold addPass. intros H. injection H as <- _.
    rewrite renderModel_with_renderModel. unfold update_pass, getPass. simpl.
    rewrite alter_snoc, passIndex_snoc, Hi. simpl. rewrite Z.eqb_refl.
    rewrite lookup_app_r by lia. rewrite Nat.sub_diag. discriminate.
Qed.

Lemma merge_colorLayer_keeps_some bindings layer (this this' : TileNode NM) ev uid :
  merge_colorLayer bindings layer this = Some (this', ev) ->
  getPass uid (_renderModel this) <> None ->
  getPass uid (_renderModel this') <> None.
Proof.
  intros H Hg.
  destruct (getPass uid (_renderModel this)) as [pass|] eqn:Hp; [clear Hg|congruence].
  destruct layer as [l|[u|]|]; try (injection H as <- _; congruence).
  - simpl in H. destruct (getTexture l) as [tex|] eqn:Ht;
      [|injection H as <- _; congruence].
    destruct (Z.eq_dec (getImageLayerUID l) uid) as [<-|Hne].
    + apply merge_imageLayer_writes in H as (p & -> & _). discriminate.
    + erewrite merge_imageLayer_keeps; [discriminate|exact H|exact Hne|exact Hp].
  - erewrite merge_colorLayer_keeps; [discriminate|exact H| |exact Hp].
    intros l Hl. discriminate Hl.
Qed.

Lemma colorLayers_keep_some bindings layers (this this' : TileNode NM) ev uid :
  for_each layers (merge_colorLayer bindings) this = Some (this', ev) ->
  getPass uid (_renderModel this) <> None ->
  getPass uid (_renderModel this') <> None.
Proof.
  revert this ev. induction layers as [|layer layers IH]; cbn [for_each]; intros this ev H Hg.
  - injection H as <- _. exact Hg.
  - apply bind_Some in H as (this1 & e0 & e1 & H0 & H1 & _).
    eapply IH; [exact H1|]. eapply merge_colorLayer_keeps_some; eassumption.
Qed.

Lemma colorLayers_other bindings layers uid (this this' : TileNode NM) ev :
  for_each layers (merge_colorLayer bindings) this = Some (this', ev) ->
  In (OtherColorLayerModel (Some uid)) layers ->
  getPass uid (_renderModel this') <> None.
Proof.
  intros H Hin. apply in_split in Hin as (before & after & ->).
  rewrite for_each_app in H.
  apply bind_Some in H as (this1 & e0 & e1 & _ & H & _).
  cbn [for_each] in H.
  apply bind_Some in H as (this2 & e2 & e3 & Hw & H & _).
  eapply colorLayers_keep_some; [exact H|].
  eapply merge_colorLayer_other. exact Hw.
Qed.

Lemma getPass_None uid (model : TileRenderModel NM) :
  getPass uid model = None <-> passIndex uid (_passes model) = None.
Proof.
  unfold getPass. destruct (passIndex uid (_passes model)) as [i|] eqn:Hi.
  - destruct (passIndex_Some _ _ _ Hi) as (p & -> & _). split; discriminate.
  - split; reflexivity.
Qed.

(** A layer of another UID leaves a layer without a pass without one. *)
Lemma merge_colorLayer_keeps_none bindings layer (this this' : TileNode NM) ev uid :
  merge_colorLayer bindings layer this = Some (this', ev) ->
  (forall l, layer = ImageLayerModel l -> getTexture l <> None -> getImageLayerUID l <> uid) ->
  layer <> OtherColorLayerModel (Some uid) ->
  getPass uid (_renderModel this) = None ->
  getPass uid (_renderModel this') = None.
Proof.
  unfold merge_colorLayer. intros H Hne Hother Hg.
  apply getPass_None in Hg. apply getPass_None.
  destruct layer as [l|[u|]|]; try (injection H as <- _; exact Hg).
  - destruct (getTexture l) as [tex|] eqn:Ht; [|injection H as <- _; exact Hg].
    assert (Hu : getImageLayerUID l <> uid)
      by (apply Hne; [reflexivity|rewrite Ht; discriminate]).
    apply merge_imageLayer_model in H. cbv zeta in H. subst this'.
    rewrite renderModel_with_renderModel.
    destruct (passIndex (getImageLayerUID l) _) as [i|] eqn:Hi.
    + unfold update_pass. cbn [with_passes _passes].
      rewrite passIndex_alter by apply write_sampler_uid. exact Hg.
    + cbn [with_passes _passes]. rewrite passIndex_snoc, Hg.
      replace (sourceUID (write_sampler SamplerBinding.COLOR
                            (mkSampler (Some tex) (getMatrix l))
                            (newPass bindings (getImageLayerUID l) tex)))
        with (getImageLayerUID l)
        by (unfold newPass; destruct (SamplerBinding.isActive _); reflexivity).
      destruct (Z.eqb_spec (getImageLayerUID l) uid); [contradiction|reflexivity].
  - assert (Hu : u <> uid) by congruence.
    destruct (passIndex u _) as [i|] eqn:Hi; [injection H as <- _; exact Hg|].
    unfold addPass in H. injection H as <- _.
    rewrite renderModel_with_renderModel.
    unfold update_pass. cbn [with_passes _passes]. rewrite alter_snoc, passIndex_snoc, Hg.
    cbn [setLayer sourceUID].
    destruct (Z.eqb_spec u uid); [contradiction|reflexivity].
Qed.

(** The first color layer that is not an image layer makes the pass of
    its layer, with both samplers in their default state. *)
Lemma merge_colorLayer_other_new bindings uid (this this' : TileNode NM) ev :
  merge_colorLayer bindings (OtherColorLayerModel (Some uid)) this = Some (this', ev) ->
  getPass uid (_renderModel this) = None ->
  getPass uid (_renderModel this') = Some (mkPass uid [Sampler_default; Sampler_default]).
Proof.
  cbn [merge_colorLayer]. intros H Hg. apply getPass_None in Hg. rewrite Hg in H.
  unfold addPass in H. injection H as <- _.
  rewrite renderModel_with_renderModel. unfold update_pass, getPass.
  cbn [with_passes _passes]. rewrite alter_snoc, passIndex_snoc, Hg.
  cbn [setLayer sourceUID]. rewrite Z.eqb_refl.
  rewrite lookup_app_r by lia. rewrite Nat.sub_diag. reflexivity.
Qed.

Lemma colorLayers_other_new bindings layers uid (this this' : TileNode NM) ev :
  for_each layers (merge_colorLayer bindings) this = Some (this', ev) ->
  In (OtherColorLayerModel (Some uid)) layers ->
  (forall l, In (ImageLayerModel l) layers -> getTexture l <> None ->
             getImageLayerUID l <> uid) ->
  getPass uid (_renderModel this) = None ->
  getPass uid (_renderModel this') = Some (mkPass uid [Sampler_default; Sampler_default]).
Proof.
  revert this ev. induction layers as [|layer layers IH]; cbn [for_each];
    intros this ev H Hin Hne Hg; [destruct Hin|].
  apply bind_Some in H as (this1 & e0 & e1 & H0 & H1 & _).
  assert (Hrest : forall l, In (ImageLayerModel l) layers -> getTexture l <> None ->
                            getImageLayerUID l <> uid)
    by (intros l Hl; apply Hne; right; exact Hl).
  assert (Hdec : layer = OtherColorLayerModel (Some uid)
                 \/ layer <> OtherColorLayerModel (Some uid)).
  { destruct layer as [l|[u|]|]; try (right; discriminate).
    destruct (Z.eq_dec u uid) as [->|Hu]; [left; reflexivity|right; congruence]. }
  destruct Hdec as [->|Hother].
  - eapply colorLayers_keep; [exact H1|exact Hrest|].
    eapply merge_colorLayer_other_new; eassumption.
  - destruct Hin as [Heq|Hin]; [contradiction|].
    eapply IH; [exact H1|exact Hin|exact Hrest|].
    eapply merge_colorLayer_keeps_none; [exact H0| |exact Hother|exact Hg].
    intros l -> Ht. apply Hne; [left; reflexivity|exact Ht].
Qed.

(** *** The steps after the color layers *)

Lemma write_sharedSampler_model i s (this : TileNode NM) :
  _renderModel (write_sharedSampler i s this) =
  with_sharedSamplers (set_sampler i s (_sharedSamplers (_renderModel this)))
                      (_renderModel this).
Proof. unfold write_sharedSampler. apply renderModel_with_renderModel. Qed.

Lemma renderModel_with_surface sf (this : TileNode NM) :
  _renderModel (with_surface sf this) = _renderModel this.
Proof. destruct this. reflexivity. Qed.

Lemma merge_elevation_run model bindings (this this' : TileNode NM) flag ev :
  merge_elevation model bindings this = Some ((this', flag), ev) ->
  _passes (_renderModel this') = _passes (_renderModel this)
  /\ (SamplerBinding.isActive (binding bindings SamplerBinding.ELEVATION) = true ->
      forall tex, elevationModel model = Some (Some tex) ->
      sampler_at (_sharedSamplers (_renderModel this')) SamplerBinding.ELEVATION
        = mkSampler (Some tex) Matrixf.identity).
Proof.
  unfold merge_elevation.
  destruct (SamplerBinding.isActive _);
    [destruct (elevationModel model) as [[tex|]|]|];
    try (intros H; injection H as <- _ _; split; [reflexivity|intros; congruence]).
  intros H. apply bind_Some in H as (this1 & e0 & e1 & Hs & H & _).
  injection H as <- _.
  apply setElevationRaster_run in Hs as (sf & ->).
  rewrite renderModel_with_surface, write_sharedSampler_model. simpl.
  split; [reflexivity|]. intros _ tex' [= <-]. apply sampler_at_set_eq.
Qed.

Lemma merge_normals_run model bindings (this this' : TileNode NM) ev :
  merge_normals model bindings this = Some (this', ev) ->
  _passes (_renderModel this') = _passes (_renderModel this)
  /\ (forall i, i <> SamplerBinding.NORMAL ->
        sampler_at (_sharedSamplers (_renderModel this')) i
        = sampler_at (_sharedSamplers (_renderModel this)) i)
  /\ (SamplerBinding.isActive (binding bindings SamplerBinding.NORMAL) = true ->
      forall tex, normalModel model = Some (Some tex) ->
      sampler_at (_sharedSamplers (_renderModel this')) SamplerBinding.NORMAL
        = mkSampler (Some tex) Matrixf.identity).
Proof.
  unfold merge_normals.
  destruct (SamplerBinding.isActive _);
    [destruct (normalModel model) as [[tex|]|]|];
    try (intros H; injection H as <- _; split; [reflexivity|split; [reflexivity|intros; congruence]]).
  intros H. apply bind_emit in H as (e & H & _). injection H as <- _.
  rewrite write_sharedSampler_model. simpl.
  split; [reflexivity|]. split.
  - intros i Hi. apply sampler_at_set_ne. congruence.
  - intros _ tex' [= <-]. apply sampler_at_set_eq.
Qed.

Lemma findSharedBinding_ge uid bindings i :
  findSharedBinding uid bindings = Some i -> (SamplerBinding.SHARED <= i)%nat.
Proof.
  unfold findSharedBinding. intros H. apply find_some in H as [Hin _].
  apply in_seq in Hin. lia.
Qed.

Lemma merge_sharedLayer_run bindings layerModel (this this' : TileNode NM) ev :
  merge_sharedLayer bindings layerModel this = Some (this', ev) ->
  _passes (_renderModel this') = _passes (_renderModel this)
  /\ (forall i, (i < SamplerBinding.SHARED)%nat ->
        sampler_at (_sharedSamplers (_renderModel this')) i
        = sampler_at (_sharedSamplers (_renderModel this)) i).
Proof.
  unfold merge_sharedLayer.
  destruct (getTexture layerModel) as [tex|];
    [destruct (findSharedBinding _ _) as [j|] eqn:Hj|];
    try (intros H; injection H as <- _; split; reflexivity).
  intros H. injection H as <- _. rewrite renderModel_with_renderModel. simpl.
  split; [reflexivity|]. intros i Hi. apply sampler_at_set_ne.
  apply findSharedBinding_ge in Hj. lia.
Qed.

Lemma sharedLayers_run bindings layers (this this' : TileNode NM) ev :
  for_each layers (merge_sharedLayer bindings) this = Some (this', ev) ->
  _passes (_renderModel this') = _passes (_renderModel this)
  /\ (forall i, (i < SamplerBinding.SHARED)%nat ->
        sampler_at (_sharedSamplers (_renderModel this')) i
        = sampler_at (_sharedSamplers (_renderModel this)) i).
Proof.
  revert this ev. induction layers as [|l layers IH]; cbn [for_each]; intros this ev H.
  - injection H as <- _. split; reflexivity.
  - apply bind_Some in H as (this1 & e0 & e1 & H0 & H1 & _).
    apply merge_sharedLayer_run in H0 as [P0 S0]. apply IH in H1 as [P1 S1].
    split; [congruence|]. intros i Hi. rewrite S1, S0 by exact Hi. reflexivity.
Qed.

Lemma refreshSubTiles_model bindings (this this' : TileNode NM) ev :
  refreshSubTiles bindings this = Some (this', ev) ->
  _renderModel this' = _renderModel this.
Proof.
  unfold refreshSubTiles. destruct (_childrenReady this).
  - destruct (_children this) as [|c0 [|c1 [|c2 [|c3 rest]]]]; try discriminate.
    intros H.
    apply bind_Some in H as (c0' & e0 & r0 & _ & H & _).
    apply bind_Some in H as (c1' & e1 & r1 & _ & H & _).
    apply bind_Some in H as (c2' & e2 & r2 & _ & H & _).
    apply bind_Some in H as (c3' & e3 & r3 & _ & H & _).
    injection H as <- _. destruct this. reflexivity.
  - intros H. injection H as <- _. reflexivity.
Qed.

Lemma getPass_passes uid (m m' : TileRenderModel NM) :
  _passes m' = _passes m -> getPass uid m' = getPass uid m.
Proof. unfold getPass. intros ->. reflexivity. Qed.

(** C2, as the code has it.  When the color binding is active, merge
    finds or makes the pass of every image layer of the model that carries a
    texture and writes its color sampler with the layer's texture and the
    layer's own matrix (the last layer of a UID in the model wins), and it
    finds or makes the pass of every other color layer without writing a
    sampler: unless an image layer of the model writes the pass of the same
    UID, a pass that was there is as it was, and a pass that was made holds
    the color and the color-parent sampler in their default state.  When
    the elevation (normal) binding is active and the model
    holds an elevation (normal) texture, the elevation (normal) shared
    sampler is written with that texture and the identity. *)
Theorem merge_writes_samplers model bindings (this this' : TileNode NM) ev :
  merge model bindings this = Some (this', ev) ->
  (SamplerBinding.isActive (binding bindings SamplerBinding.COLOR) = true ->
   forall before layer after tex,
     colorLayers model = before ++ ImageLayerModel layer :: after ->
     getTexture layer = Some tex ->
     (forall l, In (ImageLayerModel l) after -> getTexture l <> None ->
                getImageLayerUID l <> getImageLayerUID layer) ->
     exists pass,
       getPass (getImageLayerUID layer) (_renderModel this') = Some pass
       /\ sampler_at (samplers pass) SamplerBinding.COLOR
          = mkSampler (Some tex) (getMatrix layer))
  /\ (SamplerBinding.isActive (binding bindings SamplerBinding.COLOR) = true ->
      forall uid, In (OtherColorLayerModel (Some uid)) (colorLayers model) ->
      getPass uid (_renderModel this') <> None
      /\ ((forall l, In (ImageLayerModel l) (colorLayers model) ->
                     getTexture l <> None -> getImageLayerUID l <> uid) ->
          getPass uid (_renderModel this')
          = Some match getPass uid (_renderModel this) with
                 | Some pass => pass
                 | None => mkPass uid [Sampler_default; Sampler_default]
                 end))
  /\ (SamplerBinding.isActive (binding bindings SamplerBinding.ELEVATION) = true ->
      forall tex, elevationModel model = Some (Some tex) ->
      sampler_at (_sharedSamplers (_renderModel this')) SamplerBinding.ELEVATION
        = mkSampler (Some tex) Matrixf.identity)
  /\ (SamplerBinding.isActive (binding bindings SamplerBinding.NORMAL) = true ->
      forall tex, normalModel model = Some (Some tex) ->
      sampler_at (_sharedSamplers (_renderModel this')) SamplerBinding.NORMAL
        = mkSampler (Some tex) Matrixf.identity).
Proof.
  unfold merge. intros H.
  apply bind_Some in H as (this1 & e1 & r1 & Hcolor & H & _).
  apply bind_Some in H as ([this2 flag] & e2 & r2 & Helev & H & _).
  apply bind_Some in H as (this3 & e3 & r3 & Hnormal & H & _).
  apply bind_Some in H as (this4 & e4 & r4 & Hshared & H & _).
  apply bind_Some in H as (this5 & e5 & r5 & Hsub & H & _).
  apply bind_Some in H as (u & e6 & r6 & _ & H & _).
  injection H as <- _.
  apply merge_elevation_run in Helev as [P2 E2].
  apply merge_normals_run in Hnormal as (P3 & K3 & N3).
  apply sharedLayers_run in Hshared as [P4 K4].
  apply refreshSubTiles_model in Hsub.
  assert (Hpasses : _passes (_renderModel this5) = _passes (_renderModel this1))
    by congruence.
  unfold merge_colorLayers in Hcolor.
  split; [|split; [|split]].
  - intros Hactive before layer after tex Hlayers Ht Hlast.
    rewrite Hactive, Hlayers in Hcolor.
    rewrite (getPass_passes _ _ _ Hpasses).
    eapply colorLayers_write; eassumption.
  - intros Hactive uid Hin. rewrite Hactive in Hcolor.
    rewrite (getPass_passes _ _ _ Hpasses).
    split; [eapply colorLayers_other; eassumption|].
    intros Hne.
    destruct (getPass uid (_renderModel this)) as [pass|] eqn:Hg.
    + eapply colorLayers_keep; eassumption.
    + eapply colorLayers_other_new; eassumption.
  - intros Hactive tex Hm. rewrite Hsub, K4, K3.
    + apply E2; assumption.
    + unfold SamplerBinding.ELEVATION, SamplerBinding.NORMAL. lia.
    + unfold SamplerBinding.ELEVATION, SamplerBinding.SHARED. lia.
  - intros Hactive tex Hm. rewrite Hsub, K4.
    + apply N3; assumption.
    + unfold SamplerBinding.NORMAL, SamplerBinding.SHARED. lia.
Qed.

End Merge.

(* ===================================================================== *)
(** ** The quadtree invariant along merge and refreshInheritedData *)
(* ===================================================================== *)

Section MergeInvariant.
Context {NM : NumModel}.

Lemma quadtree_ok_same_but_data (a b : TileNode NM) :
  same_but_data a b -> quadtree_ok b = quadtree_ok a.
Proof.
  intros H. apply same_but_data_fields in H as (_ & Hr & Hc & _).
  apply quadtree_ok_same; assumption.
Qed.

(** The shape of the node after refreshInheritedData: the node with its
    data re-inherited, and either its children as they were or its first
    four children refreshed. *)
Lemma refreshInheritedData_shape parent bindings (this this' : TileNode NM) ev :
  refreshInheritedData parent bindings this = Some (this', ev) ->
  exists here,
    same_but_data this here
    /\ (this' = here
        \/ exists c0 c1 c2 c3 rest c0' c1' c2' c3' e0 e1 e2 e3,
             _children this = c0 :: c1 :: c2 :: c3 :: rest
             /\ refreshInheritedData here bindings c0 = Some (c0', e0)
             /\ refreshInheritedData here bindings c1 = Some (c1', e1)
             /\ refreshInheritedData here bindings c2 = Some (c2', e2)
             /\ refreshInheritedData here bindings c3 = Some (c3', e3)
             /\ this' = with_children (c0' :: c1' :: c2' :: c3' :: rest) here).
Proof.
  rewrite refreshInheritedData_eq. intros H.
  apply bind_emit in H as (e & H & _).
  apply bind_Some in H as ([here changes] & ev0 & e1 & Hhere & H & _).
  exists here.
  destruct (refreshInheritedData_here_run _ _ _ _ _ _ Hhere) as [Hsame _].
  split; [exact Hsame|].
  destruct (0 <? changes)%nat; [|injection H as <- _; left; reflexivity].
  apply bind_emit in H as (e2 & H & _).
  destruct (_childrenReady here); [|injection H as <- _; left; reflexivity].
  destruct (_children this) as [|c0 [|c1 [|c2 [|c3 rest]]]]; try discriminate.
  apply bind_Some in H as (c0' & e0 & r0 & H0 & H & _).
  apply bind_Some in H as (c1' & e1' & r1 & H1 & H & _).
  apply bind_Some in H as (c2' & e2' & r2 & H2 & H & _).
  apply bind_Some in H as (c3' & e3' & r3 & H3 & H & _).
  injection H as <- _. right.
  exists c0, c1, c2, c3, rest, c0', c1', c2', c3', e0, e1', e2', e3'. auto 10.
Qed.

Lemma four_children_ok (this : TileNode NM) c0 c1 c2 c3 rest c0' c1' c2' c3' :
  _children this = c0 :: c1 :: c2 :: c3 :: rest ->
  quadtree_ok this = true ->
  quadtree_ok c0' = true -> quadtree_ok c1' = true ->
  quadtree_ok c2' = true -> quadtree_ok c3' = true ->
  quadtree_ok (with_children (c0' :: c1' :: c2' :: c3' :: rest) this) = true.
Proof.
  intros Hch Hok H0 H1 H2 H3.
  rewrite quadtree_ok_eq in Hok |- *. unfold childCount_ok in *.
  destruct this. simpl in *. subst. simpl in *.
  rewrite !andb_true_iff in *.
  destruct Hok as (Hcount & _ & _ & _ & _ & Hrest). auto 10.
Qed.

Lemma refreshInheritedData_ok (this : TileNode NM) :
  forall parent bindings this' ev,
    refreshInheritedData parent bindings this = Some (this', ev) ->
    quadtree_ok this = true -> quadtree_ok this' = true.
Proof.
  induction this as [this IH] using TileNode_tree_ind.
  intros parent bindings this' ev H Hok.
  apply refreshInheritedData_shape in H as (here & Hsame & Hcases).
  pose proof (quadtree_ok_same_but_data _ _ Hsame) as Hq.
  destruct Hcases as [->|(c0 & c1 & c2 & c3 & rest & c0' & c1' & c2' & c3'
                          & e0 & e1 & e2 & e3 & Hch & H0 & H1 & H2 & H3 & ->)].
  - congruence.
  - rewrite Hch in IH.
    inversion IH as [|? ? I0 IH1]; subst.
    inversion IH1 as [|? ? I1 IH2]; subst.
    inversion IH2 as [|? ? I2 IH3]; subst.
    inversion IH3 as [|? ? I3 _]; subst.
    assert (Hkids : forallb quadtree_ok (c0 :: c1 :: c2 :: c3 :: rest) = true).
    { rewrite quadtree_ok_eq, Hch in Hok. apply andb_true_iff in Hok as [_ Hok]. exact Hok. }
    simpl in Hkids. rewrite !andb_true_iff in Hkids.
    destruct Hkids as (K0 & K1 & K2 & K3 & _).
    apply four_children_ok with (c0 := c0) (c1 := c1) (c2 := c2) (c3 := c3).
    + apply same_but_data_fields in Hsame as (_ & _ & -> & _). exact Hch.
    + congruence.
    + eapply I0; eassumption.
    + eapply I1; eassumption.
    + eapply I2; eassumption.
    + eapply I3; eassumption.
Qed.

Lemma merge_colorLayer_same bindings layer (this this' : TileNode NM) ev :
  merge_colorLayer bindings layer this = Some (this', ev) -> same_but_data this this'.
Proof.
  intros H.
  assert (Hm : forall m, same_but_data this (with_renderModel m this)).
  { intros m. exists m, (_surface this). destruct this. reflexivity. }
  destruct layer as [l|[u|]|]; simpl in H.
  - destruct (getTexture l) as [tex|].
    + apply merge_imageLayer_model in H. cbv zeta in H. subst this'. apply Hm.
    + injection H as <- _. apply same_but_data_refl.
  - destruct (passIndex u _).
    + injection H as <- _. apply same_but_data_refl.
    + unfold addPass in H. injection H as <- _. apply Hm.
  - injection H as <- _. apply same_but_data_refl.
  - injection H as <- _. apply same_but_data_refl.
Qed.

Lemma for_each_same {A} (body : A -> TileNode NM -> Op NM (TileNode NM)) l :
  (forall a this this' ev, body a this = Some (this', ev) -> same_but_data this this') ->
  forall this this' ev,
    for_each l body this = Some (this', ev) -> same_but_data this this'.
Proof.
  intros Hbody. induction l as [|a l IH]; cbn [for_each]; intros this this' ev H.
  - injection H as <- _. apply same_but_data_refl.
  - apply bind_Some in H as (this1 & e0 & e1 & H0 & H1 & _).
    eapply same_but_data_trans; [eapply Hbody; exact H0|eapply IH; exact H1].
Qed.

Lemma write_sharedSampler_same i s (this : TileNode NM) :
  same_but_data this (write_sharedSampler i s this).
Proof. eexists _, (_surface this). unfold write_sharedSampler. destruct this. reflexivity. Qed.

Lemma merge_data_same model bindings (this : TileNode NM) this4 flag e1 e2 e3 e4 this1 this2 this3 :
  merge_colorLayers model bindings this = Some (this1, e1) ->
  merge_elevation model bindings this1 = Some ((this2, flag), e2) ->
  merge_normals model bindings this2 = Some (this3, e3) ->
  for_each (sharedLayers model) (merge_sharedLayer bindings) this3 = Some (this4, e4) ->
  same_but_data this this4.
Proof.
  intros H1 H2 H3 H4.
  assert (S1 : same_but_data this this1).
  { unfold merge_colorLayers in H1. destruct (SamplerBinding.isActive _).
    - eapply for_each_same; [|exact H1]. apply merge_colorLayer_same.
    - injection H1 as <- _. apply same_but_data_refl. }
  assert (S2 : same_but_data this1 this2).
  { unfold merge_elevation in H2.
    destruct (SamplerBinding.isActive _);
      [destruct (elevationModel model) as [[tex|]|]|];
      try (injection H2 as <- _ _; apply same_but_data_refl).
    apply bind_Some in H2 as (t & a & b & Hs & H2 & _). injection H2 as <- _.
    eapply same_but_data_trans; [apply write_sharedSampler_same|].
    apply setElevationRaster_events in Hs as [Hs _]. exact Hs. }
  assert (S3 : same_but_data this2 this3).
  { unfold merge_normals in H3.
    destruct (SamplerBinding.isActive _);
      [destruct (normalModel model) as [[tex|]|]|];
      try (injection H3 as <- _; apply same_but_data_refl).
    apply bind_emit in H3 as (e & H3 & _). injection H3 as <- _.
    apply write_sharedSampler_same. }
  assert (S4 : same_but_data this3 this4).
  { eapply for_each_same; [|exact H4].
    intros l t t' e. unfold merge_sharedLayer.
    destruct (getTexture l); [destruct (findSharedBinding _ _)|];
      intros H; injection H as <- _; try apply same_but_data_refl.
    eexists _, (_surface t). destruct t. reflexivity. }
  eapply same_but_data_trans; [exact S1|].
  eapply same_but_data_trans; [exact S2|].
  eapply same_but_data_trans; [exact S3|exact S4].
Qed.

Lemma refreshSubTiles_ok bindings (this this' : TileNode NM) ev :
  refreshSubTiles bindings this = Some (this', ev) ->
  quadtree_ok this = true -> quadtree_ok this' = true.
Proof.
  unfold refreshSubTiles. intros H Hok.
  destruct (_childrenReady this); [|injection H as <- _; exact Hok].
  destruct (_children this) as [|c0 [|c1 [|c2 [|c3 rest]]]] eqn:Hch; try discriminate.
  apply bind_Some in H as (c0' & e0 & r0 & H0 & H & _).
  apply bind_Some in H as (c1' & e1 & r1 & H1 & H & _).
  apply bind_Some in H as (c2' & e2 & r2 & H2 & H & _).
  apply bind_Some in H as (c3' & e3 & r3 & H3 & H & _).
  injection H as <- _.
  assert (Hkids : forallb quadtree_ok (c0 :: c1 :: c2 :: c3 :: rest) = true).
  { rewrite quadtree_ok_eq, Hch in Hok. apply andb_true_iff in Hok as [_ Hok]. exact Hok. }
  simpl in Hkids. rewrite !andb_true_iff in Hkids.
  destruct Hkids as (K0 & K1 & K2 & K3 & _).
  apply four_children_ok with (c0 := c0) (c1 := c1) (c2 := c2) (c3 := c3);
    try assumption; eapply refreshInheritedData_ok; eassumption.
Qed.

Lemma merge_ok model bindings (this this' : TileNode NM) ev :
  merge model bindings this = Some (this', ev) ->
  quadtree_ok this = true -> quadtree_ok this' = true.
Proof.
  unfold merge. intros H Hok.
  apply bind_Some in H as (this1 & e1 & r1 & Hcolor & H & _).
  apply bind_Some in H as ([this2 flag] & e2 & r2 & Helev & H & _).
  apply bind_Some in H as (this3 & e3 & r3 & Hnormal & H & _).
  apply bind_Some in H as (this4 & e4 & r4 & Hshared & H & _).
  apply bind_Some in H as (this5 & e5 & r5 & Hsub & H & _).
  apply bind_Some in H as (u & e6 & r6 & _ & H & _).
  injection H as <- _.
  eapply refreshSubTiles_ok; [exact Hsub|].
  rewrite (quadtree_ok_same_but_data this this4); [exact Hok|].
  eapply merge_data_same; eassumption.
Qed.

End MergeInvariant.

(* ===================================================================== *)
(** ** Zero or four children *)
(* ===================================================================== *)

Section Children.
Context {NM : NumModel}.

Lemma removeSubTiles_children (this : TileNode NM) :
  _children (removeSubTiles this) = [] /\ _childrenReady (removeSubTiles this) = false.
Proof.
  destruct this as [ctx key dirty ready met mef ltt ltf laf snm em sf lr nl rm ch].
  unfold removeSubTiles, getNumChildren. simpl. rewrite drop_all. auto.
Qed.

(** C5, as the code has it.  createChildren itself neither tests for
    children nor sets the children-ready flag: it always appends four
    children, made by create in quadrant order 0..3 with the four child
    keys of the node's key, each without children.  removeSubTiles removes
    every child and clears the flag.  The test of the flag and its setting
    are in the caller, the cull of the node; with them, a node whose
    children are none while the flag is clear and four while it is set
    (itself and all its descendants) stays so along every create,
    traversal, merge and refreshInheritedData and after removeSubTiles, and a new node is
    such a node: the number of children is 0 or 4. *)
Theorem children_zero_or_four (ctx : EngineContext NM) (this : TileNode NM) :
  (exists this' c0 c1 c2 c3 ev,
     createChildren ctx this = Some (this', ev)
     /\ _children this' = _children this ++ [c0; c1; c2; c3]
     /\ _childrenReady this' = _childrenReady this
     /\ Forall2 (fun c quadrant =>
                   _key c = TileKey.createChildKey (_key this) quadrant
                   /\ _children c = [] /\ _childrenReady c = false)
                [c0; c1; c2; c3] [0; 1; 2; 3]%nat)
  /\ (_children (removeSubTiles this) = []
      /\ _childrenReady (removeSubTiles this) = false)
  /\ (quadtree_ok this = true ->
      (length (_children this) = 0 \/ length (_children this) = 4)%nat
      /\ (forall key parent context this' ev,
            create key parent context this = Some (this', ev) -> quadtree_ok this' = true)
      /\ (forall fuel nv this' ev,
            traverse fuel nv this = Some (this', ev) -> quadtree_ok this' = true)
      /\ (forall model bindings this' ev,
            merge model bindings this = Some (this', ev) -> quadtree_ok this' = true)
      /\ (forall parent bindings this' ev,
            refreshInheritedData parent bindings this = Some (this', ev) ->
            quadtree_ok this' = true)
      /\ quadtree_ok (removeSubTiles this) = true)
  /\ quadtree_ok (TileNode_new (NM := NM)) = true.
Proof.
  split; [|split; [|split]].
  - destruct (createChildren_shape ctx this) as (c0 & c1 & c2 & c3 & ev & Hrun & Hshape).
    eexists _, c0, c1, c2, c3, ev. split; [exact Hrun|].
    destruct this. simpl. auto.
  - apply removeSubTiles_children.
  - intros Hok. split; [|split; [|split; [|split; [|split]]]].
    + rewrite quadtree_ok_eq in Hok. apply andb_true_iff in Hok as [Hcount _].
      unfold childCount_ok in Hcount.
      destruct (_childrenReady this); apply Nat.eqb_eq in Hcount; auto.
    + intros key parent context this' ev H.
      apply create_children in H as [Hc Hr].
      rewrite <- Hok. apply quadtree_ok_same; assumption.
    + intros fuel nv this' ev H. eapply traverse_ok; eassumption.
    + intros model bindings this' ev H. eapply merge_ok; eassumption.
    + intros parent bindings this' ev H. eapply refreshInheritedData_ok; eassumption.
    + apply leaf_ok; apply removeSubTiles_children.
  - reflexivity.
Qed.

End Children.

Lemma children_zero_or_four_witness :
  Runs.visit = Some (Runs.visit_node, Runs.visit_events)
  /\ quadtree_ok Runs.visit_node = true.
Proof.
  assert (Hrun : Runs.visit = Some (Runs.visit_node, Runs.visit_events)) by reflexivity.
  split; [exact Hrun|].
  destruct (children_zero_or_four (CreateExample.context false)
              (CreateExample.root (NM := IEEE) false))
    as (_ & _ & Hinv & _).
  destruct (Hinv eq_refl) as (_ & _ & Htraverse & _).
  eapply Htraverse. exact Hrun.
Defined.

(** createChildren on a node that has its four children appends four
    more, and leaves the flag as it was. *)
Lemma createChildren_twice :
  let ctx := CreateExample.context (NM := IEEE) false in
  let root := CreateExample.root (NM := IEEE) false in
  option_map (fun r => (length (_children (fst r)), _childrenReady (fst r)))
             (createChildren ctx root) = Some (4%nat, false)
  /\ length (_children (Scenario.tree (NM := IEEE) false)) = 4%nat
  /\ option_map (fun r => length (_children (fst r)))
                (createChildren ctx (Scenario.tree false)) = Some 8%nat.
Proof. vm_compute. repeat split. Qed.

(** The four children are drawn, nothing else happens. *)
Lemma inherit_viewpoint_never_subdivides_witness :
  Runs.shadow = Some (Runs.shadow_node, Runs.shadow_events)
  /\ length Runs.shadow_events = 4%nat
  /\ tree_keys Runs.shadow_node = tree_keys (Scenario.tree (NM := IEEE) false).
Proof.
  assert (Hrun : Runs.shadow = Some (Runs.shadow_node, Runs.shadow_events)) by reflexivity.
  split; [exact Hrun|]. split; [reflexivity|].
  eapply (inherit_viewpoint_never_subdivides 2
            (Scenario.culler false (Some ABSOLUTE_RF_INHERIT_VIEWPOINT))
            (Scenario.tree false) Runs.shadow_node Runs.shadow_events eq_refl Hrun).
Defined.

(** The root's color-parent sampler changes, the four children are
    refreshed. *)
Lemma refresh_recursion_witness :
  Runs.push = Some (Runs.push_node, Runs.push_events)
  /\ exists here changes ev0,
       refreshInheritedData_here (Scenario.parent (NM := IEEE) false)
         (CreateExample.bindings false) (Scenario.tree false) = Some ((here, changes), ev0).
Proof.
  assert (Hrun : Runs.push = Some (Runs.push_node, Runs.push_events)) by reflexivity.
  split; [exact Hrun|].
  destruct (refresh_recursion (Scenario.parent (NM := IEEE) false)
              (CreateExample.bindings false) (Scenario.tree false)
              Runs.push_node Runs.push_events Hrun)
    as (here & changes & ev0 & Hhere & _).
  exists here, changes, ev0. exact Hhere.
Defined.

Lemma merge_writes_samplers_witness :
  Runs.merged = Some (Runs.merged_node, Runs.merged_events)
  /\ (exists pass,
        getPass 7 (_renderModel Runs.merged_node) = Some pass
        /\ sampler_at (samplers pass) SamplerBinding.COLOR
           = mkSampler (Some (CreateExample.T 5)) (scaleBias 0))
  /\ sampler_at (_sharedSamplers (_renderModel Runs.merged_node)) SamplerBinding.ELEVATION
     = mkSampler (Some (CreateExample.T 6)) Matrixf.identity
  /\ Runs.splat = Some (Runs.splat_node, Runs.splat_events)
  /\ getPass 9 (_renderModel Runs.splat_node)
     = Some (mkPass 9 [Sampler_default; Sampler_default])
  /\ getPass 7 (_renderModel Runs.splat_node)
     = getPass 7 (_renderModel (Scenario.tree false)).
Proof.
  assert (Hrun : Runs.merged = Some (Runs.merged_node, Runs.merged_events)) by reflexivity.
  assert (Hsplat : Runs.splat = Some (Runs.splat_node, Runs.splat_events)) by reflexivity.
  split; [exact Hrun|].
  destruct (merge_writes_samplers (NM := IEEE) Scenario.tileModel
              (CreateExample.bindings false) (Scenario.tree false)
              Runs.merged_node Runs.merged_events Hrun)
    as (Hcolor & _ & Helev & _).
  destruct (merge_writes_samplers (NM := IEEE) Scenario.splatModel
              (CreateExample.bindings false) (Scenario.tree false)
              Runs.splat_node Runs.splat_events Hsplat)
    as (_ & Hother & _).
  split; [|split; [|split; [exact Hsplat|split]]].
  - apply (Hcolor eq_refl [] _ [] _ eq_refl eq_refl). intros l [].
  - apply Helev; reflexivity.
  - destruct (Hother eq_refl 9) as [_ Hnew]; [left; reflexivity|].
    apply Hnew. intros l [Hl|[Hl|[]]]; discriminate Hl.
  - destruct (Hother eq_refl 7) as [_ Hkept]; [right; left; reflexivity|].
    rewrite Hkept; [reflexivity|].
    intros l [Hl|[Hl|[]]]; discriminate Hl.
Defined.

(** The color sampler written by merge carries the matrix of the layer
    model, here the matrix of quadrant 0, not the identity. *)
Lemma merge_color_matrix_not_identity :
  match merge (NM := IEEE) Scenario.tileModel (CreateExample.bindings false)
              (Scenario.tree false) with
  | Some (this', _) =>
      match getPass 7 (_renderModel this') with
      | Some pass =>
          Some (option_map textureId (_texture (sampler_at (samplers pass) SamplerBinding.COLOR)),
                Matrixf.isIdentity (_matrix (sampler_at (samplers pass) SamplerBinding.COLOR)))
      | None => None
      end
  | None => None
  end = Some (Some 5, false).
Proof. vm_compute. reflexivity. Qed.

(* ===================================================================== *)
(** ** The monad laws and the cases of cull *)
(* ===================================================================== *)

Section Monad.
Context {NM : NumModel}.

Lemma bind_assoc {A B C} (m : Op NM A) (f : A -> Op NM B) (g : B -> Op NM C) :
  bind (bind m f) g = bind m (fun a => bind (f a) g).
Proof.
  unfold bind. destruct m as [[a ev]|]; [|reflexivity].
  destruct (f a) as [[b ev']|]; [|reflexivity].
  destruct (g b) as [[c ev'']|]; [|reflexivity].
  rewrite app_assoc. reflexivity.
Qed.

Lemma bind_ext {A B} (m : Op NM A) (f g : A -> Op NM B) :
  (forall a, f a = g a) -> bind m f = bind m g.
Proof.
  intros H. unfold bind. destruct m as [[a ev]|]; [|reflexivity].
  rewrite H. reflexivity.
Qed.

Lemma bind_ret_r {A} (m : Op NM A) : bind m ret = m.
Proof.
  unfold bind, ret. destruct m as [[a ev]|]; [|reflexivity].
  rewrite app_nil_r. reflexivity.
Qed.

End Monad.

Section CullTable.
Context {NM : NumModel}.

Lemma childrenReady_with_childrenReady b (this : TileNode NM) :
  _childrenReady (with_childrenReady b this) = b.
Proof. destruct this. reflexivity. Qed.

Lemma cull_eq accept culler (this : TileNode NM) :
  cull accept culler this =
  let context := getEngineContext culler in
  let* surface := deref (_surface this) in
  if negb (isVisibleFrom culler this) then ret (this, false)
  else
    let* childrenInRange := shouldSubDivide culler (getSelectionInfo context) this in
    let creates :=
      childrenInRange && negb (_childrenReady this)
      && negb (_dirty this && progressive (getOptions context))
      && negb (inheritsViewpoint culler) in
    if creates then
      let* this1 := createChildren context this in
      let* this2 := acceptSubTiles accept (with_childrenReady true this1) in
      ret (this2, true)
    else if childrenInRange && _childrenReady this then
      let* this2 := acceptSubTiles accept this in
      do* when (_dirty this2 && negb (inheritsViewpoint culler)) (load culler this2) in
      ret (this2, true)
    else
      do* emit (Surface_accept (_key this)) in
      let this2 :=
        with_lastAcceptSurfaceFrame (getFrameNumber (getFrameStamp culler)) this in
      do* when (_dirty this2 && negb (inheritsViewpoint culler)) (load culler this2) in
      ret (this2, true).
Proof.
  unfold cull, inheritsViewpoint. cbv zeta.
  apply bind_ext. intros surface.
  destruct (negb (isVisibleFrom culler this)); [reflexivity|].
  apply bind_ext. intros inRange.
  destruct inRange, (_childrenReady this) eqn:Hready,
           (_dirty this && progressive (getOptions (getEngineContext culler))),
           (getCamera culler) as [[]|];
    cbn [andb negb]; rewrite ?Hready; cbn [andb negb];
    repeat (rewrite ?bind_assoc, ?bind_ret_l, ?childrenReady_with_childrenReady, ?Hready,
                    ?andb_true_r, ?andb_false_r;
            cbn [when];
            try reflexivity;
            try (apply bind_ext; intros ?)).
Qed.
End CullTable.

(* ===================================================================== *)
(** ** Visitors other than the culler *)
(* ===================================================================== *)

Section Visitors.
Context {NM : NumModel}.

Lemma traverse_eq fuel nv (this : TileNode NM) :
  traverse fuel nv this =
  traverse_node (fun child => match fuel with
                              | O => fail
                              | S fuel' => traverse fuel' nv child
                              end) nv this.
Proof. destruct fuel; reflexivity. Qed.

Lemma with_children_id (this : TileNode NM) : with_children (_children this) this = this.
Proof. destruct this. reflexivity. Qed.

Lemma height_eq (this : TileNode NM) :
  height this = match _children this with
                | [] => O
                | _ => S (fold_right Nat.max O (map height (_children this)))
                end.
Proof. destruct this. reflexivity. Qed.

Lemma leaf_surfaces_eq (this : TileNode NM) :
  leaf_surfaces this =
  match _children this with
  | [] => if bool_decide (_surface this <> None) then [_key this] else []
  | _ => flat_map leaf_surfaces (_children this)
  end.
Proof. destruct this. reflexivity. Qed.

Lemma height_child (this c : TileNode NM) :
  In c (_children this) -> (height c < height this)%nat.
Proof.
  intros Hin. rewrite (height_eq this).
  destruct (_children this) as [|c0 l] eqn:Hc; [destruct Hin|].
  rewrite <- Hc in *. clear Hc.
  induction (_children this) as [|a l' IH]; [destruct Hin|].
  simpl. destruct Hin as [->|Hin]; [lia|].
  specialize (IH Hin). lia.
Qed.

(** Accepting a visitor that leaves every child as it is. *)
Lemma acceptChildren_same (accept : TileNode NM -> Op NM (TileNode NM))
    (g : TileNode NM -> list TileKey.t) (l : list (TileNode NM)) :
  Forall (fun c => accept c = Some (c, map Surface_accept (g c))) l ->
  acceptChildren accept l = Some (l, map Surface_accept (flat_map g l)).
Proof.
  induction 1 as [|c l Hc _ IH]; [reflexivity|].
  cbn [acceptChildren flat_map]. rewrite Hc, IH. cbn [bind ret].
  rewrite app_nil_r, map_app. reflexivity.
Qed.

End Visitors.

Section OtherVisitor.
Context {NM : NumModel}.

(** X1.  A visitor that is not a cull visitor goes down to the leaves: with
    fuel for the height of the tree the traversal returns, the tree is as
    it was, and the surfaces accepted are those of the leaves that have
    one, from left to right. *)
Theorem other_visitor_reaches_leaves (this : TileNode NM) :
  forall fuel, (height this <= fuel)%nat ->
  traverse fuel OTHER_VISITOR this
  = Some (this, map Surface_accept (leaf_surfaces this)).
Proof.
  induction this as [this IH] using TileNode_tree_ind.
  intros fuel Hfuel.
  rewrite traverse_eq. unfold traverse_node, getNumChildren.
  rewrite leaf_surfaces_eq.
  destruct (_children this) as [|c0 l] eqn:Hc.
  - simpl. destruct (bool_decide (_surface this <> None)); reflexivity.
  - rewrite <- Hc in *.
    replace (0 <? length (_children this))%nat with true
      by (rewrite Hc; reflexivity).
    destruct fuel as [|fuel'].
    { rewrite height_eq, Hc in Hfuel. lia. }
    rewrite (acceptChildren_same _ leaf_surfaces).
    + cbn [bind ret]. rewrite app_nil_r, with_children_id. reflexivity.
    + rewrite List.Forall_forall in IH. apply List.Forall_forall. intros c Hin.
      apply IH; [exact Hin|].
      pose proof (height_child this c Hin). lia.
Qed.

End OtherVisitor.

(* ===================================================================== *)
(** ** The stealth traversal *)
(* ===================================================================== *)

Section Stealth.
Context {NM : NumModel}.

Lemma stealth_surfaces_eq culler (this : TileNode NM) :
  stealth_surfaces culler this =
  if _empty this then []
  else if (getFrameNumber (getFrameStamp culler) - _lastAcceptSurfaceFrame this)
            mod two32 <? 2
  then [_key this]
  else if _childrenReady this
  then flat_map (stealth_surfaces culler) (_children this)
  else [].
Proof. destruct this. reflexivity. Qed.

Lemma surfaces_ok_eq (this : TileNode NM) :
  surfaces_ok this =
  (_empty this || bool_decide (_surface this <> None))
  && forallb surfaces_ok (_children this).
Proof. destruct this. reflexivity. Qed.

Lemma traverse_node_stealth accept culler (this this' : TileNode NM) ev :
  isStealth culler = true ->
  (forall c c' e, accept c = Some (c', e) -> c' = c /\ Forall isSurfaceAccept e) ->
  traverse_node accept (CULL_VISITOR culler) this = Some (this', ev) ->
  this' = this /\ Forall isSurfaceAccept ev.
Proof.
  intros Hst Hacc. unfold traverse_node. rewrite Hst.
  destruct (negb (_empty this));
    [|intros H; injection H as <- <-; split; [reflexivity|constructor]].
  unfold accept_cull_stealth, cull_stealth.
  intros H. apply bind_Some in H as ([this1 vis] & e1 & e2 & H & Hret & ->).
  injection Hret as <- <-. rewrite app_nil_r.
  destruct (_ <? 2).
  { destruct (_surface this); [|discriminate].
    injection H as <- _ <-. split; [reflexivity|].
    repeat constructor. eexists. reflexivity. }
  destruct (_childrenReady this);
    [|injection H as <- _ <-; split; [reflexivity|constructor]].
  apply bind_Some in H as (this2 & e3 & e4 & H & Hret' & ->).
  injection Hret' as <- _ <-.
  apply acceptSubTiles_inv in H
    as (c0 & c1 & c2 & c3 & rest & c0' & c1' & c2' & c3' & e0 & e1' & e2' & e3'
        & Hc & H0 & H1 & H2 & H3 & -> & ->).
  apply Hacc in H0 as [-> F0]. apply Hacc in H1 as [-> F1].
  apply Hacc in H2 as [-> F2]. apply Hacc in H3 as [-> F3].
  rewrite <- Hc, with_children_id. split; [reflexivity|].
  rewrite !app_nil_r. repeat (apply Forall_app; split); assumption.
Qed.

Lemma stealth_partial culler fuel :
  isStealth culler = true ->
  forall (this this' : TileNode NM) ev,
    traverse fuel (CULL_VISITOR culler) this = Some (this', ev) ->
    this' = this /\ Forall isSurfaceAccept ev.
Proof.
  intros Hst. induction fuel as [|fuel IH]; intros this this' ev;
    rewrite traverse_eq; apply traverse_node_stealth; try exact Hst.
  - discriminate.
  - exact IH.
Qed.

Lemma quadtree_ok_children (this : TileNode NM) :
  quadtree_ok this = true ->
  (if _childrenReady this then length (_children this) = 4%nat
   else _children this = [])
  /\ Forall (fun c => quadtree_ok c = true) (_children this).
Proof.
  rewrite quadtree_ok_eq. intros H. apply andb_true_iff in H as [Hn Hall].
  split.
  - unfold childCount_ok in Hn. destruct (_childrenReady this);
      apply Nat.eqb_eq in Hn; [exact Hn|].
    destruct (_children this); [reflexivity|discriminate].
  - apply List.Forall_forall. intros c Hin.
    rewrite forallb_forall in Hall. apply Hall, Hin.
Qed.

Lemma acceptSubTiles_four accept (this : TileNode NM) c0 c1 c2 c3 e0 e1 e2 e3 :
  _children this = [c0; c1; c2; c3] ->
  accept c0 = Some (c0, e0) -> accept c1 = Some (c1, e1) ->
  accept c2 = Some (c2, e2) -> accept c3 = Some (c3, e3) ->
  acceptSubTiles accept this = Some (this, e0 ++ e1 ++ e2 ++ e3).
Proof.
  intros Hc H0 H1 H2 H3. unfold acceptSubTiles. rewrite Hc, H0, H1, H2, H3.
  cbn [bind ret]. rewrite <- Hc, with_children_id, !app_nil_r. reflexivity.
Qed.

(** X2.  A stealth traversal changes nothing: whenever it returns, the tree is
    as it was (no child made, no timestamp refreshed) and every call it
    made accepts the culler on a surface.  On a tree that keeps the
    quadtree invariant and whose tiles have a surface unless they are
    empty, with fuel for its height, it returns, and the surfaces drawn
    are those that were accepted less than two frames ago. *)
Theorem stealth_traverse_unchanged culler (this : TileNode NM) :
  isStealth culler = true ->
  (forall fuel this' ev,
      traverse fuel (CULL_VISITOR culler) this = Some (this', ev) ->
      this' = this /\ Forall isSurfaceAccept ev)
  /\ (forall fuel,
        (height this <= fuel)%nat ->
        quadtree_ok this = true -> surfaces_ok this = true ->
        traverse fuel (CULL_VISITOR culler) this
        = Some (this, map Surface_accept (stealth_surfaces culler this))).
Proof.
  intros Hst. split.
  { intros fuel this' ev. apply stealth_partial. exact Hst. }
  induction this as [this IH] using TileNode_tree_ind.
  intros fuel Hfuel Hqt Hsf.
  rewrite traverse_eq. unfold traverse_node. rewrite Hst.
  rewrite stealth_surfaces_eq.
  rewrite surfaces_ok_eq in Hsf. apply andb_true_iff in Hsf as [Hsurf Hsfc].
  destruct (_empty this); [reflexivity|]. cbn [negb].
  unfold accept_cull_stealth, cull_stealth.
  destruct (_ <? 2).
  { simpl in Hsurf. apply bool_decide_eq_true in Hsurf.
    destruct (_surface this); [reflexivity|contradiction]. }
  apply quadtree_ok_children in Hqt as [Hn Hqtc].
  destruct (_childrenReady this); [|reflexivity].
  destruct (_children this) as [|c0 [|c1 [|c2 [|c3 [|c4 rest]]]]] eqn:Hc;
    try discriminate Hn.
  rewrite <- Hc in IH, Hqtc, Hsfc.
  assert (Hkid : forall c, In c (_children this) ->
            match fuel with
            | O => fail
            | S fuel' => traverse fuel' (CULL_VISITOR culler) c
            end = Some (c, map Surface_accept (stealth_surfaces culler c))).
  { intros c Hin. pose proof (height_child this c Hin) as Hh.
    destruct fuel as [|fuel']; [lia|].
    rewrite List.Forall_forall in IH, Hqtc. rewrite forallb_forall in Hsfc.
    apply IH; auto. lia. }
  rewrite (acceptSubTiles_four _ this c0 c1 c2 c3 _ _ _ _ Hc
             (Hkid c0 ltac:(rewrite Hc; simpl; auto))
             (Hkid c1 ltac:(rewrite Hc; simpl; auto))
             (Hkid c2 ltac:(rewrite Hc; simpl; auto))
             (Hkid c3 ltac:(rewrite Hc; simpl; auto))).
  cbn [bind ret flat_map]. rewrite !app_nil_r, !map_app. reflexivity.
Qed.

End Stealth.

Section CullInv.
Context {NM : NumModel}.

Lemma cull_inv accept culler (this this' : TileNode NM) vis ev :
  cull accept culler this = Some ((this', vis), ev) ->
  (isVisibleFrom culler this = false /\ vis = false /\ this' = this /\ ev = [])
  \/ (isVisibleFrom culler this = true /\ vis = true /\
      exists inRange,
        shouldSubDivide culler (getSelectionInfo (getEngineContext culler)) this
          = Some (inRange, [])
        /\ ((createsChildren culler this inRange = true
             /\ exists this1 ev1 ev2,
                 createChildren (getEngineContext culler) this = Some (this1, ev1)
                 /\ acceptSubTiles accept (with_childrenReady true this1) = Some (this', ev2)
                 /\ ev = ev1 ++ ev2)
            \/ (createsChildren culler this inRange = false
                /\ inRange = true /\ _childrenReady this = true
                /\ exists ev2 evl,
                    acceptSubTiles accept this = Some (this', ev2)
                    /\ loadsData culler this' evl
                    /\ ev = ev2 ++ evl)
            \/ (createsChildren culler this inRange = false
                /\ inRange && _childrenReady this = false
                /\ this' = with_lastAcceptSurfaceFrame
                             (getFrameNumber (getFrameStamp culler)) this
                /\ exists evl,
                    loadsData culler this' evl
                    /\ ev = Surface_accept (_key this) :: evl))).
Proof.
  rewrite cull_eq. cbv zeta. intros H.
  apply bind_Some in H as (sf & e0 & e1 & Hsf & H & ->).
  destruct (_surface this) as [sf0|]; [|discriminate].
  injection Hsf as <- <-. simpl app.
  destruct (isVisibleFrom culler this); cbn [negb] in H.
  2:{ injection H as <- <- <-. left. auto. }
  right.
  apply bind_Some in H as (inRange & e2 & e3 & Hsub & H & ->).
  pose proof (shouldSubDivide_events _ _ _ _ _ Hsub) as ->. simpl app.
  fold (createsChildren culler this inRange) in H.
  destruct (createsChildren culler this inRange) eqn:Hcreate.
  - apply bind_Some in H as (this1 & ev1 & e4 & Hc & H & ->).
    apply bind_Some in H as (this2 & ev2 & e5 & Ha & H & ->).
    injection H as <- <- <-. rewrite app_nil_r.
    split; [reflexivity|]. split; [reflexivity|].
    exists inRange. split; [exact Hsub|]. left. split; [exact Hcreate|]. eauto 6.
  - destruct (inRange && _childrenReady this) eqn:Hdesc.
    + apply andb_true_iff in Hdesc as [-> Hready].
      apply bind_Some in H as (this2 & ev2 & e5 & Ha & H & ->).
      apply bind_Some in H as ([] & evl & e6 & Hl & H & ->).
      injection H as <- <- <-. rewrite app_nil_r.
      split; [reflexivity|]. split; [reflexivity|].
      exists true. split; [exact Hsub|]. right. left. unfold loadsData. split; [exact Hcreate|]. eauto 10.
    + apply bind_emit in H as (e4 & H & ->).
      apply bind_Some in H as ([] & evl & e6 & Hl & H & ->).
      injection H as <- <- <-. rewrite app_nil_r.
      split; [reflexivity|]. split; [reflexivity|].
      exists inRange. split; [exact Hsub|]. right. right. unfold loadsData. split; [exact Hcreate|]. split; [exact Hdesc|]. eauto 10.
Qed.

End CullInv.

(* ===================================================================== *)
(** ** Timestamps, dormancy and progressive mode *)
(* ===================================================================== *)

Section Clock.
Context {NM : NumModel}.

Lemma clock_with_children l (this : TileNode NM) : clock (with_children l this) = clock this.
Proof. destruct this. reflexivity. Qed.
Lemma clock_with_childrenReady b (this : TileNode NM) :
  clock (with_childrenReady b this) = clock this.
Proof. destruct this. reflexivity. Qed.
Lemma clock_with_lastAcceptSurfaceFrame f (this : TileNode NM) :
  clock (with_lastAcceptSurfaceFrame f this) = clock this.
Proof. destruct this. reflexivity. Qed.

Lemma acceptSubTiles_clock accept (this this' : TileNode NM) ev :
  acceptSubTiles accept this = Some (this', ev) -> clock this' = clock this.
Proof.
  intros H. apply acceptSubTiles_inv in H
    as (c0 & c1 & c2 & c3 & rest & c0' & c1' & c2' & c3' & e0 & e1 & e2 & e3
        & _ & _ & _ & _ & _ & -> & _).
  apply clock_with_children.
Qed.

Lemma createChildren_clock ctx (this this' : TileNode NM) ev :
  createChildren ctx this = Some (this', ev) -> clock this' = clock this.
Proof.
  destruct (createChildren_shape ctx this) as (c0 & c1 & c2 & c3 & ev' & Hrun & _).
  rewrite Hrun. intros H. injection H as <- _. apply clock_with_children.
Qed.

Lemma cull_clock accept culler (this this' : TileNode NM) vis ev :
  cull accept culler this = Some ((this', vis), ev) -> clock this' = clock this.
Proof.
  intros H. apply cull_inv in H
    as [(_ & _ & -> & _)
       |(_ & _ & inRange & _ &
         [(_ & this1 & ev1 & ev2 & Hc & Ha & _)
         |[(_ & _ & _ & ev2 & evl & Ha & _)
          |(_ & _ & -> & _)]])].
  - reflexivity.
  - apply acceptSubTiles_clock in Ha. apply createChildren_clock in Hc.
    rewrite Ha, clock_with_childrenReady. exact Hc.
  - eapply acceptSubTiles_clock. exact Ha.
  - apply clock_with_lastAcceptSurfaceFrame.
Qed.

(** X3.  A tile that a cull traversal reaches, culled from view or not, is
    stamped with the frame and the time of the culler, and is not dormant
    at that frame nor at any of the following frames up to
    max(minExpiryFrames, 3) later. *)
Theorem visited_tile_not_dormant fuel culler (this this' : TileNode NM) ev :
  isStealth culler = false ->
  _empty this = false ->
  traverse fuel (CULL_VISITOR culler) this = Some (this', ev) ->
  _lastTraversalFrame this' = getFrameNumber (getFrameStamp culler)
  /\ _lastTraversalTime this' = getReferenceTime (getFrameStamp culler)
  /\ forall fs,
       0 <= getFrameNumber fs - getFrameNumber (getFrameStamp culler)
         <= Z.max (_minExpiryFrames this) 3 ->
       isDormant this' (Some fs) = false.
Proof.
  intros Hst Hempty. rewrite traverse_eq. unfold traverse_node.
  rewrite Hst, Hempty. cbn [negb].
  intros H. apply bind_Some in H as ([this1 vis] & e1 & e2 & H & Hret & ->).
  injection Hret as <- <-.
  unfold accept_cull in H.
  set (stamped := with_lastTraversalTime _ (with_lastTraversalFrame _ this)) in H.
  assert (Hclock : clock this1 = clock stamped).
  { destruct (negb (isCulled culler stamped)).
    - eapply cull_clock. exact H.
    - injection H as <- _ _. reflexivity. }
  assert (Hst' : clock stamped =
                 (getFrameNumber (getFrameStamp culler),
                  getReferenceTime (getFrameStamp culler),
                  _minExpiryFrames this, _minExpiryTime this)).
  { unfold stamped. destruct this. reflexivity. }
  rewrite Hst' in Hclock. unfold clock in Hclock.
  injection Hclock as Hf Ht Hmf Hmt.
  split; [exact Hf|]. split; [exact Ht|].
  intros fs Hgap. unfold isDormant. rewrite Hf, Hmf.
  apply andb_false_iff. left. apply Z.ltb_ge.
  set (gap := getFrameNumber fs - getFrameNumber (getFrameStamp culler)) in *.
  assert (gap mod two32 <= gap) by (apply Z.mod_le; [lia|reflexivity]).
  unfold minMinExpiryFrames. lia.
Qed.

End Clock.

Section Progressive.
Context {NM : NumModel}.

(** X4.  In progressive mode a tile that is still dirty does not subdivide:
    whatever the range, a cull of such a tile without children makes no
    child and visits none; when the tile is visible it draws its own
    surface and, unless the camera inherits the viewpoint, submits its
    load. *)
Theorem progressive_waits_for_data accept culler (this this' : TileNode NM) vis ev :
  progressive (getOptions (getEngineContext culler)) = true ->
  _dirty this = true ->
  _childrenReady this = false ->
  cull accept culler this = Some ((this', vis), ev) ->
  (vis = false /\ this' = this /\ ev = [])
  \/ (vis = true
      /\ this' = with_lastAcceptSurfaceFrame (getFrameNumber (getFrameStamp culler)) this
      /\ ((inheritsViewpoint culler = true /\ ev = [Surface_accept (_key this)])
          \/ (inheritsViewpoint culler = false
              /\ exists evl, load culler this' = Some (tt, evl)
                             /\ ev = Surface_accept (_key this) :: evl))).
Proof.
  intros Hprog Hdirty Hready H.
  apply cull_inv in H
    as [(_ & -> & -> & ->)
       |(_ & -> & inRange & _ &
         [(Hc & _)
         |[(_ & _ & Hr & _)
          |(_ & _ & -> & evl & Hl & ->)]])].
  - left. auto.
  - unfold createsChildren in Hc. rewrite Hdirty, Hprog in Hc.
    rewrite andb_false_r in Hc. discriminate.
  - congruence.
  - right. split; [reflexivity|]. split; [reflexivity|].
    unfold loadsData in Hl.
    assert (Hd : _dirty (with_lastAcceptSurfaceFrame
                           (getFrameNumber (getFrameStamp culler)) this) = true)
      by (destruct this; exact Hdirty).
    rewrite Hd in Hl. destruct (inheritsViewpoint culler); cbn [negb andb when] in Hl.
    + left. injection Hl as <-. auto.
    + right. eauto.
Qed.

End Progressive.

(* ===================================================================== *)
(** ** The last level of detail *)
(* ===================================================================== *)

Section LodLimit.
Context {NM : NumModel}.

Lemma tree_keys_with_children l (this : TileNode NM) :
  tree_keys (with_children l this) = _key this :: flat_map tree_keys l.
Proof. destruct this. reflexivity. Qed.

Lemma lods_below_eq n (this : TileNode NM) :
  lods_below n this <->
  TileKey.getLOD (_key this) < n /\ Forall (lods_below n) (_children this).
Proof.
  unfold lods_below. rewrite tree_keys_eq, Forall_cons.
  apply and_iff_compat_l.
  induction (_children this) as [|c l IH]; simpl.
  - split; constructor.
  - rewrite Forall_app, Forall_cons, IH. reflexivity.
Qed.

Lemma lods_below_same n (a b : TileNode NM) :
  _key b = _key a -> _children b = _children a -> lods_below n a -> lods_below n b.
Proof. intros Hk Hc. rewrite !lods_below_eq, Hk, Hc. auto. Qed.

Lemma getLOD_createChildKey k q :
  TileKey.getLOD (TileKey.createChildKey k q) = TileKey.getLOD k + 1.
Proof. destruct q as [|[|[|[|q]]]]; reflexivity. Qed.

Lemma shouldSubDivide_distance culler si (this : TileNode NM) ev :
  rangeMode (getOptions (getEngineContext culler)) = DISTANCE_FROM_EYE_POINT ->
  0 < getNumLODs si <= two32 ->
  shouldSubDivide culler si this = Some (true, ev) ->
  TileKey.getLOD (_key this) + 1 < getNumLODs si.
Proof.
  intros Hmode Hn. unfold shouldSubDivide. rewrite Hmode.
  destruct (_ && _) eqn:Hcond; [|discriminate].
  intros _. apply andb_true_iff in Hcond as [Hlt Hne].
  apply Z.ltb_lt in Hlt. apply negb_true_iff, Z.eqb_neq in Hne.
  rewrite Z.mod_small in Hne by lia. lia.
Qed.

Lemma acceptSubTiles_lods n accept (this this' : TileNode NM) ev :
  (forall c c' e, accept c = Some (c', e) -> lods_below n c -> lods_below n c') ->
  acceptSubTiles accept this = Some (this', ev) ->
  lods_below n this -> lods_below n this'.
Proof.
  intros Hacc H. apply acceptSubTiles_inv in H
    as (c0 & c1 & c2 & c3 & rest & c0' & c1' & c2' & c3' & e0 & e1 & e2 & e3
        & Hc & H0 & H1 & H2 & H3 & -> & _).
  rewrite !lods_below_eq, Hc.
  assert (Hk : _key (with_children (c0' :: c1' :: c2' :: c3' :: rest) this) = _key this)
    by (destruct this; reflexivity).
  assert (Hch : _children (with_children (c0' :: c1' :: c2' :: c3' :: rest) this)
                = c0' :: c1' :: c2' :: c3' :: rest)
    by (destruct this; reflexivity).
  rewrite Hk, Hch, !Forall_cons.
  intros (Hkey & B0 & B1 & B2 & B3 & Br). eauto 10.
Qed.

Lemma createChildren_lods n ctx (this this' : TileNode NM) ev :
  createChildren ctx this = Some (this', ev) ->
  TileKey.getLOD (_key this) + 1 < n ->
  lods_below n this -> lods_below n (with_childrenReady true this').
Proof.
  destruct (createChildren_shape ctx this) as (c0 & c1 & c2 & c3 & ev' & Hrun & Hkids).
  rewrite Hrun. intros H Hlod. injection H as <- _.
  rewrite !lods_below_eq.
  assert (Hk : _key (with_childrenReady true
                       (with_children (_children this ++ [c0; c1; c2; c3]) this))
               = _key this) by (destruct this; reflexivity).
  assert (Hch : _children (with_childrenReady true
                       (with_children (_children this ++ [c0; c1; c2; c3]) this))
               = _children this ++ [c0; c1; c2; c3]) by (destruct this; reflexivity).
  rewrite Hk, Hch, Forall_app. intros [Hkey Hold].
  split; [exact Hkey|]. split; [exact Hold|].
  assert (Hleaf : forall (c : TileNode NM) q,
            _key c = TileKey.createChildKey (_key this) q /\ _children c = []
            /\ _childrenReady c = false -> lods_below n c).
  { intros c q (Hck & Hcc & _). rewrite lods_below_eq, Hck, Hcc, getLOD_createChildKey.
    split; [lia|constructor]. }
  inversion Hkids as [|? ? ? ? K0 Hk1]; subst.
  inversion Hk1 as [|? ? ? ? K1 Hk2]; subst.
  inversion Hk2 as [|? ? ? ? K2 Hk3]; subst.
  inversion Hk3 as [|? ? ? ? K3 _]; subst.
  repeat constructor; eapply Hleaf; eassumption.
Qed.

Lemma traverse_node_lods accept culler (this this' : TileNode NM) ev :
  rangeMode (getOptions (getEngineContext culler)) = DISTANCE_FROM_EYE_POINT ->
  0 < getNumLODs (getSelectionInfo (getEngineContext culler)) <= two32 ->
  let n := getNumLODs (getSelectionInfo (getEngineContext culler)) in
  (forall c c' e, accept c = Some (c', e) -> lods_below n c -> lods_below n c') ->
  traverse_node accept (CULL_VISITOR culler) this = Some (this', ev) ->
  lods_below n this -> lods_below n this'.
Proof.
  intros Hmode Hn n Hacc. unfold traverse_node.
  destruct (negb (_empty this)); [|intros H; injection H as <- _; auto].
  destruct (isStealth culler).
  - (* stealth: the children are visited, nothing else *)
    unfold accept_cull_stealth, cull_stealth. intros H.
    apply bind_Some in H as ([this1 vis] & e1 & e2 & H & Hret & ->).
    injection Hret as <- _.
    destruct (_ <? 2).
    { destruct (_surface this); [|discriminate]. injection H as <- _ _. auto. }
    destruct (_childrenReady this); [|injection H as <- _ _; auto].
    apply bind_Some in H as (this2 & e3 & e4 & H & Hret' & ->).
    injection Hret' as <- _ _.
    eapply acceptSubTiles_lods; eassumption.
  - unfold accept_cull. intros H.
    apply bind_Some in H as ([this1 vis] & e1 & e2 & H & Hret & ->).
    injection Hret as <- _.
    set (stamped := with_lastTraversalTime _ (with_lastTraversalFrame _ this)) in H.
    intros Hb.
    assert (Hs : lods_below n stamped).
    { eapply lods_below_same; [| |exact Hb]; unfold stamped; destruct this; reflexivity. }
    clearbody stamped. clear Hb.
    destruct (negb (isCulled culler stamped)); [|injection H as <- _ _; exact Hs].
    apply cull_inv in H
      as [(_ & _ & -> & _)
         |(_ & _ & inRange & Hsub &
           [(Hc & this2 & ev1 & ev2 & Hcr & Ha & _)
           |[(_ & _ & _ & ev2 & evl & Ha & _)
            |(_ & _ & -> & _)]])].
    + exact Hs.
    + assert (inRange = true) as ->.
      { unfold createsChildren in Hc. destruct inRange; [reflexivity|discriminate]. }
      apply (shouldSubDivide_distance _ _ _ _ Hmode Hn) in Hsub.
      eapply acceptSubTiles_lods; [exact Hacc|exact Ha|].
      eapply createChildren_lods; eassumption.
    + eapply acceptSubTiles_lods; eassumption.
    + eapply lods_below_same; [| |exact Hs]; destruct stamped; reflexivity.
Qed.

(** X5.  The number of levels bounds the subdivision by distance.  In the
    range mode DISTANCE_FROM_EYE_POINT a tile at the last level, or
    beyond it, is never found to have its children in range; and a cull
    traversal of a tree whose tiles are all below numLODs leaves a tree
    whose tiles are all below numLODs, whatever children it made. *)
Theorem distance_mode_lod_limit culler (this : TileNode NM) :
  rangeMode (getOptions (getEngineContext culler)) = DISTANCE_FROM_EYE_POINT ->
  let si := getSelectionInfo (getEngineContext culler) in
  0 < getNumLODs si <= two32 ->
  (getNumLODs si - 1 <= TileKey.getLOD (_key this) ->
   shouldSubDivide culler si this = Some (false, []))
  /\ (forall fuel this' ev,
        traverse fuel (CULL_VISITOR culler) this = Some (this', ev) ->
        lods_below (getNumLODs si) this -> lods_below (getNumLODs si) this').
Proof.
  intros Hmode si Hn. split.
  - intros Hlast. unfold shouldSubDivide. rewrite Hmode.
    destruct (_ && _) eqn:Hcond; [|reflexivity].
    apply andb_true_iff in Hcond as [Hlt Hne].
    apply Z.ltb_lt in Hlt. apply negb_true_iff, Z.eqb_neq in Hne.
    fold si in Hlt, Hne. rewrite Z.mod_small in Hne by lia. lia.
  - intros fuel. revert this.
    induction fuel as [|fuel IH]; intros this this' ev; rewrite traverse_eq;
      apply traverse_node_lods; try assumption.
    discriminate.
Qed.

End LodLimit.

(* ===================================================================== *)
(** ** refreshInheritedData changes data only *)
(* ===================================================================== *)

Section DataOnly.
Context {NM : NumModel}.

Lemma erase_data_eq (this : TileNode NM) :
  erase_data this =
  with_children (map erase_data (_children this))
    (with_surface None (with_renderModel TileRenderModel_default this)).
Proof. destruct this. reflexivity. Qed.

Lemma erase_data_same (a b : TileNode NM) :
  same_but_data a b -> erase_data b = erase_data a.
Proof. intros (rm & sf & ->). destruct a. reflexivity. Qed.

Lemma erase_data_with_children l (a b : TileNode NM) :
  same_but_data a b ->
  map erase_data l = map erase_data (_children a) ->
  erase_data (with_children l b) = erase_data a.
Proof.
  intros (rm & sf & ->) Hl. rewrite (erase_data_eq a), <- Hl.
  destruct a. reflexivity.
Qed.

Lemma refreshInheritedData_erase (this : TileNode NM) :
  forall parent bindings this' ev,
    refreshInheritedData parent bindings this = Some (this', ev) ->
    erase_data this' = erase_data this.
Proof.
  induction this as [this IH] using TileNode_tree_ind.
  intros parent bindings this' ev H.
  apply refreshInheritedData_shape in H as (here & Hsame & [->|H]).
  - apply erase_data_same. exact Hsame.
  - destruct H as (c0 & c1 & c2 & c3 & rest & c0' & c1' & c2' & c3'
                   & e0 & e1 & e2 & e3 & Hc & H0 & H1 & H2 & H3 & ->).
    apply erase_data_with_children; [exact Hsame|].
    rewrite Hc in IH |- *.
    inversion IH as [|? ? I0 IH1]; subst.
    inversion IH1 as [|? ? I1 IH2]; subst.
    inversion IH2 as [|? ? I2 IH3]; subst.
    inversion IH3 as [|? ? I3 _]; subst.
    cbn [map].
    rewrite (I0 _ _ _ _ H0), (I1 _ _ _ _ H1), (I2 _ _ _ _ H2), (I3 _ _ _ _ H3).
    reflexivity.
Qed.

Lemma setElevationRaster_log image matrix (this this' : TileNode NM) ev :
  setElevationRaster image matrix this = Some (this', ev) ->
  ev = if bool_decide (image = None) then [OE_LOG WARN ElevationImageIsNull] else [].
Proof.
  unfold setElevationRaster, when.
  destruct (bool_decide (image = None)); intros H.
  - apply bind_emit in H as (e & H & ->).
    apply bind_Some in H as (sf & e0 & e1 & Hsf & H & ->).
    destruct (_surface this); [|discriminate]. injection Hsf as _ <-.
    destruct (_ || _); injection H as _ <-; reflexivity.
  - rewrite bind_ret_l in H.
    apply bind_Some in H as (sf & e0 & e1 & Hsf & H & ->).
    destruct (_surface this); [|discriminate]. injection Hsf as _ <-.
    destruct (_ || _); injection H as _ <-; reflexivity.
Qed.

Lemma setElevationRaster_quiet image matrix (this this' : TileNode NM) ev :
  setElevationRaster image matrix this = Some (this', ev) -> Forall isRefreshEvent ev.
Proof.
  intros H. apply setElevationRaster_log in H as ->.
  destruct (bool_decide _); repeat constructor.
Qed.

Lemma for_each_shared_quiet quadrant parentShared l (this this' : TileNode NM) n n' ev :
  for_each l (refreshSharedSampler quadrant parentShared) (this, n) = Some ((this', n'), ev) ->
  Forall isRefreshEvent ev.
Proof.
  revert this n ev. induction l as [|s l IH]; simpl; intros this n ev H.
  - injection H as _ _ <-. constructor.
  - apply bind_Some in H as ([t1 n1] & e0 & e1 & H0 & H1 & ->).
    apply Forall_app. split; [|eapply IH; exact H1].
    unfold refreshSharedSampler in H0.
    destruct (_ || _); [|injection H0 as _ _ <-; constructor].
    apply bind_Some in H0 as (t2 & e2 & e3 & H0 & Hret & ->).
    injection Hret as _ _ <-. rewrite app_nil_r.
    destruct (Nat.eqb s SamplerBinding.ELEVATION); [destruct (_texture _)|];
      try (injection H0 as _ <-; constructor).
    eapply setElevationRaster_quiet. exact H0.
Qed.

Lemma refreshInheritedData_here_quiet parent bindings (this here : TileNode NM) n ev :
  refreshInheritedData_here parent bindings this = Some ((here, n), ev) ->
  Forall isRefreshEvent ev.
Proof.
  unfold refreshInheritedData_here.
  destruct (fold_left _ _ _) as [model n0].
  apply for_each_shared_quiet.
Qed.

Lemma refreshInheritedData_quiet (this : TileNode NM) :
  forall parent bindings this' ev,
    refreshInheritedData parent bindings this = Some (this', ev) ->
    Forall isRefreshEvent ev.
Proof.
  induction this as [this IH] using TileNode_tree_ind.
  intros parent bindings this' ev. rewrite refreshInheritedData_eq. intros H.
  apply bind_emit in H as (e & H & ->). constructor; [exact I|].
  apply bind_Some in H as ([here changes] & ev0 & e1 & Hhere & H & ->).
  apply Forall_app. split; [eapply refreshInheritedData_here_quiet; exact Hhere|].
  destruct (0 <? changes)%nat; [|injection H as _ <-; constructor].
  apply bind_emit in H as (e2 & H & ->). constructor; [exact I|].
  destruct (_childrenReady here); [|injection H as _ <-; constructor].
  destruct (_children this) as [|c0 [|c1 [|c2 [|c3 rest]]]]; try discriminate.
  inversion IH as [|? ? I0 IH1]; subst.
  inversion IH1 as [|? ? I1 IH2]; subst.
  inversion IH2 as [|? ? I2 IH3]; subst.
  inversion IH3 as [|? ? I3 _]; subst.
  apply bind_Some in H as (c0' & e0 & r0 & H0 & H & ->).
  apply bind_Some in H as (c1' & e1' & r1 & H1 & H & ->).
  apply bind_Some in H as (c2' & e2' & r2 & H2 & H & ->).
  apply bind_Some in H as (c3' & e3' & r3 & H3 & H & ->).
  injection H as _ <-.
  repeat (apply Forall_app; split); eauto; constructor.
Qed.

(** X6.  refreshInheritedData changes data only.  Down the whole tree, what is
    left of the nodes when render models and surfaces are taken away is as
    it was: keys, children, dirty and ready flags, load requests, pending
    layers and timestamps.  The calls it makes are its own calls on the
    sub-tiles, dirtyBound, and the warning of setElevationRaster: it
    registers no tile, notifies no terrain callback and requests no load. *)
Theorem refresh_changes_data_only parent bindings (this this' : TileNode NM) ev :
  refreshInheritedData parent bindings this = Some (this', ev) ->
  erase_data this' = erase_data this
  /\ tree_keys this' = tree_keys this
  /\ Forall isRefreshEvent ev.
Proof.
  intros H.
  pose proof (refreshInheritedData_erase _ _ _ _ _ H) as He.
  split; [exact He|]. split; [|eapply refreshInheritedData_quiet; exact H].
  clear H. revert this' He.
  induction this as [this IH] using TileNode_tree_ind. intros this' He.
  rewrite (tree_keys_eq this), (tree_keys_eq this').
  rewrite (erase_data_eq this), (erase_data_eq this') in He.
  assert (Hk : _key this' = _key this /\
               map erase_data (_children this') = map erase_data (_children this)).
  { destruct this, this'. simpl in He |- *. injection He. auto. }
  destruct Hk as [-> Hm]. f_equal.
  revert IH Hm. generalize (_children this) as l. generalize (_children this') as l'.
  induction l' as [|c' l' IHl]; intros [|c l] IH Hm; try discriminate; [reflexivity|].
  cbn [map] in Hm. injection Hm as Hc Hm. inversion IH as [|? ? Ic IHr]; subst.
  cbn [flat_map]. rewrite (Ic c' Hc), (IHl l IHr Hm). reflexivity.
Qed.

End DataOnly.

(* ===================================================================== *)
(** ** merge changes data only *)
(* ===================================================================== *)

Section MergeFrame.
Context {NM : NumModel}.

Lemma refreshSubTiles_erase bindings (this this' : TileNode NM) ev :
  refreshSubTiles bindings this = Some (this', ev) ->
  erase_data this' = erase_data this /\ Forall isRefreshEvent ev.
Proof.
  unfold refreshSubTiles. intros H.
  destruct (_childrenReady this); [|injection H as <- <-; split; [reflexivity|constructor]].
  destruct (_children this) as [|c0 [|c1 [|c2 [|c3 rest]]]] eqn:Hch; try discriminate.
  apply bind_Some in H as (c0' & e0 & r0 & H0 & H & ->).
  apply bind_Some in H as (c1' & e1 & r1 & H1 & H & ->).
  apply bind_Some in H as (c2' & e2 & r2 & H2 & H & ->).
  apply bind_Some in H as (c3' & e3 & r3 & H3 & H & ->).
  injection H as <- <-. split.
  - apply erase_data_with_children; [apply same_but_data_refl|].
    rewrite Hch. cbn [map].
    rewrite (refreshInheritedData_erase _ _ _ _ _ H0), (refreshInheritedData_erase _ _ _ _ _ H1),
            (refreshInheritedData_erase _ _ _ _ _ H2), (refreshInheritedData_erase _ _ _ _ _ H3).
    reflexivity.
  - repeat (apply Forall_app; split);
      try (eapply refreshInheritedData_quiet; eassumption); constructor.
Qed.

Lemma erase_data_fields (a b : TileNode NM) :
  erase_data a = erase_data b ->
  _key a = _key b /\ _dirty a = _dirty b /\ _childrenReady a = _childrenReady b
  /\ _loadRequest a = _loadRequest b /\ _newLayers a = _newLayers b
  /\ _context a = _context b /\ length (_children a) = length (_children b).
Proof.
  rewrite (erase_data_eq a), (erase_data_eq b). destruct a, b. simpl.
  intros H. injection H. intros Hl. intros. subst.
  repeat split; try reflexivity.
  apply (f_equal (@length _)) in Hl. rewrite !length_map in Hl. exact Hl.
Qed.

(** X7.  merge changes data only: in the node and in all its descendants, what
    is left when render models and surfaces are taken away is as it was.
    In particular merge does not clear the dirty flag, and touches neither
    the load request nor the pending layers. *)
Theorem merge_changes_data_only model bindings (this this' : TileNode NM) ev :
  merge model bindings this = Some (this', ev) ->
  erase_data this' = erase_data this
  /\ _dirty this' = _dirty this
  /\ _loadRequest this' = _loadRequest this
  /\ _newLayers this' = _newLayers this
  /\ _childrenReady this' = _childrenReady this.
Proof.
  unfold merge. intros H.
  apply bind_Some in H as (this1 & e1 & r1 & Hcolor & H & _).
  apply bind_Some in H as ([this2 flag] & e2 & r2 & Helev & H & _).
  apply bind_Some in H as (this3 & e3 & r3 & Hnormal & H & _).
  apply bind_Some in H as (this4 & e4 & r4 & Hshared & H & _).
  apply bind_Some in H as (this5 & e5 & r5 & Hsub & H & _).
  apply bind_Some in H as (u & e6 & r6 & _ & H & _).
  injection H as <- _.
  assert (He : erase_data this5 = erase_data this).
  { apply refreshSubTiles_erase in Hsub as [-> _].
    apply erase_data_same. eapply merge_data_same; eassumption. }
  split; [exact He|].
  apply erase_data_fields in He as (_ & Hd & Hr & Hl & Hn & _). auto.
Qed.

Lemma merge_colorLayer_events bindings layer (this this' : TileNode NM) ev :
  merge_colorLayer bindings layer this = Some (this', ev) -> Forall isMergeDataEvent ev.
Proof.
  destruct layer as [l|[u|]|]; simpl.
  - destruct (getTexture l) as [tex|]; [|intros H; injection H as _ <-; constructor].
    unfold merge_imageLayer.
    destruct (match passIndex _ _ with Some i => _ | None => _ end) as [m p].
    intros H. apply bind_Some in H as (u & e0 & e1 & H & Hret & ->).
    injection Hret as _ <-. rewrite app_nil_r.
    destruct (_ && _); [|injection H as _ <-; constructor].
    apply bind_Some in H as (c & e2 & e3 & Hc & H & ->).
    destruct (_context _); [|discriminate]. injection Hc as _ <-.
    injection H as _ <-. simpl. repeat constructor.
  - destruct (passIndex u _); [|unfold addPass]; intros H; injection H as _ <-; constructor.
  - intros H; injection H as _ <-; constructor.
  - intros H; injection H as _ <-; constructor.
Qed.

Lemma for_each_events {A} (P : Event NM -> Prop)
    (body : A -> TileNode NM -> Op NM (TileNode NM)) l :
  (forall a this this' ev, body a this = Some (this', ev) -> Forall P ev) ->
  forall this this' ev, for_each l body this = Some (this', ev) -> Forall P ev.
Proof.
  intros Hbody. induction l as [|a l IH]; cbn [for_each]; intros this this' ev H.
  - injection H as _ <-. constructor.
  - apply bind_Some in H as (this1 & e0 & e1 & H0 & H1 & ->).
    apply Forall_app. split; [eapply Hbody; exact H0|eapply IH; exact H1].
Qed.

Lemma isRefreshEvent_merge (ev : list (Event NM)) :
  Forall isRefreshEvent ev -> Forall isMergeDataEvent ev.
Proof.
  intros H. eapply Forall_impl; [exact H|].
  intros e. destruct e as [[] []| | | | | | | | |]; simpl; auto.
Qed.

Lemma merge_elevation_flag model bindings (this this' : TileNode NM) flag ev :
  merge_elevation model bindings this = Some ((this', flag), ev) ->
  flag = newElevationData model bindings /\ Forall isMergeDataEvent ev.
Proof.
  unfold merge_elevation, newElevationData.
  destruct (SamplerBinding.isActive _);
    [destruct (elevationModel model) as [[tex|]|]|];
    intros H; try (injection H as _ <- <-; split; [reflexivity|constructor]).
  apply bind_Some in H as (t & a & b & Hs & H & ->). injection H as _ <- <-.
  split; [reflexivity|]. rewrite app_nil_r.
  apply isRefreshEvent_merge. eapply setElevationRaster_quiet. exact Hs.
Qed.

(** X8.  merge notifies the terrain that a tile was added exactly when it found
    new elevation data: the elevation binding is active and the model
    carries an elevation texture.  The notification is then the last call
    of merge, after the debug line; every call before it is a push to the
    tile rasterizer, updateNormalMap, or a call of the refresh of the
    sub-tiles. *)
Theorem merge_notifies_new_elevation model bindings (this this' : TileNode NM) ev :
  merge model bindings this = Some (this', ev) ->
  exists evd,
    Forall isMergeDataEvent evd
    /\ ev = evd ++ (if newElevationData model bindings
                    then [OE_LOG DEBUG (NotifyMerge (_key this));
                          Terrain_notifyTileAdded (_key this)]
                    else []).
Proof.
  unfold merge. intros H.
  apply bind_Some in H as (this1 & e1 & r1 & Hcolor & H & ->).
  apply bind_Some in H as ([this2 flag] & e2 & r2 & Helev & H & ->).
  apply bind_Some in H as (this3 & e3 & r3 & Hnormal & H & ->).
  apply bind_Some in H as (this4 & e4 & r4 & Hshared & H & ->).
  apply bind_Some in H as (this5 & e5 & r5 & Hsub & H & ->).
  apply bind_Some in H as (u & e6 & r6 & Htail & H & ->).
  injection H as _ <-.
  assert (Hkey : getKey this5 = _key this).
  { pose proof (merge_data_same _ _ _ _ _ _ _ _ _ _ _ _ Hcolor Helev Hnormal Hshared) as Hs.
    apply erase_data_same in Hs.
    apply refreshSubTiles_erase in Hsub as [He _]. rewrite <- He in Hs.
    apply erase_data_fields in Hs as (Hk & _). unfold getKey. exact Hk. }
  apply merge_elevation_flag in Helev as [-> F2].
  exists (e1 ++ e2 ++ e3 ++ e4 ++ e5).
  split.
  - repeat (apply Forall_app; split).
    + unfold merge_colorLayers in Hcolor. destruct (SamplerBinding.isActive _).
      * eapply for_each_events; [|exact Hcolor]. apply merge_colorLayer_events.
      * injection Hcolor as _ <-. constructor.
    + exact F2.
    + unfold merge_normals in Hnormal.
      destruct (SamplerBinding.isActive _);
        [destruct (normalModel model) as [[tex|]|]|];
        injection Hnormal as _ <-; simpl; repeat constructor.
    + eapply for_each_events; [|exact Hshared].
      intros l t t' e. unfold merge_sharedLayer.
      destruct (getTexture l); [destruct (findSharedBinding _ _)|];
        intros H; injection H as _ <-; constructor.
    + apply isRefreshEvent_merge. apply refreshSubTiles_erase in Hsub as [_ F]. exact F.
  - rewrite app_nil_r, <- !app_assoc. do 5 f_equal.
    destruct (newElevationData model bindings).
    + apply bind_emit in Htail as (e & Ht & ->).
      apply bind_Some in Ht as (c & e7 & e8 & Hc & Ht & ->).
      destruct (_context this5); [|discriminate]. injection Hc as _ <-.
      injection Ht as _ <-. rewrite Hkey. reflexivity.
    + injection Htail as _ <-. reflexivity.
Qed.

End MergeFrame.

(* ===================================================================== *)
(** ** The passes after refreshInheritedData *)
(* ===================================================================== *)

Section PassLayers.
Context {NM : NumModel}.

Lemma passIndex_existsb uid (passes : list (RenderingPass NM)) :
  existsb (Z.eqb uid) (map sourceUID passes) =
  match passIndex uid passes with Some _ => true | None => false end.
Proof.
  induction passes as [|p l IH]; [reflexivity|].
  cbn [map existsb passIndex]. rewrite (Z.eqb_sym uid).
  destruct (Z.eqb (sourceUID p) uid); [reflexivity|].
  rewrite IH. destruct (passIndex uid l); reflexivity.
Qed.

Lemma existsb_In uid (uids : list UID) : existsb (Z.eqb uid) uids = true <-> In uid uids.
Proof.
  rewrite existsb_exists. split.
  - intros (x & Hin & Heq). apply Z.eqb_eq in Heq. subst. exact Hin.
  - intros Hin. exists uid. split; [exact Hin|apply Z.eqb_refl].
Qed.

Lemma passUIDs_update_pass i f (model : TileRenderModel NM) :
  (forall p, sourceUID (f p) = sourceUID p) ->
  passUIDs (update_pass i f model) = passUIDs model.
Proof.
  intros Hf. unfold passUIDs, update_pass. destruct model as [sh passes]. simpl.
  change (map sourceUID (alter f i passes)) with (sourceUID <$> alter f i passes).
  change (map sourceUID passes) with (sourceUID <$> passes).
  apply list_eq. intros j. rewrite !list_lookup_fmap.
  rewrite list_lookup_alter.
  destruct (decide (i = j)) as [->|]; destruct (passes !! j); simpl; rewrite ?Hf; reflexivity.
Qed.

Lemma addLayer_NoDup uids u : NoDup uids -> NoDup (addLayer uids u).
Proof.
  intros Hnd. unfold addLayer. destruct (existsb _ _) eqn:He; [exact Hnd|].
  apply NoDup_app. split; [exact Hnd|]. split; [|apply NoDup_singleton].
  intros x Hx Hx'. apply list_elem_of_singleton in Hx'. subst.
  apply list_elem_of_In, existsb_In in Hx. congruence.
Qed.

Lemma addLayer_In uids u : In u (addLayer uids u).
Proof.
  unfold addLayer. destruct (existsb _ _) eqn:He.
  - apply existsb_In. exact He.
  - apply in_or_app. right. left. reflexivity.
Qed.

Lemma addLayer_incl uids u x : In x uids -> In x (addLayer uids u).
Proof.
  unfold addLayer. destruct (existsb _ _); [auto|]. intros H. apply in_or_app. auto.
Qed.

Lemma addLayer_prefix uids u : exists news, addLayer uids u = uids ++ news.
Proof.
  unfold addLayer. destruct (existsb _ _); [exists []|exists [u]]; [|reflexivity].
  rewrite app_nil_r. reflexivity.
Qed.

Lemma fold_addLayer us : forall uids,
  (exists news, fold_left addLayer us uids = uids ++ news)
  /\ (NoDup uids -> NoDup (fold_left addLayer us uids))
  /\ (forall x, In x uids \/ In x us -> In x (fold_left addLayer us uids)).
Proof.
  induction us as [|u us IH]; intros uids; cbn [fold_left].
  - split; [exists []; rewrite app_nil_r; reflexivity|].
    split; [auto|]. intros x [H|[]]. exact H.
  - destruct (IH (addLayer uids u)) as ((news & Hp) & Hnd & Hin).
    split; [|split].
    + destruct (addLayer_prefix uids u) as (n0 & Hn0).
      exists (n0 ++ news). rewrite Hp, Hn0, app_assoc. reflexivity.
    + intros H. apply Hnd, addLayer_NoDup, H.
    + intros x [H|[->|H]]; apply Hin; auto using addLayer_incl, addLayer_In.
Qed.

Lemma passUIDs_with_passes passes (model : TileRenderModel NM) :
  passUIDs (with_passes passes model) = map sourceUID passes.
Proof. reflexivity. Qed.

Lemma map_sourceUID_insert i (x : RenderingPass NM) passes :
  (forall p, passes !! i = Some p -> sourceUID x = sourceUID p) ->
  map sourceUID (<[i := x]> passes) = map sourceUID passes.
Proof.
  intros Hx.
  change (map sourceUID (<[i := x]> passes)) with (sourceUID <$> <[i := x]> passes).
  change (map sourceUID passes) with (sourceUID <$> passes).
  apply list_eq. intros j. rewrite !list_lookup_fmap.
  destruct (decide (i = j)) as [->|Hne].
  - destruct (passes !! j) as [p|] eqn:Hp.
    + rewrite list_lookup_insert_eq by (eapply lookup_lt_Some; exact Hp).
      simpl. rewrite (Hx p eq_refl). reflexivity.
    + rewrite list_insert_ge by (apply lookup_ge_None; exact Hp).
      rewrite Hp. reflexivity.
  - rewrite list_lookup_insert_ne by exact Hne. reflexivity.
Qed.

Lemma refreshPass_uids bindings quadrant (model : TileRenderModel NM) n parentPass :
  passUIDs (fst (refreshPass bindings quadrant (model, n) parentPass))
  = addLayer (passUIDs model) (sourceUID parentPass).
Proof.
  unfold refreshPass, addLayer. unfold passUIDs at 2. rewrite passIndex_existsb.
  destruct (passIndex (sourceUID parentPass) (_passes model)) as [i|] eqn:Hi.
  - destruct (fold_left _ _ _) as [samplers_ changes]. cbn [fst].
    rewrite passUIDs_with_passes. apply map_sourceUID_insert.
    intros p Hp. unfold with_samplers. cbn [sourceUID].
    f_equal. rewrite nth_lookup, Hp. reflexivity.
  - cbn [fst]. rewrite passUIDs_with_passes, map_app. reflexivity.
Qed.

Lemma fold_refreshPass_uids bindings quadrant parentPasses :
  forall (model : TileRenderModel NM) n,
    passUIDs (fst (fold_left (refreshPass bindings quadrant) parentPasses (model, n)))
    = fold_left addLayer (map sourceUID parentPasses) (passUIDs model).
Proof.
  induction parentPasses as [|p l IH]; intros model n; [reflexivity|].
  cbn [fold_left map].
  rewrite <- refreshPass_uids with (bindings := bindings) (quadrant := quadrant) (n := n).
  destruct (refreshPass bindings quadrant (model, n) p) as [model1 n1].
  apply IH.
Qed.

Lemma passes_with_surface sf (this : TileNode NM) :
  _passes (_renderModel (with_surface sf this)) = _passes (_renderModel this).
Proof. destruct this. reflexivity. Qed.

Lemma for_each_shared_passes quadrant parentShared l (this this' : TileNode NM) n n' ev :
  for_each l (refreshSharedSampler quadrant parentShared) (this, n) = Some ((this', n'), ev) ->
  _passes (_renderModel this') = _passes (_renderModel this).
Proof.
  revert this n ev. induction l as [|s l IH]; simpl; intros this n ev H.
  - injection H as <- _ _. reflexivity.
  - apply bind_Some in H as ([t1 n1] & e0 & e1 & H0 & H1 & _).
    apply IH in H1. rewrite H1. clear H1 IH.
    unfold refreshSharedSampler in H0.
    destruct (_ || _); [|injection H0 as <- _ _; reflexivity].
    apply bind_Some in H0 as (t2 & e2 & e3 & H0 & Hret & _).
    injection Hret as <- _.
    match type of H0 with
    | context [with_renderModel ?m this] =>
        assert (Hp : _passes (_renderModel (with_renderModel m this))
                     = _passes (_renderModel this))
          by (rewrite renderModel_with_renderModel; reflexivity)
    end.
    destruct (Nat.eqb s SamplerBinding.ELEVATION); [destruct (_texture _)|];
      try (injection H0 as <- _; exact Hp).
    apply setElevationRaster_run in H0 as (sf & ->).
    rewrite passes_with_surface. exact Hp.
Qed.

Lemma refreshInheritedData_here_uids parent bindings (this here : TileNode NM) n ev :
  refreshInheritedData_here parent bindings this = Some ((here, n), ev) ->
  passUIDs (_renderModel here)
  = fold_left addLayer (passUIDs (_renderModel parent)) (passUIDs (_renderModel this)).
Proof.
  unfold refreshInheritedData_here. intros H.
  pose proof (fold_refreshPass_uids bindings (TileKey.getQuadrant (getKey this))
                (_passes (_renderModel parent)) (_renderModel this) O) as Hu.
  destruct (fold_left _ _ _) as [model n0]. cbn [fst] in Hu.
  apply for_each_shared_passes in H.
  unfold passUIDs at 1. rewrite H, renderModel_with_renderModel. exact Hu.
Qed.

Lemma renderModel_with_children l (this : TileNode NM) :
  _renderModel (with_children l this) = _renderModel this.
Proof. destruct this. reflexivity. Qed.

(** X9.  After refreshInheritedData the passes of a node are, by layer, its
    own passes in their order followed by the layers of the parent's passes
    that it had no pass for, in the parent's order.  So every layer of the
    parent has a pass in the node afterwards, and a node that had at most
    one pass for each layer still has at most one. *)
Theorem refresh_pass_layers parent bindings (this this' : TileNode NM) ev :
  refreshInheritedData parent bindings this = Some (this', ev) ->
  passUIDs (_renderModel this')
  = fold_left addLayer (passUIDs (_renderModel parent)) (passUIDs (_renderModel this))
  /\ passes_covered parent this' = true
  /\ (NoDup (passUIDs (_renderModel this)) -> NoDup (passUIDs (_renderModel this'))).
Proof.
  rewrite refreshInheritedData_eq. intros H.
  apply bind_emit in H as (e & H & _).
  apply bind_Some in H as ([here changes] & ev0 & e1 & Hhere & H & _).
  apply refreshInheritedData_here_uids in Hhere.
  assert (Hrm : _renderModel this' = _renderModel here).
  { destruct (0 <? changes)%nat; [|injection H as <- _; reflexivity].
    apply bind_emit in H as (e2 & H & _).
    destruct (_childrenReady here); [|injection H as <- _; reflexivity].
    destruct (_children this) as [|c0 [|c1 [|c2 [|c3 rest]]]]; try discriminate.
    apply bind_Some in H as (c0' & e0 & r0 & H0 & H & _).
    apply bind_Some in H as (c1' & e1' & r1 & H1 & H & _).
    apply bind_Some in H as (c2' & e2' & r2 & H2 & H & _).
    apply bind_Some in H as (c3' & e3' & r3 & H3 & H & _).
    injection H as <- _. apply renderModel_with_children. }
  rewrite Hrm, Hhere.
  destruct (fold_addLayer (passUIDs (_renderModel parent)) (passUIDs (_renderModel this)))
    as (_ & Hnd & Hin).
  split; [reflexivity|]. split; [|exact Hnd].
  unfold passes_covered. apply forallb_forall. intros parentPass Hp.
  apply bool_decide_eq_true. rewrite Hrm.
  assert (Hex : existsb (Z.eqb (sourceUID parentPass))
                  (map sourceUID (_passes (_renderModel here))) = true).
  { apply existsb_In. fold (passUIDs (_renderModel here)). rewrite Hhere.
    apply Hin. right. unfold passUIDs. apply in_map. exact Hp. }
  rewrite passIndex_existsb in Hex.
  destruct (passIndex _ _); [discriminate|discriminate Hex].
Qed.

End PassLayers.

(* ===================================================================== *)
(** ** The passes after merge *)
(* ===================================================================== *)

Section MergePasses.
Context {NM : NumModel}.

Lemma newPass_uid bindings uid tex : sourceUID (newPass (NM := NM) bindings uid tex) = uid.
Proof. unfold newPass. destruct (SamplerBinding.isActive _); reflexivity. Qed.

Lemma merge_colorLayer_uids bindings layer (this this' : TileNode NM) ev :
  merge_colorLayer bindings layer this = Some (this', ev) ->
  passUIDs (_renderModel this') = addColorLayer (passUIDs (_renderModel this)) layer.
Proof.
  unfold addColorLayer, addLayer. unfold passUIDs at 2 3 4.
  destruct layer as [l|[u|]|]; cbn [merge_colorLayer layerUID].
  - destruct (getTexture l) as [tex|]; [|intros H; injection H as <- _; reflexivity].
    intros H. apply merge_imageLayer_model in H. cbv zeta in H. subst this'.
    rewrite renderModel_with_renderModel, passIndex_existsb.
    destruct (passIndex _ _).
    + apply passUIDs_update_pass. intros p. reflexivity.
    + rewrite passUIDs_with_passes, map_app. cbn [map].
      rewrite write_sampler_uid, newPass_uid. reflexivity.
  - rewrite passIndex_existsb.
    destruct (passIndex u _); [intros H; injection H as <- _; reflexivity|].
    unfold addPass. intros H. injection H as <- _.
    rewrite renderModel_with_renderModel.
    unfold update_pass, passUIDs. cbn [_passes with_passes].
    rewrite alter_snoc, map_app. reflexivity.
  - intros H; injection H as <- _; reflexivity.
  - intros H; injection H as <- _; reflexivity.
Qed.

Lemma colorLayers_uids bindings layers :
  forall (this this' : TileNode NM) ev,
    for_each layers (merge_colorLayer bindings) this = Some (this', ev) ->
    passUIDs (_renderModel this')
    = fold_left addColorLayer layers (passUIDs (_renderModel this)).
Proof.
  induction layers as [|layer l IH]; cbn [for_each fold_left]; intros this this' ev H.
  - injection H as <- _. reflexivity.
  - apply bind_Some in H as (this1 & e0 & e1 & H0 & H1 & _).
    apply merge_colorLayer_uids in H0. apply IH in H1. rewrite H1, H0. reflexivity.
Qed.

Lemma fold_addColorLayer (layers : list (TerrainTileColorLayerModel NM)) : forall uids,
  (exists news, fold_left addColorLayer layers uids = uids ++ news)
  /\ (NoDup uids -> NoDup (fold_left addColorLayer layers uids)).
Proof.
  induction layers as [|layer l IH]; intros uids; cbn [fold_left].
  - split; [exists []; rewrite app_nil_r; reflexivity|auto].
  - destruct (IH (addColorLayer uids layer)) as ((news & Hp) & Hnd).
    unfold addColorLayer in *. destruct (layerUID layer) as [u|].
    + split.
      * destruct (addLayer_prefix uids u) as (n0 & Hn0).
        exists (n0 ++ news). rewrite Hp, Hn0, app_assoc. reflexivity.
      * intros H. apply Hnd, addLayer_NoDup, H.
    + split; [eauto|exact Hnd].
Qed.

(** X10.  The passes of a node after merge, by layer: when the color binding is
    active, the passes it had, in their order, followed by one new pass for
    each layer of the model that had none, in the order of the model (an
    image layer counts when it carries a texture, another color layer when
    it names its layer); when the color binding is not active, the passes
    it had.  No pass is removed or moved, and a node that had at most one
    pass for each layer still has at most one. *)
Theorem merge_pass_layers model bindings (this this' : TileNode NM) ev :
  merge model bindings this = Some (this', ev) ->
  passUIDs (_renderModel this')
  = (if SamplerBinding.isActive (binding bindings SamplerBinding.COLOR)
     then fold_left addColorLayer (colorLayers model) (passUIDs (_renderModel this))
     else passUIDs (_renderModel this))
  /\ (exists news, passUIDs (_renderModel this') = passUIDs (_renderModel this) ++ news)
  /\ (NoDup (passUIDs (_renderModel this)) -> NoDup (passUIDs (_renderModel this'))).
Proof.
  unfold merge. intros H.
  apply bind_Some in H as (this1 & e1 & r1 & Hcolor & H & _).
  apply bind_Some in H as ([this2 flag] & e2 & r2 & Helev & H & _).
  apply bind_Some in H as (this3 & e3 & r3 & Hnormal & H & _).
  apply bind_Some in H as (this4 & e4 & r4 & Hshared & H & _).
  apply bind_Some in H as (this5 & e5 & r5 & Hsub & H & _).
  apply bind_Some in H as (u & e6 & r6 & _ & H & _).
  injection H as <- _.
  apply refreshSubTiles_model in Hsub.
  apply sharedLayers_run in Hshared as [Hp4 _].
  apply merge_normals_run in Hnormal as [Hp3 _].
  apply merge_elevation_run in Helev as [Hp2 _].
  assert (Hu : passUIDs (_renderModel this5) = passUIDs (_renderModel this1)).
  { unfold passUIDs. rewrite Hsub, Hp4, Hp3, Hp2. reflexivity. }
  rewrite Hu. clear Hu Hsub Hp4 Hp3 Hp2.
  unfold merge_colorLayers in Hcolor.
  destruct (SamplerBinding.isActive (binding bindings SamplerBinding.COLOR)).
  - apply colorLayers_uids in Hcolor. rewrite Hcolor.
    destruct (fold_addColorLayer (colorLayers model) (passUIDs (_renderModel this)))
      as [Hpre Hnd].
    auto.
  - injection Hcolor as <- _. split; [reflexivity|].
    split; [exists []; rewrite app_nil_r; reflexivity|auto].
Qed.

End MergePasses.

(* ===================================================================== *)
(** ** The shared samplers after refreshInheritedData *)
(* ===================================================================== *)

Section RefreshShared.
Context {NM : NumModel}.

Lemma refreshInheritedData_renderModel parent bindings (this this' : TileNode NM) ev :
  refreshInheritedData parent bindings this = Some (this', ev) ->
  exists here n ev0,
    refreshInheritedData_here parent bindings this = Some ((here, n), ev0)
    /\ _renderModel this' = _renderModel here.
Proof.
  rewrite refreshInheritedData_eq. intros H.
  apply bind_emit in H as (e & H & _).
  apply bind_Some in H as ([here changes] & ev0 & e1 & Hhere & H & _).
  exists here, changes, ev0. split; [exact Hhere|].
  destruct (0 <? changes)%nat; [|injection H as <- _; reflexivity].
  apply bind_emit in H as (e2 & H & _).
  destruct (_childrenReady here); [|injection H as <- _; reflexivity].
  destruct (_children this) as [|c0 [|c1 [|c2 [|c3 rest]]]]; try discriminate.
  apply bind_Some in H as (c0' & e0 & r0 & H0 & H & _).
  apply bind_Some in H as (c1' & e1' & r1 & H1 & H & _).
  apply bind_Some in H as (c2' & e2' & r2 & H2 & H & _).
  apply bind_Some in H as (c3' & e3' & r3 & H3 & H & _).
  injection H as <- _. apply renderModel_with_children.
Qed.

Lemma refreshPass_shared bindings quadrant (model : TileRenderModel NM) n parentPass :
  _sharedSamplers (fst (refreshPass bindings quadrant (model, n) parentPass))
  = _sharedSamplers model.
Proof.
  unfold refreshPass. destruct (passIndex _ _); [|reflexivity].
  destruct (fold_left _ _ _). reflexivity.
Qed.

Lemma fold_refreshPass_shared bindings quadrant parentPasses :
  forall (model : TileRenderModel NM) n,
    _sharedSamplers (fst (fold_left (refreshPass bindings quadrant) parentPasses (model, n)))
    = _sharedSamplers model.
Proof.
  induction parentPasses as [|p l IH]; intros model n; [reflexivity|].
  cbn [fold_left].
  rewrite <- (refreshPass_shared bindings quadrant model n p).
  destruct (refreshPass bindings quadrant (model, n) p) as [model1 n1]. apply IH.
Qed.

Lemma shared_with_surface sf (this : TileNode NM) :
  _sharedSamplers (_renderModel (with_surface sf this)) = _sharedSamplers (_renderModel this).
Proof. destruct this. reflexivity. Qed.

Lemma Sampler_eta (s : Sampler NM) : mkSampler (_texture s) (_matrix s) = s.
Proof. destruct s. reflexivity. Qed.

Lemma refreshSharedSampler_shared quadrant parentShared s (this this' : TileNode NM) n n' ev
    done x rest :
  _sharedSamplers (_renderModel this) = done ++ x :: rest ->
  length done = s ->
  refreshSharedSampler quadrant parentShared s (this, n) = Some ((this', n'), ev) ->
  _sharedSamplers (_renderModel this') = done ++ reinherit quadrant parentShared s x :: rest.
Proof.
  intros Hsh Hlen. unfold refreshSharedSampler, reinherit, authoritative.
  assert (Hat : sampler_at (_sharedSamplers (_renderModel this)) s = x).
  { rewrite sampler_at_lookup, Hsh, <- Hlen.
    rewrite lookup_app_r by lia. rewrite Nat.sub_diag. reflexivity. }
  rewrite Hat, Sampler_eta.
  replace (negb (textureValid x) || negb (Matrixf.isIdentity (_matrix x)))
    with (negb (textureValid x && Matrixf.isIdentity (_matrix x)))
    by (destruct (textureValid x), (Matrixf.isIdentity (_matrix x)); reflexivity).
  destruct (textureValid x && Matrixf.isIdentity (_matrix x)); cbn [negb].
  - intros H. injection H as <- _ _. exact Hsh.
  - intros H. apply bind_Some in H as (t2 & e2 & e3 & H0 & Hret & _).
    injection Hret as <- _.
    match type of H0 with
    | context [with_renderModel ?m this] =>
        assert (Hp : _sharedSamplers (_renderModel (with_renderModel m this))
                     = done ++ Sampler_preMult (scaleBias quadrant)
                                 (sampler_at parentShared s) :: rest)
    end.
    { rewrite renderModel_with_renderModel. cbn [_sharedSamplers with_sharedSamplers].
      rewrite Hsh, <- Hlen. rewrite insert_app_r_alt by lia.
      rewrite Nat.sub_diag. reflexivity. }
    destruct (Nat.eqb s SamplerBinding.ELEVATION); [destruct (_texture _)|];
      try (injection H0 as <- _; exact Hp).
    apply setElevationRaster_run in H0 as (sf & ->).
    rewrite shared_with_surface. exact Hp.
Qed.

Lemma for_each_shared_imap quadrant parentShared rest :
  forall done (this this' : TileNode NM) n n' ev,
    _sharedSamplers (_renderModel this) = done ++ rest ->
    for_each (seq (length done) (length rest))
             (refreshSharedSampler quadrant parentShared) (this, n)
      = Some ((this', n'), ev) ->
    _sharedSamplers (_renderModel this')
    = done ++ imap (fun j => reinherit quadrant parentShared (length done + j)) rest.
Proof.
  induction rest as [|x rest IH]; intros done this this' n n' ev Hsh; simpl.
  - intros H. injection H as <- _ _. exact Hsh.
  - intros H. apply bind_Some in H as ([t1 n1] & e0 & e1 & H0 & H1 & _).
    apply (refreshSharedSampler_shared _ _ _ _ _ _ _ _ done x rest Hsh eq_refl) in H0.
    specialize (IH (done ++ [reinherit quadrant parentShared (length done) x])
                   t1 this' n1 n' e1).
    rewrite <- app_assoc in IH. specialize (IH H0).
    rewrite length_app in IH. cbn [length] in IH.
    rewrite Nat.add_1_r in IH. specialize (IH H1).
    rewrite IH, <- app_assoc. cbn [app]. rewrite Nat.add_0_r.
    do 2 f_equal. apply imap_ext. intros j y _. cbn. f_equal. lia.
Qed.

Lemma refreshInheritedData_shared parent bindings (this this' : TileNode NM) ev :
  refreshInheritedData parent bindings this = Some (this', ev) ->
  _sharedSamplers (_renderModel this')
  = imap (reinherit (TileKey.getQuadrant (_key this))
                    (_sharedSamplers (_renderModel parent)))
         (_sharedSamplers (_renderModel this)).
Proof.
  intros H.
  apply refreshInheritedData_renderModel in H as (here & n & ev0 & Hhere & ->).
  unfold refreshInheritedData_here in Hhere.
  pose proof (fold_refreshPass_shared bindings (TileKey.getQuadrant (getKey this))
                (_passes (_renderModel parent)) (_renderModel this) O) as Hsh.
  destruct (fold_left _ _ _) as [model n0]. cbn [fst] in Hsh.
  assert (Hsh' : _sharedSamplers (_renderModel (with_renderModel model this))
                 = [] ++ _sharedSamplers (_renderModel this)).
  { rewrite renderModel_with_renderModel. exact Hsh. }
  rewrite Hsh' in Hhere at 1. cbn [app] in Hhere.
  apply (for_each_shared_imap _ _ _ [] _ _ _ _ _ Hsh') in Hhere.
  exact Hhere.
Qed.

Lemma sampler_at_imap (f : nat -> Sampler NM -> Sampler NM) (l : Samplers NM) s :
  (s < length l)%nat -> sampler_at (imap f l) s = f s (sampler_at l s).
Proof.
  intros Hs. rewrite !sampler_at_lookup, list_lookup_imap.
  destruct (lookup_lt_is_Some_2 l s Hs) as [x Hx]. rewrite Hx. reflexivity.
Qed.

(** X11.  What refreshInheritedData does to the shared samplers.  Every shared
    sampler of the node that holds the tile's own data (a texture, with the
    identity) is kept as it is; every other one becomes the parent's shared
    sampler of the same index, its matrix pre-multiplied by the scale and
    bias of the node's quadrant.  No shared sampler is added or removed. *)
Theorem refresh_shared_samplers parent bindings (this this' : TileNode NM) ev :
  refreshInheritedData parent bindings this = Some (this', ev) ->
  let quadrant := TileKey.getQuadrant (_key this) in
  let mine := _sharedSamplers (_renderModel this) in
  let parentShared := _sharedSamplers (_renderModel parent) in
  length (_sharedSamplers (_renderModel this')) = length mine
  /\ forall s, (s < length mine)%nat ->
       sampler_at (_sharedSamplers (_renderModel this')) s =
       if authoritative (sampler_at mine s) then sampler_at mine s
       else Sampler_preMult (scaleBias quadrant) (sampler_at parentShared s).
Proof.
  intros H quadrant mine parentShared.
  apply refreshInheritedData_shared in H. rewrite H.
  split; [apply length_imap|].
  intros s Hs. fold quadrant mine parentShared.
  rewrite sampler_at_imap by exact Hs. reflexivity.
Qed.

End RefreshShared.

(* ===================================================================== *)
(** ** The count of changes *)
(* ===================================================================== *)

Section ZeroChanges.
Context {NM : NumModel}.

Lemma refreshSampler_counts bindings quadrant parentPass (l : Samplers NM) n s :
  let r := refreshSampler bindings quadrant parentPass (l, n) s in
  (n <= snd r)%nat /\ (snd r = n -> fst r = l).
Proof.
  unfold refreshSampler.
  destruct (_ && _).
  - destruct (_ || _); cbn [fst snd]; split; auto; lia.
  - destruct (_ || _); cbn [fst snd]; split; auto; lia.
Qed.

Lemma fold_refreshSampler_counts bindings quadrant parentPass idx :
  forall (l : Samplers NM) n,
    let r := fold_left (refreshSampler bindings quadrant parentPass) idx (l, n) in
    (n <= snd r)%nat /\ (snd r = n -> fst r = l).
Proof.
  induction idx as [|s idx IH]; intros l n; cbn [fold_left].
  - cbn. auto.
  - pose proof (refreshSampler_counts bindings quadrant parentPass l n s) as [H1 H2].
    cbv zeta in H1, H2.
    destruct (refreshSampler bindings quadrant parentPass (l, n) s) as [l1 n1].
    cbn [fst snd] in H1, H2.
    destruct (IH l1 n1) as [H3 H4]. cbv zeta in *.
    split; [lia|]. intros He.
    assert (n1 = n) by lia. subst n1.
    rewrite H4 by exact He. apply H2. reflexivity.
Qed.

Lemma with_samplers_id (p : RenderingPass NM) : with_samplers (samplers p) p = p.
Proof. destruct p. reflexivity. Qed.

Lemma with_passes_id (m : TileRenderModel NM) : with_passes (_passes m) m = m.
Proof. destruct m. reflexivity. Qed.

Lemma refreshPass_counts bindings quadrant (model : TileRenderModel NM) n parentPass :
  let r := refreshPass bindings quadrant (model, n) parentPass in
  (n <= snd r)%nat /\ (snd r = n -> fst r = model).
Proof.
  unfold refreshPass.
  destruct (passIndex _ _) as [i|] eqn:Hi.
  - apply passIndex_Some in Hi as (pass & Hp & _).
    assert (Hnth : nth i (_passes model) RenderingPass_default = pass)
      by (rewrite nth_lookup, Hp; reflexivity).
    rewrite Hnth.
    pose proof (fold_refreshSampler_counts bindings quadrant parentPass
                  (seq 0 (length (samplers pass))) (samplers pass) n) as [H1 H2].
    cbv zeta in H1, H2.
    destruct (fold_left _ _ _) as [samplers_ changes]. cbn [fst snd] in *.
    split; [exact H1|]. intros He. rewrite (H2 He), with_samplers_id.
    rewrite list_insert_id by exact Hp. apply with_passes_id.
  - cbn [fst snd]. split; [lia|]. intros He. lia.
Qed.

Lemma fold_refreshPass_counts bindings quadrant parentPasses :
  forall (model : TileRenderModel NM) n,
    let r := fold_left (refreshPass bindings quadrant) parentPasses (model, n) in
    (n <= snd r)%nat /\ (snd r = n -> fst r = model).
Proof.
  induction parentPasses as [|p l IH]; intros model n; cbn [fold_left].
  - cbn. auto.
  - pose proof (refreshPass_counts bindings quadrant model n p) as [H1 H2].
    cbv zeta in H1, H2.
    destruct (refreshPass bindings quadrant (model, n) p) as [m1 n1].
    cbn [fst snd] in H1, H2.
    destruct (IH m1 n1) as [H3 H4]. cbv zeta in *.
    split; [lia|]. intros He.
    assert (n1 = n) by lia. subst n1.
    rewrite H4 by exact He. apply H2. reflexivity.
Qed.

Lemma for_each_shared_counts quadrant parentShared l :
  forall (this this' : TileNode NM) n n' ev,
    for_each l (refreshSharedSampler quadrant parentShared) (this, n) = Some ((this', n'), ev) ->
    (n <= n')%nat /\ (n' = n -> this' = this /\ ev = []).
Proof.
  induction l as [|s l IH]; simpl; intros this this' n n' ev H.
  - injection H as <- <- <-. auto.
  - apply bind_Some in H as ([t1 n1] & e0 & e1 & H0 & H1 & ->).
    apply IH in H1 as [H3 H4].
    assert (Hstep : (n <= n1)%nat /\ (n1 = n -> t1 = this /\ e0 = [])).
    { unfold refreshSharedSampler in H0.
      destruct (_ || _); [|injection H0 as <- <- <-; auto].
      apply bind_Some in H0 as (t2 & e2 & e3 & H0 & Hret & _).
      injection Hret as _ <-. split; [lia|]. intros He. lia. }
    destruct Hstep as [H1 H2]. split; [lia|]. intros He.
    assert (n1 = n) by lia. subst n1.
    destruct (H2 eq_refl) as [-> ->]. destruct (H4 He) as [-> ->]. auto.
Qed.

Lemma with_renderModel_id (this : TileNode NM) :
  with_renderModel (_renderModel this) this = this.
Proof. destruct this. reflexivity. Qed.

(** X12.  The count of changes is sound: when refreshInheritedData counts no
    change at a node, it has changed nothing there and has made no call
    but its own, so that stopping the descent leaves out no node whose
    parent has changed. *)
Theorem refresh_no_change_counted parent bindings (this here : TileNode NM) ev :
  refreshInheritedData_here parent bindings this = Some ((here, O), ev) ->
  here = this /\ ev = []
  /\ refreshInheritedData parent bindings this
     = Some (this, [Call_refreshInheritedData (_key this)]).
Proof.
  intros H.
  assert (Hhere : here = this /\ ev = []).
  { unfold refreshInheritedData_here in H.
    pose proof (fold_refreshPass_counts bindings (TileKey.getQuadrant (getKey this))
                  (_passes (_renderModel parent)) (_renderModel this) O) as [H1 H2].
    cbv zeta in H1, H2.
    destruct (fold_left _ _ _) as [model n0]. cbn [fst snd] in H1, H2.
    apply for_each_shared_counts in H as [H3 H4].
    assert (n0 = O) by lia. subst n0.
    destruct (H4 eq_refl) as [-> ->].
    rewrite (H2 eq_refl), with_renderModel_id. auto. }
  destruct Hhere as [-> ->]. split; [reflexivity|]. split; [reflexivity|].
  rewrite refreshInheritedData_eq, H. reflexivity.
Qed.

End ZeroChanges.

(* ===================================================================== *)
(** ** Inherited matrices in IEEE arithmetic *)
(* ===================================================================== *)

Lemma f_one_IEEE : f_one IEEE = S754_finite false 8388608 (-23).
Proof. vm_compute. reflexivity. Qed.

Lemma SFeqb_one (x : spec_float) :
  SFeqb x (S754_finite false 8388608 (-23)) = true -> x = S754_finite false 8388608 (-23).
Proof.
  unfold SFeqb.
  destruct x as [s|s| |s m e]; cbn [SFcompare]; try discriminate.
  - destruct s; discriminate.
  - destruct s; [discriminate|].
    destruct (e ?= -23) eqn:He; try discriminate.
    apply Z.compare_eq in He. subst e.
    destruct (Pos.compare_cont Eq m 8388608) eqn:Hm; try discriminate.
    apply (Pos.compare_eq m 8388608) in Hm. subst m. reflexivity.
Qed.

Lemma SFeqb_zero (x : spec_float) :
  SFeqb x (S754_zero false) = true -> exists s, x = S754_zero s.
Proof.
  unfold SFeqb.
  destruct x as [s|s| |s m e]; cbn [SFcompare]; try discriminate.
  - eauto.
  - destruct s; discriminate.
  - destruct s; discriminate.
Qed.

Lemma IEEE_inherited_entry (q : nat) (s1 s2 s3 : bool)
    (m01 m02 m03 m11 m12 m13 m21 m22 m23 m31 m32 m33 : spec_float) :
  (q < 4)%nat ->
  SFeqb
    (Matrixf.INNER_PRODUCT (NM := IEEE) (scaleBias q)
       (Matrixf.mk
          (Matrixf.mkRow (NM := IEEE) (S754_finite false 8388608 (-23)) m01 m02 m03)
          (Matrixf.mkRow (NM := IEEE) (S754_zero s1) m11 m12 m13)
          (Matrixf.mkRow (NM := IEEE) (S754_zero s2) m21 m22 m23)
          (Matrixf.mkRow (NM := IEEE) (S754_zero s3) m31 m32 m33)) 0 0)
    (S754_finite false 8388608 (-23)) = false.
Proof.
  intros Hq. destruct q as [|[|[|[|q]]]]; [| | | |lia];
    destruct s1, s2, s3; vm_compute; reflexivity.
Qed.

Lemma IEEE_inherited_not_identity (q : nat) (m : Matrixf.t IEEE) :
  (q < 4)%nat ->
  Matrixf.isIdentity m = true ->
  Matrixf.isIdentity (Matrixf.preMult m (scaleBias q)) = false.
Proof.
  intros Hq Hid.
  destruct m as [[m00 m01 m02 m03] [m10 m11 m12 m13] [m20 m21 m22 m23] [m30 m31 m32 m33]].
  unfold Matrixf.isIdentity in Hid.
  cbn [Matrixf.entries Matrixf.identity Matrixf.build Matrixf.at_ Matrixf.row Matrixf.col
       Matrixf.r0 Matrixf.r1 Matrixf.r2 Matrixf.r3 Matrixf.c0 Matrixf.c1 Matrixf.c2 Matrixf.c3
       combine forallb fst snd Nat.eqb] in Hid.
  change (f_eqb IEEE) with SFeqb in Hid.
  change (f_zero IEEE) with (S754_zero false) in Hid.
  rewrite f_one_IEEE in Hid.
  apply andb_true_iff in Hid as [E00 Hid].
  apply andb_true_iff in Hid as [_ Hid].
  apply andb_true_iff in Hid as [_ Hid].
  apply andb_true_iff in Hid as [_ Hid].
  apply andb_true_iff in Hid as [E10 Hid].
  apply andb_true_iff in Hid as [_ Hid].
  apply andb_true_iff in Hid as [_ Hid].
  apply andb_true_iff in Hid as [_ Hid].
  apply andb_true_iff in Hid as [E20 Hid].
  apply andb_true_iff in Hid as [_ Hid].
  apply andb_true_iff in Hid as [_ Hid].
  apply andb_true_iff in Hid as [_ Hid].
  apply andb_true_iff in Hid as [E30 _].
  apply SFeqb_one in E00. apply SFeqb_zero in E10 as [s1 E10].
  apply SFeqb_zero in E20 as [s2 E20]. apply SFeqb_zero in E30 as [s3 E30].
  subst m00 m10 m20 m30.
  unfold Matrixf.isIdentity.
  cbn [Matrixf.entries Matrixf.identity Matrixf.preMult Matrixf.build Matrixf.at_
       Matrixf.row Matrixf.col
       Matrixf.r0 Matrixf.r1 Matrixf.r2 Matrixf.r3 Matrixf.c0 Matrixf.c1 Matrixf.c2 Matrixf.c3
       combine forallb fst snd Nat.eqb].
  change (f_eqb IEEE) with SFeqb. rewrite f_one_IEEE.
  rewrite (IEEE_inherited_entry q s1 s2 s3 _ _ _ _ _ _ _ _ _ _ _ _ Hq).
  reflexivity.
Qed.

Lemma created_key key parent ctx sf (this0 : TileNode IEEE) :
  _key (created key parent ctx sf this0) = key.
Proof. destruct this0. reflexivity. Qed.

Lemma IEEE_inherited_not_authoritative (q : nat) (s : Sampler IEEE) :
  (q < 4)%nat ->
  authoritative s = true ->
  authoritative (Sampler_preMult (scaleBias q) s) = false.
Proof.
  intros Hq Ha. unfold authoritative in *.
  apply andb_true_iff in Ha as [_ Hid].
  apply andb_false_iff. right. cbn [_matrix Sampler_preMult].
  apply IEEE_inherited_not_identity; assumption.
Qed.

(** X13.  New data of the parent reaches a child that inherits.  In IEEE
    arithmetic, a shared sampler that create copies from a parent's own
    data (a texture with the identity) does not pass for own data in the
    child, its matrix being the quadrant's scale and bias; so when the
    parent has changed, refreshInheritedData replaces it by the parent's
    new sampler, scaled and biased for the child's quadrant. *)
Theorem new_data_reaches_child key ctx (parent parent' this0 child child' : TileNode IEEE)
    bindings ev ev' s :
  pooledGeometryEmpty ctx key = false ->
  create key (Some parent) (Some ctx) this0 = Some (child, ev) ->
  refreshInheritedData parent' bindings child = Some (child', ev') ->
  (s < length (_sharedSamplers (_renderModel parent)))%nat ->
  authoritative (sampler_at (_sharedSamplers (_renderModel parent)) s) = true ->
  authoritative (sampler_at (_sharedSamplers (_renderModel child)) s) = false
  /\ sampler_at (_sharedSamplers (_renderModel child')) s
     = Sampler_preMult (scaleBias (TileKey.getQuadrant key))
                       (sampler_at (_sharedSamplers (_renderModel parent')) s).
Proof.
  intros Hgeom Hcreate Hrefresh Hs Hauth.
  destruct (create_with_parent key parent ctx this0 Hgeom) as (sf & ev0 & Hrun).
  rewrite Hrun in Hcreate. injection Hcreate as <- _.
  pose proof (getQuadrant_lt_4 key) as Hq.
  assert (Hchild : sampler_at (_sharedSamplers (_renderModel (created key parent ctx sf this0))) s
                   = Sampler_preMult (scaleBias (TileKey.getQuadrant key))
                       (sampler_at (_sharedSamplers (_renderModel parent)) s)).
  { rewrite created_sharedSamplers. apply sampler_at_map. exact Hs. }
  assert (Hnot : authoritative
                   (sampler_at (_sharedSamplers (_renderModel (created key parent ctx sf this0))) s)
                 = false).
  { rewrite Hchild. apply IEEE_inherited_not_authoritative; assumption. }
  split; [exact Hnot|].
  apply refreshInheritedData_shared in Hrefresh. rewrite Hrefresh.
  rewrite sampler_at_imap
    by (rewrite created_sharedSamplers, length_map; exact Hs).
  unfold reinherit. rewrite Hnot, created_key. reflexivity.
Qed.

(* ===================================================================== *)
(** ** setElevationRaster and setDirty *)
(* ===================================================================== *)

Section Elevation.
Context {NM : NumModel}.

(** X14.  setElevationRaster reads the surface before it tests that there is
    one.  On a node without a surface the call does not return, and
    neither does a merge that finds new elevation data.  On a node with a
    surface it returns; it warns exactly when the image is null, changes at
    most the surface, and leaves the surface holding the image and the
    matrix given, or as it was when the image is the one it holds and the
    matrices do not compare different. *)
Theorem setElevationRaster_needs_surface image matrix (this : TileNode NM) :
  (_surface this = None ->
     setElevationRaster image matrix this = None
     /\ forall model bindings,
          newElevationData model bindings = true -> merge model bindings this = None)
  /\ (forall surface, _surface this = Some surface ->
      exists surface',
        setElevationRaster image matrix this
        = Some (with_surface (Some surface') this,
                if bool_decide (image = None) then [OE_LOG WARN ElevationImageIsNull] else [])
        /\ (surface' = mkSurface image matrix
            \/ (surface' = surface
                /\ getElevationRaster surface = image
                /\ Matrixf.neq matrix (getElevationMatrix surface) = false))).
Proof.
  split.
  - intros Hnone.
    assert (Hset : forall image matrix (t : TileNode NM),
              _surface t = None -> setElevationRaster image matrix t = None).
    { intros i m t Ht. unfold setElevationRaster, when. rewrite Ht.
      destruct (bool_decide (i = None)); reflexivity. }
    split; [apply Hset; exact Hnone|].
    intros model bindings Hnew. unfold merge.
    destruct (merge_colorLayers model bindings this) as [[this1 e1]|] eqn:Hcolor;
      [|reflexivity].
    cbn [bind].
    assert (Hs1 : _surface this1 = None).
    { unfold merge_colorLayers in Hcolor.
      destruct (SamplerBinding.isActive (binding bindings SamplerBinding.COLOR));
        [|injection Hcolor as <- _; exact Hnone].
      revert this this1 e1 Hnone Hcolor.
      induction (colorLayers model) as [|layer l IH]; cbn [for_each];
        intros this this1 e1 Hnone Hcolor.
      - injection Hcolor as <- _. exact Hnone.
      - apply bind_Some in Hcolor as (t & e0 & e2 & H0 & H1 & _).
        refine (IH t this1 e2 _ H1).
        destruct layer as [il|[u|]|]; cbn [merge_colorLayer] in H0.
        + destruct (getTexture il) as [tex|]; [|injection H0 as <- _; exact Hnone].
          apply merge_imageLayer_model in H0. cbv zeta in H0. subst t.
          destruct this. exact Hnone.
        + destruct (passIndex u _); [injection H0 as <- _; exact Hnone|].
          unfold addPass in H0. injection H0 as <- _. destruct this. exact Hnone.
        + injection H0 as <- _. exact Hnone.
        + injection H0 as <- _. exact Hnone. }
    unfold newElevationData in Hnew. unfold merge_elevation at 1.
    destruct (SamplerBinding.isActive (binding bindings SamplerBinding.ELEVATION));
      [|discriminate].
    destruct (elevationModel model) as [[tex|]|]; try discriminate.
    rewrite Hset; [reflexivity|].
    unfold write_sharedSampler. destruct this1. exact Hs1.
  - intros surface Hsf. unfold setElevationRaster. rewrite Hsf.
    assert (Hid : with_surface (Some surface) this = this)
      by (rewrite <- Hsf; destruct this; reflexivity).
    destruct (bool_decide (image = getElevationRaster surface)) eqn:Himg.
    + apply bool_decide_eq_true in Himg.
      destruct (Matrixf.neq matrix (getElevationMatrix surface)) eqn:Hm.
      * exists (mkSurface image matrix).
        destruct (bool_decide (image = None)); cbn [bind deref ret emit when];
          rewrite ?Hm, ?orb_true_r; (split; [reflexivity|auto]).
      * exists surface. rewrite Hid.
        destruct (bool_decide (image = None)); cbn [bind deref ret emit when];
          rewrite Hm, (bool_decide_eq_true_2 _ Himg); (split; [reflexivity|auto]).
    + exists (mkSurface image matrix).
      destruct (bool_decide (image = None)); cbn [bind deref ret emit when];
        rewrite Himg; (split; [reflexivity|auto]).
Qed.

End Elevation.

Section DirtyTwice.
Context {NM : NumModel}.

(** X15.  setDirty fails in one case only: the flag is cleared while layers are
    pending on a node that has no load request.  setDirty(true) marks the
    node and changes nothing else.  After a setDirty(false) that returned,
    no layer is pending, so that a second setDirty(false) clears the flag,
    and leaves the request as the first one left it. *)
Theorem setDirty_settles (this : TileNode NM) :
  setDirty true this = Some (with_dirty true this, [])
  /\ (setDirty false this = None <-> _newLayers this <> ∅ /\ _loadRequest this = None)
  /\ (forall this1 ev,
        setDirty false this = Some (this1, ev) ->
        ev = [] /\ _newLayers this1 = ∅
        /\ setDirty false this1 = Some (with_dirty false this1, [])
        /\ _loadRequest (with_dirty false this1) = _loadRequest this1).
Proof.
  split; [|split].
  - unfold setDirty. destruct this. reflexivity.
  - unfold setDirty.
    assert (Hd : _dirty (with_dirty false this) = false) by (destruct this; reflexivity).
    assert (Hn : _newLayers (with_dirty false this) = _newLayers this)
      by (destruct this; reflexivity).
    assert (Hl : _loadRequest (with_dirty false this) = _loadRequest this)
      by (destruct this; reflexivity).
    rewrite Hd, Hn, Hl. cbn [negb andb].
    destruct (bool_decide (_newLayers this = ∅)) eqn:He; cbn [negb].
    + apply bool_decide_eq_true in He. split; [discriminate|]. intros [H _]. contradiction.
    + apply bool_decide_eq_false in He.
      destruct (_loadRequest this); cbn.
      * split; [discriminate|]. intros [_ H]. discriminate.
      * split; auto.
  - intros this1 ev H.
    assert (H1 : ev = [] /\ _newLayers this1 = ∅).
    { unfold setDirty in H.
      assert (Hn : _newLayers (with_dirty false this) = _newLayers this)
        by (destruct this; reflexivity).
      destruct (_ && _) eqn:Hc.
      - destruct (_loadRequest _); [|discriminate]. cbn in H.
        injection H as <- <-. split; [reflexivity|]. destruct this. reflexivity.
      - injection H as <- <-. split; [reflexivity|].
        apply andb_false_iff in Hc as [Hc|Hc].
        + destruct this. discriminate.
        + apply negb_false_iff, bool_decide_eq_true in Hc. exact Hc. }
    destruct H1 as [-> Hempty]. split; [reflexivity|]. split; [exact Hempty|].
    split; [|destruct this1; reflexivity].
    unfold setDirty.
    assert (Hn : _newLayers (with_dirty false this1) = ∅)
      by (destruct this1; exact Hempty).
    rewrite Hn. rewrite bool_decide_eq_true_2 by reflexivity.
    rewrite andb_false_r. reflexivity.
Qed.

End DirtyTwice.

(* ===================================================================== *)
(** ** The two terms of the load priority *)
(* ===================================================================== *)

Lemma val_fin x : is_fin x = true -> val x = Fin (SF2Q x).
Proof. destruct x as [s|s| |s m e]; try discriminate; reflexivity. Qed.

(** A float between two finite floats is finite. *)
Lemma between_fin prec emax lo x hi :
  0 < prec ->
  ok prec emax lo -> ok prec emax x -> ok prec emax hi ->
  is_fin lo = true -> is_fin hi = true ->
  SFle lo x -> SFle x hi ->
  is_fin x = true /\ (SF2Q lo <= SF2Q x)%Q /\ (SF2Q x <= SF2Q hi)%Q.
Proof.
  intros P Ol Ox Oh Fl Fh H1 H2.
  pose proof (SFle_val prec emax P _ _ Ol Ox H1) as V1.
  pose proof (SFle_val prec emax P _ _ Ox Oh H2) as V2.
  rewrite (val_fin lo Fl) in V1. rewrite (val_fin hi Fh) in V2.
  destruct Ox as [_ Nx].
  destruct x as [s|[]| |s m e]; try congruence; cbn in V1, V2; try contradiction; auto.
Qed.

Section PriorityRange.
Variable ctx : EngineContext IEEE.
Hypothesis range_ok :
  ok Binary.prec64 Binary.emax64 (_visibilityRange (visParameters (getSelectionInfo ctx) 0)).
Hypothesis range_positive :
  SFltb (S754_zero false) (_visibilityRange (visParameters (getSelectionInfo ctx) 0)) = true.
Hypothesis range_finite :
  is_fin (_visibilityRange (visParameters (getSelectionInfo ctx) 0)) = true.

(** The distance term of a tile within the visibility range lies between
    0 and 1. *)
Lemma distPriority_range d :
  ok Binary.prec32 Binary.emax32 d ->
  SFle (S754_zero false) d ->
  SFle (d_of_float IEEE d) (_visibilityRange (visParameters (getSelectionInfo ctx) 0)) ->
  ok Binary.prec32 Binary.emax32 (distPriority ctx d)
  /\ is_fin (distPriority ctx d) = true
  /\ (0 <= SF2Q (distPriority ctx d))%Q /\ (SF2Q (distPriority ctx d) <= 1)%Q.
Proof.
  intros Od H0 Hr. unfold distPriority.
  destruct (positive_finite _ range_positive range_finite) as (mr & er & Er).
  rewrite Er in *.
  cbn [f_of_double d_sub d_one d_div d_of_float IEEE] in *.
  destruct d_one_value as (Oone & Fone & Vone).
  cbn [d_one IEEE] in Oone, Fone, Vone.
  set (one := Binary.of_Z Binary.prec64 Binary.emax64 1) in *.
  set (r := S754_finite false mr er) in *.
  set (X := Binary.convert Binary.prec64 Binary.emax64 d) in *.
  pose proof (F2Q_pos (Z.pos mr) er ltac:(lia)) as Hv.
  assert (Hc : (0 <= / F2Q (Z.pos mr) er)%Q)
    by (apply Qlt_le_weak, Qinv_lt_0_compat, Hv).
  assert (Oz32 : ok Binary.prec32 Binary.emax32 (S754_zero false))
    by (split; [reflexivity|discriminate]).
  (* the widening *)
  destruct (monotone_by_value Binary.prec32 Binary.emax32 Binary.prec64 Binary.emax64
              (Binary.convert Binary.prec64 Binary.emax64) (fun v => v)
              prec32_pos prec64_pos
              (fun x O => convert_rounds Binary.prec64 Binary.emax64 x (proj2 O))
              (fun u v L => L) _ _ Oz32 Od H0) as (H1 & Oz & OX).
  fold X in H1, OX. cbn [Binary.convert] in H1, Oz.
  (* the division *)
  set (div := fun x => SFdiv Binary.prec64 Binary.emax64 x r).
  assert (Mdiv : forall x y, ok Binary.prec64 Binary.emax64 x ->
                             ok Binary.prec64 Binary.emax64 y -> SFle x y ->
                             SFle (div x) (div y)
                             /\ ok Binary.prec64 Binary.emax64 (div x)
                             /\ ok Binary.prec64 Binary.emax64 (div y)).
  { exact (monotone_by_value Binary.prec64 Binary.emax64 Binary.prec64 Binary.emax64
             div (ext_scale (/ F2Q (Z.pos mr) er)) prec64_pos prec64_pos
             (fun x O => SFdiv_rounds Binary.prec64 Binary.emax64 x mr er (proj2 O))
             (fun u v => ext_scale_mono _ u v Hc)). }
  destruct (Mdiv _ _ Oz OX H1) as (H2 & Oq0 & Oq).
  destruct (Mdiv _ _ OX range_ok Hr) as (H2' & _ & Oq1).
  change (div (S754_zero false)) with (S754_zero false) in H2, Oq0.
  (* r / r is 1 *)
  assert (Vq1 : is_fin (div r) = true /\ (SF2Q (div r) == 1)%Q).
  { pose proof (SFdiv_rounds Binary.prec64 Binary.emax64 r mr er ltac:(discriminate)) as R.
    cbn [val r ext_scale rounds_ext SF2Q cond_Zopp] in R.
    apply (rounds_integer Binary.prec64 Binary.emax64 prec64_pos
             ltac:(unfold Binary.prec64, Binary.emax64; lia)
             ltac:(unfold Binary.emax64; lia) 1 _ ltac:(reflexivity)).
    eapply rounds_eq; [|exact R]. change (inject_Z 1) with 1%Q. field. lra. }
  destruct Vq1 as [Fq1 Vq1].
  (* the subtraction *)
  set (sub := SFsub Binary.prec64 Binary.emax64 one).
  assert (Rsub : forall y, ok Binary.prec64 Binary.emax64 y ->
                           rounds_ext Binary.prec64 Binary.emax64
                             (ext_sub_from (SF2Q one) (val y)) (sub y))
    by (intros y O; exact (SFsub_rounds Binary.prec64 Binary.emax64 one y Oone Fone O)).
  pose proof (antitone_by_value Binary.prec64 Binary.emax64 Binary.prec64 Binary.emax64
                sub (ext_sub_from (SF2Q one)) prec64_pos prec64_pos Rsub
                (ext_sub_from_anti _)) as Msub.
  destruct (Msub _ _ Oq0 Oq H2) as (H3 & Os0 & Os).
  destruct (Msub _ _ Oq Oq1 H2') as (H3' & _ & Os1).
  assert (Es0 : sub (S754_zero false) = one) by reflexivity.
  rewrite Es0 in H3, Os0.
  assert (Es1 : exists s, sub (div r) = S754_zero s).
  { pose proof (Rsub _ Oq1) as R. rewrite (val_fin _ Fq1) in R.
    cbn [ext_sub_from rounds_ext] in R.
    destruct (rounds_shape Binary.prec64 Binary.emax64 prec64_pos _ _ R) as (_ & Z0 & _).
    apply Z0. lra. }
  destruct Es1 as [s Es1]. rewrite Es1 in H3', Os1.
  (* the narrowing *)
  pose proof (monotone_by_value Binary.prec64 Binary.emax64 Binary.prec32 Binary.emax32
                (Binary.convert Binary.prec32 Binary.emax32) (fun v => v)
                prec64_pos prec32_pos
                (fun x O => convert_rounds Binary.prec32 Binary.emax32 x (proj2 O))
                (fun u v L => L)) as Mconv.
  destruct (Mconv _ _ Os1 Os H3') as (H4 & Oc1 & Oc).
  destruct (Mconv _ _ Os Os0 H3) as (H4' & _ & Oc0).
  cbn [Binary.convert] in H4, Oc1.
  assert (Eone : Binary.convert Binary.prec32 Binary.emax32 one
                 = S754_finite false 8388608 (-23)) by reflexivity.
  rewrite Eone in H4', Oc0.
  destruct (between_fin Binary.prec32 Binary.emax32 _ _ _ prec32_pos Oc1 Oc Oc0
              eq_refl eq_refl H4 H4') as (F & L & U).
  split; [exact Oc|]. split; [exact F|].
  cbn [SF2Q] in L. split; [exact L|].
  assert (E1 : (SF2Q (S754_finite false 8388608 (-23)) == 1)%Q) by reflexivity.
  rewrite E1 in U. exact U.
Qed.

End PriorityRange.

(** The LOD term of a LOD within the number of LODs is exact. *)
Lemma lodPriority_exact (ctx : EngineContext IEEE) (this : TileNode IEEE) :
  let numLods := getNumLODs (getSelectionInfo ctx) in
  let lod := TileKey.getLOD (getKey this) in
  numLods < 2 ^ 24 -> 0 <= lod <= numLods ->
  ok Binary.prec32 Binary.emax32 (lodPriority ctx this)
  /\ is_fin (lodPriority ctx this) = true
  /\ (SF2Q (lodPriority ctx this)
      == inject_Z (if highResolutionFirst (getOptions ctx) then lod else numLods - lod))%Q.
Proof.
  intros numLods lod Hn Hl. unfold lodPriority. fold numLods lod.
  change (2 ^ 24) with 16777216 in Hn.
  destruct (highResolutionFirst (getOptions ctx)); cbn [f_of_int IEEE];
    apply (of_Z_exact Binary.prec32 Binary.emax32 prec32_pos
             ltac:(unfold Binary.prec32, Binary.emax32; lia)
             ltac:(unfold Binary.emax32; lia));
    change (2 ^ Binary.prec32) with 16777216; lia.
Qed.

(** X16.  The two terms of the priority in IEEE arithmetic, for a
    positive finite visibility range, fewer than 2^24 LODs, LODs that are
    not beyond the number of LODs and distances within the visibility
    range: the priority of a tile lies between 0 and numLods + 1, and the
    LOD decides before the distance does: of two tiles the one that the
    LOD term prefers (the deeper one when high-resolution-first is set,
    the shallower one otherwise) never has the smaller priority, however
    far it is. *)
Theorem lod_priority_dominates (ctx : EngineContext IEEE) culler (a b : TileNode IEEE) :
  let range := _visibilityRange (visParameters (getSelectionInfo ctx) 0) in
  let numLods := getNumLODs (getSelectionInfo ctx) in
  let within d :=
    ok Binary.prec32 Binary.emax32 d
    /\ SFleb (S754_zero false) d = true
    /\ SFleb (d_of_float IEEE d) range = true in
  ok Binary.prec64 Binary.emax64 range ->
  SFltb (S754_zero false) range = true ->
  is_fin range = true ->
  numLods < 2 ^ 24 ->
  0 <= TileKey.getLOD (getKey a) <= numLods ->
  0 <= TileKey.getLOD (getKey b) <= numLods ->
  within (getDistanceToViewPoint culler a) ->
  within (getDistanceToViewPoint culler b) ->
  (SFleb (S754_zero false) (load_priority ctx culler a) = true
   /\ SFleb (load_priority ctx culler a) (f_of_int IEEE (numLods + 1)) = true)
  /\ ((if highResolutionFirst (getOptions ctx)
       then TileKey.getLOD (getKey b) < TileKey.getLOD (getKey a)
       else TileKey.getLOD (getKey a) < TileKey.getLOD (getKey b)) ->
      SFleb (load_priority ctx culler b) (load_priority ctx culler a) = true).
Proof.
  intros range numLods within Or Hr Fr Hn Hla Hlb (Oa & A0 & A1) (Ob & B0 & B1).
  destruct (distPriority_range ctx Or Hr Fr _ Oa A0 A1) as (Opa & Fpa & Pa0 & Pa1).
  destruct (distPriority_range ctx Or Hr Fr _ Ob B0 B1) as (Opb & Fpb & Pb0 & Pb1).
  destruct (lodPriority_exact ctx a Hn Hla) as (Ola & Fla & Vla).
  destruct (lodPriority_exact ctx b Hn Hlb) as (Olb & Flb & Vlb).
  fold numLods in Vla, Vlb.
  rewrite !load_priority_eq.
  pose proof (SFadd_rounds Binary.prec32 Binary.emax32 _ _ Ola Fla Opa) as Ra.
  pose proof (SFadd_rounds Binary.prec32 Binary.emax32 _ _ Olb Flb Opb) as Rb.
  rewrite (val_fin _ Fpa) in Ra. rewrite (val_fin _ Fpb) in Rb.
  cbn [ext_add_to rounds_ext] in Ra, Rb.
  cbn [f_add f_of_int IEEE].
  set (pa := distPriority ctx (getDistanceToViewPoint culler a)) in *.
  set (pb := distPriority ctx (getDistanceToViewPoint culler b)) in *.
  set (la := TileKey.getLOD (getKey a)) in *.
  set (lb := TileKey.getLOD (getKey b)) in *.
  assert (Qa0 : (0 <= inject_Z la)%Q) by (rewrite <- (Zle_Qle 0); lia).
  assert (Qa1 : (inject_Z la <= inject_Z numLods)%Q) by (rewrite <- Zle_Qle; lia).
  assert (Qsub : forall l, (inject_Z (numLods - l) == inject_Z numLods - inject_Z l)%Q).
  { intros l. unfold Z.sub. rewrite inject_Z_plus, inject_Z_opp. ring. }
  assert (Qlt : forall x y, x < y -> (inject_Z x + 1 <= inject_Z y)%Q).
  { intros x y H. change 1%Q with (inject_Z 1).
    rewrite <- inject_Z_plus, <- Zle_Qle. lia. }
  split; [split|].
  - assert (R0 : rounds Binary.prec32 Binary.emax32 0 (S754_zero false))
      by (left; split; [reflexivity|eauto]).
    apply (rounds_mono Binary.prec32 Binary.emax32 prec32_pos _ _ _ _ R0 Ra).
    rewrite Vla. destruct (highResolutionFirst (getOptions ctx)); [|rewrite Qsub]; lra.
  - apply (rounds_mono Binary.prec32 Binary.emax32 prec32_pos _ _ _ _ Ra
             (of_Z_rounds Binary.prec32 Binary.emax32 (numLods + 1))).
    rewrite Vla, inject_Z_plus. change (inject_Z 1) with 1%Q.
    destruct (highResolutionFirst (getOptions ctx)); [|rewrite Qsub]; lra.
  - intros Hlod.
    apply (rounds_mono Binary.prec32 Binary.emax32 prec32_pos _ _ _ _ Rb Ra).
    rewrite Vla, Vlb.
    destruct (highResolutionFirst (getOptions ctx)).
    + pose proof (Qlt _ _ Hlod). lra.
    + rewrite !Qsub. pose proof (Qlt _ _ Hlod). lra.
Qed.

(* ===================================================================== *)
(** ** The calls of create *)
(* ===================================================================== *)

Section CreateEvents.
Context {NM : NumModel}.

(** X17.  create returns whenever it is given a context.  Without a context it
    does nothing.  With a context and a geometry that is not empty it
    leaves the node dirty, with its key, its context, a surface and a load
    request for its key and every layer, and it announces the tile once:
    dirtyBound, the registration in the live tiles, the debug line and the
    terrain's tile-added callback are the last four calls, in this order;
    before them there is at most the warning of a null elevation image,
    and nothing when there is no parent, in which case the render model is
    as it was. *)
Theorem create_announces_once key parent ctx (this0 : TileNode NM) :
  create key parent None this0 = Some (this0, [])
  /\ (pooledGeometryEmpty ctx key = false ->
      exists this evElev,
        create key parent (Some ctx) this0
        = Some (this, evElev ++ [DirtyBound key; LiveTiles_add key;
                                 OE_LOG DEBUG (NotifyCreate key);
                                 Terrain_notifyTileAdded key])
        /\ (evElev = [] \/ evElev = [OE_LOG WARN ElevationImageIsNull])
        /\ (parent = None -> evElev = [] /\ _renderModel this = _renderModel this0)
        /\ _key this = key /\ _context this = Some ctx /\ _dirty this = true
        /\ _loadRequest this = Some (mkLoadTileData key ∅)
        /\ _surface this <> None
        /\ _empty this = _empty this0
        /\ _stitchNormalMap this = normalizeEdges (getOptions ctx)).
Proof.
  split; [reflexivity|].
  intros Hgeom. unfold create.
  destruct this0 as [ctx0 key0 dirty ready met mef ltt ltf laf snm em sf0 lr nl rm ch].
  cbn [with_context with_key _key]. rewrite Hgeom.
  cbn [with_surface with_loadRequest with_stitchNormalMap with_renderModel
       _renderModel getKey _key].
  destruct parent as [parent|].
  - match goal with
    | |- context [bind ?m _] =>
        assert (Hm : exists sf evElev,
          m = Some (with_surface (Some sf)
                (mkTileNode (Some ctx) key dirty ready met mef ltt ltf laf
                   (normalizeEdges (getOptions ctx)) em
                   (Some (mkSurface None Matrixf.identity))
                   (Some (mkLoadTileData key ∅)) nl
                   (mkRenderModel
                      (map (Sampler_preMult (scaleBias (TileKey.getQuadrant key)))
                           (_sharedSamplers (_renderModel parent)))
                      (_passes rm
                         ++ map (inheritPass (getRenderBindings ctx) (TileKey.getQuadrant key))
                                (_passes (_renderModel parent)))) ch), evElev)
          /\ (evElev = [] \/ evElev = [OE_LOG WARN ElevationImageIsNull]))
    end.
    { destruct (SamplerBinding.isActive _).
      - destruct (_texture _) as [tex|].
        + match goal with
          | |- context [setElevationRaster ?i ?mx ?t] =>
              destruct (setElevationRaster_total i mx t) as (sf & ev & Hrun);
                [simpl; congruence|];
              pose proof (setElevationRaster_log _ _ _ _ _ Hrun) as Hlog
          end.
          exists sf, ev. split; [exact Hrun|].
          rewrite Hlog. destruct (bool_decide _); auto.
        + eexists _, []. split; [reflexivity|auto].
      - eexists _, []. split; [reflexivity|auto]. }
    destruct Hm as (sf & evElev & -> & Hev).
    eexists _, evElev. split; [reflexivity|].
    split; [exact Hev|]. split; [discriminate|].
    cbn. repeat split; congruence.
  - eexists _, []. split; [reflexivity|].
    split; [auto|]. split; [auto|].
    cbn. repeat split; congruence.
Qed.

End CreateEvents.

(* ===================================================================== *)
(** ** refreshSharedSamplers and loadChildren *)
(* ===================================================================== *)

Section SharedSamplers.
Context {NM : NumModel}.

Lemma fold_clearInactive bindings rest :
  forall (done : Samplers NM),
    fold_left (clearInactive bindings) (seq (length done) (length rest)) (done ++ rest)
    = done ++ imap (fun j => clearedSampler bindings (length done + j)) rest.
Proof.
  induction rest as [|x rest IH]; intros done; [reflexivity|].
  cbn [length seq fold_left imap].
  assert (Hstep : clearInactive bindings (done ++ x :: rest) (length done)
                  = (done ++ [clearedSampler bindings (length done) x]) ++ rest).
  { unfold clearInactive, clearedSampler.
    assert (Hat : sampler_at (done ++ x :: rest) (length done) = x).
    { rewrite sampler_at_lookup, lookup_app_r by lia.
      rewrite Nat.sub_diag. reflexivity. }
    rewrite Hat.
    destruct (SamplerBinding.isActive _); cbn [negb].
    - rewrite <- app_assoc. reflexivity.
    - rewrite insert_app_r_alt by lia. rewrite Nat.sub_diag, <- app_assoc. reflexivity. }
  rewrite Hstep.
  specialize (IH (done ++ [clearedSampler bindings (length done) x])).
  rewrite length_app in IH. cbn [length] in IH. rewrite Nat.add_1_r in IH.
  rewrite IH, <- app_assoc. cbn [app]. rewrite Nat.add_0_r.
  do 2 f_equal. apply imap_ext. intros j y _. cbn. f_equal. lia.
Qed.

Lemma refreshSharedSamplers_shared bindings (this : TileNode NM) :
  _sharedSamplers (_renderModel (refreshSharedSamplers bindings this))
  = imap (clearedSampler bindings) (_sharedSamplers (_renderModel this)).
Proof.
  unfold refreshSharedSamplers. rewrite renderModel_with_renderModel.
  cbn [_sharedSamplers with_sharedSamplers].
  apply (fold_clearInactive bindings (_sharedSamplers (_renderModel this)) []).
Qed.

(** X18.  refreshSharedSamplers takes the texture away from every shared
    sampler whose binding is not active, and touches nothing else: the
    other shared samplers, every matrix, the passes and the rest of the
    node are as they were.  A sampler so cleared no longer passes for the
    tile's own data, and the next refreshInheritedData replaces it by the
    parent's sampler, scaled and biased for the quadrant. *)
Theorem refreshSharedSamplers_clears bindings (this : TileNode NM) :
  let this1 := refreshSharedSamplers bindings this in
  let mine := _sharedSamplers (_renderModel this) in
  same_but_data this this1
  /\ _surface this1 = _surface this
  /\ _passes (_renderModel this1) = _passes (_renderModel this)
  /\ length (_sharedSamplers (_renderModel this1)) = length mine
  /\ (forall s, (s < length mine)%nat ->
        sampler_at (_sharedSamplers (_renderModel this1)) s
        = if SamplerBinding.isActive (binding bindings s) then sampler_at mine s
          else mkSampler None (_matrix (sampler_at mine s)))
  /\ (forall parent bindings' this2 ev s,
        refreshInheritedData parent bindings' this1 = Some (this2, ev) ->
        (s < length mine)%nat ->
        SamplerBinding.isActive (binding bindings s) = false ->
        sampler_at (_sharedSamplers (_renderModel this2)) s
        = Sampler_preMult (scaleBias (TileKey.getQuadrant (_key this)))
            (sampler_at (_sharedSamplers (_renderModel parent)) s)).
Proof.
  intros this1 mine.
  assert (Hsh : _sharedSamplers (_renderModel this1) = imap (clearedSampler bindings) mine)
    by apply refreshSharedSamplers_shared.
  assert (Hat : forall s, (s < length mine)%nat ->
            sampler_at (_sharedSamplers (_renderModel this1)) s
            = clearedSampler bindings s (sampler_at mine s)).
  { intros s Hs. rewrite Hsh. apply sampler_at_imap. exact Hs. }
  split; [|split; [|split; [|split; [|split]]]].
  - unfold this1, refreshSharedSamplers. eexists _, (_surface this).
    destruct this. reflexivity.
  - unfold this1, refreshSharedSamplers. destruct this. reflexivity.
  - unfold this1, refreshSharedSamplers. rewrite renderModel_with_renderModel. reflexivity.
  - rewrite Hsh. apply length_imap.
  - exact Hat.
  - intros parent bindings' this2 ev s Hrun Hs Hoff.
    apply refreshInheritedData_shared in Hrun. rewrite Hrun.
    rewrite sampler_at_imap by (rewrite Hsh, length_imap; exact Hs).
    rewrite (Hat s Hs). unfold clearedSampler, reinherit, authoritative. rewrite Hoff.
    unfold textureValid. cbn [_texture].
    rewrite bool_decide_eq_false_2 by (intros H; apply H; reflexivity).
    cbn [andb]. f_equal. f_equal. unfold this1, refreshSharedSamplers.
    destruct this. reflexivity.
Qed.

End SharedSamplers.

Section LoadChildren.
Context {NM : NumModel}.
Variable loadSync : TileNode NM -> Op NM (TileNode NM).
Hypothesis loadSync_ok : forall c c' e,
  loadSync c = Some (c', e) -> quadtree_ok c = true -> quadtree_ok c' = true.

Lemma acceptChildren_ok accept (l l' : list (TileNode NM)) ev :
  (forall c c' e, accept c = Some (c', e) -> quadtree_ok c = true -> quadtree_ok c' = true) ->
  acceptChildren accept l = Some (l', ev) ->
  forallb quadtree_ok l = true ->
  forallb quadtree_ok l' = true /\ length l' = length l.
Proof.
  intros Hacc H. apply acceptChildren_inv in H.
  induction H as [|c c' l l' (e & Hc) _ IH]; [auto|].
  cbn [forallb length]. intros Hall. apply andb_true_iff in Hall as [H1 H2].
  destruct (IH H2) as [IH1 IH2]. rewrite IH1, IH2, (Hacc _ _ _ Hc H1). auto.
Qed.

Lemma acceptChildren_loads (l l' : list (TileNode NM)) ev :
  acceptChildren loadSync l = Some (l', ev) ->
  exists loads,
    Forall2 (fun child load => loadSync child = Some load) l loads
    /\ l' = map fst loads /\ ev = concat (map snd loads).
Proof.
  revert l' ev. induction l as [|c l IH]; cbn [acceptChildren]; intros l' ev H.
  - injection H as <- <-. exists []. split; [constructor|auto].
  - apply bind_Some in H as (c' & e0 & e0r & H0 & H & ->).
    apply bind_Some in H as (r' & e1 & e1r & H1 & H & ->).
    injection H as <- <-.
    destruct (IH _ _ H1) as (loads & Hall & -> & ->).
    exists ((c', e0) :: loads). split; [constructor; assumption|].
    cbn [map fst snd concat]. rewrite app_nil_r. auto.
Qed.

(** X19.  loadChildren is the other caller of createChildren, with the same
    guard as cull: when the children are ready it does nothing; otherwise
    it needs the context of the node, makes the four children, marks them
    ready and calls loadSync on each of them in turn: the node it leaves
    is the node createChildren made, marked ready, with each child
    replaced by what loadSync made of it, and its calls are those of
    createChildren followed by those of the loads, child by child.  On a
    node that keeps the quadtree invariant it leaves a node that keeps it,
    with four children that are ready, provided the load of a child keeps
    the invariant of the child. *)
Theorem loadChildren_keeps_quadtree (this : TileNode NM) :
  (_childrenReady this = true -> loadChildren loadSync this = Some (this, []))
  /\ (_childrenReady this = false -> _context this = None ->
      loadChildren loadSync this = None)
  /\ (forall this' ev,
        _childrenReady this = false ->
        loadChildren loadSync this = Some (this', ev) ->
        exists ctx this1 ev1 loads,
          _context this = Some ctx
          /\ createChildren ctx this = Some (this1, ev1)
          /\ Forall2 (fun child load => loadSync child = Some load)
                     (_children this1) loads
          /\ this' = with_children (map fst loads) (with_childrenReady true this1)
          /\ ev = ev1 ++ concat (map snd loads))
  /\ (forall this' ev,
        loadChildren loadSync this = Some (this', ev) ->
        quadtree_ok this = true ->
        quadtree_ok this' = true /\ _childrenReady this' = true
        /\ length (_children this') = 4%nat).
Proof.
  split; [|split; [|split]].
  - intros Hr. unfold loadChildren. rewrite Hr. reflexivity.
  - intros Hr Hc. unfold loadChildren. rewrite Hr, Hc. reflexivity.
  - intros this' ev Hr H. unfold loadChildren in H. rewrite Hr in H. cbn [negb] in H.
    destruct (_context this) as [ctx|] eqn:Hctx; [|discriminate H].
    cbn [deref] in H. rewrite bind_ret_l in H.
    apply bind_Some in H as (this1 & ev1 & e3 & Hcreate & H & ->).
    exists ctx, this1, ev1.
    assert (Hkids : (0 <? getNumChildren (with_childrenReady true this1))%nat = true).
    { destruct (createChildren_shape ctx this) as (c0 & c1 & c2 & c3 & ev' & Hrun & _).
      rewrite Hrun in Hcreate. injection Hcreate as <- _.
      unfold getNumChildren. destruct this as [? ? ? ? ? ? ? ? ? ? ? ? ? ? ? kids].
      cbn [with_children with_childrenReady _children].
      rewrite length_app. cbn [length]. apply Nat.ltb_lt. lia. }
    rewrite Hkids in H.
    apply bind_Some in H as (children & e4 & e5 & Hload & H & ->).
    injection H as <- <-.
    assert (Hsame : _children (with_childrenReady true this1) = _children this1)
      by (destruct this1; reflexivity).
    rewrite Hsame in Hload.
    destruct (acceptChildren_loads _ _ _ Hload) as (loads & Hall & -> & ->).
    exists loads. rewrite app_nil_r. auto.
  - intros this' ev H Hok. unfold loadChildren in H.
    destruct (quadtree_ok_children this Hok) as [Hn Hkids].
    destruct (_childrenReady this) eqn:Hr; cbn [negb] in H.
    { injection H as <- _. rewrite Hr. auto. }
    apply bind_Some in H as (ctx & e0 & e1 & _ & H & _).
    apply bind_Some in H as (this1 & e2 & e3 & Hcreate & H & _).
    destruct (createChildren_shape ctx this) as (c0 & c1 & c2 & c3 & ev' & Hrun & Hshape).
    rewrite Hrun in Hcreate. injection Hcreate as <- _. rewrite Hn in H.
    set (t1 := with_childrenReady true (with_children ([] ++ [c0; c1; c2; c3]) this)) in H.
    assert (Hch : _children t1 = [c0; c1; c2; c3]) by (unfold t1; destruct this; reflexivity).
    assert (Hr1 : _childrenReady t1 = true) by (unfold t1; destruct this; reflexivity).
    clearbody t1.
    unfold getNumChildren in H. rewrite Hch in H. cbn [length Nat.ltb Nat.leb] in H.
    apply bind_Some in H as (children & e4 & e5 & Hload & H & _).
    injection H as <- _.
    assert (Hleaves : forallb quadtree_ok [c0; c1; c2; c3] = true).
    { inversion Hshape as [|? ? ? ? (_ & K0 & R0) Hs1]; subst.
      inversion Hs1 as [|? ? ? ? (_ & K1 & R1) Hs2]; subst.
      inversion Hs2 as [|? ? ? ? (_ & K2 & R2) Hs3]; subst.
      inversion Hs3 as [|? ? ? ? (_ & K3 & R3) _]; subst.
      cbn [forallb]. rewrite !leaf_ok by assumption. reflexivity. }
    destruct (acceptChildren_ok _ _ _ _ loadSync_ok Hload Hleaves) as [Hall Hlen].
    assert (Hc' : _children (with_children children t1) = children)
      by (destruct t1; reflexivity).
    assert (Hr' : _childrenReady (with_children children t1) = true)
      by (destruct t1; exact Hr1).
    split; [|split; [exact Hr'|rewrite Hc'; exact Hlen]].
    rewrite quadtree_ok_eq. unfold childCount_ok. rewrite Hr', Hc', Hlen, Hall. reflexivity.
Qed.

End LoadChildren.

(* ===================================================================== *)
(** ** The cull traversal returns *)
(* ===================================================================== *)

Section Total.
Context {NM : NumModel}.

Lemma wellFormed_eq (this : TileNode NM) :
  wellFormed this =
  node_ok this && childCount_ok this
  && forallb (fun c => bool_decide (TileKey.getLOD (_key c)
                                    = TileKey.getLOD (_key this) + 1))
             (_children this)
  && forallb wellFormed (_children this).
Proof. destruct this. reflexivity. Qed.

(** The members that well-formedness reads. *)
Lemma wellFormed_same (a b : TileNode NM) :
  _key b = _key a -> _empty b = _empty a -> _surface b = _surface a ->
  _context b = _context a -> _childrenReady b = _childrenReady a ->
  _children b = _children a ->
  wellFormed b = wellFormed a.
Proof.
  intros Hk He Hs Hc Hr Hch. rewrite (wellFormed_eq a), (wellFormed_eq b).
  unfold node_ok, childCount_ok. rewrite Hk, He, Hs, Hc, Hr, Hch. reflexivity.
Qed.

Lemma wellFormed_inv (this : TileNode NM) :
  wellFormed this = true ->
  (_empty this = false -> _surface this <> None /\ _context this <> None)
  /\ (if _childrenReady this then length (_children this) = 4%nat
      else _children this = [])
  /\ Forall (fun c => TileKey.getLOD (_key c) = TileKey.getLOD (_key this) + 1
                      /\ wellFormed c = true) (_children this).
Proof.
  rewrite wellFormed_eq. intros H.
  apply andb_true_iff in H as [H Hwf]. apply andb_true_iff in H as [H Hlod].
  apply andb_true_iff in H as [Hnode Hcount].
  split; [|split].
  - intros He. unfold node_ok in Hnode. rewrite He in Hnode. cbn [orb] in Hnode.
    apply andb_true_iff in Hnode as [H1 H2].
    apply bool_decide_eq_true in H1, H2. auto.
  - unfold childCount_ok in Hcount.
    destruct (_childrenReady this); apply Nat.eqb_eq in Hcount; [exact Hcount|].
    destruct (_children this); [reflexivity|discriminate].
  - apply List.Forall_forall. intros c Hin.
    rewrite forallb_forall in Hlod, Hwf.
    specialize (Hlod c Hin). apply bool_decide_eq_true in Hlod. auto.
Qed.

Lemma wellFormed_four (this : TileNode NM) c0 c1 c2 c3 :
  node_ok this = true ->
  Forall (fun c => TileKey.getLOD (_key c) = TileKey.getLOD (_key this) + 1
                   /\ wellFormed c = true) [c0; c1; c2; c3] ->
  forall t, _key t = _key this -> _empty t = _empty this -> _surface t = _surface this ->
       _context t = _context this -> _childrenReady t = true ->
       _children t = [c0; c1; c2; c3] ->
       wellFormed t = true.
Proof.
  intros Hnode Hkids t Hk He Hs Hc Hr Hch.
  rewrite wellFormed_eq. unfold node_ok, childCount_ok in *.
  rewrite Hk, He, Hs, Hc, Hr, Hch, Hnode. cbn [andb length Nat.eqb].
  inversion Hkids as [|? ? [L0 W0] Hk1]; subst.
  inversion Hk1 as [|? ? [L1 W1] Hk2]; subst.
  inversion Hk2 as [|? ? [L2 W2] Hk3]; subst.
  inversion Hk3 as [|? ? [L3 W3] _]; subst.
  cbn [forallb]. rewrite W0, W1, W2, W3.
  rewrite !bool_decide_eq_true_2 by assumption. reflexivity.
Qed.

Lemma create_node_ok key parent ctx (this0 this : TileNode NM) ev :
  create key parent (Some ctx) this0 = Some (this, ev) ->
  node_ok this = true /\ _key this = key.
Proof.
  destruct (pooledGeometryEmpty ctx key) eqn:Hgeom.
  - rewrite create_empty by exact Hgeom. intros H. injection H as <- _.
    destruct this0. auto.
  - intros H.
    assert (Hs : _surface this <> None /\ _context this = Some ctx /\ _key this = key).
    { destruct parent as [parent|].
      - destruct (create_with_parent key parent ctx this0 Hgeom) as (sf & ev' & Hrun).
        rewrite Hrun in H. injection H as <- _. destruct this0. cbn. auto.
      - unfold create in H.
        destruct this0 as [ctx0 key0 dirty ready met mef ltt ltf laf snm em sf0 lr nl rm ch].
        cbn [with_context with_key _key] in H.
        rewrite Hgeom in H. injection H as <- _. cbn. auto. }
    destruct Hs as (Hsf & Hc & Hk). split; [|exact Hk].
    unfold node_ok. rewrite Hc.
    rewrite !bool_decide_eq_true_2 by congruence. apply orb_true_r.
Qed.
Lemma createChild_ok ctx quadrant (this : TileNode NM) :
  exists c ev,
    createChild ctx quadrant this = Some (addChild c this, ev)
    /\ TileKey.getLOD (_key c) = TileKey.getLOD (_key this) + 1
    /\ wellFormed c = true.
Proof.
  unfold createChild.
  match goal with
  | |- context [create ?k ?p ?c ?n] =>
      destruct (create_shape k this ctx n) as (c0 & ev & Hrun & Hkey & Hch & Hready)
  end.
  pose proof (create_node_ok _ _ _ _ _ _ Hrun) as [Hnode _].
  rewrite Hrun. exists c0, (ev ++ []). split; [reflexivity|].
  split; [rewrite Hkey; apply getLOD_createChildKey|].
  assert (Hleaf : _children c0 = [] /\ _childrenReady c0 = false).
  { rewrite Hch, Hready.
    destruct (minExpiryFrames (getOptions ctx)), (minExpiryTime (getOptions ctx)); auto. }
  destruct Hleaf as [Hc Hr].
  rewrite wellFormed_eq. unfold childCount_ok. rewrite Hnode, Hc, Hr. reflexivity.
Qed.

Lemma createChildren_ok ctx (this : TileNode NM) :
  exists c0 c1 c2 c3 ev,
    createChildren ctx this =
      Some (with_children (_children this ++ [c0; c1; c2; c3]) this, ev)
    /\ Forall (fun c => TileKey.getLOD (_key c) = TileKey.getLOD (_key this) + 1
                        /\ wellFormed c = true) [c0; c1; c2; c3].
Proof.
  unfold createChildren, for_each.
  destruct (createChild_ok ctx 0 this) as (c0 & e0 & H0 & K0 & W0).
  destruct (createChild_ok ctx 1 (addChild c0 this)) as (c1 & e1 & H1 & K1 & W1).
  destruct (createChild_ok ctx 2 (addChild c1 (addChild c0 this)))
    as (c2 & e2 & H2 & K2 & W2).
  destruct (createChild_ok ctx 3 (addChild c2 (addChild c1 (addChild c0 this))))
    as (c3 & e3 & H3 & K3 & W3).
  rewrite !addChild_key in *.
  exists c0, c1, c2, c3. eexists. split.
  - unfold bind at 1. simpl emit. cbv iota beta.
    rewrite H0. unfold bind at 1. rewrite H1. unfold bind at 1. rewrite H2.
    unfold bind at 1. rewrite H3. unfold bind, ret.
    replace (addChild c3 (addChild c2 (addChild c1 (addChild c0 this))))
      with (with_children (_children this ++ [c0; c1; c2; c3]) this).
    + reflexivity.
    + destruct this. unfold addChild. simpl. rewrite <- !app_assoc. reflexivity.
  - repeat constructor; assumption.
Qed.

Lemma acceptSubTiles_total accept (this : TileNode NM) c0 c1 c2 c3 :
  _children this = [c0; c1; c2; c3] ->
  returns_ok accept c0 -> returns_ok accept c1 ->
  returns_ok accept c2 -> returns_ok accept c3 ->
  exists c0' c1' c2' c3' ev,
    acceptSubTiles accept this = Some (with_children [c0'; c1'; c2'; c3'] this, ev)
    /\ Forall2 (fun c c' => wellFormed c' = true /\ _key c' = _key c)
               [c0; c1; c2; c3] [c0'; c1'; c2'; c3'].
Proof.
  intros Hc (c0' & e0 & H0 & W0 & K0) (c1' & e1 & H1 & W1 & K1)
         (c2' & e2 & H2 & W2 & K2) (c3' & e3 & H3 & W3 & K3).
  exists c0', c1', c2', c3'. eexists. split.
  - unfold acceptSubTiles. rewrite Hc, H0, H1, H2, H3. reflexivity.
  - repeat constructor; assumption.
Qed.

Lemma when_load_total (b : bool) culler (this : TileNode NM) :
  _context this <> None -> exists ev, when b (load culler this) = Some (tt, ev).
Proof.
  intros Hc. destruct b; [|exists []; reflexivity].
  unfold when, load. destruct (_context this) as [ctx|]; [|contradiction].
  eexists. reflexivity.
Qed.

Lemma shouldSubDivide_distance_total culler si (this : TileNode NM) :
  rangeMode (getOptions (getEngineContext culler)) = DISTANCE_FROM_EYE_POINT ->
  _surface this <> None ->
  exists inRange, shouldSubDivide culler si this = Some (inRange, []).
Proof.
  intros Hmode Hsf. unfold shouldSubDivide. rewrite Hmode.
  destruct (_ && _); [|eexists; reflexivity].
  destruct (_surface this); [|contradiction]. eexists. reflexivity.
Qed.

Lemma bind_Some_nil {A B} (a : A) (f : A -> Op NM B) : bind (Some (a, [])) f = f a.
Proof. apply (bind_ret_l a f). Qed.

Lemma cull_total accept culler (this : TileNode NM) :
  rangeMode (getOptions (getEngineContext culler)) = DISTANCE_FROM_EYE_POINT ->
  let n := getNumLODs (getSelectionInfo (getEngineContext culler)) in
  0 < n <= two32 ->
  wellFormed this = true ->
  _empty this = false ->
  (TileKey.getLOD (_key this) + 1 < n ->
   forall c, wellFormed c = true ->
             TileKey.getLOD (_key c) = TileKey.getLOD (_key this) + 1 ->
             returns_ok accept c) ->
  exists this' vis ev,
    cull accept culler this = Some ((this', vis), ev)
    /\ wellFormed this' = true /\ _key this' = _key this.
Proof.
  intros Hmode n Hn Hwf Hempty Hacc.
  pose proof Hwf as Hinv. apply wellFormed_inv in Hinv as (Hnode & Hcount & Hkids).
  destruct (Hnode Hempty) as [Hsf Hctx].
  assert (Hnode_ok : node_ok this = true).
  { rewrite wellFormed_eq in Hwf. rewrite !andb_true_iff in Hwf. tauto. }
  rewrite cull_eq. cbv zeta.
  destruct (_surface this) as [sf|] eqn:Esf; [|contradiction]. cbn [deref].
  rewrite bind_ret_l.
  destruct (negb (isVisibleFrom culler this)).
  { eexists _, _, _. split; [reflexivity|auto]. }
  destruct (shouldSubDivide_distance_total culler
              (getSelectionInfo (getEngineContext culler)) this Hmode)
    as (inRange & Hsub); [congruence|].
  rewrite Hsub, bind_Some_nil.
  fold (inheritsViewpoint culler). fold (createsChildren culler this inRange).
  destruct (createsChildren culler this inRange) eqn:Hcreate.
  - (* the children are made, and visited *)
    unfold createsChildren in Hcreate. rewrite !andb_true_iff in Hcreate.
    destruct Hcreate as (((-> & Hready) & _) & _).
    apply negb_true_iff in Hready. rewrite Hready in Hcount.
    pose proof (shouldSubDivide_distance _ _ _ _ Hmode Hn Hsub) as Hlod.
    destruct (createChildren_ok (getEngineContext culler) this)
      as (c0 & c1 & c2 & c3 & ev1 & Hrun & Hnew).
    rewrite Hrun, Hcount. cbn [bind app].
    inversion Hnew as [|? ? [L0 W0] Hn1]; subst.
    inversion Hn1 as [|? ? [L1 W1] Hn2]; subst.
    inversion Hn2 as [|? ? [L2 W2] Hn3]; subst.
    inversion Hn3 as [|? ? [L3 W3] _]; subst.
    set (t1 := with_childrenReady true (with_children [c0; c1; c2; c3] this)).
    assert (Ht1 : _children t1 = [c0; c1; c2; c3]) by (unfold t1; destruct this; reflexivity).
    destruct (acceptSubTiles_total accept t1 c0 c1 c2 c3 Ht1)
      as (c0' & c1' & c2' & c3' & ev2 & Hrun2 & Hres); try (apply Hacc; assumption).
    rewrite Hrun2. eexists _, _, _. split; [reflexivity|].
    inversion Hres as [|? ? ? ? [W0' K0] Hr1]; subst.
    inversion Hr1 as [|? ? ? ? [W1' K1] Hr2]; subst.
    inversion Hr2 as [|? ? ? ? [W2' K2] Hr3]; subst.
    inversion Hr3 as [|? ? ? ? [W3' K3] _]; subst.
    split; [|unfold t1; destruct this; reflexivity].
    apply (wellFormed_four this c0' c1' c2' c3' Hnode_ok);
      try (unfold t1; destruct this; reflexivity).
    repeat constructor; try assumption; congruence.
  - destruct inRange; cbn [andb].
    + destruct (_childrenReady this) eqn:Hready.
      * (* the children are there, and visited *)
        pose proof (shouldSubDivide_distance _ _ _ _ Hmode Hn Hsub) as Hlod.
        destruct (_children this) as [|c0 [|c1 [|c2 [|c3 [|c4 rest]]]]] eqn:Hch;
          try discriminate Hcount.
        inversion Hkids as [|? ? [L0 W0] Hn1]; subst.
        inversion Hn1 as [|? ? [L1 W1] Hn2]; subst.
        inversion Hn2 as [|? ? [L2 W2] Hn3]; subst.
        inversion Hn3 as [|? ? [L3 W3] _]; subst.
        destruct (acceptSubTiles_total accept this c0 c1 c2 c3 Hch)
          as (c0' & c1' & c2' & c3' & ev2 & Hrun2 & Hres); try (apply Hacc; assumption).
        rewrite Hrun2. cbn [bind].
        set (t2 := with_children [c0'; c1'; c2'; c3'] this).
        destruct (when_load_total (_dirty t2 && negb (inheritsViewpoint culler)) culler t2)
          as (evl & Hload); [unfold t2; destruct this; exact Hctx|].
        rewrite Hload. eexists _, _, _. split; [reflexivity|].
        inversion Hres as [|? ? ? ? [W0' K0] Hr1]; subst.
        inversion Hr1 as [|? ? ? ? [W1' K1] Hr2]; subst.
        inversion Hr2 as [|? ? ? ? [W2' K2] Hr3]; subst.
        inversion Hr3 as [|? ? ? ? [W3' K3] _]; subst.
        split; [|unfold t2; destruct this; reflexivity].
        apply (wellFormed_four this c0' c1' c2' c3' Hnode_ok);
          try (unfold t2; destruct this; reflexivity).
        -- repeat constructor; try assumption; congruence.
        -- unfold t2. destruct this. exact Hready.
      * (* out of reach: the surface *)
        set (t2 := with_lastAcceptSurfaceFrame _ this).
        destruct (when_load_total (_dirty t2 && negb (inheritsViewpoint culler)) culler t2)
          as (evl & Hload); [unfold t2; destruct this; exact Hctx|].
        cbn [bind emit]. rewrite Hload. eexists _, _, _. split; [reflexivity|].
        split; [|unfold t2; destruct this; reflexivity].
        rewrite <- Hwf. apply wellFormed_same; unfold t2; destruct this; reflexivity.
    + set (t2 := with_lastAcceptSurfaceFrame _ this).
      destruct (when_load_total (_dirty t2 && negb (inheritsViewpoint culler)) culler t2)
        as (evl & Hload); [unfold t2; destruct this; exact Hctx|].
      cbn [bind emit]. rewrite Hload. eexists _, _, _. split; [reflexivity|].
      split; [|unfold t2; destruct this; reflexivity].
      rewrite <- Hwf. apply wellFormed_same; unfold t2; destruct this; reflexivity.
Qed.

(** X20.  A cull traversal by distance returns.  In the range mode
    DISTANCE_FROM_EYE_POINT, on a well-formed tree (every tile is empty or
    has a surface and a context, has no child or four ready ones, each one
    level below it) the traversal dereferences no null pointer and fetches
    no missing child: with fuel for the levels between the tile and the
    last LOD it returns, whatever the culler sees, and the tree it leaves
    is well formed again, under the same key. *)
Theorem cull_traversal_returns culler (this : TileNode NM) :
  rangeMode (getOptions (getEngineContext culler)) = DISTANCE_FROM_EYE_POINT ->
  isStealth culler = false ->
  let n := getNumLODs (getSelectionInfo (getEngineContext culler)) in
  0 < n <= two32 ->
  wellFormed this = true ->
  forall fuel,
    (Z.to_nat (n - 1 - TileKey.getLOD (_key this)) <= fuel)%nat ->
    exists this' ev,
      traverse fuel (CULL_VISITOR culler) this = Some (this', ev)
      /\ wellFormed this' = true /\ _key this' = _key this.
Proof.
  intros Hmode Hst n Hn Hwf fuel. revert this Hwf.
  induction fuel as [|fuel IH]; intros this Hwf Hfuel;
    rewrite traverse_eq; unfold traverse_node; rewrite Hst;
    (destruct (_empty this) eqn:Hempty; cbn [negb];
     [exists this, []; auto|]);
    unfold accept_cull;
    set (stamped := with_lastTraversalTime _ (with_lastTraversalFrame _ this));
    (assert (Hk : _key stamped = _key this) by (unfold stamped; destruct this; reflexivity));
    (assert (Hws : wellFormed stamped = true)
       by (rewrite <- Hwf; apply wellFormed_same; unfold stamped; destruct this; reflexivity));
    (assert (Hes : _empty stamped = false)
       by (unfold stamped; destruct this; exact Hempty));
    (destruct (negb (isCulled culler stamped));
     [|exists stamped, []; auto]).
  - destruct (cull_total (fun _ => fail) culler stamped Hmode Hn Hws Hes)
      as (this' & vis & ev & Hrun & Hwf' & Hk').
    { rewrite Hk. fold n. intros Hlod. lia. }
    rewrite Hrun. exists this', (ev ++ []). split; [reflexivity|].
    split; [exact Hwf'|congruence].
  - destruct (cull_total (fun child => traverse fuel (CULL_VISITOR culler) child)
                culler stamped Hmode Hn Hws Hes)
      as (this' & vis & ev & Hrun & Hwf' & Hk').
    { rewrite Hk. fold n. intros Hlod c Hwc Hlc. apply IH; [exact Hwc|]. lia. }
    rewrite Hrun. exists this', (ev ++ []). split; [reflexivity|].
    split; [exact Hwf'|congruence].
Qed.

End Total.

(* ===================================================================== *)
(** ** The children made, and the tiles kept *)
(* ===================================================================== *)

Section Fresh.
Context {NM : NumModel}.

Lemma createChild_fresh ctx quadrant (this : TileNode NM) :
  exists c ev,
    createChild ctx quadrant this = Some (addChild c this, ev)
    /\ freshChild ctx (_key this) quadrant c.
Proof.
  unfold createChild, freshChild. cbv zeta. unfold getKey.
  set (key := TileKey.createChildKey (_key this) quadrant).
  destruct (pooledGeometryEmpty ctx key) eqn:Hgeom.
  - rewrite create_empty by exact Hgeom.
    eexists _, _. split; [reflexivity|].
    destruct (minExpiryFrames (getOptions ctx)), (minExpiryTime (getOptions ctx));
      cbn; repeat split; reflexivity.
  - match goal with
    | |- context [create key (Some this) (Some ctx) ?n] =>
        destruct (create_with_parent key this ctx n Hgeom) as (sf & ev & Hrun)
    end.
    rewrite Hrun. eexists _, _. split; [reflexivity|].
    destruct (minExpiryFrames (getOptions ctx)), (minExpiryTime (getOptions ctx));
      cbn; repeat split; try reflexivity; discriminate.
Qed.

(** X21.  The children that createChildren makes.  They are added after the
    children the node has, in quadrant order; child [i] has the child key
    of quadrant [i], the context, the expiry settings of the options when
    they are set, no child and nothing pending.  A child whose geometry is
    empty is marked empty and has neither surface nor load request and is
    not dirty; every other child has a surface, is dirty, and has a load
    request for its own key and every layer.  removeSubTiles on the node
    marked ready gives back a node without children as it was. *)
Theorem createChildren_fresh_children ctx (this this' : TileNode NM) ev :
  createChildren ctx this = Some (this', ev) ->
  (exists c0 c1 c2 c3,
     this' = with_children (_children this ++ [c0; c1; c2; c3]) this
     /\ freshChild ctx (_key this) 0 c0 /\ freshChild ctx (_key this) 1 c1
     /\ freshChild ctx (_key this) 2 c2 /\ freshChild ctx (_key this) 3 c3)
  /\ (_children this = [] -> _childrenReady this = false ->
      removeSubTiles (with_childrenReady true this') = this).
Proof.
  intros H.
  assert (Hshape : exists c0 c1 c2 c3,
     this' = with_children (_children this ++ [c0; c1; c2; c3]) this
     /\ freshChild ctx (_key this) 0 c0 /\ freshChild ctx (_key this) 1 c1
     /\ freshChild ctx (_key this) 2 c2 /\ freshChild ctx (_key this) 3 c3).
  { unfold createChildren, for_each in H.
    destruct (createChild_fresh ctx 0 this) as (c0 & e0 & H0 & F0).
    destruct (createChild_fresh ctx 1 (addChild c0 this)) as (c1 & e1 & H1 & F1).
    destruct (createChild_fresh ctx 2 (addChild c1 (addChild c0 this)))
      as (c2 & e2 & H2 & F2).
    destruct (createChild_fresh ctx 3 (addChild c2 (addChild c1 (addChild c0 this))))
      as (c3 & e3 & H3 & F3).
    rewrite !addChild_key in *.
    apply bind_emit in H as (e & H & _).
    rewrite H0 in H. cbn [bind] in H. rewrite H1 in H. cbn [bind] in H.
    rewrite H2 in H. cbn [bind] in H. rewrite H3 in H. cbn [bind ret] in H.
    injection H as <- _.
    exists c0, c1, c2, c3. split; [|auto].
    destruct this. unfold addChild. simpl. rewrite <- !app_assoc. reflexivity. }
  split; [exact Hshape|].
  intros Hleaf Hready. destruct Hshape as (c0 & c1 & c2 & c3 & -> & _).
  rewrite Hleaf. unfold removeSubTiles, getNumChildren.
  destruct this as [ctx0 key0 dirty ready met mef ltt ltf laf snm em sf0 lr nl rm ch].
  cbn in Hleaf, Hready |- *. subst. reflexivity.
Qed.

End Fresh.

Section KeepsTiles.
Context {NM : NumModel}.

Lemma keeps_tiles_refl (this : TileNode NM) : keeps_tiles this this.
Proof. split; [reflexivity|apply incl_refl]. Qed.

Lemma keeps_tiles_same (a b c : TileNode NM) :
  _key c = _key b -> _children c = _children b -> keeps_tiles a b -> keeps_tiles a c.
Proof.
  intros Hk Hc [K I]. split; [congruence|].
  rewrite (tree_keys_eq c), Hk, Hc, <- (tree_keys_eq b). exact I.
Qed.

Lemma keeps_tiles_children (this : TileNode NM) l l' :
  _children this = l ->
  Forall2 keeps_tiles l l' ->
  keeps_tiles this (with_children l' this).
Proof.
  intros Hc H. split; [destruct this; reflexivity|].
  rewrite tree_keys_with_children, (tree_keys_eq this), Hc.
  apply incl_cons; [left; reflexivity|]. apply incl_tl.
  clear Hc. induction H as [|c c' l l' [_ Hi] _ IH]; [apply incl_refl|].
  cbn [flat_map]. apply incl_app; [apply incl_appl; exact Hi|apply incl_appr; exact IH].
Qed.

Lemma Forall2_refl_keeps (l : list (TileNode NM)) : Forall2 keeps_tiles l l.
Proof. induction l; constructor; [apply keeps_tiles_refl|assumption]. Qed.

Lemma keeps_tiles_trans (a b c : TileNode NM) :
  keeps_tiles a b -> keeps_tiles b c -> keeps_tiles a c.
Proof.
  intros [K1 I1] [K2 I2]. split; [congruence|].
  eapply incl_tran; eassumption.
Qed.

Lemma acceptSubTiles_keeps accept (this this' : TileNode NM) ev :
  (forall c c' e, accept c = Some (c', e) -> keeps_tiles c c') ->
  acceptSubTiles accept this = Some (this', ev) ->
  keeps_tiles this this'.
Proof.
  intros Hacc H. apply acceptSubTiles_inv in H
    as (c0 & c1 & c2 & c3 & rest & c0' & c1' & c2' & c3' & e0 & e1 & e2 & e3
        & Hc & H0 & H1 & H2 & H3 & -> & _).
  eapply keeps_tiles_children; [exact Hc|].
  repeat (constructor; [eapply Hacc; eassumption|]). apply Forall2_refl_keeps.
Qed.

Lemma createChildren_keeps ctx (this this' : TileNode NM) ev :
  createChildren ctx this = Some (this', ev) ->
  keeps_tiles this (with_childrenReady true this').
Proof.
  destruct (createChildren_shape ctx this) as (c0 & c1 & c2 & c3 & ev' & Hrun & _).
  rewrite Hrun. intros H. injection H as <- _.
  split; [destruct this; reflexivity|].
  assert (Ht : tree_keys (with_childrenReady true
                            (with_children (_children this ++ [c0; c1; c2; c3]) this))
               = _key this :: flat_map tree_keys (_children this ++ [c0; c1; c2; c3]))
    by (destruct this; reflexivity).
  rewrite Ht, (tree_keys_eq this), flat_map_app.
  apply incl_cons; [left; reflexivity|]. apply incl_tl, incl_appl, incl_refl.
Qed.

Lemma traverse_node_keeps accept nv (this this' : TileNode NM) ev :
  (forall c c' e, accept c = Some (c', e) -> keeps_tiles c c') ->
  traverse_node accept nv this = Some (this', ev) ->
  keeps_tiles this this'.
Proof.
  intros Hacc. unfold traverse_node. destruct nv as [culler|].
  - destruct (negb (_empty this));
      [|intros H; injection H as <- _; apply keeps_tiles_refl].
    destruct (isStealth culler).
    + unfold accept_cull_stealth, cull_stealth. intros H.
      apply bind_Some in H as ([this1 vis] & e1 & e2 & H & Hret & _).
      injection Hret as <- _.
      destruct (_ <? 2).
      { destruct (_surface this); [|discriminate]. injection H as <- _ _.
        apply keeps_tiles_refl. }
      destruct (_childrenReady this);
        [|injection H as <- _ _; apply keeps_tiles_refl].
      apply bind_Some in H as (this2 & e3 & e4 & H & Hret' & _).
      injection Hret' as <- _ _.
      eapply acceptSubTiles_keeps; eassumption.
    + unfold accept_cull. intros H.
      apply bind_Some in H as ([this1 vis] & e1 & e2 & H & Hret & _).
      injection Hret as <- _.
      set (stamped := with_lastTraversalTime _ (with_lastTraversalFrame _ this)) in H.
      assert (Hs : keeps_tiles this stamped).
      { eapply keeps_tiles_same; [| |apply keeps_tiles_refl];
          unfold stamped; destruct this; reflexivity. }
      clearbody stamped.
      eapply keeps_tiles_trans; [exact Hs|].
      destruct (negb (isCulled culler stamped));
        [|injection H as <- _ _; apply keeps_tiles_refl].
      apply cull_inv in H
        as [(_ & _ & -> & _)
           |(_ & _ & inRange & Hsub &
             [(Hc & this2 & ev1 & ev2 & Hcr & Ha & _)
             |[(_ & _ & _ & ev2 & evl & Ha & _)
              |(_ & _ & -> & _)]])].
      * apply keeps_tiles_refl.
      * eapply keeps_tiles_trans; [eapply createChildren_keeps; exact Hcr|].
        eapply acceptSubTiles_keeps; eassumption.
      * eapply acceptSubTiles_keeps; eassumption.
      * eapply keeps_tiles_same; [| |apply keeps_tiles_refl]; destruct stamped; reflexivity.
  - unfold getNumChildren.
    destruct (0 <? length (_children this))%nat.
    + intros H. apply bind_Some in H as (children & e1 & e2 & H & Hret & _).
      injection Hret as <- _.
      eapply keeps_tiles_children; [reflexivity|].
      apply acceptChildren_inv in H.
      eapply Forall2_impl; [exact H|].
      intros c c' (e & Hc). eapply Hacc. exact Hc.
    + destruct (bool_decide _); intros H.
      * apply bind_emit in H as (e & H & _). injection H as <- _. apply keeps_tiles_refl.
      * injection H as <- _. apply keeps_tiles_refl.
Qed.

(** X22.  A traversal removes no tile.  Whatever the visitor, the node that a
    traversal leaves has the key it had, and every tile of the tree before
    is a tile of the tree after: children are made, never dropped. *)
Theorem traverse_keeps_tiles fuel nv (this this' : TileNode NM) ev :
  traverse fuel nv this = Some (this', ev) ->
  _key this' = _key this
  /\ forall key, In key (tree_keys this) -> In key (tree_keys this').
Proof.
  intros H.
  assert (Hk : keeps_tiles this this').
  { revert this this' ev H.
    induction fuel as [|fuel IH]; intros this this' ev; rewrite traverse_eq;
      apply traverse_node_keeps.
    - discriminate.
    - exact IH. }
  destruct Hk as [Hkey Hincl]. split; [exact Hkey|]. exact Hincl.
Qed.

End KeepsTiles.

(* ===================================================================== *)
(** ** updateNormalMap *)
(* ===================================================================== *)

Section Stitch.
Context {NM : NumModel}.

Lemma stitchEdge_None size (that : TileNode NM) thisImage copy :
  (stitchable (sampler_at (_sharedSamplers (_renderModel that)) SamplerBinding.NORMAL) = None
   \/ exists thatImage,
        stitchable (sampler_at (_sharedSamplers (_renderModel that)) SamplerBinding.NORMAL)
          = Some thatImage
        /\ size thatImage <> size thisImage) ->
  stitchEdge size that thisImage copy = None.
Proof.
  unfold stitchEdge. intros [->|(thatImage & -> & Hsize)]; [reflexivity|].
  destruct (negb (_ =? _) || negb (_ =? _)) eqn:Hc; [reflexivity|].
  apply orb_false_iff in Hc as [Hw Hh].
  apply negb_false_iff, Z.eqb_eq in Hw, Hh.
  exfalso. apply Hsize. destruct (size thatImage), (size thisImage). cbn in *. congruence.
Qed.

Lemma stitchEdge_Some size (that : TileNode NM) thisImage copy ops :
  stitchEdge size that thisImage copy = Some ops ->
  exists thatImage,
    size thatImage = size thisImage
    /\ ops = copy (fst (size thisImage)) (snd (size thisImage)) thatImage
             ++ [ImageDirty thisImage].
Proof.
  unfold stitchEdge. destruct (stitchable _) as [thatImage|]; [|discriminate].
  destruct (negb (_ =? _) || negb (_ =? _)) eqn:Hc; [discriminate|].
  intros H. injection H as <-. exists thatImage. split; [|reflexivity].
  apply orb_false_iff in Hc as [Hw Hh].
  apply negb_false_iff, Z.eqb_eq in Hw, Hh.
  destruct (size thatImage), (size thisImage). cbn in *. congruence.
Qed.

Lemma In_upto n i : In i (upto n) <-> 0 <= i < n.
Proof.
  unfold upto. rewrite in_map_iff. split.
  - intros (k & <- & Hk). apply in_seq in Hk. lia.
  - intros Hi. exists (Z.to_nat i). split; [lia|]. apply in_seq. lia.
Qed.

(** X23.  When updateNormalMap stitches nothing.  It writes no pixel when edge
    normalization is off, when the tile's own normal map cannot be
    stitched (no texture, a matrix that is not the identity, or no image),
    or when one of the two neighbours is not valid.  When the east
    neighbour is there and its normal map cannot be stitched or has another
    size, it writes nothing at all, the south edge included.  So a tile
    told of the arrival of its east neighbour while it has no valid south
    neighbour stitches nothing. *)
Theorem updateNormalMap_guards size links (this : TileNode NM) :
  let own := sampler_at (_sharedSamplers (_renderModel this)) SamplerBinding.NORMAL in
  (_stitchNormalMap this = false -> updateNormalMap size links this = [])
  /\ (stitchable own = None -> updateNormalMap size links this = [])
  /\ (valid (_eastNeighbor links) = false \/ valid (_southNeighbor links) = false ->
      updateNormalMap size links this = [])
  /\ (forall east thisImage,
        lock (_eastNeighbor links) = Some east ->
        stitchable own = Some thisImage ->
        let theirs := sampler_at (_sharedSamplers (_renderModel east)) SamplerBinding.NORMAL in
        (stitchable theirs = None
         \/ exists thatImage, stitchable theirs = Some thatImage
                              /\ size thatImage <> size thisImage) ->
        updateNormalMap size links this = [])
  /\ (forall createNeighborKey that,
        createNeighborKey (_key this) 0 1 <> getKey that ->
        valid (_southNeighbor links) = false ->
        snd (notifyOfArrival createNeighborKey size that links this) = []).
Proof.
  intros own.
  assert (Hinvalid : forall l : Neighbors NM,
            valid (_eastNeighbor l) = false \/ valid (_southNeighbor l) = false ->
            updateNormalMap size l this = []).
  { intros l Hv. unfold updateNormalMap.
    destruct (negb (_stitchNormalMap this)); [reflexivity|].
    destruct (stitchable _); [|reflexivity].
    destruct Hv as [-> | ->]; cbn [negb orb]; [reflexivity|].
    rewrite orb_true_r. reflexivity. }
  split; [|split; [|split; [|split]]].
  - intros Hoff. unfold updateNormalMap. rewrite Hoff. reflexivity.
  - intros Hown. unfold updateNormalMap. fold own. rewrite Hown.
    destruct (negb (_stitchNormalMap this)); reflexivity.
  - apply Hinvalid.
  - intros east thisImage Hlock Hown theirs Hbad. unfold updateNormalMap.
    fold own. rewrite Hown, Hlock.
    destruct (negb (_stitchNormalMap this)); [reflexivity|].
    destruct (negb _ || negb _); [reflexivity|].
    rewrite stitchEdge_None by exact Hbad. reflexivity.
  - intros createNeighborKey that Hsouth Hv. unfold notifyOfArrival. cbn [snd].
    rewrite (bool_decide_eq_false_2 _ Hsouth).
    apply Hinvalid. right.
    destruct (bool_decide _); cbn; exact Hv.
Qed.

(** X24.  What updateNormalMap writes.  Every pixel it writes is a pixel of the
    tile's own normal map image: of its last column, copied row by row
    from the first column of an image of the same size, or of its first
    row, copied column by column from the last row of an image of the same
    size; the image is then marked dirty.  No image of a neighbour is
    written.  When the image has at least one column and one row, every
    pixel read and every pixel written lies inside its image. *)
Theorem updateNormalMap_writes_own_edges size links (this : TileNode NM) thisImage :
  stitchable (sampler_at (_sharedSamplers (_renderModel this)) SamplerBinding.NORMAL)
    = Some thisImage ->
  (forall op, In op (updateNormalMap size links this) ->
     op = ImageDirty thisImage
     \/ writesEastEdge size thisImage op \/ writesSouthEdge size thisImage op)
  /\ (0 < fst (size thisImage) -> 0 < snd (size thisImage) ->
      forall that s t image s' t',
        In (CopyPixel that s t image s' t') (updateNormalMap size links this) ->
        image = thisImage
        /\ 0 <= s < fst (size that) /\ 0 <= t < snd (size that)
        /\ 0 <= s' < fst (size image) /\ 0 <= t' < snd (size image)).
Proof.
  intros Hown.
  assert (Hops : forall op, In op (updateNormalMap size links this) ->
     op = ImageDirty thisImage
     \/ writesEastEdge size thisImage op \/ writesSouthEdge size thisImage op).
  { intros op. unfold updateNormalMap. rewrite Hown.
    destruct (negb (_stitchNormalMap this)); [intros []|].
    destruct (negb _ || negb _); [intros []|].
    assert (Heast : forall (east : TileNode NM) ops,
              stitchEdge size east thisImage
                (fun width height thatImage =>
                   map (fun t => CopyPixel thatImage 0 t thisImage (width - 1) t)
                       (upto height)) = Some ops ->
              In op ops ->
              op = ImageDirty thisImage \/ writesEastEdge size thisImage op).
    { intros east ops Hs Hin. apply stitchEdge_Some in Hs as (thatImage & Hsize & ->).
      apply in_app_or in Hin as [Hin|[<-|[]]]; [|left; reflexivity].
      apply in_map_iff in Hin as (t & <- & Ht). apply In_upto in Ht.
      right. exists thatImage, t. auto. }
    assert (Hsouth : forall (south : TileNode NM) ops,
              stitchEdge size south thisImage
                (fun width height thatImage =>
                   map (fun s => CopyPixel thatImage s (height - 1) thisImage s 0)
                       (upto width)) = Some ops ->
              In op ops ->
              op = ImageDirty thisImage \/ writesSouthEdge size thisImage op).
    { intros south ops Hs Hin. apply stitchEdge_Some in Hs as (thatImage & Hsize & ->).
      apply in_app_or in Hin as [Hin|[<-|[]]]; [|left; reflexivity].
      apply in_map_iff in Hin as (s & <- & Hs). apply In_upto in Hs.
      right. exists thatImage, s. auto. }
    destruct (lock (_eastNeighbor links)) as [east|].
    - destruct (stitchEdge size east thisImage _) as [eastOps|] eqn:He; [|intros []].
      intros Hin. apply in_app_or in Hin as [Hin|Hin].
      + destruct (Heast east eastOps He Hin); auto.
      + destruct (lock (_southNeighbor links)) as [south|]; [|destruct Hin].
        destruct (stitchEdge size south thisImage _) as [southOps|] eqn:Hs; [|destruct Hin].
        destruct (Hsouth south southOps Hs Hin); auto.
    - cbn [app]. intros Hin.
      destruct (lock (_southNeighbor links)) as [south|]; [|destruct Hin].
      destruct (stitchEdge size south thisImage _) as [southOps|] eqn:Hs; [|destruct Hin].
      destruct (Hsouth south southOps Hs Hin); auto. }
  split; [exact Hops|].
  intros Hw Hh that s t image s' t' Hin.
  destruct (Hops _ Hin) as [H|[(that' & t0 & H & Hsize & Ht)|(that' & s0 & H & Hsize & Hs)]].
  - discriminate.
  - injection H as -> -> -> -> -> ->. rewrite Hsize. repeat split; lia.
  - injection H as -> -> -> -> -> ->. rewrite Hsize. repeat split; lia.
Qed.

End Stitch.

(* ===================================================================== *)
(** ** The stealth traversal after a cull *)
(* ===================================================================== *)

Section StealthAfterCull.
Context {NM : NumModel}.

Lemma cull_surface accept culler (this : TileNode NM) r :
  cull accept culler this = Some r -> _surface this <> None.
Proof.
  unfold cull. destruct (_surface this); [discriminate|]. intros H. discriminate H.
Qed.

(** X25.  A stealth traversal draws what the last cull drew.  When a cull of a
    visible tile whose children are not in range returns, it has drawn the
    surface of the tile and stamped it with the frame of the culler, and a
    stealth cull of the tile in that frame or in the next one draws this
    surface again, and goes no further down. *)
Theorem stealth_draws_last_accepted accept culler (this this' : TileNode NM) vis ev :
  isVisibleFrom culler this = true ->
  shouldSubDivide culler (getSelectionInfo (getEngineContext culler)) this
    = Some (false, []) ->
  cull accept culler this = Some ((this', vis), ev) ->
  _lastAcceptSurfaceFrame this' = getFrameNumber (getFrameStamp culler)
  /\ (exists evl, ev = Surface_accept (_key this) :: evl)
  /\ forall accept' culler',
       (getFrameNumber (getFrameStamp culler') - getFrameNumber (getFrameStamp culler))
         mod two32 < 2 ->
       accept_cull_stealth accept' culler' this'
       = Some ((this', false), [Surface_accept (_key this)]).
Proof.
  intros Hvis Hsub H.
  pose proof (cull_surface _ _ _ _ H) as Hsf.
  apply cull_inv in H
    as [(Hv & _)
       |(_ & _ & inRange & Hsub' &
         [(Hc & _)
         |[(_ & Hr & _)
          |(_ & _ & -> & evl & _ & ->)]])].
  - congruence.
  - rewrite Hsub in Hsub'. injection Hsub' as <-. discriminate Hc.
  - rewrite Hsub in Hsub'. injection Hsub' as <-. discriminate Hr.
  - assert (Hf : _lastAcceptSurfaceFrame
                   (with_lastAcceptSurfaceFrame (getFrameNumber (getFrameStamp culler)) this)
                 = getFrameNumber (getFrameStamp culler)) by (destruct this; reflexivity).
    split; [exact Hf|]. split; [eauto|].
    intros accept' culler' Hgap. unfold accept_cull_stealth, cull_stealth.
    rewrite Hf. apply Z.ltb_lt in Hgap. rewrite Hgap.
    assert (Hs : _surface (with_lastAcceptSurfaceFrame
                             (getFrameNumber (getFrameStamp culler)) this) = _surface this)
      by (destruct this; reflexivity).
    assert (Hk : _key (with_lastAcceptSurfaceFrame
                         (getFrameNumber (getFrameStamp culler)) this) = _key this)
      by (destruct this; reflexivity).
    rewrite Hs, Hk. destruct (_surface this); [reflexivity|contradiction].
Qed.

End StealthAfterCull.

(* ===================================================================== *)
(** ** When refreshInheritedData changes nothing *)
(* ===================================================================== *)

Section Converged.
Context {NM : NumModel}.

Lemma refreshSampler_converged bindings quadrant parentPass (l : Samplers NM) n s :
  sampler_converged bindings quadrant parentPass s (sampler_at l s) = true ->
  refreshSampler bindings quadrant parentPass (l, n) s = (l, n).
Proof.
  unfold sampler_converged, refreshSampler, authoritative.
  destruct (_ && _).
  - intros H. apply andb_true_iff in H as [-> H]. apply negb_true_iff in H. rewrite H.
    reflexivity.
  - intros H. apply andb_true_iff in H as [-> ->]. reflexivity.
Qed.

Lemma refreshSampler_changed bindings quadrant parentPass (l : Samplers NM) n s :
  sampler_converged bindings quadrant parentPass s (sampler_at l s) = false ->
  snd (refreshSampler bindings quadrant parentPass (l, n) s) = S n.
Proof.
  unfold sampler_converged, refreshSampler, authoritative.
  destruct (_ && _).
  - intros H. apply andb_false_iff in H as [H|H].
    + rewrite H. reflexivity.
    + apply negb_false_iff in H. rewrite H, orb_true_r. reflexivity.
  - intros H. apply andb_false_iff in H as [H|H]; rewrite H; [|rewrite orb_true_r];
      reflexivity.
Qed.

Lemma fold_refreshSampler_converged bindings quadrant parentPass (l : Samplers NM) n idx :
  forallb (fun s => sampler_converged bindings quadrant parentPass s (sampler_at l s)) idx
    = true ->
  fold_left (refreshSampler bindings quadrant parentPass) idx (l, n) = (l, n).
Proof.
  induction idx as [|s idx IH]; cbn [fold_left forallb]; [reflexivity|].
  intros H. apply andb_true_iff in H as [Hs Hrest].
  rewrite refreshSampler_converged by exact Hs. exact (IH Hrest).
Qed.

Lemma fold_refreshSampler_changed bindings quadrant parentPass (l : Samplers NM) n idx :
  forallb (fun s => sampler_converged bindings quadrant parentPass s (sampler_at l s)) idx
    = false ->
  (n < snd (fold_left (refreshSampler bindings quadrant parentPass) idx (l, n)))%nat.
Proof.
  induction idx as [|s idx IH]; cbn [fold_left forallb]; [discriminate|].
  destruct (sampler_converged bindings quadrant parentPass s (sampler_at l s)) eqn:Hs.
  - rewrite refreshSampler_converged by exact Hs. exact IH.
  - intros _. pose proof (refreshSampler_changed _ _ _ _ n _ Hs) as Hn.
    destruct (refreshSampler bindings quadrant parentPass (l, n) s) as [l1 n1].
    cbn [snd] in Hn. subst n1.
    pose proof (fold_refreshSampler_counts bindings quadrant parentPass idx l1 (S n))
      as [Hle _]. cbv zeta in Hle. lia.
Qed.

Lemma getPass_nth uid (model : TileRenderModel NM) i :
  passIndex uid (_passes model) = Some i ->
  getPass uid model = Some (nth i (_passes model) RenderingPass_default)
  /\ _passes model !! i = Some (nth i (_passes model) RenderingPass_default).
Proof.
  intros Hi. unfold getPass. rewrite Hi.
  destruct (passIndex_Some _ _ _ Hi) as (pass & Hl & _).
  rewrite nth_lookup, Hl. auto.
Qed.

Lemma refreshPass_converged bindings quadrant (model : TileRenderModel NM) n parentPass :
  pass_converged bindings quadrant model parentPass = true ->
  refreshPass bindings quadrant (model, n) parentPass = (model, n).
Proof.
  unfold pass_converged, refreshPass.
  destruct (passIndex (sourceUID parentPass) (_passes model)) as [i|] eqn:Hi.
  - destruct (getPass_nth _ _ _ Hi) as [-> Hl]. intros H.
    rewrite fold_refreshSampler_converged by exact H.
    rewrite with_samplers_id, list_insert_id by exact Hl. rewrite with_passes_id.
    reflexivity.
  - apply getPass_None in Hi. rewrite Hi. discriminate.
Qed.

Lemma refreshPass_changed bindings quadrant (model : TileRenderModel NM) n parentPass :
  pass_converged bindings quadrant model parentPass = false ->
  (n < snd (refreshPass bindings quadrant (model, n) parentPass))%nat.
Proof.
  unfold pass_converged, refreshPass.
  destruct (passIndex (sourceUID parentPass) (_passes model)) as [i|] eqn:Hi.
  - destruct (getPass_nth _ _ _ Hi) as [-> Hl]. intros H.
    pose proof (fold_refreshSampler_changed _ _ _ _ n _ H) as Hn.
    destruct (fold_left _ _ _) as [samplers_ changes]. exact Hn.
  - intros _. cbn [snd]. lia.
Qed.

Lemma fold_refreshPass_converged bindings quadrant (model : TileRenderModel NM) n
    parentPasses :
  forallb (pass_converged bindings quadrant model) parentPasses = true ->
  fold_left (refreshPass bindings quadrant) parentPasses (model, n) = (model, n).
Proof.
  induction parentPasses as [|p l IH]; cbn [fold_left forallb]; [reflexivity|].
  intros H. apply andb_true_iff in H as [Hp Hrest].
  rewrite refreshPass_converged by exact Hp. exact (IH Hrest).
Qed.

Lemma fold_refreshPass_changed bindings quadrant (model : TileRenderModel NM) n
    parentPasses :
  forallb (pass_converged bindings quadrant model) parentPasses = false ->
  (n < snd (fold_left (refreshPass bindings quadrant) parentPasses (model, n)))%nat.
Proof.
  induction parentPasses as [|p l IH]; cbn [fold_left forallb]; [discriminate|].
  destruct (pass_converged bindings quadrant model p) eqn:Hp.
  - rewrite refreshPass_converged by exact Hp. exact IH.
  - intros _. pose proof (refreshPass_changed _ _ _ n _ Hp) as Hn.
    destruct (refreshPass bindings quadrant (model, n) p) as [m1 n1]. cbn [snd] in Hn.
    pose proof (fold_refreshPass_counts bindings quadrant l m1 n1) as [Hle _].
    cbv zeta in Hle. lia.
Qed.

(** The first shared sampler that does not hold own data is counted. *)
Lemma for_each_shared_changed quadrant parentShared idx :
  forall (this this' : TileNode NM) n n' ev,
    forallb (fun s => authoritative (sampler_at (_sharedSamplers (_renderModel this)) s)) idx
      = false ->
    for_each idx (refreshSharedSampler quadrant parentShared) (this, n)
      = Some ((this', n'), ev) ->
    (n < n')%nat.
Proof.
  induction idx as [|s idx IH]; cbn [for_each forallb]; intros this this' n n' ev;
    [discriminate|].
  intros Hall H. apply bind_Some in H as ([t1 n1] & e0 & e1 & H0 & H1 & _).
  destruct (authoritative (sampler_at (_sharedSamplers (_renderModel this)) s)) eqn:Hs.
  - assert (Hstep : refreshSharedSampler quadrant parentShared s (this, n)
                    = Some ((this, n), [])).
    { unfold refreshSharedSampler. unfold authoritative in Hs.
      apply andb_true_iff in Hs as [-> ->]. reflexivity. }
    rewrite Hstep in H0. injection H0 as <- <- _.
    eapply IH; [exact Hall|exact H1].
  - assert (Hn : n1 = S n).
    { unfold refreshSharedSampler in H0. unfold authoritative in Hs.
      apply andb_false_iff in Hs.
      assert (Hc : negb (textureValid (sampler_at (_sharedSamplers (_renderModel this)) s))
                   || negb (Matrixf.isIdentity
                              (_matrix (sampler_at (_sharedSamplers (_renderModel this)) s)))
                   = true)
        by (destruct Hs as [-> | ->]; [reflexivity|apply orb_true_r]).
      rewrite Hc in H0.
      apply bind_Some in H0 as (t2 & e2 & e3 & _ & H0 & _).
      injection H0 as _ <-. reflexivity. }
    subst n1.
    destruct (for_each_shared_counts _ _ _ _ _ _ _ _ H1) as [Hle _]. lia.
Qed.

Lemma forallb_sampler_at (f : Sampler NM -> bool) (l : Samplers NM) :
  forallb (fun s => f (sampler_at l s)) (seq 0 (length l)) = forallb f l.
Proof.
  assert (H : forall done rest,
             forallb (fun s => f (sampler_at (done ++ rest) s))
                     (seq (length done) (length rest)) = forallb f rest).
  { intros done rest. revert done. induction rest as [|x rest IH]; intros done;
      [reflexivity|].
    cbn [length seq forallb].
    replace (sampler_at (done ++ x :: rest) (length done)) with x.
    - f_equal. specialize (IH (done ++ [x])).
      rewrite <- app_assoc, length_app in IH. cbn [length app] in IH.
      rewrite Nat.add_1_r in IH. exact IH.
    - unfold sampler_at. rewrite app_nth2 by lia. rewrite Nat.sub_diag. reflexivity. }
  exact (H [] l).
Qed.

(** *** What the refresh makes of a pass *)

Lemma refreshSampler_spec bindings quadrant parentPass color
    (done rest : Samplers NM) x n :
  (length done = SamplerBinding.COLOR_PARENT -> sampler_at done SamplerBinding.COLOR = color) ->
  fst (refreshSampler bindings quadrant parentPass (done ++ x :: rest, n) (length done))
  = done ++ reinheritSampler bindings quadrant parentPass color (length done) x :: rest.
Proof.
  intros Hcolor.
  assert (Hat : sampler_at (done ++ x :: rest) (length done) = x).
  { unfold sampler_at. rewrite app_nth2 by lia. rewrite Nat.sub_diag. reflexivity. }
  assert (Hins : forall y, <[length done := y]> (done ++ x :: rest) = done ++ y :: rest).
  { intros y. rewrite insert_app_r_alt by lia. rewrite Nat.sub_diag. reflexivity. }
  unfold reinheritSampler.
  destruct (sampler_converged bindings quadrant parentPass (length done) x) eqn:Hc.
  - rewrite refreshSampler_converged by (rewrite Hat; exact Hc). reflexivity.
  - unfold refreshSampler. rewrite Hat.
    unfold sampler_converged, authoritative in Hc.
    destruct (Nat.eqb (length done) SamplerBinding.COLOR_PARENT
              && SamplerBinding.isActive (binding bindings SamplerBinding.COLOR_PARENT))
      eqn:Hcp.
    + assert (Hd : negb (bool_decide
                           (_texture x
                            = _texture (sampler_at (samplers parentPass) SamplerBinding.COLOR)))
                   || Matrixf.neq (_matrix x)
                        (Matrixf.preMult
                           (_matrix (sampler_at (samplers parentPass) SamplerBinding.COLOR))
                           (scaleBias quadrant)) = true).
      { apply andb_false_iff in Hc as [Hc|Hc].
        - rewrite Hc. reflexivity.
        - apply negb_false_iff in Hc. rewrite Hc. apply orb_true_r. }
      rewrite Hd. cbn [fst]. rewrite Hins.
      destruct (textureValid _); [reflexivity|].
      apply andb_true_iff in Hcp as [Hlen _]. apply Nat.eqb_eq in Hlen.
      assert (Hc0 : sampler_at (done ++ x :: rest) SamplerBinding.COLOR = color).
      { rewrite <- (Hcolor Hlen). unfold sampler_at, SamplerBinding.COLOR.
        apply app_nth1. rewrite Hlen. unfold SamplerBinding.COLOR_PARENT. lia. }
      rewrite Hc0, Sampler_eta. reflexivity.
    + assert (Hd : negb (textureValid x) || negb (Matrixf.isIdentity (_matrix x)) = true).
      { apply andb_false_iff in Hc as [Hc|Hc]; rewrite Hc; [reflexivity|apply orb_true_r]. }
      rewrite Hd. cbn [fst]. rewrite Hins, Sampler_eta. reflexivity.
Qed.

Lemma fold_refreshSampler_spec bindings quadrant parentPass color (rest : Samplers NM) :
  forall done n,
    (length done = O ->
     color = reinheritSampler bindings quadrant parentPass color SamplerBinding.COLOR
               (sampler_at rest SamplerBinding.COLOR)) ->
    (length done <> O -> sampler_at done SamplerBinding.COLOR = color) ->
    fst (fold_left (refreshSampler bindings quadrant parentPass)
                   (seq (length done) (length rest)) (done ++ rest, n))
    = done ++ imap (fun j => reinheritSampler bindings quadrant parentPass color
                               (length done + j)) rest.
Proof.
  induction rest as [|x rest IH]; intros done n H0 H1; [reflexivity|].
  cbn [length seq fold_left].
  pose proof (refreshSampler_spec bindings quadrant parentPass color done rest x n) as Hstep.
  destruct (refreshSampler bindings quadrant parentPass (done ++ x :: rest, n) (length done))
    as [l1 n1]. cbn [fst] in Hstep.
  rewrite Hstep.
  2:{ intros Hlen. apply H1. rewrite Hlen. discriminate. }
  specialize (IH (done ++ [reinheritSampler bindings quadrant parentPass color
                             (length done) x]) n1).
  rewrite <- app_assoc, length_app in IH. cbn [length app] in IH.
  rewrite Nat.add_1_r in IH. rewrite IH.
  - rewrite <- app_assoc. cbn [app imap]. rewrite Nat.add_0_r. do 2 f_equal.
    apply imap_ext. intros j y _. cbn. f_equal. lia.
  - intros Hlen. discriminate Hlen.
  - intros _. destruct done as [|d done].
    + cbn [app length]. unfold sampler_at, SamplerBinding.COLOR. cbn [nth].
      symmetry. apply (H0 eq_refl).
    + cbn [app]. unfold sampler_at, SamplerBinding.COLOR. cbn [nth].
      apply (H1 ltac:(discriminate)).
Qed.

Lemma reinheritSampler_color bindings quadrant parentPass (c c' x : Sampler NM) :
  reinheritSampler bindings quadrant parentPass c SamplerBinding.COLOR x
  = reinheritSampler bindings quadrant parentPass c' SamplerBinding.COLOR x.
Proof. unfold reinheritSampler. reflexivity. Qed.

Lemma refreshPass_samplers bindings quadrant parentPass (myPass : RenderingPass NM) n :
  with_samplers
    (fst (fold_left (refreshSampler bindings quadrant parentPass)
                    (seq 0 (length (samplers myPass))) (samplers myPass, n)))
    myPass
  = reinheritPass bindings quadrant parentPass myPass.
Proof.
  unfold reinheritPass. f_equal.
  apply (fold_refreshSampler_spec bindings quadrant parentPass _ (samplers myPass) [] n).
  - intros _. apply reinheritSampler_color.
  - intros H. contradiction.
Qed.

Lemma passIndex_insert uid (passes : list (RenderingPass NM)) i p p' :
  passes !! i = Some p -> sourceUID p' = sourceUID p ->
  passIndex uid (<[i := p']> passes) = passIndex uid passes.
Proof.
  intros Hl Hu.
  replace (<[i := p']> passes) with (alter (fun q => mkPass (sourceUID q) (samplers p')) i passes).
  - apply passIndex_alter. reflexivity.
  - apply list_eq. intros j. destruct (decide (i = j)) as [<-|Hne].
    + rewrite list_lookup_alter_eq, Hl, list_lookup_insert_eq
        by (eapply lookup_lt_Some; exact Hl).
      cbn. rewrite <- Hu. destruct p'. reflexivity.
    + rewrite list_lookup_alter_ne, list_lookup_insert_ne by exact Hne. reflexivity.
Qed.

(** The pass of the layer of a parent's pass, after the body of the loop
    has run for that pass. *)
Lemma refreshPass_self bindings quadrant (model : TileRenderModel NM) n parentPass :
  getPass (sourceUID parentPass) (fst (refreshPass bindings quadrant (model, n) parentPass))
  = Some match getPass (sourceUID parentPass) model with
         | Some myPass => reinheritPass bindings quadrant parentPass myPass
         | None => addedPass quadrant parentPass
         end.
Proof.
  unfold refreshPass.
  destruct (passIndex (sourceUID parentPass) (_passes model)) as [i|] eqn:Hi.
  - destruct (getPass_nth _ _ _ Hi) as [Hg Hl]. rewrite Hg.
    set (myPass := nth i (_passes model) RenderingPass_default) in *.
    pose proof (refreshPass_samplers bindings quadrant parentPass myPass n) as Hs.
    destruct (fold_left _ _ _) as [samplers_ changes]. cbn [fst] in *.
    unfold getPass. cbn [with_passes _passes].
    rewrite (passIndex_insert _ _ _ myPass) by (exact Hl || reflexivity).
    rewrite Hi. rewrite list_lookup_insert_eq by (eapply lookup_lt_Some; exact Hl).
    rewrite Hs. reflexivity.
  - assert (Hg : getPass (sourceUID parentPass) model = None) by (apply getPass_None; exact Hi).
    rewrite Hg. cbn [fst]. unfold getPass. cbn [with_passes _passes].
    rewrite passIndex_snoc, Hi. cbn [with_samplers sourceUID]. rewrite Z.eqb_refl.
    rewrite lookup_app_r by lia. rewrite Nat.sub_diag. reflexivity.
Qed.

(** The body of the loop for a pass of another layer leaves the pass of
    the layer [uid] as it is. *)
Lemma refreshPass_other bindings quadrant (model : TileRenderModel NM) n parentPass uid :
  sourceUID parentPass <> uid ->
  getPass uid (fst (refreshPass bindings quadrant (model, n) parentPass))
  = getPass uid model.
Proof.
  intros Hne. unfold refreshPass.
  destruct (passIndex (sourceUID parentPass) (_passes model)) as [i|] eqn:Hi.
  - destruct (getPass_nth _ _ _ Hi) as [_ Hl].
    set (myPass := nth i (_passes model) RenderingPass_default) in *.
    destruct (fold_left _ _ _) as [samplers_ changes]. cbn [fst].
    unfold getPass. cbn [with_passes _passes].
    rewrite (passIndex_insert _ _ _ myPass) by (exact Hl || reflexivity).
    destruct (passIndex uid (_passes model)) as [k|] eqn:Hk; [|reflexivity].
    apply list_lookup_insert_ne. intros <-.
    destruct (passIndex_Some _ _ _ Hi) as (p1 & L1 & U1).
    destruct (passIndex_Some _ _ _ Hk) as (p2 & L2 & U2). congruence.
  - cbn [fst]. unfold getPass. cbn [with_passes _passes].
    rewrite passIndex_snoc. cbn [with_samplers sourceUID].
    destruct (passIndex uid (_passes model)) as [k|] eqn:Hk.
    + destruct (passIndex_Some _ _ _ Hk) as (p & Hl & _).
      apply lookup_app_l. eapply lookup_lt_Some. exact Hl.
    + destruct (Z.eqb_spec (sourceUID parentPass) uid); [contradiction|reflexivity].
Qed.

Lemma fold_refreshPass_other bindings quadrant parentPasses uid :
  forall (model : TileRenderModel NM) n,
    Forall (fun parentPass => sourceUID parentPass <> uid) parentPasses ->
    getPass uid (fst (fold_left (refreshPass bindings quadrant) parentPasses (model, n)))
    = getPass uid model.
Proof.
  induction parentPasses as [|p l IH]; intros model n Hall; [reflexivity|].
  cbn [fold_left]. inversion Hall as [|? ? Hp Hl]; subst.
  pose proof (refreshPass_other bindings quadrant model n p uid Hp) as Hstep.
  destruct (refreshPass bindings quadrant (model, n) p) as [m1 n1]. cbn [fst] in Hstep.
  rewrite IH by exact Hl. exact Hstep.
Qed.

(** The pass of the layer of a parent's pass after the loop over the
    parent's passes, the parent having one pass for each layer. *)
Lemma fold_refreshPass_pass bindings quadrant parentPasses parentPass
    (model : TileRenderModel NM) n :
  NoDup (map sourceUID parentPasses) ->
  In parentPass parentPasses ->
  getPass (sourceUID parentPass)
          (fst (fold_left (refreshPass bindings quadrant) parentPasses (model, n)))
  = Some match getPass (sourceUID parentPass) model with
         | Some myPass => reinheritPass bindings quadrant parentPass myPass
         | None => addedPass quadrant parentPass
         end.
Proof.
  intros Hnd Hin. apply in_split in Hin as (before & after & ->).
  rewrite map_app in Hnd. cbn [map] in Hnd.
  apply NoDup_app in Hnd as (_ & Hdisj & Hnd).
  apply NoDup_cons in Hnd as [Hafter _].
  assert (Hb : Forall (fun p => sourceUID p <> sourceUID parentPass) before).
  { apply List.Forall_forall. intros p Hp Heq.
    apply (Hdisj (sourceUID parentPass)).
    - rewrite <- Heq. apply list_elem_of_In. apply in_map. exact Hp.
    - left. }
  assert (Ha : Forall (fun p => sourceUID p <> sourceUID parentPass) after).
  { apply List.Forall_forall. intros p Hp Heq. apply Hafter. rewrite <- Heq.
    apply list_elem_of_In. apply in_map. exact Hp. }
  rewrite fold_left_app. cbn [fold_left].
  pose proof (fold_refreshPass_other bindings quadrant before (sourceUID parentPass)
                model n Hb) as H1.
  destruct (fold_left (refreshPass bindings quadrant) before (model, n)) as [m1 n1].
  cbn [fst] in H1.
  pose proof (refreshPass_self bindings quadrant m1 n1 parentPass) as H2.
  destruct (refreshPass bindings quadrant (m1, n1) parentPass) as [m2 n2].
  cbn [fst] in H2.
  rewrite fold_refreshPass_other by exact Ha. rewrite H2, H1. reflexivity.
Qed.

(** The passes that the whole call leaves are those that the loop over
    the parent's passes leaves. *)
Lemma refreshInheritedData_passes parent bindings (this this' : TileNode NM) ev :
  refreshInheritedData parent bindings this = Some (this', ev) ->
  _passes (_renderModel this')
  = _passes (fst (fold_left (refreshPass bindings (TileKey.getQuadrant (getKey this)))
                            (_passes (_renderModel parent)) (_renderModel this, O))).
Proof.
  intros H. apply refreshInheritedData_renderModel in H as (here & n & ev0 & Hhere & ->).
  unfold refreshInheritedData_here in Hhere.
  destruct (fold_left _ _ _) as [model changes]. cbn [fst].
  apply for_each_shared_passes in Hhere. rewrite Hhere.
  rewrite renderModel_with_renderModel. reflexivity.
Qed.

Lemma forallb_pointwise {A} (f g : A -> bool) (l : list A) :
  (forall a, f a = g a) -> forallb f l = forallb g l.
Proof.
  intros H. induction l as [|a l IH]; [reflexivity|].
  cbn [forallb]. rewrite H, IH. reflexivity.
Qed.

Lemma converged_authoritative parent bindings (this : TileNode NM) :
  all_authoritative this = true ->
  SamplerBinding.isActive (binding bindings SamplerBinding.COLOR_PARENT) = false ->
  passes_covered parent this = true ->
  converged parent bindings this = true.
Proof.
  unfold all_authoritative, passes_covered, converged.
  intros Hall Hcp Hcov. apply andb_true_iff in Hall as [Hpasses Hshared].
  rewrite Hshared, andb_true_r.
  rewrite forallb_forall in Hcov, Hpasses. apply forallb_forall. intros p Hp.
  specialize (Hcov p Hp). apply bool_decide_eq_true in Hcov.
  unfold pass_converged.
  destruct (passIndex (sourceUID p) (_passes (_renderModel this))) as [i|] eqn:Hi;
    [|congruence].
  destruct (getPass_nth _ _ _ Hi) as [-> Hl].
  set (myPass := nth i (_passes (_renderModel this)) RenderingPass_default) in *.
  assert (Hmine : forallb authoritative (samplers myPass) = true).
  { apply Hpasses. apply list_elem_of_In. eapply list_elem_of_lookup_2. exact Hl. }
  rewrite <- (forallb_sampler_at authoritative) in Hmine.
  rewrite <- Hmine. apply forallb_pointwise.
  intros s. unfold sampler_converged. rewrite Hcp, andb_false_r. reflexivity.
Qed.

(** C4, as the code has it.  refreshInheritedData makes no change to a
    node, and does not go on into its children, exactly when the node has
    converged: every shared sampler holds a texture with the identity, and
    for every pass of the parent the node has a pass of the same layer in
    which every sampler holds a texture with the identity, except the
    color-parent sampler when its binding is active, which must carry the
    parent's color texture and the parent's color matrix scaled and biased
    for the quadrant.  A node all of whose samplers hold a texture with the
    identity has converged when the color-parent binding is not active and
    every pass of the parent has a pass of the same layer in the node.  On
    a node that has not converged at least one change is counted.  When the
    parent has one pass for each layer, the refresh leaves, for every pass
    of the parent, a pass of that layer in the node: the node's pass with
    every sampler that had not converged replaced by the parent's sampler
    scaled and biased (for the color-parent sampler with its binding
    active: the parent's color sampler scaled and biased, or the node's
    color sampler when the parent's has no texture), or, when the node had
    none, a copy of the parent's pass with every matrix scaled and
    biased. *)
Theorem refresh_fixed_point parent bindings (this : TileNode NM) :
  let quadrant := TileKey.getQuadrant (getKey this) in
  (converged parent bindings this = true ->
   refreshInheritedData_here parent bindings this = Some ((this, O), [])
   /\ refreshInheritedData parent bindings this
      = Some (this, [Call_refreshInheritedData (_key this)]))
  /\ (converged parent bindings this = false ->
      forall here changes ev,
        refreshInheritedData_here parent bindings this = Some ((here, changes), ev) ->
        (0 < changes)%nat)
  /\ (all_authoritative this = true ->
      SamplerBinding.isActive (binding bindings SamplerBinding.COLOR_PARENT) = false ->
      passes_covered parent this = true ->
      converged parent bindings this = true)
  /\ (NoDup (map sourceUID (_passes (_renderModel parent))) ->
      forall this' ev parentPass,
        refreshInheritedData parent bindings this = Some (this', ev) ->
        In parentPass (_passes (_renderModel parent)) ->
        getPass (sourceUID parentPass) (_renderModel this')
        = Some match getPass (sourceUID parentPass) (_renderModel this) with
               | Some myPass => reinheritPass bindings quadrant parentPass myPass
               | None => addedPass quadrant parentPass
               end).
Proof.
  intros quadrant. split; [|split; [|split]].
  - intros Hc. unfold converged in Hc. apply andb_true_iff in Hc as [Hpasses Hshared].
    assert (Hhere : refreshInheritedData_here parent bindings this = Some ((this, O), [])).
    { unfold refreshInheritedData_here.
      rewrite fold_refreshPass_converged by exact Hpasses.
      rewrite with_renderModel_id.
      apply for_each_shared_unchanged; [exact Hshared|apply seq_lt]. }
    split; [exact Hhere|].
    rewrite refreshInheritedData_eq, Hhere. reflexivity.
  - intros Hc here changes ev Hhere. unfold converged in Hc.
    unfold refreshInheritedData_here in Hhere.
    apply andb_false_iff in Hc as [Hpasses|Hshared].
    + pose proof (fold_refreshPass_changed bindings (TileKey.getQuadrant (getKey this))
                    (_renderModel this) O _ Hpasses) as Hn.
      destruct (fold_left _ _ _) as [model n]. cbn [snd] in Hn.
      apply for_each_shared_counts in Hhere as [Hle _]. lia.
    + pose proof (fold_refreshPass_counts bindings (TileKey.getQuadrant (getKey this))
                    (_passes (_renderModel parent)) (_renderModel this) O) as [_ Hsame].
      cbv zeta in Hsame.
      destruct (fold_left _ _ _) as [model n]. cbn [fst snd] in Hsame.
      destruct n as [|n].
      * rewrite (Hsame eq_refl), with_renderModel_id in Hhere.
        rewrite <- forallb_sampler_at in Hshared.
        eapply for_each_shared_changed; [exact Hshared|exact Hhere].
      * apply for_each_shared_counts in Hhere as [Hle _]. lia.
  - apply converged_authoritative.
  - intros Hnd this' ev parentPass Hrun Hin.
    apply refreshInheritedData_passes in Hrun.
    rewrite (getPass_passes _ _ _ Hrun).
    apply fold_refreshPass_pass; assumption.
Qed.

End Converged.

(* ===================================================================== *)
(** ** The further properties on the scenarios *)
(* ===================================================================== *)

(** Another visitor draws the four children of the tree. *)
Lemma other_visitor_reaches_leaves_witness :
  traverse 1 OTHER_VISITOR (Scenario.tree (NM := IEEE) false)
  = Some (Scenario.tree false,
          map Surface_accept (leaf_surfaces (Scenario.tree (NM := IEEE) false))).
Proof.
  apply (other_visitor_reaches_leaves (Scenario.tree (NM := IEEE) false) 1%nat).
  vm_compute. lia.
Defined.

(** One frame after the visit, the stealth traversal draws the four
    children that the visit drew. *)
Lemma stealth_traverse_unchanged_witness :
  FurtherRuns.stealth = Some (Runs.visit_node, FurtherRuns.stealth_events)
  /\ FurtherRuns.stealth
     = Some (Runs.visit_node,
             map Surface_accept (stealth_surfaces Further.stealthCuller Runs.visit_node)).
Proof.
  split; [reflexivity|].
  apply (proj2 (stealth_traverse_unchanged Further.stealthCuller Runs.visit_node eq_refl)
               1%nat); vm_compute; solve [lia | reflexivity].
Defined.

(** The root visited at frame 1 is not dormant at frame 4. *)
Lemma visited_tile_not_dormant_witness :
  Runs.visit = Some (Runs.visit_node, Runs.visit_events)
  /\ isDormant Runs.visit_node (Some (mkFrameStamp 4 (d_one IEEE))) = false.
Proof.
  assert (Hrun : Runs.visit = Some (Runs.visit_node, Runs.visit_events)) by reflexivity.
  split; [exact Hrun|].
  destruct (visited_tile_not_dormant 2 (Scenario.culler false None)
              (CreateExample.root false) Runs.visit_node Runs.visit_events
              eq_refl eq_refl Hrun) as (_ & _ & Hawake).
  apply Hawake. vm_compute. split; discriminate.
Defined.

(** The dirty root in progressive mode: drawn and loaded, without
    children. *)
Lemma progressive_waits_for_data_witness :
  FurtherRuns.progressive
  = Some ((FurtherRuns.progressive_node, true), FurtherRuns.progressive_events)
  /\ FurtherRuns.progressive_node = with_lastAcceptSurfaceFrame 1 Further.dirtyRoot.
Proof.
  assert (Hrun : FurtherRuns.progressive
                 = Some ((FurtherRuns.progressive_node, true),
                         FurtherRuns.progressive_events)) by reflexivity.
  split; [exact Hrun|].
  destruct (progressive_waits_for_data (fun _ => fail) Further.progressiveCuller
              Further.dirtyRoot FurtherRuns.progressive_node true
              FurtherRuns.progressive_events eq_refl eq_refl eq_refl Hrun)
    as [(Hvis & _)|(_ & Hnode & _)].
  - discriminate Hvis.
  - exact Hnode.
Defined.

(** With 20 LODs a tile at LOD 19 is not subdivided. *)
Lemma distance_mode_lod_limit_witness :
  shouldSubDivide (NM := IEEE) (Scenario.culler false None)
    (getSelectionInfo (CreateExample.context false)) (Further.tileAtLOD 19)
  = Some (false, []).
Proof.
  assert (Hn : 0 < 20 <= two32) by (vm_compute; split; [reflexivity|discriminate]).
  apply (proj1 (distance_mode_lod_limit (NM := IEEE) (Scenario.culler false None)
                  (Further.tileAtLOD 19) eq_refl Hn)).
  vm_compute. discriminate.
Defined.

(** The push of new data leaves the tree without its data as it was. *)
Lemma refresh_changes_data_only_witness :
  Runs.push = Some (Runs.push_node, Runs.push_events)
  /\ erase_data Runs.push_node = erase_data (Scenario.tree false)
  /\ tree_keys Runs.push_node = tree_keys (Scenario.tree (NM := IEEE) false).
Proof.
  assert (Hrun : Runs.push = Some (Runs.push_node, Runs.push_events)) by reflexivity.
  split; [exact Hrun|].
  destruct (refresh_changes_data_only (Scenario.parent false)
              (CreateExample.bindings false) (Scenario.tree false)
              Runs.push_node Runs.push_events Hrun) as (Herase & Hkeys & _).
  split; assumption.
Defined.

Lemma merge_changes_data_only_witness :
  Runs.merged = Some (Runs.merged_node, Runs.merged_events)
  /\ erase_data Runs.merged_node = erase_data (Scenario.tree false)
  /\ _childrenReady Runs.merged_node = _childrenReady (Scenario.tree (NM := IEEE) false).
Proof.
  assert (Hrun : Runs.merged = Some (Runs.merged_node, Runs.merged_events)) by reflexivity.
  split; [exact Hrun|].
  destruct (merge_changes_data_only Scenario.tileModel
              (CreateExample.bindings false) (Scenario.tree false)
              Runs.merged_node Runs.merged_events Hrun) as (Herase & _ & _ & _ & Hready).
  split; assumption.
Defined.

(** The model holds an elevation texture: the merge ends with the
    notification. *)
Lemma merge_notifies_new_elevation_witness :
  Runs.merged = Some (Runs.merged_node, Runs.merged_events)
  /\ exists evd,
       Runs.merged_events
       = evd ++ [OE_LOG DEBUG (NotifyMerge (TileKey.mk 0 0 0));
                 Terrain_notifyTileAdded (TileKey.mk 0 0 0)].
Proof.
  assert (Hrun : Runs.merged = Some (Runs.merged_node, Runs.merged_events)) by reflexivity.
  split; [exact Hrun|].
  destruct (merge_notifies_new_elevation Scenario.tileModel
              (CreateExample.bindings false) (Scenario.tree false)
              Runs.merged_node Runs.merged_events Hrun) as (evd & _ & Hev).
  exists evd. exact Hev.
Defined.

(** The pass of layer 8 is added after the pass of layer 7. *)
Lemma refresh_pass_layers_witness :
  FurtherRuns.layered = Some (FurtherRuns.layered_node, FurtherRuns.layered_events)
  /\ passUIDs (_renderModel FurtherRuns.layered_node) = [7; 8].
Proof.
  assert (Hrun : FurtherRuns.layered
                 = Some (FurtherRuns.layered_node, FurtherRuns.layered_events))
    by reflexivity.
  split; [exact Hrun|].
  destruct (refresh_pass_layers Scenario.parentWithLayer8
              (CreateExample.bindings false) (Scenario.ownData false)
              FurtherRuns.layered_node FurtherRuns.layered_events Hrun) as (Huids & _).
  rewrite Huids. reflexivity.
Defined.

Lemma merge_pass_layers_witness :
  Runs.merged = Some (Runs.merged_node, Runs.merged_events)
  /\ exists news,
       passUIDs (_renderModel Runs.merged_node)
       = passUIDs (_renderModel (Scenario.tree (NM := IEEE) false)) ++ news.
Proof.
  assert (Hrun : Runs.merged = Some (Runs.merged_node, Runs.merged_events)) by reflexivity.
  split; [exact Hrun|].
  destruct (merge_pass_layers Scenario.tileModel
              (CreateExample.bindings false) (Scenario.tree false)
              Runs.merged_node Runs.merged_events Hrun) as (_ & Hnews & _).
  exact Hnews.
Defined.

(** The elevation sampler of the child in quadrant 1 after the refresh. *)
Lemma refresh_shared_samplers_witness :
  FurtherRuns.refreshed = Some (FurtherRuns.refreshed_node, FurtherRuns.refreshed_events)
  /\ sampler_at (_sharedSamplers (_renderModel FurtherRuns.refreshed_node)) 2
     = if authoritative
            (sampler_at (_sharedSamplers (_renderModel FurtherRuns.child_node)) 2)
       then sampler_at (_sharedSamplers (_renderModel FurtherRuns.child_node)) 2
       else Sampler_preMult
              (scaleBias (TileKey.getQuadrant (_key FurtherRuns.child_node)))
              (sampler_at (_sharedSamplers (_renderModel (Scenario.parent false))) 2).
Proof.
  assert (Hrun : FurtherRuns.refreshed
                 = Some (FurtherRuns.refreshed_node, FurtherRuns.refreshed_events))
    by reflexivity.
  split; [exact Hrun|].
  destruct (refresh_shared_samplers (Scenario.parent false)
              (CreateExample.bindings false) FurtherRuns.child_node
              FurtherRuns.refreshed_node FurtherRuns.refreshed_events Hrun)
    as (_ & Hat).
  apply Hat. vm_compute. lia.
Defined.

(** The node that holds its own data is left as it is. *)
Lemma refresh_no_change_counted_witness :
  FurtherRuns.settled = Some ((FurtherRuns.settled_node, O), [])
  /\ FurtherRuns.settled_node = Scenario.ownData false.
Proof.
  assert (Hrun : FurtherRuns.settled = Some ((FurtherRuns.settled_node, O), []))
    by reflexivity.
  split; [exact Hrun|].
  destruct (refresh_no_change_counted (Scenario.parent false)
              (CreateExample.bindings false) (Scenario.ownData false)
              FurtherRuns.settled_node [] Hrun) as (Hnode & _).
  exact Hnode.
Defined.

(** The child in quadrant 1 inherits the elevation of the root, and again
    after the refresh. *)
Lemma new_data_reaches_child_witness :
  FurtherRuns.child = Some (FurtherRuns.child_node, FurtherRuns.child_events)
  /\ FurtherRuns.refreshed
     = Some (FurtherRuns.refreshed_node, FurtherRuns.refreshed_events)
  /\ sampler_at (_sharedSamplers (_renderModel FurtherRuns.refreshed_node)) 2
     = Sampler_preMult (scaleBias 1)
         (sampler_at (_sharedSamplers (_renderModel (Scenario.parent false))) 2).
Proof.
  assert (Hchild : FurtherRuns.child
                   = Some (FurtherRuns.child_node, FurtherRuns.child_events))
    by reflexivity.
  assert (Hrun : FurtherRuns.refreshed
                 = Some (FurtherRuns.refreshed_node, FurtherRuns.refreshed_events))
    by reflexivity.
  split; [exact Hchild|]. split; [exact Hrun|].
  assert (Hlen : (2 < length (_sharedSamplers
                                (_renderModel (CreateExample.root (NM := IEEE) false))))%nat)
    by (vm_compute; lia).
  assert (Hauth : authoritative
                    (sampler_at (_sharedSamplers
                                   (_renderModel (CreateExample.root (NM := IEEE) false))) 2)
                  = true) by (vm_compute; reflexivity).
  exact (proj2 (new_data_reaches_child (TileKey.mk 1 1 0) (CreateExample.context false)
                  (CreateExample.root false) (Scenario.parent false) TileNode_new
                  FurtherRuns.child_node FurtherRuns.refreshed_node
                  (CreateExample.bindings false) _ _ 2%nat
                  eq_refl Hchild Hrun Hlen Hauth)).
Defined.

(** High resolution first, 20 LODs, visibility range 2^20: the tile at
    LOD 10 at distance 1 comes before the tile at LOD 9. *)
Lemma lod_priority_dominates_witness :
  let far := PriorityExample.next_above_one in
  let range := PriorityExample.range_2_20 in
  let ctx := PriorityExample.context (NM := IEEE) range in
  let culler := PriorityExample.culler (NM := IEEE) range far in
  SFleb (load_priority ctx culler Further.tileC)
        (load_priority ctx culler PriorityExample.tileA) = true.
Proof.
  intros far range ctx culler.
  assert (Or : ok Binary.prec64 Binary.emax64
                 (_visibilityRange (visParameters (getSelectionInfo ctx) 0))).
  { change (ok Binary.prec64 Binary.emax64 (S754_finite false 4503599627370496 (-32))).
    split; [reflexivity|discriminate]. }
  assert (Hn : getNumLODs (getSelectionInfo ctx) < 2 ^ 24) by reflexivity.
  assert (Hla : 0 <= TileKey.getLOD (getKey (PriorityExample.tileA (NM := IEEE)))
                <= getNumLODs (getSelectionInfo ctx))
    by (change (0 <= 10 <= 20); lia).
  assert (Hlb : 0 <= TileKey.getLOD (getKey (Further.tileC (NM := IEEE)))
                <= getNumLODs (getSelectionInfo ctx))
    by (change (0 <= 9 <= 20); lia).
  assert (Oa : ok Binary.prec32 Binary.emax32
                 (getDistanceToViewPoint culler PriorityExample.tileA)).
  { change (ok Binary.prec32 Binary.emax32 (S754_finite false 8388608 (-23))).
    split; [reflexivity|discriminate]. }
  assert (Ob : ok Binary.prec32 Binary.emax32
                 (getDistanceToViewPoint culler Further.tileC)).
  { change (ok Binary.prec32 Binary.emax32 (S754_finite false 8388609 (-23))).
    split; [reflexivity|discriminate]. }
  assert (Hhrf : if highResolutionFirst (getOptions ctx)
                 then TileKey.getLOD (getKey (Further.tileC (NM := IEEE)))
                      < TileKey.getLOD (getKey (PriorityExample.tileA (NM := IEEE)))
                 else TileKey.getLOD (getKey (PriorityExample.tileA (NM := IEEE)))
                      < TileKey.getLOD (getKey (Further.tileC (NM := IEEE))))
    by reflexivity.
  exact (proj2 (lod_priority_dominates ctx culler PriorityExample.tileA Further.tileC
                  Or eq_refl eq_refl Hn Hla Hlb
                  (conj Oa (conj eq_refl eq_refl)) (conj Ob (conj eq_refl eq_refl)))
               Hhrf).
Defined.

(** The children of the root, loaded at once: the node is the one
    createChildren made, with the tile model merged into each child. *)
Lemma loadChildren_keeps_quadtree_witness :
  FurtherRuns.loaded = Some (FurtherRuns.loaded_node, FurtherRuns.loaded_events)
  /\ quadtree_ok FurtherRuns.loaded_node = true
  /\ _childrenReady FurtherRuns.loaded_node = true
  /\ length (_children FurtherRuns.loaded_node) = 4%nat
  /\ exists loads,
       Forall2 (fun child load => Further.loadSync child = Some load)
               (_children FurtherRuns.children_node) loads
       /\ FurtherRuns.loaded_node
          = with_children (map fst loads)
              (with_childrenReady true FurtherRuns.children_node)
       /\ FurtherRuns.loaded_events
          = FurtherRuns.children_events ++ concat (map snd loads).
Proof.
  assert (Hrun : FurtherRuns.loaded
                 = Some (FurtherRuns.loaded_node, FurtherRuns.loaded_events))
    by reflexivity.
  assert (Hchildren : FurtherRuns.children
                      = Some (FurtherRuns.children_node, FurtherRuns.children_events))
    by reflexivity.
  split; [exact Hrun|].
  assert (Hsync : forall (c c' : TileNode IEEE) e,
             Further.loadSync c = Some (c', e) ->
             quadtree_ok c = true -> quadtree_ok c' = true).
  { intros c c' e H. exact (merge_ok _ _ _ _ _ H). }
  destruct (loadChildren_keeps_quadtree Further.loadSync Hsync
              (CreateExample.root false)) as (_ & _ & Hcalls & Hkeeps).
  destruct (Hkeeps _ _ Hrun) as (Hok & Hready & Hlen); [vm_compute; reflexivity|].
  repeat (split; [assumption|]).
  destruct (Hcalls _ _ eq_refl Hrun) as (ctx & this1 & ev1 & loads & Hctx & Hcreate & Hall & Hnode & Hev).
  assert (Hc : Some (CreateExample.context (NM := IEEE) false) = Some ctx) by exact Hctx.
  injection Hc as <-.
  rewrite Hchildren in Hcreate. injection Hcreate as <- <-.
  exists loads. auto.
Defined.

(** With 20 LODs, 19 levels of recursion are enough below the root. *)
Lemma cull_traversal_returns_witness :
  exists this' ev,
    traverse 19 (CULL_VISITOR (Scenario.culler false None))
             (CreateExample.root (NM := IEEE) false) = Some (this', ev)
    /\ wellFormed this' = true /\ _key this' = TileKey.mk 0 0 0.
Proof.
  assert (Hn : 0 < 20 <= two32) by (vm_compute; split; [reflexivity|discriminate]).
  apply (cull_traversal_returns (NM := IEEE) (Scenario.culler false None)
           (CreateExample.root false) eq_refl eq_refl Hn).
  - vm_compute. reflexivity.
  - vm_compute. lia.
Defined.

(** The four children of the root, made and removed again. *)
Lemma createChildren_fresh_children_witness :
  FurtherRuns.children = Some (FurtherRuns.children_node, FurtherRuns.children_events)
  /\ removeSubTiles (with_childrenReady true FurtherRuns.children_node)
     = CreateExample.root false.
Proof.
  assert (Hrun : FurtherRuns.children
                 = Some (FurtherRuns.children_node, FurtherRuns.children_events))
    by reflexivity.
  split; [exact Hrun|].
  apply (proj2 (createChildren_fresh_children (CreateExample.context false)
                  (CreateExample.root false) FurtherRuns.children_node
                  FurtherRuns.children_events Hrun)); reflexivity.
Defined.

(** The root is still there after the visit. *)
Lemma traverse_keeps_tiles_witness :
  Runs.visit = Some (Runs.visit_node, Runs.visit_events)
  /\ In (TileKey.mk 0 0 0) (tree_keys Runs.visit_node).
Proof.
  assert (Hrun : Runs.visit = Some (Runs.visit_node, Runs.visit_events)) by reflexivity.
  split; [exact Hrun|].
  destruct (traverse_keeps_tiles 2 (CULL_VISITOR (Scenario.culler false None))
              (CreateExample.root false) Runs.visit_node Runs.visit_events Hrun)
    as (_ & Hkeeps).
  apply Hkeeps. vm_compute. left. reflexivity.
Defined.

(** A tile with both neighbours: the six operations are on its own image,
    texture 3. *)
Lemma updateNormalMap_writes_own_edges_witness :
  length (updateNormalMap Further.size Further.links (Further.normalTile (NM := IEEE) 3))
  = 6%nat
  /\ Forall (fun op => op = ImageDirty 3
                       \/ writesEastEdge Further.size 3 op
                       \/ writesSouthEdge Further.size 3 op)
       (updateNormalMap Further.size Further.links (Further.normalTile (NM := IEEE) 3)).
Proof.
  split; [vm_compute; reflexivity|].
  apply List.Forall_forall.
  apply (proj1 (updateNormalMap_writes_own_edges Further.size Further.links
                  (Further.normalTile (NM := IEEE) 3) 3
                  ltac:(vm_compute; reflexivity))).
Defined.

(** The tile drawn at frame 1 is drawn by the stealth traversal of
    frame 2. *)
Lemma stealth_draws_last_accepted_witness :
  FurtherRuns.far = Some ((FurtherRuns.far_node, true), FurtherRuns.far_events)
  /\ accept_cull_stealth (fun _ => fail) Further.stealthCuller FurtherRuns.far_node
     = Some ((FurtherRuns.far_node, false), [Surface_accept (TileKey.mk 1 0 0)]).
Proof.
  assert (Hrun : FurtherRuns.far
                 = Some ((FurtherRuns.far_node, true), FurtherRuns.far_events))
    by reflexivity.
  split; [exact Hrun|].
  assert (Hfar : shouldSubDivide (NM := IEEE) (Scenario.culler false None)
                    (getSelectionInfo (CreateExample.context false)) (Further.tileAtLOD 1)
                  = Some (false, [])) by reflexivity.
  destruct (stealth_draws_last_accepted (fun _ => fail) (Scenario.culler false None)
              (Further.tileAtLOD 1) FurtherRuns.far_node true FurtherRuns.far_events
              eq_refl Hfar Hrun) as (_ & _ & Hstealth).
  apply (Hstealth (fun _ => fail) Further.stealthCuller).
  vm_compute. reflexivity.
Defined.

(** The convergence test, color-parent binding active.  The merge of new
    data into the root changes the first child, which held its own data:
    its color-parent sampler follows the root's color.  Pushed again, the
    same data leaves the child as it is. *)
Lemma refresh_fixed_point_witness :
  let bindings := CreateExample.bindings true in
  Convergence.pushed = Some (Convergence.pushed_node, Convergence.pushed_events)
  /\ refreshInheritedData Convergence.pushed_node bindings Convergence.pushed_leaf
     = Some (Convergence.pushed_leaf,
             [Call_refreshInheritedData (_key Convergence.pushed_leaf)])
  /\ (forall here changes ev,
        refreshInheritedData_here Convergence.pushed_node bindings Convergence.leaf
        = Some ((here, changes), ev) -> (0 < changes)%nat)
  /\ (forall this' ev,
        refreshInheritedData Convergence.pushed_node bindings Convergence.leaf
        = Some (this', ev) ->
        getPass 7 (_renderModel this')
        = Some (mkPass 7 [ mkSampler (Some (CreateExample.T 5)) Matrixf.identity;
                           mkSampler (Some (CreateExample.T 2))
                                     (Matrixf.preMult Matrixf.identity (scaleBias 0)) ])).
Proof.
  intros bindings.
  assert (Hrun : Convergence.pushed
                 = Some (Convergence.pushed_node, Convergence.pushed_events))
    by reflexivity.
  split; [exact Hrun|].
  destruct (refresh_fixed_point Convergence.pushed_node bindings Convergence.pushed_leaf)
    as (Hfixed & _).
  destruct (refresh_fixed_point Convergence.pushed_node bindings Convergence.leaf)
    as (_ & Hchanged & _ & Hpass).
  split; [|split].
  - apply Hfixed. vm_compute. reflexivity.
  - apply Hchanged. vm_compute. reflexivity.
  - intros this' ev Hthis.
    assert (Hnd : NoDup (map sourceUID (_passes (_renderModel Convergence.pushed_node)))).
    { vm_compute. apply NoDup_cons. split; [apply not_elem_of_nil|apply NoDup_nil_2]. }
    apply (Hpass Hnd this' ev
             (mkPass 7 [ mkSampler (Some (CreateExample.T 2)) Matrixf.identity;
                         mkSampler (Some (CreateExample.T 2)) Matrixf.identity ])
             Hthis).
    left. reflexivity.
Defined.

(** A leaf that create, loadChildren and merge made, all of whose
    samplers hold a texture with the identity, is changed when new data of
    its parent is pushed: with the color-parent binding active one change
    is counted, and the color-parent sampler, which held texture 5, holds
    the parent's texture 2 afterwards.  With the color-parent binding not
    active the merged leaf never holds its own data in every sampler, merge
    leaving the color-parent sampler without a texture, and the push counts
    a change as well. *)
Lemma refresh_changes_own_data :
  let textures (this : TileNode IEEE) :=
    match getPass 7 (_renderModel this) with
    | Some pass => map (fun s => option_map textureId (_texture s)) (samplers pass)
    | None => []
    end in
  let pushedTo parent bindings leaf :=
    option_map (fun r => (textures (fst (fst r)), snd (fst r)))
               (refreshInheritedData_here parent bindings leaf) in
  all_authoritative Convergence.leaf = true
  /\ textures Convergence.leaf = [Some 5; Some 5]
  /\ pushedTo Convergence.pushed_node (CreateExample.bindings true) Convergence.leaf
     = Some ([Some 5; Some 2], 1%nat)
  /\ textures (nth 0 (_children Convergence.pushed_node) TileNode_new) = [Some 5; Some 2]
  /\ all_authoritative ConvergencePlain.leaf = false
  /\ textures ConvergencePlain.leaf = [Some 5; None]
  /\ pushedTo ConvergencePlain.pushed_node (CreateExample.bindings false)
              ConvergencePlain.leaf
     = Some ([Some 5; None], 1%nat).
Proof. vm_compute. repeat split. Qed.
